(* ===== verification/_CoqProject ===== *)
-Q . S2P
Prelude.v
RustStr.v
Types.v
Dependency.v
CommandLine.v
Seccomp.v
Effects.v
Launch.v
Descriptors.v
Sandbox.v
SandboxWorld.v
SandboxGuard.v
SandboxUser.v
Os.v
IpFilter.v
Cgroup.v
Notify.v
SocketActivation.v
Parser.v
Helpers.v
Stop.v
Spawn.v
Monitor.v
Start.v
Timer.v
Catalog.v
Manager.v
Signals.v
Control.v
KillSafety.v
Dhcp.v
DhcpClient.v
Dhcp6.v
Dhcp6Client.v
Login.v
LoginPower.v
Utmp.v
LoginControl.v
LoginInv.v
LoginAccess.v
LoginInhibit.v
LoginLocks.v
Sha256.v
RamCmdline.v
Ramdisk.v
RamVerity.v
RamTpm.v
RamRoot.v
RamBoot.v
RamOnly.v
RamGuard.v
RamMeasure.v
RamWait.v
