(* ===== verification/Prelude.v ===== *)
(** * Quantra: a model of the PID 1 service core

    Quantra is an init system: [quantra/] is PID 1, which loads service definitions,
    starts the services in dependency order, supervises, restarts and stops them, runs
    timers and answers a control socket; [quantra-net/], [quantra-logind/] and
    [quantra-ramfs/] are the network daemon, the login daemon and the initial ramdisk.
    This library models the core of PID 1, the DHCP clients, the login daemon and the boot of
    the initial ramdisk, and states what makes them correct.

    ** The files

    Shared:
    - [Prelude]: [Result], machine integers with their overflow behaviour, tactics.
    - [RustStr]: the parts of Rust's [str] that the sources use: [trim], [split],
      [lines], [parse::<u64>] and the like.
    - [Effects]: effectful code as trees of operations ([prog]), the total weakest
      precondition [wp] over a step relation, the rules of the loops.
    - [Os]: the operations of the supervisor side and the worlds they act on (a clock,
      a file system that stays as it is, a set of open descriptors).

    Service definitions:
    - [Types] ([services/types.rs]): the data model with serde's defaults, resource
      limits, cgroup settings, the memory limit parser.
    - [Parser] ([services/parser.rs]): validation of a definition, the directory scan.
    - [Catalog] ([services/manager.rs], [environment.rs], [config.rs]): the built-in
      services, conditional dependencies, validation of the whole set.
    - [Dependency] ([services/dependency.rs]): Kahn's algorithm in waves.

    Starting a process ([process.rs], [services/cgroup.rs], [security/apparmor.rs]):
    - [CommandLine]: splitting a command line and finding the program.
    - [Seccomp]: capability names, profiles and BPF programs, with an interpreter.
    - [Launch]: the forked child, from [setsid] to [execvpe].
    - [Descriptors]: the child's descriptors and what the seccomp filter lets it do.
    - [Sandbox] ([sandbox.rs]): what the child hides and protects before it executes the
      service, the directories and the dynamic user that the parent prepares;
      [SandboxWorld]: the mount namespace it acts on; [SandboxGuard], [SandboxUser]: the
      protections that are in force afterwards, and those that never are.
    - [IpFilter]: CIDR ranges and the cgroup filter program.
    - [Cgroup]: the slice of a service.

    Supervision ([services/supervisor.rs], [notify.rs], [socket_activation.rs]):
    - [Notify], [SocketActivation], [Helpers]: readiness datagrams, listening sockets
      and the accept loop, waiting, credentials, health checks.
    - [Spawn]: what a service is started with; [Start], [Stop], [Monitor]: the three
      operations of a supervisor, [start], [stop] and the restart monitor.
    - [Timer] ([services/timer.rs]): calendar schedules and the threads that keep them.
    - [Manager] ([services/manager.rs]): the boot, which interleaves the operations of
      parallel start threads, and the calls that change the manager afterwards.

    Talking to PID 1:
    - [Signals] ([signals.rs], [shutdown.rs]): the handlers, the reaper thread and the
      shutdown watcher, as steps that interleave with the kernel and other threads.
    - [Control] ([control.rs]): the framing, the check of the peer and every command, run
      on the manager behind its lock; [KillSafety]: what the commands may signal.

    The network daemon ([quantra-net/quantra-netd/src/]):
    - [Dhcp] ([dhcp.rs]): the packets of the client and the parser of the replies;
      [DhcpClient]: the handshake, acquiring, renewing and releasing a lease, [resolv.conf].
    - [Dhcp6], [Dhcp6Client] ([ipv6.rs]): the same for DHCPv6, and the addresses that the
      kernel configures itself.

    The login daemon ([quantra-logind/src/]), whose connections and timers are threads on
    tables that each have a lock ([LogOp] has an operation for taking and one for giving back
    a lock, with the data behind it):
    - [Login] ([types.rs], [session.rs], [seat.rs], [user.rs], [inhibitor.rs]): the data and
      the operations of the four managers, and the clean-up after a logout.
    - [LoginPower] ([power.rs]): power actions, brightness, ACPI events, the idle timer;
      [LoginInhibit]: what an action does under the inhibitors that are held.
    - [Utmp] ([utmp.rs]): the login records, byte by byte.
    - [LoginControl] ([control.rs]): every request, the events, the connection of a client.
    - [LoginInv], [LoginAccess], [LoginLocks]: the invariant of the tables, what a client
      that is not root can reach, and the order of the locks.

    The initial ramdisk ([quantra-ramfs/src/]):
    - [Sha256] ([measured_boot.rs]): the hash function, and FIPS 180-4 on bits.
    - [RamCmdline] ([cmdline.rs], [verity.rs]): the kernel's command line and the root hash.
    - [Ramdisk]: the operations of the ramdisk ([RamOp]), those of [Os] among them.
    - [RamVerity] ([verity.rs]): the device-mapper requests; [RamTpm] ([measured_boot.rs],
      [tpm2.rs], [phases.rs]): measurements and the unsealing of the disk key; [RamRoot]
      ([mounts.rs], [rootfs.rs], [fsck.rs]): finding, unlocking, checking and mounting the
      root; [RamBoot] ([overlay.rs], [switch.rs], [main.rs]): the overlay, the search for
      init, the switch of the root and [main] as a sequence of phases, each of which can end
      the boot in the emergency shell.
    - [RamOnly]: which programs touch the TPM, a mount point or init; [RamGuard], [RamMeasure],
      [RamWait]: the theorems about the boot.

    ** How code is modelled

    Pure code is a function with the name of the source.  Code that talks to the system
    is a [prog Os]; the operations are the system calls and library calls of the source,
    and the answers are quantified over in the theorems: a world ([clock_step],
    [leak_step], [StopWorld] and the like) says only what the theorem needs of them.  A
    panic is [None] or [Panicked].  A loop has fuel; theorems about loops that the code
    bounds by a deadline say how much fuel is enough (the timeout divided by the poll
    interval, plus one; for the datagrams of DHCP, by the time a datagram takes) and that
    with it the loop ends ([Helpers.waits_are_bounded], [Start.start_refines],
    [Stop.stop_protocol], [DhcpClient.handshake_follows_protocol],
    [LoginInhibit.power_command_respects_inhibitors]); the wait for a passphrase has fuel for the
    bytes that are typed, the commands to the TPM for their bytes; a thread that runs for ever is modelled by a number of turns.
    Logging is left out.  The TOML and JSON serializers, the system call numbers of the
    [libc] crate, AppArmor's answers, the hash order of [HashMap] beyond its being some order,
    and [oxidized_environment] are parameters.  A [HashMap] is a [gmap]; where the code
    iterates over one, the order is the [gmap]'s.

    ** What is shown

    - The waves are a permutation of the services, respect every dependency, are as
      early as possible, and exist exactly when the dependencies are acyclic
      ([Dependency]); booting in parallel threads keeps to them however the threads
      interleave ([Manager.boot_respects_dependencies]).
    - [start] refines a specification of its outcomes and leaks no descriptor but the
      log pipe ([Start]); [stop] ends, asks before it forces, and forces only after the
      grace time ([Stop]); the monitor restarts only as policy, delay and crash limit
      allow ([Monitor]).
    - The child carries out its configuration in order or does not reach [exec]
      ([Launch], [Descriptors]); the seccomp programs do what the lists say ([Seccomp]).
    - The sandbox stays out of the host's mounts, and what it protects is in force at the
      end unless something configured later covers it ([SandboxGuard]); a service with a
      user of its own gets none of it ([SandboxUser]).
    - Parsers and formats: memory limits, command lines, environment files, CIDR
      ranges, calendar schedules against a reference search ([Timer.until_next_exact]).
    - Every child is reaped ([Signals]); only root gets anything done on the control
      socket, every command keeps the manager in order and signals single processes only
      ([Control], [KillSafety]).
    - The DHCP and DHCPv6 handshakes follow their protocols whatever arrives; replies are
      parsed back ([DhcpClient], [Dhcp], [Dhcp6Client], [Dhcp6]).
    - The login daemon: every request keeps the tables consistent ([LoginInv]); a client that
      is not root reaches no device, reboot or other user's session ([LoginAccess]); requests
      never wait for each other for ever, while an ACPI event and a request can, and a
      subscriber stops every event ([LoginLocks]); blocked power actions do nothing
      ([LoginInhibit]); login records are found again ([Utmp]).
    - The initial ramdisk: the hash function is SHA-256 ([Sha256]); the command line means
      what its table says ([RamCmdline]); under dm-verity only what is checked against the
      root hash is mounted as the root ([RamGuard]); PCR 8 holds the chain of exactly the
      measurements when init is executed ([RamMeasure]); a root device is waited for as long
      as asked, and encrypted and network roots are never mounted ([RamWait]).
    - Bounds: crash limit, accept rate, health check threshold, waiting times.

    ** Not modelled

    The forwarding of log bytes, the D-Bus server, the console helpers of [process.rs],
    the installation of the signal handlers; in [quantra/]: mount units, journal,
    core dumps, time synchronisation and the other boot helpers; of the network daemon
    everything but DHCP and SLAAC; of the login daemon the D-Bus bridge, the host name, locale and time
    helpers and the input events; of the initial ramdisk the helpers that the boot calls (udev,
    RAID, network boot, splash), which are operations, and the emergency shell.  The manifest
    lists each with its state. *)

From Stdlib Require Import ZArith.
From stdpp Require Import base tactics numbers list strings gmap pretty.
From coqutil Require Datatypes.RecordSetters.

(** ** Fallible computations

    [Result E A] is Rust's [Result<A, E>].  Error values are the texts that the
    code builds with [anyhow!]/[format!]. *)
Inductive result (E A : Type) : Type :=
| Ok (a : A)
| Err (e : E).
Arguments Ok {E A} a.
Arguments Err {E A} e.

#[export] Instance result_eq_dec {E A} `{EqDecision E, EqDecision A} : EqDecision (result E A).
Proof. solve_decision. Defined.

Definition result_bind {E A B} (r : result E A) (k : A → result E B) : result E B :=
  match r with
  | Ok a => k a
  | Err e => Err e
  end.

Definition is_ok {E A} (r : result E A) : bool :=
  match r with Ok _ => true | Err _ => false end.

Definition map_err {E F A} (f : E → F) (r : result E A) : result F A :=
  match r with
  | Ok a => Ok a
  | Err e => Err (f e)
  end.

(** [Option::ok_or_else]. *)
Definition ok_or {E A} (e : E) (o : option A) : result E A :=
  match o with
  | Some a => Ok a
  | None => Err e
  end.

(** [Vec::is_empty]. *)
Definition is_nil {A} (l : list A) : bool :=
  match l with [] => true | _ => false end.

Declare Scope quantra_scope.
Delimit Scope quantra_scope with quantra.

Notation "'let?' x ':=' c 'in' k" := (result_bind c (λ x, k))
  (at level 200, x pattern, c at level 100, k at level 200, right associativity)
  : quantra_scope.

(** The panic of a checked arithmetic operation, [unwrap], or [unreachable!]
    is the [None] of an [option]. *)

(** Replacing a field of a record. *)
Notation "x '<|' f ':=' v '|>'" :=
  (RecordSetters.apply_update (RecordSetters.mk_update f (RecordSetters.constant v)) x)
  (at level 8, left associativity, f at level 9, v at level 200,
   format "x '<|'  f  ':='  v  '|>'").

(** ** Machine integers

    A [u8]/[u16]/[u32]/[u64] is a [Z] in range; the operations below write the
    width out.  [overflow_checks] is the compilation flag of the same name. *)
Definition u8_max : Z := 255.
Definition u16_max : Z := 65535.
Definition u32_max : Z := 4294967295.
Definition u64_max : Z := 18446744073709551615.
Definition i32_max : Z := 2147483647.

Definition wrap_u64 (z : Z) : Z := (z mod 18446744073709551616)%Z.
Definition wrap_u32 (z : Z) : Z := (z mod 4294967296)%Z.
Definition wrap_u16 (z : Z) : Z := (z mod 65536)%Z.
Definition wrap_u8 (z : Z) : Z := (z mod 256)%Z.

Definition wrap_i32 (z : Z) : Z :=
  ((z + 2147483648) mod 4294967296 - 2147483648)%Z.

Definition in_u64 (z : Z) : bool := (0 <=? z)%Z && (z <=? u64_max)%Z.
Definition in_u32 (z : Z) : bool := (0 <=? z)%Z && (z <=? u32_max)%Z.

(** An arithmetic result that must fit [u64]: with the checks on, leaving the
    range panics; with them off, it wraps. *)
Definition arith_u64 (overflow_checks : bool) (z : Z) : option Z :=
  if in_u64 z then Some z
  else if overflow_checks then None
  else Some (wrap_u64 z).

Definition arith_u32 (overflow_checks : bool) (z : Z) : option Z :=
  if in_u32 z then Some z
  else if overflow_checks then None
  else Some (wrap_u32 z).

(** [u64::saturating_mul] and [u64::saturating_sub]. *)
Definition saturating_mul_u64 (a b : Z) : Z := Z.min (a * b) u64_max.
Definition saturating_sub_u64 (a b : Z) : Z := Z.max (a - b) 0.

(** ** Bytes *)

Section bytes.
Local Open Scope Z_scope.

(** [from_le_bytes] on a buffer of [n] bytes: zeros where the bytes are missing. *)
Fixpoint from_le_bytes (n : nat) (bytes : list Z) : Z :=
  match n with
  | O => 0
  | S n =>
      match bytes with
      | [] => 0
      | b :: bytes => b + 256 * from_le_bytes n bytes
      end
  end.

(** [u32::to_le_bytes]. *)
Definition to_le_bytes (len : Z) : list Z :=
  [len mod 256; len / 256 mod 256; len / 65536 mod 256; len / 16777216 mod 256].

Lemma to_le_bytes_from len : 0 ≤ len < 4294967296 → from_le_bytes 4 (to_le_bytes len) = len.
Proof.
  intros H. unfold to_le_bytes. cbn [from_le_bytes].
  change 65536 with (256 * 256). change 16777216 with (256 * 256 * 256).
  rewrite <- !Z.div_div by lia. 
  rewrite (Z.mod_small (len / 256 / 256 / 256)).
  - pose proof (Z.div_mod len 256). pose proof (Z.div_mod (len / 256) 256).
    pose proof (Z.div_mod (len / 256 / 256) 256). lia.
  - rewrite !Z.div_div by lia. split; [apply Z.div_pos; lia|apply Z.div_lt_upper_bound; lia].
Qed.

End bytes.

(** ** Tactics *)
Ltac destruct_matches :=
  repeat match goal with
  | |- context [match ?x with _ => _ end] => destruct x eqn:?; simplify_eq/=
  end.

Ltac destruct_matches_in H :=
  repeat match type of H with
  | context [match ?x with _ => _ end] => destruct x eqn:?; simplify_eq/=
  end.

(** Turns boolean comparisons in the context into propositions. *)
Ltac bool_to_prop :=
  repeat match goal with
  | H : _ && _ = true |- _ => apply andb_true_iff in H as [? ?]
  | H : _ || _ = false |- _ => apply orb_false_iff in H as [? ?]
  | H : negb _ = true |- _ => apply negb_true_iff in H
  | H : negb _ = false |- _ => apply negb_false_iff in H
  | H : (_ <=? _)%Z = true |- _ => apply Z.leb_le in H
  | H : (_ <=? _)%Z = false |- _ => apply Z.leb_gt in H
  | H : (_ <? _)%Z = true |- _ => apply Z.ltb_lt in H
  | H : (_ <? _)%Z = false |- _ => apply Z.ltb_ge in H
  | H : (_ =? _)%Z = true |- _ => apply Z.eqb_eq in H
  | H : (_ =? _)%Z = false |- _ => apply Z.eqb_neq in H
  | H : bool_decide _ = true |- _ => apply bool_decide_eq_true in H
  | H : bool_decide _ = false |- _ => apply bool_decide_eq_false in H
  end.

(** ** Generic lemmas *)
Lemma result_bind_Ok {E A B} (r : result E A) (k : A → result E B) b :
  result_bind r k = Ok b ↔ ∃ a, r = Ok a ∧ k a = Ok b.
Proof. destruct r; naive_solver. Qed.

Lemma result_bind_Err {E A B} (r : result E A) (k : A → result E B) e :
  result_bind r k = Err e ↔ r = Err e ∨ ∃ a, r = Ok a ∧ k a = Err e.
Proof. destruct r; naive_solver. Qed.

Lemma in_u64_spec z : in_u64 z = true ↔ (0 ≤ z ≤ u64_max)%Z.
Proof. unfold in_u64. rewrite andb_true_iff, !Z.leb_le. done. Qed.

Lemma arith_u64_fits oc z : (0 ≤ z ≤ u64_max)%Z → arith_u64 oc z = Some z.
Proof. intros H. unfold arith_u64. apply in_u64_spec in H. by rewrite H. Qed.

Lemma wrap_u64_small z : (0 ≤ z ≤ u64_max)%Z → wrap_u64 z = z.
Proof. unfold wrap_u64, u64_max. intros. apply Z.mod_small. lia. Qed.

Lemma forallb_ext {A} (f g : A → bool) l : (∀ x, f x = g x) → forallb f l = forallb g l.
Proof. intros H. induction l as [|x l IH]; simpl; [done|]. by rewrite H, IH. Qed.

Create HintDb quantra.
#[export] Hint Resolve arith_u64_fits wrap_u64_small : quantra.
#[export] Hint Rewrite @result_bind_Ok @result_bind_Err : quantra.
