(* ===== verification/RustStr.v ===== *)
(** * Strings and number parsing of the Rust standard library

    The part of [str], [String] and [FromStr] that the program uses, on ASCII
    texts: a [string] holds one character per [ascii], and the Unicode-aware
    predicates ([trim], [is_alphanumeric], [is_whitespace], [split_whitespace])
    are those functions restricted to 7-bit characters. *)

From Stdlib Require Import ZArith Ascii.
From stdpp Require Import base tactics numbers list strings pretty.
From S2P Require Import Prelude.

Local Open Scope string_scope.
Local Open Scope list_scope.

(** stdpp seals [append] for [simpl]; the proofs here unfold it on a constructor. *)
#[global] Arguments String.append !_ _ / : simpl nomatch.

Definition nat_of_char (c : ascii) : nat := nat_of_ascii c.

(** ** Characters *)

(** [char::is_whitespace]. *)
Definition is_whitespace (c : ascii) : bool :=
  let n := nat_of_ascii c in ((9 <=? n) && (n <=? 13) || (n =? 32))%nat.

Definition is_ascii_digit (c : ascii) : bool :=
  let n := nat_of_ascii c in ((48 <=? n) && (n <=? 57))%nat.

Definition is_ascii_upper (c : ascii) : bool :=
  let n := nat_of_ascii c in ((65 <=? n) && (n <=? 90))%nat.

Definition is_ascii_lower (c : ascii) : bool :=
  let n := nat_of_ascii c in ((97 <=? n) && (n <=? 122))%nat.

Definition is_ascii_alphabetic (c : ascii) : bool :=
  is_ascii_upper c || is_ascii_lower c.

(** [char::is_alphanumeric]. *)
Definition is_alphanumeric (c : ascii) : bool :=
  is_ascii_alphabetic c || is_ascii_digit c.

Definition to_upper (c : ascii) : ascii :=
  if is_ascii_lower c then ascii_of_nat (nat_of_ascii c - 32) else c.

Definition to_lower (c : ascii) : ascii :=
  if is_ascii_upper c then ascii_of_nat (nat_of_ascii c + 32) else c.

(** ** Whole strings *)

Fixpoint str_map (f : ascii → ascii) (s : string) : string :=
  match s with
  | EmptyString => EmptyString
  | String c s => String (f c) (str_map f s)
  end.

(** [s.chars().all(p)] and [s.chars().any(p)]. *)
Fixpoint str_forall (p : ascii → bool) (s : string) : bool :=
  match s with
  | EmptyString => true
  | String c s => p c && str_forall p s
  end.

Fixpoint str_exists (p : ascii → bool) (s : string) : bool :=
  match s with
  | EmptyString => false
  | String c s => p c || str_exists p s
  end.

Definition is_empty (s : string) : bool :=
  match s with EmptyString => true | String _ _ => false end.

Definition to_ascii_uppercase : string → string := str_map to_upper.
Definition to_ascii_lowercase : string → string := str_map to_lower.

(** [trim_start_matches] and [trim_end_matches] with a character predicate. *)
Fixpoint trim_start_by (p : ascii → bool) (s : string) : string :=
  match s with
  | EmptyString => EmptyString
  | String c s' => if p c then trim_start_by p s' else s
  end.

Fixpoint trim_end_by (p : ascii → bool) (s : string) : string :=
  match s with
  | EmptyString => EmptyString
  | String c s' =>
      let t := trim_end_by p s' in
      if is_empty t && p c then EmptyString else String c t
  end.

Definition trim_by (p : ascii → bool) (s : string) : string :=
  trim_end_by p (trim_start_by p s).

(** [str::trim]. *)
Definition trim (s : string) : string := trim_by is_whitespace s.

(** [str::strip_prefix], [str::starts_with], [str::strip_suffix]. *)
Fixpoint strip_prefix (p s : string) : option string :=
  match p, s with
  | EmptyString, _ => Some s
  | String a p', String b s' => if Ascii.eqb a b then strip_prefix p' s' else None
  | String _ _, EmptyString => None
  end.

Definition starts_with (p s : string) : bool :=
  match strip_prefix p s with Some _ => true | None => false end.

Fixpoint strip_suffix (p s : string) : option string :=
  if String.eqb p s then Some EmptyString
  else match s with
  | EmptyString => None
  | String c s' =>
      match strip_suffix p s' with
      | Some t => Some (String c t)
      | None => None
      end
  end.

(** [str::contains] with a string pattern. *)
Fixpoint contains (p s : string) : bool :=
  starts_with p s ||
  match s with
  | EmptyString => false
  | String _ s' => contains p s'
  end.

(** [str::trim_start_matches(p)] for a non-empty text [p]; the fuel is the
    length of the text, which every removal shortens. *)
Fixpoint trim_start_matches_fuel (fuel : nat) (p s : string) : string :=
  match fuel with
  | O => s
  | S fuel =>
      match strip_prefix p s with
      | Some s' => trim_start_matches_fuel fuel p s'
      | None => s
      end
  end.

Definition trim_start_matches (p s : string) : string :=
  trim_start_matches_fuel (String.length s) p s.

(** ** Splitting *)

(** [str::split_once] at a character. *)
Fixpoint split_once (c : ascii) (s : string) : option (string * string) :=
  match s with
  | EmptyString => None
  | String a s' =>
      if Ascii.eqb a c then Some (EmptyString, s')
      else match split_once c s' with
      | Some (l, r) => Some (String a l, r)
      | None => None
      end
  end.

(** [str::splitn(n, c)], collected. *)
Fixpoint splitn (n : nat) (c : ascii) (s : string) : list string :=
  match n with
  | O => []
  | S O => [s]
  | S n =>
      match split_once c s with
      | Some (l, r) => l :: splitn n c r
      | None => [s]
      end
  end.

(** [str::split(c)], collected: one more part than separators. *)
Fixpoint split (c : ascii) (s : string) : list string :=
  match s with
  | EmptyString => [EmptyString]
  | String a s' =>
      if Ascii.eqb a c then EmptyString :: split c s'
      else match split c s' with
      | w :: ws => String a w :: ws
      | [] => [String a EmptyString]
      end
  end.

(** A double quote, as a text. *)
Definition dquote : string := String (Ascii.ascii_of_nat 34) EmptyString.

Definition newline : ascii := Ascii.ascii_of_nat 10.
Definition carriage_return : ascii := Ascii.ascii_of_nat 13.

Definition drop_last_cr (s : string) : string :=
  match strip_suffix (String carriage_return EmptyString) s with
  | Some t => t
  | None => s
  end.

(** A trailing empty part is not a line. *)
Fixpoint drop_trailing_empty (l : list string) : list string :=
  match l with
  | [] => []
  | [w] => if is_empty w then [] else [w]
  | w :: ws => w :: drop_trailing_empty ws
  end.

(** [str::lines], collected.  [\r] is removed only before a [\n]; the last,
    unterminated part keeps it. *)
Fixpoint strip_crs (l : list string) : list string :=
  match l with
  | [] => []
  | [w] => [w]
  | w :: ws => drop_last_cr w :: strip_crs ws
  end.

Definition lines (s : string) : list string :=
  drop_trailing_empty (strip_crs (split newline s)).

(** [str::split_whitespace], collected: the maximal runs of other characters. *)
Fixpoint split_whitespace_from (cur : string) (s : string) : list string :=
  match s with
  | EmptyString => if is_empty cur then [] else [cur]
  | String c s' =>
      if is_whitespace c
      then (if is_empty cur then [] else [cur]) ++ split_whitespace_from EmptyString s'
      else split_whitespace_from (cur +:+ String c EmptyString) s'
  end.

Definition split_whitespace (s : string) : list string :=
  split_whitespace_from EmptyString s.

(** [s.split_at(s.len() - 1)]: everything but the last character, and it. *)
Fixpoint split_last (s : string) : option (string * ascii) :=
  match s with
  | EmptyString => None
  | String c s' =>
      match split_last s' with
      | Some (l, x) => Some (String c l, x)
      | None => Some (EmptyString, c)
      end
  end.

(** [[T]::join]. *)
Definition join (sep : string) (l : list string) : string := String.concat sep l.

(** ** Paths *)

(** [Path::file_name]: the last component; none for the root, [.] and [..]. *)
Definition file_name (path : string) : option string :=
  match last (filter (λ w, w ≠ "" ∧ w ≠ ".") (split "/" path)) with
  | Some w => if String.eqb w ".." then None else Some w
  | None => None
  end.

(** [Path::extension]: after the last dot of the file name, unless that is its first
    character. *)
Definition extension (path : string) : option string :=
  match file_name path with
  | Some name =>
      match rev (split "." name) with
      | _ :: [] | [_; ""] => None
      | ext :: _ => Some ext
      | [] => None
      end
  | None => None
  end.

(** [Path::join]: an absolute second path replaces the first. *)
Definition path_join (dir name : string) : string :=
  if starts_with "/" name then name else dir +:+ "/" +:+ name.

(** ** Numbers *)

Definition digit_value (c : ascii) : option Z :=
  if is_ascii_digit c then Some (Z.of_nat (nat_of_ascii c) - 48)%Z else None.

(** The digit loop of [from_str_radix(_, 10)] with its overflow check. *)
Fixpoint parse_digits (max acc : Z) (s : string) : option Z :=
  match s with
  | EmptyString => Some acc
  | String c s' =>
      match digit_value c with
      | Some d =>
          let acc' := (acc * 10 + d)%Z in
          if (acc' <=? max)%Z then parse_digits max acc' s' else None
      | None => None
      end
  end.

(** [s.parse::<uN>()] for an unsigned type whose greatest value is [max]. *)
Definition parse_uint (max : Z) (s : string) : option Z :=
  match s with
  | EmptyString => None
  | String "+" EmptyString => None
  | String "+" s' => parse_digits max 0 s'
  | _ => parse_digits max 0 s
  end.

(** [s.parse::<i32>()]. *)
Definition parse_i32 (s : string) : option Z :=
  match s with
  | EmptyString => None
  | String "+" EmptyString | String "-" EmptyString => None
  | String "+" s' => parse_digits i32_max 0 s'
  | String "-" s' => match parse_digits (i32_max + 1) 0 s' with
                     | Some z => Some (- z)%Z
                     | None => None
                     end
  | _ => parse_digits i32_max 0 s
  end.

(** [to_string] of an unsigned integer: decimal, no leading zero. *)
Definition show_uint (z : Z) : string := pretty (Z.to_N z).

(** [Display] of a signed integer. *)
Definition show_int (z : Z) : string :=
  if (z <? 0)%Z then "-" +:+ show_uint (- z) else show_uint z.

Definition show_nat (n : nat) : string := pretty (N.of_nat n).

(** [str::as_bytes]. *)
Definition str_bytes (s : string) : list Z := (Z.of_nat ∘ nat_of_ascii) <$> String.list_ascii_of_string s.

(** [str::ends_with], and [str::trim_end_matches(p)] with the fuel as above. *)
Definition ends_with (p s : string) : bool :=
  match strip_suffix p s with Some _ => true | None => false end.

Fixpoint trim_end_matches_fuel (fuel : nat) (p s : string) : string :=
  match fuel with
  | O => s
  | S fuel =>
      match strip_suffix p s with
      | Some s' => trim_end_matches_fuel fuel p s'
      | None => s
      end
  end.

Definition trim_end_matches (p s : string) : string :=
  trim_end_matches_fuel (String.length s) p s.

(** ** Lemmas *)

Lemma string_app_nil_r s : s +:+ "" = s.
Proof. induction s; simpl; [done | by f_equal]. Qed.

Lemma string_app_assoc (a b c : string) : a +:+ (b +:+ c) = (a +:+ b) +:+ c.
Proof. induction a; simpl; [done | by f_equal]. Qed.

Lemma str_forall_app p a b :
  str_forall p (a +:+ b) = str_forall p a && str_forall p b.
Proof. induction a; simpl; [done | rewrite IHa; by rewrite andb_assoc]. Qed.

Lemma str_map_id f s : str_forall (λ c, Ascii.eqb (f c) c) s = true → str_map f s = s.
Proof.
  induction s as [|c s IH]; simpl; [done|].
  intros [Hc Hs]%andb_true_iff. apply Ascii.eqb_eq in Hc. rewrite Hc. f_equal. by apply IH.
Qed.

Lemma str_forall_impl (p q : ascii → bool) s :
  (∀ c, p c = true → q c = true) → str_forall p s = true → str_forall q s = true.
Proof.
  intros Hpq. induction s as [|c s IH]; simpl; [done|].
  intros [Hc Hs]%andb_true_iff. rewrite (Hpq c Hc). by apply IH.
Qed.

Lemma strip_prefix_cons a p b s :
  strip_prefix (String a p) (String b s) = if Ascii.eqb a b then strip_prefix p s else None.
Proof. reflexivity. Qed.

Lemma strip_prefix_app p s : strip_prefix p (p +:+ s) = Some s.
Proof. induction p as [|c p IH]; simpl; [done|]. by rewrite Ascii.eqb_refl. Qed.

Lemma strip_prefix_Some p s t : strip_prefix p s = Some t ↔ s = p +:+ t.
Proof.
  revert s. induction p as [|a p IH]; intros s; simpl; [naive_solver|].
  destruct s as [|b s]; [naive_solver|].
  destruct (Ascii.eqb_spec a b) as [->|Hne]; [rewrite IH|]; naive_solver.
Qed.


Lemma split_once_Some c s l r :
  split_once c s = Some (l, r) → s = l +:+ String c r.
Proof.
  revert l r. induction s as [|a s IH]; intros l r; simpl; [done|].
  destruct (Ascii.eqb_spec a c) as [->|Hne].
  - intros [= <- <-]. done.
  - destruct (split_once c s) as [[l' r']|] eqn:E; [|done].
    intros [= <- <-]. simpl. f_equal. by apply IH.
Qed.

Lemma split_once_first c l r :
  str_forall (λ a, negb (Ascii.eqb a c)) l = true →
  split_once c (l +:+ String c r) = Some (l, r).
Proof.
  induction l as [|a l IH]; simpl.
  - intros _. by rewrite Ascii.eqb_refl.
  - intros [Ha Hl]%andb_true_iff. apply negb_true_iff in Ha. rewrite Ha.
    by rewrite (IH Hl).
Qed.

Lemma split_once_None c s :
  split_once c s = None ↔ str_forall (λ a, negb (Ascii.eqb a c)) s = true.
Proof.
  induction s as [|a s IH]; simpl; [done|].
  destruct (Ascii.eqb a c); simpl; [done|].
  rewrite <- IH. destruct (split_once c s) as [[]|]; naive_solver.
Qed.

Lemma split_no_sep c s :
  str_forall (λ a, negb (Ascii.eqb a c)) s = true → split c s = [s].
Proof.
  induction s as [|a s IH]; simpl; [done|].
  intros [Ha Hs]%andb_true_iff. apply negb_true_iff in Ha. by rewrite Ha, (IH Hs).
Qed.

Lemma split_sep c l s :
  str_forall (λ a, negb (Ascii.eqb a c)) l = true →
  split c (l +:+ String c s) = l :: split c s.
Proof.
  induction l as [|a l IH]; simpl; [by rewrite Ascii.eqb_refl|].
  intros [Ha Hl]%andb_true_iff. apply negb_true_iff in Ha. by rewrite Ha, (IH Hl).
Qed.

Lemma trim_start_by_none p c s :
  p c = false → trim_start_by p (String c s) = String c s.
Proof. intros H. simpl. by rewrite H. Qed.

Lemma trim_end_by_none p s :
  str_forall (λ c, negb (p c)) s = true → trim_end_by p s = s.
Proof.
  induction s as [|c s IH]; simpl; [done|].
  intros [Hc Hs]%andb_true_iff. rewrite (IH Hs).
  apply negb_true_iff in Hc. rewrite Hc, andb_false_r. done.
Qed.

Lemma trim_by_none p s :
  str_forall (λ c, negb (p c)) s = true → trim_by p s = s.
Proof.
  intros H. unfold trim_by. destruct s as [|c s]; [done|].
  simpl in H. apply andb_true_iff in H as [Hc Hs].
  rewrite trim_start_by_none by (by apply negb_true_iff).
  apply trim_end_by_none. simpl. by rewrite Hc, Hs.
Qed.

Lemma split_last_snoc s c : split_last (s +:+ String c "") = Some (s, c).
Proof. induction s as [|a s IH]; simpl; [done|]. by rewrite IH. Qed.

Lemma split_last_Some s l c : split_last s = Some (l, c) → s = l +:+ String c "".
Proof.
  revert l. induction s as [|a s IH]; intros l; simpl; [done|].
  destruct (split_last s) as [[l' x]|] eqn:E; intros [= <- <-]; simpl.
  - by rewrite (IH l').
  - destruct s as [|b s]; [done|]. simpl in E. by destruct (split_last s) as [[]|].
Qed.

Lemma split_last_digits s l c :
  str_forall is_ascii_digit s = true → split_last s = Some (l, c) →
  is_ascii_digit c = true.
Proof.
  intros Hs E. rewrite (split_last_Some _ _ _ E), str_forall_app in Hs.
  apply andb_true_iff in Hs as [_ Hc]. simpl in Hc. by rewrite andb_true_r in Hc.
Qed.

(** *** Printing then parsing *)

Lemma digit_value_char (x : N) :
  (x < 10)%N → digit_value (pretty_N_char x) = Some (Z.of_N x).
Proof.
  intros H. destruct x as [|p]; [done|].
  assert (p = 1 ∨ p = 2 ∨ p = 3 ∨ p = 4 ∨ p = 5 ∨ p = 6 ∨ p = 7 ∨ p = 8 ∨ p = 9)%positive
    as Hp by lia.
  destruct_or! Hp; subst; reflexivity.
Qed.

Lemma parse_digits_pretty (max : Z) (x : N) s :
  (Z.of_N x ≤ max)%Z →
  parse_digits max 0 (pretty_N_go x s) = parse_digits max (Z.of_N x) s.
Proof.
  revert s. induction (N.lt_wf_0 x) as [x _ IH]; intros s Hx.
  destruct (decide (x = 0)%N) as [->|Hne]; [by rewrite pretty_N_go_0|].
  rewrite pretty_N_go_step by lia.
  assert (x / 10 < x)%N by (apply N.div_lt; lia).
  rewrite IH by lia. simpl.
  rewrite digit_value_char by (apply N.mod_lt; lia).
  assert (Z.of_N (x / 10) * 10 + Z.of_N (x mod 10) = Z.of_N x)%Z as ->.
  { pose proof (N.div_mod x 10). lia. }
  by rewrite (proj2 (Z.leb_le _ _)).
Qed.

Lemma pretty_N_go_digits (x : N) s :
  str_forall is_ascii_digit s = true →
  str_forall is_ascii_digit (pretty_N_go x s) = true.
Proof.
  revert s. induction (N.lt_wf_0 x) as [x _ IH]; intros s Hs.
  destruct (decide (x = 0)%N) as [->|Hne]; [by rewrite pretty_N_go_0|].
  rewrite pretty_N_go_step by lia.
  assert (x / 10 < x)%N by (apply N.div_lt; lia).
  apply IH; [done|]. simpl. rewrite Hs, andb_true_r.
  pose proof (digit_value_char (x mod 10)) as Hd.
  unfold digit_value in Hd. destruct (is_ascii_digit _); [done|].
  discriminate Hd. apply N.mod_lt; lia.
Qed.

Lemma show_uint_digits z : str_forall is_ascii_digit (show_uint z) = true.
Proof.
  unfold show_uint, pretty, pretty_N. destruct (decide _); [done|].
  by apply pretty_N_go_digits.
Qed.

Lemma pretty_N_go_length (x : N) s :
  (String.length s ≤ String.length (pretty_N_go x s))%nat.
Proof.
  revert s. induction (N.lt_wf_0 x) as [x _ IH]; intros s.
  destruct (decide (x = 0)%N) as [->|Hne]; [by rewrite pretty_N_go_0|].
  rewrite pretty_N_go_step by lia.
  assert (x / 10 < x)%N by (apply N.div_lt; lia).
  etrans; [|by apply IH]. simpl. lia.
Qed.

Lemma show_uint_nonempty z : show_uint z ≠ "".
Proof.
  unfold show_uint, pretty, pretty_N. destruct (decide _) as [|Hne]; [done|].
  intros Heq. rewrite pretty_N_go_step in Heq by lia.
  pose proof (pretty_N_go_length (Z.to_N z / 10)
    (String (pretty_N_char (Z.to_N z mod 10)) "")) as Hl.
  rewrite Heq in Hl. simpl in Hl. lia.
Qed.

Lemma parse_digits_show max z :
  (0 ≤ z ≤ max)%Z → parse_digits max 0 (show_uint z) = Some z.
Proof.
  intros Hz. unfold show_uint, pretty, pretty_N.
  destruct (decide _) as [E|Hne].
  - assert (z = 0)%Z as -> by lia. simpl.
    change (Z.of_nat (nat_of_ascii "0") - 48)%Z with 0%Z.
    destruct (Z.leb_spec (0 * 10 + 0) max); [done | lia].
  - rewrite parse_digits_pretty by lia. simpl. f_equal. lia.
Qed.

(** A text of digits does not start with a sign. *)
Lemma parse_uint_digits max s :
  s ≠ "" → str_forall is_ascii_digit s = true →
  parse_uint max s = parse_digits max 0 s.
Proof.
  destruct s as [|c s]; [done|]. intros _ [Hc _]%andb_true_iff.
  destruct c as [[] [] [] [] [] [] [] []]; try done.
Qed.

Lemma parse_uint_show max z :
  (0 ≤ z ≤ max)%Z → parse_uint max (show_uint z) = Some z.
Proof.
  intros Hz. rewrite parse_uint_digits;
    [by apply parse_digits_show | apply show_uint_nonempty | apply show_uint_digits].
Qed.

Lemma show_uint_inj a b : (0 ≤ a)%Z → (0 ≤ b)%Z → show_uint a = show_uint b → a = b.
Proof. unfold show_uint. intros ?? ?%(inj _). lia. Qed.

(** What a successful parse returns is in range. *)
Lemma parse_digits_range max acc s z :
  (0 ≤ acc ≤ max)%Z → parse_digits max acc s = Some z → (0 ≤ z ≤ max)%Z.
Proof.
  revert acc. induction s as [|c s IH]; intros acc Hacc; simpl; [naive_solver|].
  destruct (digit_value c) as [d|] eqn:Hd; [|done].
  destruct (Z.leb_spec (acc * 10 + d) max); [|done].
  apply IH. unfold digit_value in Hd.
  destruct (is_ascii_digit c) eqn:Hc; [|done]. simplify_eq.
  unfold is_ascii_digit in Hc. apply andb_true_iff in Hc as [Hc _].
  apply Nat.leb_le in Hc. lia.
Qed.

Lemma parse_uint_range max s z :
  (0 ≤ max)%Z → parse_uint max s = Some z → (0 ≤ z ≤ max)%Z.
Proof.
  intros Hm. destruct s as [|c s]; [done|].
  assert (∀ s', parse_digits max 0 s' = Some z → (0 ≤ z ≤ max)%Z) as Hp
    by (intros s'; apply parse_digits_range; lia).
  unfold parse_uint.
  destruct c as [[] [] [] [] [] [] [] []]; try (apply Hp).
  destruct s; [done | apply Hp].
Qed.

Lemma digit_not_whitespace c : is_ascii_digit c = true → negb (is_whitespace c) = true.
Proof.
  unfold is_ascii_digit, is_whitespace. intros [H1 H2]%andb_true_iff.
  apply Nat.leb_le in H1, H2. apply negb_true_iff, orb_false_iff. split.
  - apply andb_false_iff. right. apply Nat.leb_gt. lia.
  - apply Nat.eqb_neq. lia.
Qed.

Lemma alnum_not_whitespace c : is_alphanumeric c = true → negb (is_whitespace c) = true.
Proof. destruct c as [[] [] [] [] [] [] [] []]; done. Qed.

Lemma digit_not_alphabetic c : is_ascii_digit c = true → is_ascii_alphabetic c = false.
Proof. destruct c as [[] [] [] [] [] [] [] []]; done. Qed.

#[export] Hint Resolve digit_not_whitespace alnum_not_whitespace digit_not_alphabetic
  : quantra.
#[export] Hint Resolve show_uint_digits show_uint_nonempty : quantra.

(** *** Lines and trimming *)

(** The text with the given lines, each ended by a newline. *)
Definition unlines (l : list string) : string :=
  foldr (λ line rest, line +:+ String newline rest) EmptyString l.

Definition line_char (c : ascii) : bool :=
  negb (Ascii.eqb c newline) && negb (Ascii.eqb c carriage_return).

Lemma strip_suffix_cons p c s :
  strip_suffix p (String c s) =
  if String.eqb p (String c s) then Some EmptyString
  else match strip_suffix p s with Some t => Some (String c t) | None => None end.
Proof. reflexivity. Qed.

Lemma strip_suffix_no_cr s :
  str_forall line_char s = true → drop_last_cr s = s.
Proof.
  unfold drop_last_cr. induction s as [|c s IH]; [done|]. intros [Hc Hs]%andb_true_iff.
  specialize (IH Hs). rewrite strip_suffix_cons.
  destruct (String.eqb_spec (String carriage_return "") (String c s)) as [E|_].
  - injection E as <- _. discriminate Hc.
  - destruct (strip_suffix _ s); [by subst|done].
Qed.

Lemma split_unlines l :
  Forall (λ s, str_forall line_char s = true) l → split newline (unlines l) = l ++ [EmptyString].
Proof.
  induction 1 as [|s l Hs Hl IH]; [done|]. simpl unlines. rewrite split_sep, IH; [done|].
  eapply str_forall_impl; [|done]. unfold line_char. by intros c [? _]%andb_true_iff.
Qed.

Lemma lines_unlines l :
  Forall (λ s, str_forall line_char s = true) l → lines (unlines l) = l.
Proof.
  intros Hl. unfold lines. rewrite split_unlines by done.
  assert (strip_crs (l ++ [EmptyString]) = l ++ [EmptyString]) as ->.
  { induction Hl as [|s l Hs Hl IH]; [done|]. simpl. rewrite IH, strip_suffix_no_cr by done.
    by destruct l. }
  clear Hl. induction l as [|s l IH]; [done|]. simpl. rewrite IH. by destruct l.
Qed.

Lemma trim_end_by_snoc p s c :
  trim_end_by p (s +:+ String c "") =
  if p c then trim_end_by p s else s +:+ String c "".
Proof.
  induction s as [|a s IH]; simpl.
  - by destruct (p c).
  - rewrite IH. destruct (p c); [done|]. by destruct s.
Qed.

(** A text whose first and last characters stay is not trimmed. *)
Lemma trim_by_ends p a s b :
  p a = false → p b = false →
  trim_by p (String a (s +:+ String b "")) = String a (s +:+ String b "").
Proof.
  intros Ha Hb. unfold trim_by. rewrite trim_start_by_none by done.
  assert (String a (s +:+ String b "") = String a s +:+ String b "") as -> by done.
  rewrite trim_end_by_snoc. by rewrite Hb.
Qed.

Lemma trim_by_around p c s :
  p c = true → str_forall (λ a, negb (p a)) s = true →
  trim_by p (String c (s +:+ String c "")) = s.
Proof.
  intros Hc Hs. unfold trim_by. simpl. rewrite Hc. destruct s as [|a s]; [simpl; by rewrite Hc|].
  simpl in Hs. apply andb_true_iff in Hs as [Ha Hs]. apply negb_true_iff in Ha.
  assert (String a s +:+ String c "" = String a (s +:+ String c "")) as E by done.
  rewrite E, trim_start_by_none by done. rewrite <- E, trim_end_by_snoc, Hc.
  apply trim_end_by_none. simpl. by rewrite Ha, Hs.
Qed.
