(* ===== verification/Types.v ===== *)
(** * Service definitions

    The data of [quantra/src/services/types.rs]: the [Service] structure that a
    TOML file describes, its enumerations and sub-tables, their default values,
    and the two operations on them that are not plain field access: the
    [setrlimit] calls of [ResourceLimits::apply] and the cgroup writes of
    [CgroupConfig::apply], with the parser of memory limits. *)

From Stdlib Require Import ZArith Ascii.
From stdpp Require Import base tactics numbers list strings gmap.
From S2P Require Import Prelude RustStr.

Local Open Scope string_scope.
Local Open Scope list_scope.

(** ** Enumerations *)

Inductive RestartPolicy := Always | OnFailure | RestartPolicy_No.

Inductive NotifyType := Simple | Notify | BgProcess.

Inductive DependencyType := Regular | Milestone | After.

Inductive SeccompMode := SeccompMode_Off | SeccompMode_Strict | SeccompMode_Profile.

Inductive ProtectHome :=
| ProtectHome_No | ProtectHome_ReadOnly | ProtectHome_Tmpfs | ProtectHome_Yes.

Inductive ProtectProc :=
| ProtectProc_Default | ProtectProc_Invisible | ProtectProc_Noaccess
| ProtectProc_Ptraceable.

#[export] Instance RestartPolicy_eq_dec : EqDecision RestartPolicy.
Proof. solve_decision. Defined.
#[export] Instance NotifyType_eq_dec : EqDecision NotifyType.
Proof. solve_decision. Defined.
#[export] Instance SeccompMode_eq_dec : EqDecision SeccompMode.
Proof. solve_decision. Defined.

(** ** Sub-tables *)

(** Each limit is [[soft, hard]]. *)
Record ResourceLimits := {
  nofile : option (Z * Z);
  nproc : option (Z * Z);
  fsize : option (Z * Z);
  stack : option (Z * Z);
  memlock : option (Z * Z);
  core : option (Z * Z);
}.

Record CgroupConfig := {
  memory_limit : option string;
  cpu_weight : option Z;
  io_weight : option Z;
}.

Record HealthCheck := {
  hc_command : string;
  hc_args : list string;
  hc_interval_sec : Z;
  hc_failure_threshold : Z;
  hc_timeout_sec : Z;
}.

Definition default_healthcheck_interval : Z := 10.
Definition default_healthcheck_threshold : Z := 3.
Definition default_healthcheck_timeout : Z := 5.
Definition default_restart_sec : Z := 5.
Definition default_restart_interval_sec : Z := 60.
Definition default_timeout_start : Z := 90.
Definition default_timeout_stop : Z := 30.
Definition default_no_new_privileges : bool := true.
Definition default_non_dumpable : bool := true.
Definition default_reload_signal : string := "SIGHUP".
Definition default_syscall_filter_mode : string := "denylist".
Definition bool_true : bool := true.

(** ** The service *)

Record Service := {
  svc_name : string;
  svc_description : option string;
  svc_command : string;
  svc_args : list string;
  svc_apparmor_profile : option string;
  svc_no_new_privileges : bool;
  svc_non_dumpable : bool;
  svc_clear_ambient_caps : bool;
  svc_drop_capabilities : list string;
  svc_seccomp : SeccompMode;
  svc_seccomp_profile : option string;
  svc_oneshot : bool;
  svc_console : bool;
  svc_launcher : bool;
  svc_notify_type : NotifyType;
  svc_pid_file : option string;
  svc_ready_socket : option string;
  svc_socket_alias : option string;
  svc_watchdog_sec : Z;
  svc_stop_command : option string;
  svc_stop_args : list string;
  svc_reload_signal : string;
  svc_reload_command : option string;
  svc_chain_to : option string;
  svc_chain_to_always : bool;
  svc_env_file : option string;
  svc_environment : option (gmap string string);
  svc_user : option string;
  svc_group : option string;
  svc_working_dir : option string;
  svc_tty : option string;
  svc_rlimit : option ResourceLimits;
  svc_restart : RestartPolicy;
  svc_restart_sec : Z;
  svc_max_restarts : Z;
  svc_restart_interval_sec : Z;
  svc_timeout_start : Z;
  svc_timeout_stop : Z;
  svc_dependencies : list string;
  svc_wants : list string;
  svc_milestone : list string;
  svc_after : list string;
  svc_socket_listen : list string;
  svc_cgroup_config : option CgroupConfig;
  svc_healthcheck : option HealthCheck;
  svc_conditional_dependencies : gmap string string;
  svc_exec_start_pre : list string;
  svc_exec_start_post : list string;
  svc_condition_path_exists : list string;
  svc_condition_path_not_exists : list string;
  svc_private_tmp : bool;
  svc_protect_system : bool;
  svc_landlock_paths : list string;
  svc_cpu_quota : option string;
  svc_tasks_max : option Z;
  svc_memory_swap_max : option string;
  svc_private_network : bool;
  svc_private_devices : bool;
  svc_private_ipc : bool;
  svc_protect_hostname : bool;
  svc_protect_home : ProtectHome;
  svc_protect_proc : ProtectProc;
  svc_protect_kernel_tunables : bool;
  svc_protect_kernel_modules : bool;
  svc_protect_kernel_logs : bool;
  svc_protect_clock : bool;
  svc_protect_control_groups : bool;
  svc_inaccessible_paths : list string;
  svc_read_only_paths : list string;
  svc_read_write_paths : list string;
  svc_bind_paths : list string;
  svc_bind_read_only_paths : list string;
  svc_memory_deny_write_execute : bool;
  svc_restrict_namespaces : bool;
  svc_restrict_suid_sgid : bool;
  svc_restrict_realtime : bool;
  svc_lock_personality : bool;
  svc_restrict_address_families : list string;
  svc_syscall_filter_mode : string;
  svc_root_directory : option string;
  svc_root_image : option string;
  svc_runtime_directory : option string;
  svc_state_directory : option string;
  svc_cache_directory : option string;
  svc_logs_directory : option string;
  svc_io_device_weights : gmap string Z;
  svc_io_device_latencies : gmap string Z;
  svc_exec_stop_post : list string;
  svc_dynamic_user : bool;
  svc_private_users : bool;
  svc_temporary_filesystems : list string;
  svc_mount_api_vfs : bool;
  svc_proc_subset_pid : bool;
  svc_ambient_capabilities : list string;
  svc_capability_bounding_set : list string;
  svc_ip_address_deny : list string;
  svc_ip_address_allow : list string;
  svc_load_credential : list string;
  svc_system_call_architectures_native : bool;
  svc_socket_bind_deny : list string;
  svc_socket_bind_allow : list string;
}.

(** [Service::default()]: the derived [Default], every field empty or zero. *)
Definition Service_default : Service := {|
  svc_name := "";
  svc_description := None;
  svc_command := "";
  svc_args := [];
  svc_apparmor_profile := None;
  svc_no_new_privileges := false;
  svc_non_dumpable := false;
  svc_clear_ambient_caps := false;
  svc_drop_capabilities := [];
  svc_seccomp := SeccompMode_Off;
  svc_seccomp_profile := None;
  svc_oneshot := false;
  svc_console := false;
  svc_launcher := false;
  svc_notify_type := Simple;
  svc_pid_file := None;
  svc_ready_socket := None;
  svc_socket_alias := None;
  svc_watchdog_sec := 0;
  svc_stop_command := None;
  svc_stop_args := [];
  svc_reload_signal := "";
  svc_reload_command := None;
  svc_chain_to := None;
  svc_chain_to_always := false;
  svc_env_file := None;
  svc_environment := None;
  svc_user := None;
  svc_group := None;
  svc_working_dir := None;
  svc_tty := None;
  svc_rlimit := None;
  svc_restart := RestartPolicy_No;
  svc_restart_sec := 0;
  svc_max_restarts := 0;
  svc_restart_interval_sec := 0;
  svc_timeout_start := 0;
  svc_timeout_stop := 0;
  svc_dependencies := [];
  svc_wants := [];
  svc_milestone := [];
  svc_after := [];
  svc_socket_listen := [];
  svc_cgroup_config := None;
  svc_healthcheck := None;
  svc_conditional_dependencies := ∅;
  svc_exec_start_pre := [];
  svc_exec_start_post := [];
  svc_condition_path_exists := [];
  svc_condition_path_not_exists := [];
  svc_private_tmp := false;
  svc_protect_system := false;
  svc_landlock_paths := [];
  svc_cpu_quota := None;
  svc_tasks_max := None;
  svc_memory_swap_max := None;
  svc_private_network := false;
  svc_private_devices := false;
  svc_private_ipc := false;
  svc_protect_hostname := false;
  svc_protect_home := ProtectHome_No;
  svc_protect_proc := ProtectProc_Default;
  svc_protect_kernel_tunables := false;
  svc_protect_kernel_modules := false;
  svc_protect_kernel_logs := false;
  svc_protect_clock := false;
  svc_protect_control_groups := false;
  svc_inaccessible_paths := [];
  svc_read_only_paths := [];
  svc_read_write_paths := [];
  svc_bind_paths := [];
  svc_bind_read_only_paths := [];
  svc_memory_deny_write_execute := false;
  svc_restrict_namespaces := false;
  svc_restrict_suid_sgid := false;
  svc_restrict_realtime := false;
  svc_lock_personality := false;
  svc_restrict_address_families := [];
  svc_syscall_filter_mode := "";
  svc_root_directory := None;
  svc_root_image := None;
  svc_runtime_directory := None;
  svc_state_directory := None;
  svc_cache_directory := None;
  svc_logs_directory := None;
  svc_io_device_weights := ∅;
  svc_io_device_latencies := ∅;
  svc_exec_stop_post := [];
  svc_dynamic_user := false;
  svc_private_users := false;
  svc_temporary_filesystems := [];
  svc_mount_api_vfs := false;
  svc_proc_subset_pid := false;
  svc_ambient_capabilities := [];
  svc_capability_bounding_set := [];
  svc_ip_address_deny := [];
  svc_ip_address_allow := [];
  svc_load_credential := [];
  svc_system_call_architectures_native := false;
  svc_socket_bind_deny := [];
  svc_socket_bind_allow := []
|}.

(** What deserialising a file with only [name] and [command] gives: the
    [#[serde(default = ...)]] functions for the other fields. *)
Definition Service_minimal (name command : string) : Service := {|
  svc_name := name;
  svc_description := None;
  svc_command := command;
  svc_args := [];
  svc_apparmor_profile := None;
  svc_no_new_privileges := default_no_new_privileges;
  svc_non_dumpable := default_non_dumpable;
  svc_clear_ambient_caps := false;
  svc_drop_capabilities := [];
  svc_seccomp := SeccompMode_Off;
  svc_seccomp_profile := None;
  svc_oneshot := false;
  svc_console := false;
  svc_launcher := false;
  svc_notify_type := Simple;
  svc_pid_file := None;
  svc_ready_socket := None;
  svc_socket_alias := None;
  svc_watchdog_sec := 0;
  svc_stop_command := None;
  svc_stop_args := [];
  svc_reload_signal := default_reload_signal;
  svc_reload_command := None;
  svc_chain_to := None;
  svc_chain_to_always := false;
  svc_env_file := None;
  svc_environment := None;
  svc_user := None;
  svc_group := None;
  svc_working_dir := None;
  svc_tty := None;
  svc_rlimit := None;
  svc_restart := RestartPolicy_No;
  svc_restart_sec := default_restart_sec;
  svc_max_restarts := 0;
  svc_restart_interval_sec := default_restart_interval_sec;
  svc_timeout_start := default_timeout_start;
  svc_timeout_stop := default_timeout_stop;
  svc_dependencies := [];
  svc_wants := [];
  svc_milestone := [];
  svc_after := [];
  svc_socket_listen := [];
  svc_cgroup_config := None;
  svc_healthcheck := None;
  svc_conditional_dependencies := ∅;
  svc_exec_start_pre := [];
  svc_exec_start_post := [];
  svc_condition_path_exists := [];
  svc_condition_path_not_exists := [];
  svc_private_tmp := false;
  svc_protect_system := false;
  svc_landlock_paths := [];
  svc_cpu_quota := None;
  svc_tasks_max := None;
  svc_memory_swap_max := None;
  svc_private_network := false;
  svc_private_devices := false;
  svc_private_ipc := false;
  svc_protect_hostname := false;
  svc_protect_home := ProtectHome_No;
  svc_protect_proc := ProtectProc_Default;
  svc_protect_kernel_tunables := false;
  svc_protect_kernel_modules := false;
  svc_protect_kernel_logs := false;
  svc_protect_clock := false;
  svc_protect_control_groups := false;
  svc_inaccessible_paths := [];
  svc_read_only_paths := [];
  svc_read_write_paths := [];
  svc_bind_paths := [];
  svc_bind_read_only_paths := [];
  svc_memory_deny_write_execute := false;
  svc_restrict_namespaces := false;
  svc_restrict_suid_sgid := false;
  svc_restrict_realtime := false;
  svc_lock_personality := false;
  svc_restrict_address_families := [];
  svc_syscall_filter_mode := default_syscall_filter_mode;
  svc_root_directory := None;
  svc_root_image := None;
  svc_runtime_directory := None;
  svc_state_directory := None;
  svc_cache_directory := None;
  svc_logs_directory := None;
  svc_io_device_weights := ∅;
  svc_io_device_latencies := ∅;
  svc_exec_stop_post := [];
  svc_dynamic_user := false;
  svc_private_users := false;
  svc_temporary_filesystems := [];
  svc_mount_api_vfs := false;
  svc_proc_subset_pid := false;
  svc_ambient_capabilities := [];
  svc_capability_bounding_set := [];
  svc_ip_address_deny := [];
  svc_ip_address_allow := [];
  svc_load_credential := [];
  svc_system_call_architectures_native := bool_true;
  svc_socket_bind_deny := [];
  svc_socket_bind_allow := []
|}.

(** The service [s] with its four dependency lists replaced. *)
Definition set_dep_lists (s : Service)
    (dependencies wants milestone after : list string) : Service :=
  s <|svc_dependencies := dependencies|> <|svc_wants := wants|>
    <|svc_milestone := milestone|> <|svc_after := after|>.

(** ** Resource limits *)

(** The [RLIMIT_*] resources and the [rlimit] pair handed to [setrlimit(2)]. *)
Inductive Rlimit :=
| RLIMIT_NOFILE | RLIMIT_NPROC | RLIMIT_FSIZE | RLIMIT_STACK | RLIMIT_MEMLOCK
| RLIMIT_CORE.

Definition RLIM_INFINITY : Z := u64_max.

Definition to_rlim (v : Z) : Z := if (v =? 0)%Z then RLIM_INFINITY else v.

(** One [setrlimit] call: resource, current limit, maximum limit. *)
Definition set_rlimit (resource : Rlimit) (soft hard : Z) : Rlimit * Z * Z :=
  (resource, to_rlim soft, to_rlim hard).

Definition apply_limit (resource : Rlimit) (lim : option (Z * Z))
    : list (Rlimit * Z * Z) :=
  match lim with
  | Some (soft, hard) => [set_rlimit resource soft hard]
  | None => []
  end.

(** The calls [ResourceLimits::apply] makes, in order. *)
Definition ResourceLimits_apply (rl : ResourceLimits) : list (Rlimit * Z * Z) :=
  apply_limit RLIMIT_NOFILE (nofile rl) ++
  apply_limit RLIMIT_NPROC (nproc rl) ++
  apply_limit RLIMIT_FSIZE (fsize rl) ++
  apply_limit RLIMIT_STACK (stack rl) ++
  apply_limit RLIMIT_MEMLOCK (memlock rl) ++
  apply_limit RLIMIT_CORE (core rl).

(** ** Memory limits *)

Definition memory_multiplier (suffix : string) : option Z :=
  match to_ascii_uppercase suffix with
  | "K" => Some 1024%Z
  | "M" => Some (1024 * 1024)%Z
  | "G" => Some (1024 * 1024 * 1024)%Z
  | "T" => Some (1024 * 1024 * 1024 * 1024)%Z
  | _ => None
  end.

Definition parse_or_zero (s : string) : Z :=
  match parse_uint u64_max s with Some n => n | None => 0%Z end.

Definition parse_memory_limit (s : string) : Z :=
  let s := trim s in
  if String.eqb s "max" || String.eqb s "0" || is_empty s then 0%Z
  else
    match split_last s with
    | None => 0%Z (* unreachable: [s] is not empty *)
    | Some (digits, last) =>
        if negb (is_ascii_alphabetic last) then parse_or_zero s
        else
          match memory_multiplier (String last EmptyString) with
          | Some multiplier => saturating_mul_u64 (parse_or_zero digits) multiplier
          | None => parse_or_zero s
          end
    end.

(** ** cgroup settings *)

(** The files [CgroupConfig::apply] writes, in order, with their contents.  A
    write that fails is ignored and the next one is still made. *)
Definition CgroupConfig_apply (cfg : CgroupConfig) (service_name : string)
    : list (string * string) :=
  let slice := "/sys/fs/cgroup/quantra-system/" +:+ service_name in
  match memory_limit cfg with
  | Some mem =>
      let bytes := parse_memory_limit mem in
      let val := if (bytes =? 0)%Z then "max" else show_uint bytes in
      [(slice +:+ "/memory.max", val)]
  | None => []
  end ++
  match cpu_weight cfg with
  | Some w => [(slice +:+ "/cpu.weight", show_uint w)]
  | None => []
  end ++
  match io_weight cfg with
  | Some w => [(slice +:+ "/io.weight", "default " +:+ show_uint w)]
  | None => []
  end.

(** ** Properties *)

Lemma parse_or_zero_range s : (0 ≤ parse_or_zero s ≤ u64_max)%Z.
Proof.
  unfold parse_or_zero. destruct (parse_uint u64_max s) eqn:E.
  - eapply parse_uint_range; [|done]. unfold u64_max. lia.
  - unfold u64_max. lia.
Qed.

Lemma parse_or_zero_show n :
  (0 ≤ n ≤ u64_max)%Z → parse_or_zero (show_uint n) = n.
Proof. intros H. unfold parse_or_zero. by rewrite parse_uint_show. Qed.

(** The multiplier of a unit suffix, as the documentation of the field gives it. *)
Definition unit_bytes (c : ascii) : option Z :=
  if bool_decide (c = "K"%char ∨ c = "k"%char) then Some (2 ^ 10)%Z
  else if bool_decide (c = "M"%char ∨ c = "m"%char) then Some (2 ^ 20)%Z
  else if bool_decide (c = "G"%char ∨ c = "g"%char) then Some (2 ^ 30)%Z
  else if bool_decide (c = "T"%char ∨ c = "t"%char) then Some (2 ^ 40)%Z
  else None.

Lemma memory_multiplier_unit c :
  memory_multiplier (String c "") = unit_bytes c.
Proof. destruct c as [[] [] [] [] [] [] [] []]; reflexivity. Qed.

Lemma unit_bytes_alphabetic c m :
  unit_bytes c = Some m →
  is_ascii_alphabetic c = true ∧ negb (is_whitespace c) = true ∧ (0 < m)%Z.
Proof. destruct c as [[] [] [] [] [] [] [] []]; vm_compute; naive_solver. Qed.

Lemma digits_trim s : str_forall is_ascii_digit s = true → trim s = s.
Proof.
  intros H. apply trim_by_none. eapply str_forall_impl; [|done].
  auto with quantra.
Qed.

Lemma digits_not_max s : str_forall is_ascii_digit s = true → s ≠ "max".
Proof. intros H ->. discriminate H. Qed.

Lemma parse_memory_limit_digits s :
  str_forall is_ascii_digit s = true → parse_memory_limit s = parse_or_zero s.
Proof.
  intros H. unfold parse_memory_limit. rewrite digits_trim by done.
  destruct (String.eqb_spec s "max"); [by apply digits_not_max in H|].
  destruct (String.eqb_spec s "0") as [->|]; [reflexivity|].
  destruct s as [|c s]; [reflexivity|]. simpl is_empty. cbv iota.
  destruct (split_last (String c s)) as [[l x]|] eqn:E.
  - rewrite digit_not_alphabetic by (by eapply split_last_digits). done.
  - simpl in E. by destruct (split_last s) as [[]|].
Qed.

Lemma parse_memory_limit_unit digits c m :
  str_forall is_ascii_digit digits = true → unit_bytes c = Some m →
  parse_memory_limit (digits +:+ String c "")
  = saturating_mul_u64 (parse_or_zero digits) m.
Proof.
  intros Hd Hm. destruct (unit_bytes_alphabetic _ _ Hm) as (Ha & Hw & _).
  unfold parse_memory_limit.
  assert (trim (digits +:+ String c "") = digits +:+ String c "") as ->.
  { apply trim_by_none. rewrite str_forall_app. simpl. rewrite Hw, !andb_true_r.
    eapply str_forall_impl; [|done]. auto with quantra. }
  rewrite split_last_snoc, Ha, memory_multiplier_unit, Hm. simpl negb. cbv iota.
  destruct (String.eqb_spec (digits +:+ String c "") "max") as [E|_].
  { destruct digits as [|d digits]; [done|]. simpl in E. injection E as -> _.
    discriminate Hd. }
  destruct (String.eqb_spec (digits +:+ String c "") "0") as [E|_].
  { destruct digits as [|d [|]]; simpl in E; [|done..]. by injection E as ->. }
  by destruct digits.
Qed.

(** A memory limit written as a decimal number with an optional unit letter
    (either case) parses to that number of bytes, clamped to the greatest
    [u64]; every text, well formed or not, parses to a [u64]. *)
Theorem parse_memory_limit_spec :
  (∀ n, (0 ≤ n ≤ u64_max)%Z → parse_memory_limit (show_uint n) = n) ∧
  (∀ n c m, (0 ≤ n ≤ u64_max)%Z → unit_bytes c = Some m →
     parse_memory_limit (show_uint n +:+ String c "") = Z.min (n * m) u64_max) ∧
  (∀ s, (0 ≤ parse_memory_limit s ≤ u64_max)%Z).
Proof.
  split_and!.
  - intros n Hn. rewrite parse_memory_limit_digits by auto with quantra.
    by apply parse_or_zero_show.
  - intros n c m Hn Hm. rewrite (parse_memory_limit_unit _ _ m) by auto with quantra.
    by rewrite parse_or_zero_show.
  - intros s. unfold parse_memory_limit.
    pose proof (parse_or_zero_range (trim s)).
    assert (0 ≤ 0 ≤ u64_max)%Z by (unfold u64_max; lia).
    destruct (_ || _ || _); [done|].
    destruct (split_last (trim s)) as [[l x]|]; [|done].
    destruct (negb _); [done|].
    rewrite memory_multiplier_unit. destruct (unit_bytes x) as [m|] eqn:E; [|done].
    apply unit_bytes_alphabetic in E as (_ & _ & ?).
    pose proof (parse_or_zero_range l). unfold saturating_mul_u64. lia.
Qed.

(** Two limits that the configuration orders stay ordered once [0] is read as
    "unlimited", unless the soft one is [0] and the hard one is not. *)
Lemma to_rlim_mono soft hard :
  (0 ≤ soft ≤ hard)%Z → (hard ≤ u64_max)%Z → soft ≠ 0%Z →
  (to_rlim soft ≤ to_rlim hard)%Z.
Proof.
  intros ?? ?. unfold to_rlim, RLIM_INFINITY.
  destruct (Z.eqb_spec soft 0), (Z.eqb_spec hard 0); lia.
Qed.
