(* ===== verification/Dependency.v ===== *)
(** * Dependency resolution

    [quantra/src/services/dependency.rs]: Kahn's algorithm with level tracking.
    [wave_sort_services] orders services in waves such that every service comes
    after the ones it names in [after] and [dependencies]; it is the order of
    every start-up and shutdown.  Vectors are lists indexed by position, the
    name table is a map in which the last service of a name wins, and the
    [None] of the loops is a panic (an index out of range, [0 - 1] on a [usize],
    [unwrap] of an empty queue) or exhausted fuel; the totality theorem excludes
    both. *)

From Stdlib Require Import ZArith Ascii.
From stdpp Require Import base tactics numbers list strings gmap relations sets.
From S2P Require Import Prelude RustStr Types.

Local Open Scope string_scope.
Local Open Scope list_scope.
Local Open Scope nat_scope.

(** ** The algorithm *)

Definition enumerate {A} (l : list A) : list (nat * A) := zip (seq 0 (length l)) l.

(** The name table: a later service overwrites an earlier one of the same name. *)
Definition name_to_idx (services : list Service) : gmap string nat :=
  foldl (λ m '(i, s), <[svc_name s := i]> m) ∅ (enumerate services).

(** The ordering constraints of a service, in the order the loop visits them. *)
Definition order_deps (svc : Service) : list string :=
  svc_after svc ++ svc_dependencies svc.

(** One step of the inner loop: [adj[dep_idx].push(idx); in_degree[idx] += 1]. *)
Definition add_edge (names : gmap string nat) (idx : nat)
    (g : list (list nat) * list nat) (dep : string) : list (list nat) * list nat :=
  match names !! dep with
  | Some dep_idx => (alter (λ l, l ++ [idx]) dep_idx g.1, alter S idx g.2)
  | None => g
  end.

Definition build_graph (services : list Service) : list (list nat) * list nat :=
  let n := length services in
  let names := name_to_idx services in
  foldl (λ g '(idx, svc), foldl (add_edge names idx) g (order_deps svc))
    (replicate n [], replicate n 0) (enumerate services).

Definition neighbors (adj : list (list nat)) (node : nat) : list nat :=
  default [] (adj !! node).

(** The loop over [&adj[node]]. *)
Fixpoint relax (nbs : list nat) (degrees queue : list nat)
    : option (list nat * list nat) :=
  match nbs with
  | [] => Some (degrees, queue)
  | neighbor :: nbs =>
      match degrees !! neighbor with
      | Some (S d) =>
          relax nbs (<[neighbor := d]> degrees)
            (if (d =? 0)%nat then queue ++ [neighbor] else queue)
      | _ => None
      end
  end.

(** The [for _ in 0..wave_size] loop; the wave is returned in push order. *)
Fixpoint run_wave (wave_size : nat) (adj : list (list nat)) (queue degrees : list nat)
    : option (list nat * list nat * list nat) :=
  match wave_size with
  | O => Some ([], queue, degrees)
  | S wave_size =>
      match queue with
      | [] => None
      | node :: queue =>
          match relax (neighbors adj node) degrees queue with
          | Some (degrees, queue) =>
              match run_wave wave_size adj queue degrees with
              | Some (wave, queue, degrees) => Some (node :: wave, queue, degrees)
              | None => None
              end
          | None => None
          end
      end
  end.

(** The [while !queue.is_empty()] loop. *)
Fixpoint run_waves (fuel : nat) (adj : list (list nat)) (queue degrees : list nat)
    : option (list (list nat) * list nat) :=
  match queue with
  | [] => Some ([], degrees)
  | _ :: _ =>
      match fuel with
      | O => None
      | S fuel =>
          match run_wave (length queue) adj queue degrees with
          | Some (wave, queue, degrees) =>
              match run_waves fuel adj queue degrees with
              | Some (waves, degrees) => Some (wave :: waves, degrees)
              | None => None
              end
          | None => None
          end
      end
  end.

Definition initial_queue (in_degree : list nat) : list nat :=
  fst <$> filter (λ p, p.2 = 0) (enumerate in_degree).

Definition unresolved (services : list Service) (degrees : list nat) : list string :=
  (λ p, svc_name p.2) <$>
    filter (λ p, 0 < default 0 (degrees !! p.1)) (enumerate services).

Definition circular_dependency_error (names : list string) (visited n : nat) : string :=
  "Circular dependency detected among services: [" +:+ join ", " names +:+
  "]. These services have unresolved dependencies that form a cycle (" +:+
  show_nat visited +:+ " of " +:+ show_nat n +:+ " resolved)".

(** The waves as indices into [services], before the services are cloned. *)
Definition wave_sort_indices (services : list Service)
    : option (list (list nat) * list nat) :=
  let '(adj, in_degree) := build_graph services in
  run_waves (S (length services)) adj (initial_queue in_degree) in_degree.

Definition services_at (services : list Service) (wave : list nat) : list Service :=
  omap (λ i, services !! i) wave.

Definition wave_sort_services (services : list Service)
    : option (result string (list (list Service))) :=
  match services with
  | [] => Some (Ok [])
  | _ :: _ =>
      match wave_sort_indices services with
      | None => None
      | Some (waves, degrees) =>
          let n := length services in
          let visited := length (concat waves) in
          if (visited =? n)%nat
          then Some (Ok (services_at services <$> waves))
          else Some (Err (circular_dependency_error (unresolved services degrees)
                            visited n))
      end
  end.

(** The flat order. *)
Definition sort_services (services : list Service)
    : option (result string (list Service)) :=
  match wave_sort_services services with
  | Some (Ok waves) => Some (Ok (concat waves))
  | Some (Err e) => Some (Err e)
  | None => None
  end.

(** ** The dependency relation *)

(** Position [i] must start after position [j]: [i]'s service names, in [after]
    or [dependencies], a text that the name table maps to [j]. *)
Definition depends (services : list Service) (i j : nat) : Prop :=
  ∃ svc dep, services !! i = Some svc ∧ dep ∈ order_deps svc ∧
    name_to_idx services !! dep = Some j.

Definition cyclic (services : list Service) : Prop :=
  ∃ i, tc (depends services) i i.

(** [wave_sort_services] runs to its end with value [r]. *)
Definition sorts_to (services : list Service) (r : result string (list (list Service)))
    : Prop := wave_sort_services services = Some r.

(** ** Occurrence counting *)

Fixpoint occ (v : nat) (l : list nat) : nat :=
  match l with
  | [] => 0
  | x :: l => (if decide (x = v) then 1 else 0) + occ v l
  end.

Fixpoint sum_over (f : nat → nat) (us : list nat) : nat :=
  match us with
  | [] => 0
  | u :: us => f u + sum_over f us
  end.

Lemma occ_app v l1 l2 : occ v (l1 ++ l2) = occ v l1 + occ v l2.
Proof. induction l1; simpl; lia. Qed.

Lemma occ_zero v l : occ v l = 0 ↔ v ∉ l.
Proof.
  induction l as [|x l IH]; simpl; [split; [set_solver | done]|].
  rewrite not_elem_of_cons, <- IH. case_decide; naive_solver lia.
Qed.

Lemma sum_over_ext f g us : (∀ u, u ∈ us → f u = g u) → sum_over f us = sum_over g us.
Proof.
  induction us as [|u us IH]; intros H; simpl; [done|].
  rewrite H, IH; [done | | left]. intros; apply H; by right.
Qed.

Lemma sum_over_zero f us : sum_over f us = 0 ↔ ∀ u, u ∈ us → f u = 0.
Proof.
  induction us as [|u us IH]; simpl.
  - split; [intros _ u Hu; by apply not_elem_of_nil in Hu | done].
  - split.
    + intros H v [->|Hv]%elem_of_cons; [lia|]. apply IH; [lia | done].
    + intros H. rewrite (H u) by left. apply IH. intros v Hv. apply H. by right.
Qed.

(** Two functions that differ at one point of a duplicate-free list, by [d]. *)
Lemma sum_over_change f g us x d :
  NoDup us → x ∈ us → f x = g x + d → (∀ u, u ≠ x → f u = g u) →
  sum_over f us = sum_over g us + d.
Proof.
  intros Hnd Hx Hfx Hne. induction us as [|u us IH]; [by apply not_elem_of_nil in Hx|].
  apply NoDup_cons in Hnd as [Hu Hnd]. simpl.
  destruct (decide (u = x)) as [->|].
  - rewrite (sum_over_ext f g us); [lia|]. intros v Hv. apply Hne. set_solver.
  - rewrite (Hne u), IH by set_solver. lia.
Qed.

(** ** The loops over an arbitrary graph *)
Section kahn.
Context (adj : list (list nat)) (n : nat).
Hypothesis nbs_lt : ∀ u v, v ∈ neighbors adj u → v < n.

(** Edges into [v] whose source has not been processed. *)
Definition pend (P : list nat) (v : nat) : nat :=
  sum_over (λ u, if decide (u ∈ P) then 0 else occ v (neighbors adj u)) (seq 0 n).

Lemma pend_snoc P node v :
  node < n → node ∉ P →
  pend P v = pend (P ++ [node]) v + occ v (neighbors adj node).
Proof.
  intros Hlt Hnin. apply (sum_over_change _ _ _ node).
  - apply NoDup_seq.
  - apply elem_of_seq. lia.
  - rewrite decide_False by done. rewrite decide_True by set_solver. done.
  - intros u Hu. destruct (decide (u ∈ P)); case_decide; set_solver.
Qed.

Lemma pend_zero P v :
  pend P v = 0 ↔ ∀ u, u < n → v ∈ neighbors adj u → u ∈ P.
Proof.
  unfold pend. rewrite sum_over_zero. split; intros H u Hu.
  - intros Hv. specialize (H u). destruct (decide (u ∈ P)); [done|].
    apply occ_zero in Hv; [done|]. apply H, elem_of_seq. lia.
  - case_decide as Hd; [done|]. apply occ_zero. intros Hv. apply Hd, H; [|done].
    apply elem_of_seq in Hu. lia.
Qed.

(** [degrees] counts [base v] plus the occurrences still in the list. *)
Lemma relax_spec (base : nat → nat) nbs degrees queue :
  (∀ v, v ∈ nbs → v < n) →
  (∀ v, v < n → degrees !! v = Some (base v + occ v nbs)) →
  ∃ degrees' added,
    relax nbs degrees queue = Some (degrees', queue ++ added) ∧
    (∀ v, v < n → degrees' !! v = Some (base v)) ∧
    NoDup added ∧ (∀ v, v ∈ added ↔ v ∈ nbs ∧ base v = 0).
Proof.
  revert degrees queue. induction nbs as [|x nbs IH]; intros degrees queue Hlt Hdeg.
  - exists degrees, []. simpl. rewrite app_nil_r. split_and!; [done| |constructor|set_solver].
    intros v Hv. rewrite Hdeg by done. simpl. f_equal. lia.
  - assert (x < n) as Hx by (apply Hlt; left).
    simpl. rewrite (Hdeg x Hx). simpl. rewrite decide_True by done.
    replace (base x + (1 + occ x nbs)) with (S (base x + occ x nbs)) by lia.
    destruct (IH (<[x:=base x + occ x nbs]> degrees)
      (if (base x + occ x nbs =? 0)%nat then queue ++ [x] else queue))
      as (degrees' & added & Hr & Hd & Hnd & Hin).
    + intros v Hv. apply Hlt. by right.
    + intros v Hv. specialize (Hdeg v Hv). simpl in Hdeg.
      destruct (decide (x = v)) as [->|Hne].
      * apply list_lookup_insert_eq. by eapply lookup_lt_Some.
      * by rewrite list_lookup_insert_ne.
    + destruct (Nat.eqb_spec (base x + occ x nbs) 0) as [Hz|Hnz].
      * exists degrees', (x :: added). split_and!; [|done| |].
        { rewrite Hr, <- app_assoc. done. }
        { constructor; [|done]. rewrite Hin. intros [Hxn _].
          apply occ_zero in Hxn; [done | lia]. }
        { intros v. rewrite !elem_of_cons, Hin. split; [|naive_solver].
          intros [->|[]]; [split; [by left | lia] | naive_solver]. }
      * exists degrees', added. split_and!; [done..|].
        intros v. rewrite Hin, elem_of_cons. split; [naive_solver|].
        intros [[->|] Hb]; [|done]. split; [|done].
        destruct (decide (x ∈ nbs)) as [|Hni]; [done|]. apply occ_zero in Hni. lia.
Qed.

(** Processed [P], waiting [Q]: exactly the positions without a pending edge. *)
Record kahn_inv (P Q degrees : list nat) : Prop := {
  inv_nodup : NoDup (P ++ Q);
  inv_degrees : ∀ v, v < n → degrees !! v = Some (pend P v);
  inv_ready : ∀ v, v ∈ P ++ Q ↔ v < n ∧ pend P v = 0;
}.

(** One pop: the node becomes processed, its freed neighbours wait. *)
Lemma relax_inv P node Q degrees :
  kahn_inv P (node :: Q) degrees →
  ∃ degrees' added,
    relax (neighbors adj node) degrees Q = Some (degrees', Q ++ added) ∧
    kahn_inv (P ++ [node]) (Q ++ added) degrees'.
Proof.
  intros [Hnd Hdeg Hready].
  assert (node < n ∧ pend P node = 0) as [Hlt Hz] by (apply Hready; set_solver).
  assert (node ∉ P) as Hnin by (apply NoDup_app in Hnd as (_ & Hd & _); set_solver).
  assert (∀ v, pend P v = pend (P ++ [node]) v + occ v (neighbors adj node)) as Hp
    by (intros v; by apply pend_snoc).
  destruct (relax_spec (pend (P ++ [node])) (neighbors adj node) degrees Q)
    as (degrees' & added & Hr & Hd & Hnda & Hin).
  - intros v. apply nbs_lt.
  - intros v Hv. by rewrite Hdeg, Hp by done.
  - exists degrees', added. split; [done|].
    assert (∀ v, v ∈ added → pend P v ≠ 0) as Hfresh.
    { intros v [Hv _]%Hin ?. rewrite Hp in *.
      assert (occ v (neighbors adj node) = 0) as E%occ_zero by lia. done. }
    rewrite (cons_middle node), app_assoc in Hnd, Hready.
    split; [|done|].
    + rewrite app_assoc. apply NoDup_app. split_and!; [done| |done].
      intros v Hv Hva. apply (Hfresh v Hva). by apply Hready.
    + intros v. rewrite app_assoc, elem_of_app, Hready, Hin. rewrite (Hp v).
      split.
      * intros [[? ?]|[Hv ?]]; [lia|]. split; [by eapply nbs_lt | done].
      * intros [? ?]. destruct (decide (v ∈ neighbors adj node)) as [|Hni]; [by right|].
        left. apply occ_zero in Hni. lia.
Qed.

Lemma run_wave_spec A : ∀ P B degrees,
  kahn_inv P (A ++ B) degrees →
  ∃ added degrees',
    run_wave (length A) adj (A ++ B) degrees = Some (A, B ++ added, degrees') ∧
    kahn_inv (P ++ A) (B ++ added) degrees'.
Proof.
  induction A as [|node A IH]; intros P B degrees Hinv; simpl.
  - exists [], degrees. by rewrite !app_nil_r.
  - rewrite <- app_comm_cons in Hinv.
    destruct (relax_inv _ _ _ _ Hinv) as (degrees1 & added1 & -> & Hinv1).
    rewrite <- app_assoc in Hinv1.
    rewrite <- app_assoc.
    destruct (IH _ _ _ Hinv1) as (added & degrees' & -> & Hinv').
    exists (added1 ++ added), degrees'. rewrite (cons_middle node P A), (app_assoc P).
    by rewrite (app_assoc B).
Qed.

(** Each wave holds positions whose predecessors are all in earlier waves, and
    each position outside the first wave has one in the wave just before. *)
Fixpoint leveled (P : list nat) (last : option (list nat)) (waves : list (list nat))
    : Prop :=
  match waves with
  | [] => True
  | w :: waves =>
      w ≠ [] ∧
      (∀ v u, v ∈ w → u < n → v ∈ neighbors adj u → u ∈ P) ∧
      match last with
      | Some l => ∀ v, v ∈ w → ∃ u, u ∈ l ∧ v ∈ neighbors adj u
      | None => True
      end ∧
      leveled (P ++ w) (Some w) waves
  end.

Lemma run_waves_spec fuel : ∀ P Q degrees last,
  kahn_inv P Q degrees → n < fuel + length P →
  match last with
  | Some l => ∀ v, v ∈ Q → ∃ u, u ∈ l ∧ v ∈ neighbors adj u
  | None => True
  end →
  ∃ waves degrees',
    run_waves fuel adj Q degrees = Some (waves, degrees') ∧
    kahn_inv (P ++ concat waves) [] degrees' ∧ leveled P last waves.
Proof.
  induction fuel as [|fuel IH]; intros P Q degrees last Hinv Hfuel Hlast.
  - exfalso. assert (length P ≤ n) as ?; [|lia].
    rewrite <- (length_seq n 0). apply submseteq_length, NoDup_submseteq.
    + by apply (inv_nodup _ _ _) in Hinv; apply NoDup_app in Hinv as [? _].
    + intros v Hv. apply elem_of_seq. pose proof (inv_ready _ _ _ Hinv v). set_solver by lia.
  - destruct Q as [|q Q].
    { exists [], degrees. simpl. by rewrite app_nil_r. }
    remember (q :: Q) as w eqn:Ew.
    pose proof (run_wave_spec w P [] degrees) as Hw.
    rewrite app_nil_r in Hw. destruct (Hw Hinv) as (added & degrees1 & Hrun & Hinv1).
    simpl in Hrun, Hinv1.
    destruct (IH (P ++ w) added degrees1 (Some w)) as (waves & degrees' & Hr & Hi & Hl).
    + done.
    + rewrite length_app. subst w. simpl. lia.
    + intros v Hv. pose proof (inv_ready _ _ _ Hinv v) as Hr0.
      pose proof (inv_ready _ _ _ Hinv1 v) as Hr1.
      assert (v ∉ P ++ w) as Hnew.
      { apply (inv_nodup _ _ _), NoDup_app in Hinv1 as (_ & Hd & _). intros ?. by eapply Hd. }
      assert (v < n ∧ pend (P ++ w) v = 0) as [Hlt Hz] by (apply Hr1; set_solver).
      assert (pend P v ≠ 0) as Hnz by naive_solver.
      rewrite pend_zero in Hz. rewrite pend_zero in Hnz.
      destruct (decide (Exists (λ u, v ∈ neighbors adj u) w)) as [He|Hne].
      { apply Exists_exists in He as (u & ? & ?). eauto. }
      exfalso. apply Hnz. intros u Hu Hvu. specialize (Hz u Hu Hvu).
      apply elem_of_app in Hz as [|Huw]; [done|].
      exfalso. apply Hne, Exists_exists. eauto.
    + exists (w :: waves), degrees'. simpl run_waves. subst w. simpl run_waves.
      rewrite Hrun, Hr. split_and!; [done| |].
      * change (concat ((q :: Q) :: waves)) with ((q :: Q) ++ concat waves).
        by rewrite app_assoc.
      * simpl. split_and!; [done| |done|done].
        intros v u Hv Hu Hvu. pose proof (inv_ready _ _ _ Hinv v) as Hr0.
        assert (pend P v = 0) as Hz by (apply Hr0; set_solver).
        rewrite pend_zero in Hz. by apply Hz.
Qed.
End kahn.

(** ** The graph of a service list *)

Lemma elem_of_enumerate {A} (l : list A) i x : (i, x) ∈ enumerate l ↔ l !! i = Some x.
Proof.
  unfold enumerate. rewrite list_elem_of_lookup. split.
  - intros [k Hk]. apply lookup_zip_Some in Hk as [Hs Hl].
    apply lookup_seq in Hs as [-> _]. done.
  - intros Hl. exists i. apply lookup_zip_Some. split; [|done].
    apply lookup_seq. split; [done|]. by eapply lookup_lt_Some.
Qed.

Lemma name_to_idx_Some services dep j :
  name_to_idx services !! dep = Some j →
  ∃ svc, services !! j = Some svc ∧ svc_name svc = dep.
Proof.
  unfold name_to_idx.
  assert (∀ l (m : gmap string nat),
    foldl (λ m '(i, s), <[svc_name s := i]> m) m l !! dep = Some j →
    m !! dep = Some j ∨ ∃ svc, (j, svc) ∈ l ∧ svc_name svc = dep) as H.
  { induction l as [|[i s] l IH]; intros m; simpl; [by left|].
    intros [Hm|(svc & ? & ?)]%IH; [|right; exists svc; set_solver].
    destruct (decide (svc_name s = dep)) as [<-|].
    - rewrite lookup_insert_eq in Hm. simplify_eq. right. exists s. set_solver.
    - rewrite lookup_insert_ne in Hm by done. by left. }
  intros [Hm|(svc & Hin & Hn)]%H; [by rewrite lookup_empty in Hm|].
  apply elem_of_enumerate in Hin. eauto.
Qed.

(** With distinct names, the table finds exactly the service of that name. *)
Lemma name_to_idx_unique services j svc :
  NoDup (svc_name <$> services) → services !! j = Some svc →
  name_to_idx services !! svc_name svc = Some j.
Proof.
  intros Hnd Hj. unfold name_to_idx.
  assert (∀ l (m : gmap string nat),
    (∀ i s, (i, s) ∈ l → svc_name s = svc_name svc → i = j) →
    m !! svc_name svc = Some j ∨ (j, svc) ∈ l →
    foldl (λ m '(i, s), <[svc_name s := i]> m) m l !! svc_name svc = Some j) as H.
  { induction l as [|[i s] l IH]; intros m Hu Hor; simpl.
    - destruct Hor as [|Hin]; [done|]. by apply not_elem_of_nil in Hin.
    - apply IH; [intros i' s' ?; apply Hu; by right|].
      destruct (decide (svc_name s = svc_name svc)) as [E|Hne].
      + left. rewrite E, lookup_insert_eq. f_equal. eapply Hu; [by left | done].
      + rewrite lookup_insert_ne by done. set_solver. }
  apply H.
  - intros i s Hin%elem_of_enumerate Hn. eapply (NoDup_lookup _ i j (svc_name svc) Hnd).
    + rewrite list_lookup_fmap, Hin. simpl. by rewrite Hn.
    + by rewrite list_lookup_fmap, Hj.
  - right. by apply elem_of_enumerate.
Qed.

Lemma neighbors_alter adj d i u :
  neighbors (alter (λ l, l ++ [i]) d adj) u
  = neighbors adj u ++ (if decide (u = d ∧ d < length adj) then [i] else []).
Proof.
  unfold neighbors. destruct (decide (u = d)) as [->|Hne].
  - rewrite list_lookup_alter_eq. destruct (adj !! d) eqn:E; simpl.
    + rewrite decide_True; [done|]. split; [done | by eapply lookup_lt_Some].
    + apply lookup_ge_None in E. by rewrite decide_False by lia.
  - rewrite list_lookup_alter_ne by done. by rewrite decide_False, app_nil_r by naive_solver.
Qed.

(** What the construction keeps true after the edges for which [E] holds. *)
Record graph_ok (n : nat) (E : nat → nat → Prop) (g : list (list nat) * list nat)
    : Prop := {
  graph_adj_length : length g.1 = n;
  graph_deg_length : length g.2 = n;
  graph_edges : ∀ u v, v ∈ neighbors g.1 u ↔ E u v;
  graph_degrees : ∀ v, v < n →
    g.2 !! v = Some (sum_over (λ u, occ v (neighbors g.1 u)) (seq 0 n));
}.

Lemma add_edge_ok n E g names idx dep :
  (∀ d j, names !! d = Some j → j < n) →
  graph_ok n E g →
  graph_ok n (λ u v, E u v ∨ v = idx ∧ names !! dep = Some u) (add_edge names idx g dep).
Proof.
  intros Hn [Hlen Hlen' He Hd]. unfold add_edge.
  destruct (names !! dep) as [d|] eqn:Edep; [|split; naive_solver].
  apply Hn in Edep as Hlt. split; simpl.
  - by rewrite length_alter.
  - by rewrite length_alter.
  - intros u v. rewrite neighbors_alter, elem_of_app, He, Hlen.
    case_decide; set_solver.
  - intros v Hv.
    assert (sum_over (λ u, occ v (neighbors (alter (λ l, l ++ [idx]) d g.1) u)) (seq 0 n)
      = sum_over (λ u, occ v (neighbors g.1 u)) (seq 0 n)
        + (if decide (idx = v) then 1 else 0)) as ->.
    { apply (sum_over_change _ _ _ d).
      - apply NoDup_seq.
      - apply elem_of_seq. lia.
      - rewrite neighbors_alter, decide_True by (split; [done | lia]).
        rewrite occ_app. simpl. lia.
      - intros u Hu. rewrite neighbors_alter, decide_False by naive_solver.
        by rewrite app_nil_r. }
    destruct (decide (idx = v)) as [->|Hne].
    + rewrite list_lookup_alter_eq, Hd by done. simpl. f_equal. lia.
    + rewrite list_lookup_alter_ne, Hd by done. f_equal. lia.
Qed.

Lemma graph_ok_iff n (E E' : nat → nat → Prop) g :
  (∀ u v, E u v ↔ E' u v) → graph_ok n E g → graph_ok n E' g.
Proof.
  intros Hiff [?? He ?]. split; [done..| |done]. intros u v. by rewrite He, Hiff.
Qed.

Lemma foldl_add_edge_ok n names idx deps : ∀ E g,
  (∀ d j, names !! d = Some j → j < n) →
  graph_ok n E g →
  graph_ok n (λ u v, E u v ∨ v = idx ∧ ∃ dep, dep ∈ deps ∧ names !! dep = Some u)
    (foldl (add_edge names idx) g deps).
Proof.
  induction deps as [|dep deps IH]; intros E g Hn Hg; simpl.
  - eapply graph_ok_iff; [|done]. intros u v. split; [by left|].
    intros [|(_ & d & Hd & _)]; [done|]. by apply not_elem_of_nil in Hd.
  - eapply graph_ok_iff; [|eapply IH; [done | by apply add_edge_ok]].
    intros u v. cbn beta. setoid_rewrite elem_of_cons. naive_solver.
Qed.

Lemma build_graph_ok services :
  graph_ok (length services) (λ u v, depends services v u) (build_graph services).
Proof.
  unfold build_graph. set (n := length services). set (names := name_to_idx services).
  assert (∀ d j, names !! d = Some j → j < n) as Hn.
  { intros d j (svc & Hj & _)%name_to_idx_Some. by eapply lookup_lt_Some. }
  assert (∀ l E g, graph_ok n E g →
    graph_ok n (λ u v, E u v ∨ ∃ svc dep, (v, svc) ∈ l ∧ dep ∈ order_deps svc ∧
                                         names !! dep = Some u)
      (foldl (λ g '(idx, svc), foldl (add_edge names idx) g (order_deps svc)) g l)) as H.
  { induction l as [|[idx svc] l IH]; intros E g Hg; simpl.
    - eapply graph_ok_iff; [|done]. set_solver.
    - eapply graph_ok_iff; [|apply IH, foldl_add_edge_ok; [exact Hn | exact Hg]].
      intros u v. cbn beta. setoid_rewrite elem_of_cons. naive_solver. }
  eapply graph_ok_iff; [|apply (H _ (λ _ _, False))].
  - intros u v. cbn beta. unfold depends. setoid_rewrite elem_of_enumerate. naive_solver.
  - assert (∀ u, neighbors (replicate n []) u = []) as Hnb.
    { intros u. unfold neighbors. destruct (replicate n [] !! u) eqn:E; [|done].
      by apply lookup_replicate in E as [-> _]. }
    split; simpl.
    + by rewrite length_replicate.
    + by rewrite length_replicate.
    + intros u v. rewrite Hnb. set_solver.
    + intros v Hv. rewrite lookup_replicate_2 by done. f_equal. symmetry.
      apply sum_over_zero. intros u _. by rewrite Hnb.
Qed.

Lemma depends_lt services i j :
  depends services i j → i < length services ∧ j < length services.
Proof.
  intros (svc & dep & Hi & _ & Hj). split; [by eapply lookup_lt_Some|].
  apply name_to_idx_Some in Hj as (s & Hs & _). by eapply lookup_lt_Some.
Qed.

Lemma initial_queue_spec in_degree :
  NoDup (initial_queue in_degree) ∧
  ∀ v, v ∈ initial_queue in_degree ↔ in_degree !! v = Some 0.
Proof.
  unfold initial_queue. split.
  - eapply (sublist_NoDup _ (fst <$> enumerate in_degree)).
    + unfold enumerate. rewrite fst_zip by (by rewrite length_seq). apply NoDup_seq.
    + apply (fmap_sublist fst), sublist_filter.
  - intros v. rewrite list_elem_of_fmap. setoid_rewrite list_elem_of_filter. split.
    + intros ([i d] & -> & Hd & Hin). simpl in Hd. subst. by apply elem_of_enumerate.
    + intros H. exists (v, 0). split_and!; [done..|]. by apply elem_of_enumerate.
Qed.

(** ** The result of the sort *)

(** The index run always ends, with a final state that satisfies the invariant. *)
Lemma wave_sort_indices_total services :
  ∃ waves degrees,
    wave_sort_indices services = Some (waves, degrees) ∧
    kahn_inv (build_graph services).1 (length services) (concat waves) [] degrees ∧
    leveled (build_graph services).1 (length services) [] None waves.
Proof.
  unfold wave_sort_indices. pose proof (build_graph_ok services) as Hg.
  destruct (build_graph services) as [adj in_degree]. cbn [fst snd].
  destruct Hg as [Hlen Hlen' He Hd]. cbn [fst snd] in *.
  destruct (initial_queue_spec in_degree) as [Hnd Hin].
  assert (∀ v, pend adj (length services) [] v
    = sum_over (λ u, occ v (neighbors adj u)) (seq 0 (length services))) as Hp.
  { intros v. apply sum_over_ext. intros u _.
    by rewrite decide_False by apply not_elem_of_nil. }
  apply (run_waves_spec adj (length services)) with (P := @nil nat) (last := None);
    [| |simpl; lia|done].
  - intros u v [? _]%He%depends_lt. done.
  - split; simpl; [done| |].
    + intros v Hv. by rewrite Hd, Hp.
    + intros v. rewrite Hin, Hp. split.
      * intros H. assert (v < length services) as Hv
          by (rewrite <- Hlen'; by eapply lookup_lt_Some).
        split; [done|]. rewrite Hd in H by done. by injection H.
      * intros [Hv H]. by rewrite Hd, H.
Qed.

Lemma length_services_at services wave :
  (∀ i, i ∈ wave → i < length services) →
  length (services_at services wave) = length wave.
Proof.
  unfold services_at. induction wave as [|i wave IH]; intros H; simpl; [done|].
  destruct (lookup_lt_is_Some_2 services i) as [s Hs]; [apply H; left|].
  rewrite Hs. simpl. f_equal. apply IH. intros j Hj. apply H. by right.
Qed.

Lemma services_at_lookup services wave k :
  (∀ i, i ∈ wave → i < length services) →
  services_at services wave !! k = (wave !! k) ≫= λ i, services !! i.
Proof.
  unfold services_at. revert k. induction wave as [|i wave IH]; intros k H; [done|].
  destruct (lookup_lt_is_Some_2 services i) as [s Hs]; [apply H; left|].
  simpl. rewrite Hs. destruct k as [|k]; simpl; [done|].
  apply IH. intros j Hj. apply H. by right.
Qed.

Lemma services_at_concat services waves :
  services_at services (concat waves) = concat (services_at services <$> waves).
Proof.
  unfold services_at. induction waves as [|w waves IH]; simpl; [done|].
  by rewrite omap_app, IH.
Qed.

Lemma services_at_seq services :
  services_at services (seq 0 (length services)) = services.
Proof.
  unfold services_at. apply list_eq. intros k.
  fold (services_at services (seq 0 (length services))).
  rewrite services_at_lookup by (intros i Hi%elem_of_seq; lia).
  destruct (decide (k < length services)) as [Hk|Hk].
  - by rewrite lookup_seq_lt.
  - rewrite lookup_seq_ge by lia. simpl. symmetry. apply lookup_ge_None. lia.
Qed.

(** Positions processed by the run: all below the length, none twice. *)
Lemma wave_sort_done services :
  ∃ waves degrees,
    wave_sort_indices services = Some (waves, degrees) ∧
    NoDup (concat waves) ∧
    (∀ v, v ∈ concat waves → v < length services) ∧
    (∀ v, v < length services → v ∉ concat waves →
       ∃ u, u < length services ∧ u ∉ concat waves ∧ depends services v u) ∧
    leveled (build_graph services).1 (length services) [] None waves.
Proof.
  destruct (wave_sort_indices_total services) as (waves & degrees & Hr & Hi & Hl).
  exists waves, degrees. destruct Hi as [Hnd Hd Hready]. rewrite app_nil_r in Hnd.
  setoid_rewrite app_nil_r in Hready.
  pose proof (build_graph_ok services) as [_ _ He _].
  split_and!; [done..| | |done].
  - intros v Hv. by apply Hready in Hv as [? _].
  - intros v Hv Hnin.
    assert (pend (build_graph services).1 (length services) (concat waves) v ≠ 0) as Hp.
    { intros Hz. apply Hnin. apply Hready. done. }
    rewrite pend_zero in Hp.
    destruct (decide (Exists (λ u, v ∈ neighbors (build_graph services).1 u ∧
      u ∉ concat waves) (seq 0 (length services)))) as [Hex|Hex].
    + apply Exists_exists in Hex as (u & Hu%elem_of_seq & Huv & ?). exists u.
      rewrite <- He. split_and!; [lia|done..].
    + exfalso. apply Hp. intros u Hu Huv. apply dec_stable. intros ?.
      apply Hex, Exists_exists. exists u. split; [apply elem_of_seq; lia | done].
Qed.

Lemma leveled_lookup adj n waves : ∀ P last k w v u,
  leveled adj n P last waves → waves !! k = Some w → v ∈ w → u < n →
  v ∈ neighbors adj u →
  u ∈ P ∨ ∃ j w', j < k ∧ waves !! j = Some w' ∧ u ∈ w'.
Proof.
  induction waves as [|w0 waves IH]; intros P last k w v u Hl Hk Hv Hu Hvu; [done|].
  destruct Hl as (_ & Hpre & _ & Hl). destruct k as [|k].
  - simplify_eq/=. left. by eapply Hpre.
  - simpl in Hk. destruct (IH _ _ _ _ _ _ Hl Hk Hv Hu Hvu) as [HP|(j & w' & ? & ? & ?)].
    + apply elem_of_app in HP as [|Hw0]; [by left|]. right. exists 0, w0.
      split_and!; [lia | done..].
    + right. exists (S j), w'. split_and!; [lia | done..].
Qed.

Lemma leveled_tight adj n waves : ∀ P last k w w' v,
  leveled adj n P last waves →
  waves !! k = Some w → waves !! (S k) = Some w' → v ∈ w' →
  ∃ u, u ∈ w ∧ v ∈ neighbors adj u.
Proof.
  induction waves as [|w0 waves IH]; intros P last k w w' v Hl Hk Hk' Hv; [done|].
  destruct Hl as (_ & _ & _ & Hl). destruct k as [|k]; simplify_eq/=.
  - destruct waves as [|w1 waves]; [done|]. simplify_eq/=.
    destruct Hl as (_ & _ & Ht & _). by apply Ht.
  - by eapply IH.
Qed.

Lemma leveled_nonempty adj n waves : ∀ P last,
  leveled adj n P last waves → Forall (λ w, w ≠ []) waves.
Proof.
  induction waves as [|w0 waves IH]; intros P last Hl; constructor.
  - by destruct Hl.
  - destruct Hl as (_ & _ & _ & Hl). by eapply IH.
Qed.

(** The two outcomes of a run on a non-empty list. *)
Lemma wave_sort_cases services :
  ∃ waves degrees,
    wave_sort_indices services = Some (waves, degrees) ∧
    leveled (build_graph services).1 (length services) [] None waves ∧
    ((concat waves ≡ₚ seq 0 (length services) ∧
      sorts_to services (Ok (services_at services <$> waves))) ∨
     (length (concat waves) < length services ∧
      (∃ e, sorts_to services (Err e)) ∧
      ∃ v, v < length services ∧ v ∉ concat waves)).
Proof.
  destruct (wave_sort_done services) as (waves & degrees & Hr & Hnd & Hlt & _ & Hl).
  exists waves, degrees. split_and!; [done..|].
  assert (concat waves ⊆+ seq 0 (length services)) as Hsub.
  { apply NoDup_submseteq; [done|]. intros v Hv%Hlt. apply elem_of_seq. lia. }
  pose proof (submseteq_length _ _ Hsub) as Hle. rewrite length_seq in Hle.
  unfold sorts_to, wave_sort_services. destruct services as [|s services'].
  { left. simpl in *. assert (concat waves = []) as E
      by (apply length_zero_iff_nil; lia).
    rewrite E. split; [done|]. unfold wave_sort_indices in Hr. simpl in Hr. by simplify_eq. }
  rewrite Hr. destruct (Nat.eqb_spec (length (concat waves)) (length (s :: services'))).
  - left. split; [|done]. apply submseteq_length_Permutation; [done|].
    rewrite length_seq. lia.
  - right. split_and!; [lia|eauto|].
    destruct (decide (Forall (λ v, v ∈ concat waves) (seq 0 (length (s :: services')))))
      as [Hall|Hex%not_Forall_Exists].
    + exfalso. rewrite Forall_forall in Hall.
      assert (seq 0 (length (s :: services')) ⊆+ concat waves) as Hs.
      { apply NoDup_submseteq; [apply NoDup_seq | done]. }
      apply submseteq_length in Hs. rewrite length_seq in Hs. lia.
    + apply Exists_exists in Hex as (v & Hv%elem_of_seq & ?). exists v. split; [lia | done].
    + intros v. apply _.
Qed.

Lemma sorts_to_inv services waves :
  sorts_to services (Ok waves) →
  ∃ iwaves,
    waves = services_at services <$> iwaves ∧
    concat iwaves ≡ₚ seq 0 (length services) ∧
    leveled (build_graph services).1 (length services) [] None iwaves.
Proof.
  intros H.
  destruct (wave_sort_cases services)
    as (iw & d & _ & Hl & [[Hp Hs]|(_ & [e Hs] & _)]); unfold sorts_to in *;
    rewrite H in Hs; simplify_eq. eauto.
Qed.

Lemma elem_of_concat {A} (x : A) ls : x ∈ concat ls ↔ ∃ l, l ∈ ls ∧ x ∈ l.
Proof.
  rewrite list_elem_of_In, in_concat. setoid_rewrite list_elem_of_In. done.
Qed.

Lemma wave_index_lt n iw w i :
  concat iw ≡ₚ seq 0 n → w ∈ iw → i ∈ w → i < n.
Proof.
  intros Hp Hw Hi. assert (i ∈ concat iw) as Hc by (apply elem_of_concat; eauto).
  rewrite Hp in Hc. apply elem_of_seq in Hc. lia.
Qed.

Lemma wave_sort_permutation_core services waves :
  sorts_to services (Ok waves) →
  concat waves ≡ₚ services ∧ Forall (λ w, w ≠ []) waves.
Proof.
  intros (iw & -> & Hp & Hl)%sorts_to_inv. split.
  - rewrite <- services_at_concat.
    transitivity (services_at services (seq 0 (length services))).
    + unfold services_at. by rewrite Hp.
    + by rewrite services_at_seq.
  - apply Forall_fmap. pose proof (leveled_nonempty _ _ _ _ _ Hl) as Hne.
    rewrite Forall_forall in *. intros w Hw E. apply (Hne w Hw), length_zero_iff_nil.
    simpl in E. rewrite <- (length_services_at services w), E; [done|].
    intros i Hi. by eapply wave_index_lt.
Qed.

(** The sort loses and invents nothing: the waves together are a permutation
    of the services, and no wave is empty. *)
Theorem wave_sort_permutation services waves :
  sorts_to services (Ok waves) →
  concat waves ≡ₚ services ∧ Forall (λ w, w ≠ []) waves.
Proof. apply wave_sort_permutation_core. Qed.

(** A service of a sorted wave, with its position. *)
Lemma elem_of_services_at services w svc :
  (∀ i, i ∈ w → i < length services) →
  svc ∈ services_at services w ↔ ∃ i, i ∈ w ∧ services !! i = Some svc.
Proof. intros _. unfold services_at. by rewrite list_elem_of_omap. Qed.

(** Any service name is in the table. *)
Lemma name_to_idx_is_Some services dep :
  dep ∈ svc_name <$> services → is_Some (name_to_idx services !! dep).
Proof.
  intros Hin. unfold name_to_idx.
  assert (∀ l (m : gmap string nat),
    is_Some (m !! dep) ∨ dep ∈ (λ p : nat * Service, svc_name p.2) <$> l →
    is_Some (foldl (λ m '(i, s), <[svc_name s := i]> m) m l !! dep)) as H.
  { induction l as [|[i s] l IH]; intros m; simpl.
    - intros [|Hd]; [done|]. by apply not_elem_of_nil in Hd.
    - intros Hor. apply IH. destruct (decide (svc_name s = dep)) as [<-|].
      + left. rewrite lookup_insert_eq. eauto.
      + rewrite lookup_insert_ne by done. set_solver. }
  apply H. right. apply list_elem_of_fmap in Hin as (svc & -> & Hsvc).
  apply list_elem_of_lookup in Hsvc as [i Hi]. apply list_elem_of_fmap.
  exists (i, svc). split; [done|]. by apply elem_of_enumerate.
Qed.

Lemma wave_sort_order_core services waves k w svc dep :
  sorts_to services (Ok waves) →
  waves !! k = Some w → svc ∈ w → dep ∈ order_deps svc → dep ∈ svc_name <$> services →
  ∃ j w' svc', j < k ∧ waves !! j = Some w' ∧ svc' ∈ w' ∧ svc_name svc' = dep.
Proof.
  intros (iw & -> & Hp & Hl)%sorts_to_inv Hk Hsvc Hdep Hin.
  rewrite list_lookup_fmap in Hk. destruct (iw !! k) as [wk|] eqn:Ek; simplify_eq/=.
  assert (∀ j wj i, iw !! j = Some wj → i ∈ wj → i < length services) as Hlt.
  { intros j wj i Hj. eapply wave_index_lt; [done|]. by eapply list_elem_of_lookup_2. }
  apply elem_of_services_at in Hsvc as (v & Hv & Hsv); [|by intros; eapply Hlt].
  destruct (name_to_idx_is_Some services dep Hin) as [u Hu].
  assert (depends services v u) as Hd by by exists svc, dep.
  pose proof (build_graph_ok services) as [_ _ He _].
  destruct (leveled_lookup _ _ _ _ _ _ _ _ u Hl Ek Hv) as [Hnil|(j & w' & ? & Hj & Huw)].
  - by eapply depends_lt.
  - by apply He.
  - by apply not_elem_of_nil in Hnil.
  - apply name_to_idx_Some in Hu as (svc' & Hsu & Hname).
    exists j, (services_at services w'), svc'. rewrite list_lookup_fmap, Hj.
    split_and!; [done..| |done].
    apply elem_of_services_at; [by intros; eapply Hlt | eauto].
Qed.

(** C18: start order: when a service of a wave names, in [after] or
    [dependencies], a service of the list, a service of that name is in an
    earlier wave.  (A name that no service has constrains nothing.) *)
Theorem wave_sort_order services waves k w svc dep :
  sorts_to services (Ok waves) →
  waves !! k = Some w → svc ∈ w → dep ∈ order_deps svc → dep ∈ svc_name <$> services →
  ∃ j w' svc', j < k ∧ waves !! j = Some w' ∧ svc' ∈ w' ∧ svc_name svc' = dep.
Proof. apply wave_sort_order_core. Qed.

(** No needless waiting: a service is outside the first wave only because a
    service of the wave just before is one it must follow, so the number of waves
    is the length of the longest dependency chain. *)
Theorem wave_sort_tight services waves k w w' svc :
  sorts_to services (Ok waves) →
  waves !! k = Some w → waves !! (S k) = Some w' → svc ∈ w' →
  ∃ svc', svc' ∈ w ∧ svc_name svc' ∈ order_deps svc.
Proof.
  intros (iw & -> & Hp & Hl)%sorts_to_inv Hk Hk' Hsvc.
  rewrite list_lookup_fmap in Hk, Hk'.
  destruct (iw !! k) as [wk|] eqn:Ek; simplify_eq/=.
  destruct (iw !! S k) as [wk'|] eqn:Ek'; simplify_eq/=.
  assert (∀ j wj i, iw !! j = Some wj → i ∈ wj → i < length services) as Hlt.
  { intros j wj i Hj. eapply wave_index_lt; [done|]. by eapply list_elem_of_lookup_2. }
  apply elem_of_services_at in Hsvc as (v & Hv & Hsv); [|by intros; eapply Hlt].
  destruct (leveled_tight _ _ _ _ _ _ _ _ v Hl Ek Ek' Hv) as (u & Hu & Hvu).
  pose proof (build_graph_ok services) as [_ _ He _].
  apply He in Hvu as (s & dep & Hs & Hdep & Hn). simplify_eq.
  apply name_to_idx_Some in Hn as (svc' & Hsu & <-).
  exists svc'. split; [|done]. apply elem_of_services_at; [|eauto].
  intros i Hi. exact (Hlt _ _ _ Ek Hi).
Qed.

(** A chain of steps, and the cycle in one that repeats a position. *)
Fixpoint path {A} (R : relation A) (x : A) (l : list A) : Prop :=
  match l with
  | [] => True
  | y :: l => R x y ∧ path R y l
  end.

Lemma path_tc {A} (R : relation A) x l y : path R x l → y ∈ l → tc R x y.
Proof.
  revert x. induction l as [|z l IH]; intros x Hp Hy; [by apply not_elem_of_nil in Hy|].
  destruct Hp as [Hxz Hp]. apply elem_of_cons in Hy as [->|Hy]; [by apply tc_once|].
  eapply tc_l; [done|]. by apply IH.
Qed.

Lemma path_cycle {A} `{EqDecision A} (R : relation A) x l :
  path R x l → ¬ NoDup (x :: l) → ∃ y, tc R y y.
Proof.
  revert x. induction l as [|z l IH]; intros x Hp Hnd.
  - exfalso. apply Hnd. apply NoDup_singleton.
  - destruct (decide (x ∈ z :: l)) as [Hx|Hx].
    + exists x. by eapply path_tc.
    + destruct Hp as [_ Hp]. apply (IH z Hp). intros Hnd'. apply Hnd. by constructor.
Qed.

(** Positions that each depend on another of them lie on or lead to a cycle. *)
Lemma left_out_cyclic services (L : nat → Prop) v :
  (∀ v, L v → v < length services ∧ ∃ u, L u ∧ depends services v u) →
  L v → cyclic services.
Proof.
  intros Hstep Hv.
  assert (∀ m v, L v → ∃ l, length l = m ∧ path (depends services) v l ∧
    Forall L (v :: l)) as Hlong.
  { induction m as [|m IH]; intros x Hx.
    - exists []. split_and!; [done..|]. by repeat constructor.
    - destruct (Hstep x Hx) as [_ (u & Hu & Hxu)]. destruct (IH u Hu) as (l & ? & ? & ?).
      exists (u :: l). simpl. split_and!; [by f_equal | done..|]. by constructor. }
  destruct (Hlong (length services) v Hv) as (l & Hlen & Hpath & Hall).
  apply (path_cycle _ _ _ Hpath). intros Hnd.
  assert (v :: l ⊆+ seq 0 (length services)) as Hsub.
  { apply NoDup_submseteq; [done|]. intros x Hx. rewrite Forall_forall in Hall.
    apply elem_of_seq. destruct (Hstep x (Hall x Hx)). lia. }
  apply submseteq_length in Hsub. rewrite length_seq in Hsub. simpl in Hsub. lia.
Qed.

(** Along a dependency of a complete sort the wave number decreases strictly. *)
Definition in_wave (iw : list (list nat)) (v k : nat) : Prop :=
  ∃ w, iw !! k = Some w ∧ v ∈ w.

Lemma sorted_acyclic services iw :
  concat iw ≡ₚ seq 0 (length services) →
  leveled (build_graph services).1 (length services) [] None iw →
  ¬ cyclic services.
Proof.
  intros Hp Hl. pose proof (build_graph_ok services) as [_ _ He _].
  assert (∀ v u, tc (depends services) v u →
    ∀ k, in_wave iw v k → ∃ j, j < k ∧ in_wave iw u j) as Htc.
  { assert (∀ v u k, depends services v u → in_wave iw v k →
      ∃ j, j < k ∧ in_wave iw u j) as H1.
    { intros v u k Hd (w & Hk & Hv).
      destruct (leveled_lookup _ _ _ _ _ _ _ _ u Hl Hk Hv) as [Hn|(j & w' & ? & ? & ?)];
        [by eapply depends_lt | by apply He | by apply not_elem_of_nil in Hn|].
      exists j. split; [done|]. by exists w'. }
    intros v u Htc. induction Htc as [v u Hd|v x u Hd _ IH]; intros k Hk; [by eapply H1|].
    destruct (H1 _ _ _ Hd Hk) as (j & ? & Hj). destruct (IH _ Hj) as (i & ? & ?).
    exists i. split; [lia | done]. }
  intros [v Hv].
  assert (∀ k, ¬ in_wave iw v k) as Hno.
  { intros k. induction (lt_wf k) as [k _ IH]. intros Hk.
    destruct (Htc _ _ Hv k Hk) as (j & Hj & Hjv). by apply (IH j). }
  assert (v ∈ concat iw) as Hin.
  { rewrite Hp. apply elem_of_seq.
    assert (v < length services) as ?; [|lia].
    inversion Hv as [? ? Hd|? ? ? Hd]; destruct (depends_lt _ _ _ Hd); lia. }
  apply elem_of_concat in Hin as (w & Hw & Hvw).
  apply list_elem_of_lookup in Hw as [k Hk]. apply (Hno k). by exists w.
Qed.

(** C17: the sort always ends without a panic; it succeeds exactly when no service
    depends, through the services of the list, on itself, and otherwise reports
    the circular dependency. *)
Theorem wave_sort_total services :
  (¬ cyclic services ∧ ∃ waves, sorts_to services (Ok waves)) ∨
  (cyclic services ∧ ∃ e, sorts_to services (Err e)).
Proof.
  destruct (wave_sort_cases services)
    as (iw & d & Hr & Hl & [[Hp Hs]|(Hlt & He & (v & Hv & Hnin))]).
  - left. split; [by eapply sorted_acyclic | eauto].
  - right. split; [|done].
    destruct (wave_sort_done services) as (iw' & d' & Hr' & _ & _ & Hstep & _).
    rewrite Hr in Hr'. simplify_eq.
    apply (left_out_cyclic services
      (λ v, v < length services ∧ v ∉ concat iw')) with (v := v); [|done].
    intros x [Hx Hnx]. split; [done|]. destruct (Hstep x Hx Hnx) as (u & ? & ? & ?). eauto.
Qed.

(** ** Witnesses *)

(** [net] first, then [web] and [log] which follow it; [web] also names an unknown
    unit. *)
Definition example_services : list Service :=
  [ set_dep_lists (Service_minimal "web" "/bin/web") ["net"; "absent"] [] [] [];
    Service_minimal "net" "/bin/net";
    set_dep_lists (Service_minimal "log" "/bin/log") [] [] [] ["net"] ].

Definition example_waves : list (list Service) :=
  [ [Service_minimal "net" "/bin/net"];
    [ set_dep_lists (Service_minimal "web" "/bin/web") ["net"; "absent"] [] [] [];
      set_dep_lists (Service_minimal "log" "/bin/log") [] [] [] ["net"] ] ].

Lemma example_sorts : sorts_to example_services (Ok example_waves).
Proof. vm_compute. reflexivity. Qed.

Lemma wave_sort_permutation_witness :
  concat example_waves ≡ₚ example_services ∧ Forall (λ w, w ≠ []) example_waves.
Proof. apply wave_sort_permutation. exact example_sorts. Defined.

Lemma wave_sort_order_witness :
  ∃ j w' svc', j < 1 ∧ example_waves !! j = Some w' ∧ svc' ∈ w' ∧ svc_name svc' = "net".
Proof.
  eapply (wave_sort_order example_services example_waves 1 _
    (set_dep_lists (Service_minimal "log" "/bin/log") [] [] [] ["net"]));
    [exact example_sorts | reflexivity | right; left | left | ].
  simpl. right. left.
Defined.

Lemma wave_sort_tight_witness :
  ∃ svc', svc' ∈ [Service_minimal "net" "/bin/net"] ∧
    svc_name svc' ∈ order_deps
      (set_dep_lists (Service_minimal "log" "/bin/log") [] [] [] ["net"]).
Proof.
  eapply (wave_sort_tight example_services example_waves 0);
    [exact example_sorts | reflexivity | reflexivity | right; left].
Defined.
