(* ===== verification/CommandLine.v ===== *)
(** * Command lines

    [split_command_line] and [resolve_command_argv] of [quantra/src/process.rs]:
    the shell-like splitter that turns the [command] text of a service into an
    argument vector without running a shell. *)

From Stdlib Require Import ZArith Ascii.
From stdpp Require Import base tactics numbers list strings.
From S2P Require Import Prelude RustStr.

Local Open Scope string_scope.
Local Open Scope list_scope.
Local Open Scope nat_scope.
Local Open Scope quantra_scope.

(** ** The splitter *)

Inductive Mode := Normal | SingleQuoted | DoubleQuoted | Escaped | DoubleEscaped.

Record SplitState := {
  mode : Mode;
  current : string;
  argv : list string;
}.

Definition single_quote : ascii := ascii_of_nat 39.
Definition double_quote : ascii := ascii_of_nat 34.
Definition backslash : ascii := ascii_of_nat 92.
Definition tab : ascii := ascii_of_nat 9.

Definition push_char (s : string) (c : ascii) : string := s +:+ String c "".

Definition is_separator (ch : ascii) : bool :=
  Ascii.eqb ch " " || Ascii.eqb ch tab || Ascii.eqb ch newline.

(** One turn of the [for ch in command.chars()] loop. *)
Definition split_step (st : SplitState) (ch : ascii) : SplitState :=
  let push m := {| mode := m; current := push_char (current st) ch; argv := argv st |} in
  let goto m := {| mode := m; current := current st; argv := argv st |} in
  match mode st with
  | Normal =>
      if is_separator ch then
        if is_empty (current st) then st
        else {| mode := Normal; current := ""; argv := argv st ++ [current st] |}
      else if Ascii.eqb ch backslash then goto Escaped
      else if Ascii.eqb ch single_quote then goto SingleQuoted
      else if Ascii.eqb ch double_quote then goto DoubleQuoted
      else push Normal
  | SingleQuoted => if Ascii.eqb ch single_quote then goto Normal else push SingleQuoted
  | DoubleQuoted =>
      if Ascii.eqb ch double_quote then goto Normal
      else if Ascii.eqb ch backslash then goto DoubleEscaped
      else push DoubleQuoted
  | Escaped => push Normal
  | DoubleEscaped => push DoubleQuoted
  end.

Fixpoint split_run (st : SplitState) (s : string) : SplitState :=
  match s with
  | EmptyString => st
  | String ch s => split_run (split_step st ch) s
  end.

Definition split_init : SplitState := {| mode := Normal; current := ""; argv := [] |}.

(** What follows the loop: unterminated modes, the last word, the empty line. *)
Definition split_finish (st : SplitState) : result string (list string) :=
  match mode st with
  | SingleQuoted => Err "Unterminated single quote in command"
  | DoubleQuoted | DoubleEscaped => Err "Unterminated double quote in command"
  | Escaped => Err "Trailing escape in command"
  | Normal =>
      let argv := if is_empty (current st) then argv st else argv st ++ [current st] in
      match argv with
      | [] => Err "Command line is empty"
      | _ => Ok argv
      end
  end.

Definition split_command_line (command : string) : result string (list string) :=
  split_finish (split_run split_init command).

(** The executable and the rest of the argument vector. *)
Definition resolve_command_argv (command : string) (args : list string)
    : result string (string * list string) :=
  match args with
  | [] =>
      let? parsed := split_command_line command in
      match parsed with
      | [] => Err "Empty command spec"
      | cmd :: rest => Ok (cmd, rest)
      end
  | _ :: _ => Ok (command, args)
  end.

(** ** Quoting, as a specification *)

(** The shell's quoting of an arbitrary text: single quotes around it, and a quote
    inside closed, escaped and reopened. *)
Fixpoint escape_single (s : string) : string :=
  match s with
  | EmptyString => EmptyString
  | String c s =>
      if Ascii.eqb c single_quote
      then String single_quote (String backslash (String single_quote
             (String single_quote (escape_single s))))
      else String c (escape_single s)
  end.

Definition quote (s : string) : string :=
  String single_quote (escape_single s +:+ String single_quote "").

Fixpoint quote_line (args : list string) : string :=
  match args with
  | [] => ""
  | [a] => quote a
  | a :: args => quote a +:+ String " " (quote_line args)
  end.

(** ** Lemmas *)

Lemma split_run_app st a b : split_run st (a +:+ b) = split_run (split_run st a) b.
Proof. revert st. induction a as [|c a IH]; intros st; simpl; [done | apply IH]. Qed.

Lemma push_char_app s c t : push_char s c +:+ t = s +:+ String c t.
Proof. unfold push_char. by rewrite <- string_app_assoc. Qed.

Lemma split_run_escaped s cur av :
  split_run {| mode := SingleQuoted; current := cur; argv := av |} (escape_single s)
  = {| mode := SingleQuoted; current := cur +:+ s; argv := av |}.
Proof.
  revert cur. induction s as [|c s IH]; intros cur; simpl; [by rewrite string_app_nil_r|].
  destruct (Ascii.eqb_spec c single_quote) as [->|Hne].
  - transitivity (split_run {| mode := SingleQuoted;
      current := push_char cur single_quote; argv := av |} (escape_single s));
      [reflexivity|]. by rewrite IH, push_char_app.
  - simpl. unfold split_step. simpl. apply Ascii.eqb_neq in Hne. rewrite Hne.
    by rewrite IH, push_char_app.
Qed.

Lemma split_run_quote s cur av :
  split_run {| mode := Normal; current := cur; argv := av |} (quote s)
  = {| mode := Normal; current := cur +:+ s; argv := av |}.
Proof.
  unfold quote.
  transitivity (split_run {| mode := SingleQuoted; current := cur; argv := av |}
    (escape_single s +:+ String single_quote "")); [reflexivity|].
  by rewrite split_run_app, split_run_escaped.
Qed.

Lemma split_run_line args av :
  args ≠ [] → Forall (λ a, a ≠ "") args →
  split_finish (split_run {| mode := Normal; current := ""; argv := av |}
    (quote_line args)) = Ok (av ++ args).
Proof.
  revert av. induction args as [|a args IH]; intros av Hne Hall; [done|].
  apply Forall_cons in Hall as [Ha Hall]. destruct args as [|b args].
  - simpl quote_line. rewrite split_run_quote. unfold split_finish. simpl.
    destruct a; [done|]. simpl. by destruct av.
  - change (quote_line (a :: b :: args))
      with (quote a +:+ String " " (quote_line (b :: args))).
    rewrite split_run_app, split_run_quote. 
    destruct a as [|c a]; [done|].
    transitivity (split_finish (split_run {| mode := Normal; current := "";
      argv := av ++ [String c a] |} (quote_line (b :: args)))); [reflexivity|].
    rewrite IH by done. by rewrite <- app_assoc.
Qed.

(** The words pushed are never empty, in any mode. *)
Lemma split_run_nonempty st s :
  Forall (λ a, a ≠ "") (argv st) → Forall (λ a, a ≠ "") (argv (split_run st s)).
Proof.
  revert st. induction s as [|c s IH]; intros st Hst; [done|]. simpl. apply IH.
  unfold split_step. destruct (mode st); try (repeat case_match; exact Hst).
  case_match; [|repeat case_match; exact Hst].
  destruct (current st) eqn:E; simpl; [exact Hst|].
  apply Forall_app. split; [exact Hst|]. by repeat constructor.
Qed.

(** Splitting a command line inverts shell quoting: any non-empty list of
    non-empty arguments, whatever characters they hold (blanks, quotes and
    backslashes included), comes back unchanged, as the executable and its
    arguments. *)
Theorem split_command_line_quote args :
  args ≠ [] → Forall (λ a, a ≠ "") args →
  split_command_line (quote_line args) = Ok args ∧
  ∃ cmd rest, args = cmd :: rest ∧
    resolve_command_argv (quote_line args) [] = Ok (cmd, rest).
Proof.
  intros Hne Hall.
  assert (split_command_line (quote_line args) = Ok args) as E
    by (unfold split_command_line, split_init; by rewrite split_run_line).
  split; [done|]. unfold resolve_command_argv. rewrite E.
  destruct args as [|cmd rest]; [done|]. by exists cmd, rest.
Qed.

Lemma split_command_line_quote_witness :
  split_command_line (quote_line ["/bin/echo"; "it's"; "a b"]) = Ok ["/bin/echo"; "it's"; "a b"]
  ∧ ∃ cmd rest, ["/bin/echo"; "it's"; "a b"] = cmd :: rest ∧
    resolve_command_argv (quote_line ["/bin/echo"; "it's"; "a b"]) [] = Ok (cmd, rest).
Proof.
  apply (split_command_line_quote ["/bin/echo"; "it's"; "a b"]).
  - discriminate.
  - repeat constructor; discriminate.
Defined.

(** What a successful split returns: at least one argument and never an empty
    one, so an explicitly quoted empty argument disappears from the vector. *)
Theorem split_command_line_nonempty :
  (∀ command args, split_command_line command = Ok args →
     args ≠ [] ∧ Forall (λ a, a ≠ "") args) ∧
  split_command_line "/bin/app '' -x" = Ok ["/bin/app"; "-x"].
Proof.
  split; [|reflexivity]. intros command args. unfold split_command_line, split_finish.
  assert (Forall (λ a, a ≠ "") (argv (split_run split_init command))) as Hall
    by (apply split_run_nonempty; constructor).
  destruct (mode _); try discriminate.
  destruct (current (split_run split_init command)) as [|c cur]; simpl.
  - destruct (argv _); [discriminate|]. intros [= <-]. done.
  - destruct (argv _ ++ _) as [|a l] eqn:E; [discriminate|]. intros [= <-].
    split; [done|]. rewrite <- E. apply Forall_app. split; [done|]. by repeat constructor.
Qed.
