(* ===== verification/Seccomp.v ===== *)
(** * Capabilities and seccomp filters

    From [quantra/src/process.rs] and [services/supervisor.rs]: capability names,
    the named syscall denylists, the allowlist, and the classic BPF programs that
    [apply_seccomp_denylist] and [apply_seccomp_allowlist] build.  Syscall numbers
    are those of the [libc] crate, a parameter; so is the machine that runs a BPF
    program, given by its documented behaviour on the instruction forms used. *)

From Stdlib Require Import ZArith Ascii.
From stdpp Require Import base tactics numbers list strings sorting.
From S2P Require Import Prelude RustStr Types.

Local Open Scope string_scope.
Local Open Scope list_scope.
Local Open Scope Z_scope.
Local Open Scope quantra_scope.

(** ** Capabilities *)

Definition capability_table : list (string * Z) :=
  [
    ("CAP_CHOWN", 0); ("CAP_DAC_OVERRIDE", 1); ("CAP_DAC_READ_SEARCH", 2);
    ("CAP_FOWNER", 3); ("CAP_FSETID", 4); ("CAP_KILL", 5); ("CAP_SETGID", 6);
    ("CAP_SETUID", 7); ("CAP_SETPCAP", 8); ("CAP_LINUX_IMMUTABLE", 9);
    ("CAP_NET_BIND_SERVICE", 10); ("CAP_NET_BROADCAST", 11); ("CAP_NET_ADMIN", 12);
    ("CAP_NET_RAW", 13); ("CAP_IPC_LOCK", 14); ("CAP_IPC_OWNER", 15);
    ("CAP_SYS_MODULE", 16); ("CAP_SYS_RAWIO", 17); ("CAP_SYS_CHROOT", 18);
    ("CAP_SYS_PTRACE", 19); ("CAP_SYS_PACCT", 20); ("CAP_SYS_ADMIN", 21);
    ("CAP_SYS_BOOT", 22); ("CAP_SYS_NICE", 23); ("CAP_SYS_RESOURCE", 24);
    ("CAP_SYS_TIME", 25); ("CAP_SYS_TTY_CONFIG", 26); ("CAP_MKNOD", 27);
    ("CAP_LEASE", 28); ("CAP_AUDIT_WRITE", 29); ("CAP_AUDIT_CONTROL", 30);
    ("CAP_SETFCAP", 31); ("CAP_MAC_OVERRIDE", 32); ("CAP_MAC_ADMIN", 33);
    ("CAP_SYSLOG", 34); ("CAP_WAKE_ALARM", 35); ("CAP_BLOCK_SUSPEND", 36);
    ("CAP_AUDIT_READ", 37); ("CAP_PERFMON", 38); ("CAP_BPF", 39);
    ("CAP_CHECKPOINT_RESTORE", 40)
  ].

Fixpoint assoc {A} (key : string) (l : list (string * A)) : option A :=
  match l with
  | [] => None
  | (k, v) :: l => if String.eqb key k then Some v else assoc key l
  end.

(** The name with its case and prefix normalised. *)
Definition canonical_capability (name : string) : string :=
  let canonical := to_ascii_uppercase (trim name) in
  if starts_with "CAP_" canonical then canonical else "CAP_" +:+ canonical.

Definition capability_name_to_number (name : string) : option Z :=
  assoc (canonical_capability name) capability_table.

(** Stops at the first unknown name. *)
Fixpoint resolve_capability_numbers (names : list string) : result string (list Z) :=
  match names with
  | [] => Ok []
  | name :: names =>
      let? number := ok_or ("Unknown capability '" +:+ name +:+ "'")
                       (capability_name_to_number name) in
      let? resolved := resolve_capability_numbers names in
      Ok (number :: resolved)
  end.

(** These two skip unknown names. *)
Definition resolve_ambient_caps (names : list string) : list Z :=
  omap capability_name_to_number names.

Definition resolve_bounding_set (names : list string) : list Z :=
  omap (λ n, capability_name_to_number (trim_start_matches "~" n)) names.

(** ** Syscall lists *)

Section syscalls.
Context (SYS : string → Z).

Definition default_denylist : list Z :=
  SYS <$> [
    "mount"; "umount2"; "pivot_root"; "kexec_load"; "reboot"; "init_module";
    "finit_module"; "delete_module"; "swapon"; "swapoff"; "ptrace"; "bpf";
    "perf_event_open"; "syslog"; "iopl"; "ioperm"
  ].

Definition network_daemon_extra : list Z :=
  SYS <$> [
    "unshare"; "setns"; "add_key"; "request_key"; "keyctl"; "userfaultfd"
  ].

Definition network_tight_extra : list Z :=
  SYS <$> [
    "socket"; "socketpair"; "connect"; "bind"; "listen"; "accept"; "accept4"
  ].

(** [Vec::dedup]: removes repeated neighbours. *)
Fixpoint dedup (l : list Z) : list Z :=
  match l with
  | [] => []
  | x :: l' =>
      match l' with
      | [] => [x]
      | y :: _ => if (x =? y) then dedup l' else x :: dedup l'
      end
  end.

(** [sort_unstable] on integers: equal elements are indistinguishable. *)
Definition sort_unstable (l : list Z) : list Z := merge_sort Z.le l.

Definition sort_dedup (l : list Z) : list Z := dedup (sort_unstable l).

Definition SECCOMP_PROFILE_DEFAULT : string := "default".
Definition SECCOMP_PROFILE_NETWORK_DAEMON : string := "network-daemon".
Definition SECCOMP_PROFILE_NETWORK_TIGHT : string := "network-tight".

Definition supported_seccomp_profiles : list string :=
  [SECCOMP_PROFILE_DEFAULT; SECCOMP_PROFILE_NETWORK_DAEMON; SECCOMP_PROFILE_NETWORK_TIGHT].

(** The recursive call of the two network profiles is on the default profile. *)
Definition resolve_seccomp_profile_denylist (name : string) : result string (list Z) :=
  let normalized := to_ascii_lowercase (trim name) in
  if String.eqb normalized SECCOMP_PROFILE_DEFAULT then
    Ok (sort_dedup default_denylist)
  else if String.eqb normalized SECCOMP_PROFILE_NETWORK_DAEMON then
    Ok (sort_dedup (sort_dedup default_denylist ++ network_daemon_extra))
  else if String.eqb normalized SECCOMP_PROFILE_NETWORK_TIGHT then
    Ok (sort_dedup (sort_dedup default_denylist ++ network_tight_extra))
  else
    Err ("Unknown seccomp profile '" +:+ name +:+ "'; supported profiles: " +:+
         SECCOMP_PROFILE_DEFAULT +:+ ", " +:+ SECCOMP_PROFILE_NETWORK_DAEMON +:+ ", " +:+
         SECCOMP_PROFILE_NETWORK_TIGHT).

(** The profile of a service: none for the other two modes, an error when the
    profile name is missing or blank. *)
Definition resolve_seccomp_profile_for_service (svc : Service) : result string (list Z) :=
  match svc_seccomp svc with
  | SeccompMode_Off | SeccompMode_Strict => Ok []
  | SeccompMode_Profile =>
      let? profile_name :=
        ok_or "seccomp is 'profile' but seccomp_profile is not set"
          match svc_seccomp_profile svc with
          | Some v => if is_empty (trim v) then None else Some (trim v)
          | None => None
          end in
      resolve_seccomp_profile_denylist profile_name
  end.

(** The base allowlist of [resolve_seccomp_allowlist]. *)
Definition allowlist_base : list Z :=
  SYS <$> [
    "read"; "write"; "open"; "close"; "stat"; "fstat"; "lstat"; "poll"; "lseek";
    "mmap"; "mprotect"; "munmap"; "brk"; "rt_sigaction"; "rt_sigprocmask";
    "rt_sigreturn"; "ioctl"; "access"; "pipe"; "select"; "sched_yield"; "mremap";
    "msync"; "mincore"; "madvise"; "dup"; "dup2"; "nanosleep"; "getitimer"; "alarm";
    "setitimer"; "getpid"; "sendfile"; "socket"; "connect"; "accept"; "sendto";
    "recvfrom"; "sendmsg"; "recvmsg"; "shutdown"; "bind"; "listen"; "getsockname";
    "getpeername"; "socketpair"; "setsockopt"; "getsockopt"; "clone"; "fork";
    "vfork"; "execve"; "exit"; "wait4"; "kill"; "uname"; "fcntl"; "flock"; "fsync";
    "fdatasync"; "truncate"; "ftruncate"; "getdents"; "getcwd"; "chdir"; "rename";
    "mkdir"; "rmdir"; "creat"; "link"; "unlink"; "symlink"; "readlink"; "chmod";
    "fchmod"; "chown"; "fchown"; "lchown"; "umask"; "gettimeofday"; "getrlimit";
    "getrusage"; "sysinfo"; "times"; "getuid"; "syslog"; "getgid"; "setuid";
    "setgid"; "geteuid"; "getegid"; "setpgid"; "getppid"; "getpgrp"; "setsid";
    "setreuid"; "setregid"; "getgroups"; "setgroups"; "setresuid"; "getresuid";
    "setresgid"; "getresgid"; "getpgid"; "setfsuid"; "setfsgid"; "getsid";
    "rt_sigpending"; "rt_sigtimedwait"; "rt_sigqueueinfo"; "rt_sigsuspend";
    "sigaltstack"; "utime"; "mknod"; "personality"; "statfs"; "fstatfs"; "sysfs";
    "getpriority"; "setpriority"; "prctl"; "arch_prctl"; "setrlimit"; "chroot";
    "sync"; "acct"; "settimeofday"; "mount"; "umount2"; "swapon"; "swapoff";
    "reboot"; "gettid"; "futex"; "sched_setaffinity"; "sched_getaffinity";
    "set_thread_area"; "io_setup"; "epoll_create"; "getdents64"; "set_tid_address";
    "restart_syscall"; "openat"; "mkdirat"; "mknodat"; "fchownat"; "futimesat";
    "newfstatat"; "unlinkat"; "renameat"; "linkat"; "symlinkat"; "readlinkat";
    "fchmodat"; "faccessat"; "pselect6"; "ppoll"; "unshare"; "set_robust_list";
    "get_robust_list"; "splice"; "tee"; "sync_file_range"; "vmsplice"; "move_pages";
    "utimensat"; "epoll_pwait"; "signalfd"; "timerfd_create"; "eventfd";
    "fallocate"; "timerfd_settime"; "timerfd_gettime"; "accept4"; "signalfd4";
    "eventfd2"; "epoll_create1"; "dup3"; "pipe2"; "inotify_init1"; "preadv";
    "pwritev"; "rt_tgsigqueueinfo"; "recvmmsg"; "fanotify_init"; "prlimit64";
    "sendmmsg"; "getcpu"; "process_vm_readv"; "process_vm_writev"; "getrandom";
    "memfd_create"; "execveat"; "copy_file_range"; "statx"; "io_uring_setup";
    "io_uring_enter"; "io_uring_register"; "close_range"; "openat2"; "faccessat2";
    "exit_group"
  ].

Definition resolve_seccomp_allowlist (svc : Service) : list Z :=
  if negb (String.eqb (svc_syscall_filter_mode svc) "allowlist")
     || bool_decide (svc_seccomp svc = SeccompMode_Off)
  then [] else allowlist_base.
End syscalls.

(** ** BPF programs *)

Definition BPF_LD : Z := 0.
Definition BPF_W : Z := 0.
Definition BPF_ABS : Z := 32.
Definition BPF_JMP : Z := 5.
Definition BPF_JEQ : Z := 16.
Definition BPF_K : Z := 0.
Definition BPF_RET : Z := 6.
Definition SECCOMP_RET_KILL_PROCESS : Z := 2147483648.
Definition SECCOMP_RET_ALLOW : Z := 2147418112.
Definition SECCOMP_RET_ERRNO : Z := 327680.
Definition SECCOMP_DATA_NR_OFFSET : Z := 0.
Definition SECCOMP_DATA_ARCH_OFFSET : Z := 4.
(** The constant of the x86_64 build. *)
Definition AUDIT_ARCH_NATIVE : Z := 3221225534.
Definition EPERM : Z := 1.

Record sock_filter := {
  code : Z;
  jt : Z;
  jf : Z;
  k : Z;
}.

Definition bpf_stmt (code k : Z) : sock_filter :=
  {| code := code; jt := 0; jf := 0; k := k |}.

Definition bpf_jump (code k jt jf : Z) : sock_filter :=
  {| code := code; jt := jt; jf := jf; k := k |}.

Definition load_arch : sock_filter :=
  bpf_stmt (Z.lor (Z.lor BPF_LD BPF_W) BPF_ABS) SECCOMP_DATA_ARCH_OFFSET.
Definition load_nr : sock_filter :=
  bpf_stmt (Z.lor (Z.lor BPF_LD BPF_W) BPF_ABS) SECCOMP_DATA_NR_OFFSET.
Definition jeq (k jt jf : Z) : sock_filter :=
  bpf_jump (Z.lor (Z.lor BPF_JMP BPF_JEQ) BPF_K) k jt jf.
Definition ret (k : Z) : sock_filter := bpf_stmt (Z.lor BPF_RET BPF_K) k.

(** The instructions for the numbers of a list: a match falls into the [ret]. *)
Fixpoint match_instrs (action : Z) (syscalls : list Z) : list sock_filter :=
  match syscalls with
  | [] => []
  | nr :: syscalls => jeq (wrap_u32 nr) 0 1 :: ret action :: match_instrs action syscalls
  end.

Definition seccomp_prologue : list sock_filter :=
  [load_arch; jeq AUDIT_ARCH_NATIVE 1 0; ret SECCOMP_RET_KILL_PROCESS; load_nr].

(** The filter of [apply_seccomp_denylist]; [None] is its [return false] on a
    number that is not a [u32]. *)
Definition denylist_filter (denied_syscalls : list Z) : option (list sock_filter) :=
  if forallb (λ nr, negb ((nr <? 0) || (u32_max <? nr))) denied_syscalls
  then Some (seccomp_prologue ++ match_instrs SECCOMP_RET_KILL_PROCESS denied_syscalls
             ++ [ret SECCOMP_RET_ALLOW])
  else None.

Definition allowlist_filter (allowed_syscalls : list Z) : list sock_filter :=
  seccomp_prologue ++ match_instrs SECCOMP_RET_ALLOW allowed_syscalls
  ++ [ret (Z.lor SECCOMP_RET_ERRNO (Z.land EPERM 65535))].

(** [sock_fprog]: the length is truncated to 16 bits. *)
Definition sock_fprog_len (filter : list sock_filter) : Z := wrap_u16 (Z.of_nat (length filter)).

(** ** The machine that runs a filter *)

Record seccomp_data := { sd_nr : Z; sd_arch : Z }.

(** What the kernel documents of classic BPF, for the instruction forms above:
    loads of the two fields, a conditional jump relative to the next instruction,
    and the return of a constant.  [bpf_run d prog a] is the action of the program
    [prog] with accumulator [a]. *)
Class SeccompMachine := {
  bpf_run : seccomp_data → list sock_filter → Z → option Z;
  bpf_run_load_nr d prog a : bpf_run d (load_nr :: prog) a = bpf_run d prog (sd_nr d);
  bpf_run_load_arch d prog a : bpf_run d (load_arch :: prog) a = bpf_run d prog (sd_arch d);
  bpf_run_jeq d prog a k t f :
    bpf_run d (jeq k t f :: prog) a
    = bpf_run d (drop (Z.to_nat (if a =? k then t else f)) prog) a;
  bpf_run_ret d prog a k : bpf_run d (ret k :: prog) a = Some k;
}.

Section run.
Context `{SeccompMachine}.

Lemma run_prologue d prog a :
  bpf_run d (seccomp_prologue ++ prog) a
  = if sd_arch d =? AUDIT_ARCH_NATIVE then bpf_run d prog (sd_nr d)
    else Some SECCOMP_RET_KILL_PROCESS.
Proof.
  unfold seccomp_prologue. simpl. rewrite bpf_run_load_arch, bpf_run_jeq.
  destruct (sd_arch d =? AUDIT_ARCH_NATIVE); simpl.
  - by rewrite bpf_run_load_nr.
  - by rewrite bpf_run_ret.
Qed.

Lemma run_match_instrs d action syscalls prog a :
  bpf_run d (match_instrs action syscalls ++ prog) a
  = if existsb (λ nr, a =? wrap_u32 nr) syscalls then Some action else bpf_run d prog a.
Proof.
  induction syscalls as [|nr syscalls IH]; simpl; [done|].
  rewrite bpf_run_jeq. destruct (a =? wrap_u32 nr); simpl.
  - by rewrite bpf_run_ret.
  - exact IH.
Qed.

Lemma existsb_wrap a l :
  (∀ nr, nr ∈ l → 0 ≤ nr ≤ u32_max) →
  existsb (λ nr, a =? wrap_u32 nr) l = bool_decide (a ∈ l).
Proof.
  induction l as [|x l IH]; intros Hl; simpl.
  - done.
  - rewrite IH by (intros; apply Hl; by right).
    assert (0 ≤ x ≤ u32_max) by (apply Hl; left).
    unfold wrap_u32. rewrite Z.mod_small by (unfold u32_max in *; lia).
    destruct (Z.eqb_spec a x) as [->|Hne]; simpl.
    + symmetry. apply bool_decide_eq_true_2. left.
    + apply bool_decide_ext. rewrite elem_of_cons. naive_solver.
Qed.

Lemma denylist_filter_run denied filter d :
  denylist_filter denied = Some filter →
  bpf_run d filter 0 = Some
    (if bool_decide (sd_arch d ≠ AUDIT_ARCH_NATIVE ∨ sd_nr d ∈ denied)
     then SECCOMP_RET_KILL_PROCESS else SECCOMP_RET_ALLOW).
Proof.
  unfold denylist_filter. destruct (forallb _ denied) eqn:Hall; [|done].
  intros E. apply (inj Some) in E as <-. rewrite run_prologue, run_match_instrs, bpf_run_ret.
  rewrite existsb_wrap.
  - destruct (Z.eqb_spec (sd_arch d) AUDIT_ARCH_NATIVE); repeat case_bool_decide; naive_solver.
  - intros nr Hnr. rewrite forallb_forall in Hall.
    apply list_elem_of_In, Hall in Hnr. bool_to_prop. unfold u32_max in *. lia.
Qed.

(** The denylist filter decides exactly the denylist: under the documented
    behaviour of BPF it kills a process of a foreign syscall ABI and one that makes
    a listed syscall, and allows everything else. *)
Theorem denylist_filter_exact denied filter d :
  denylist_filter denied = Some filter →
  bpf_run d filter 0 = Some
    (if bool_decide (sd_arch d ≠ AUDIT_ARCH_NATIVE ∨ sd_nr d ∈ denied)
     then SECCOMP_RET_KILL_PROCESS else SECCOMP_RET_ALLOW).
Proof. apply denylist_filter_run. Qed.

(** The allowlist filter is the complement: listed syscalls of the native ABI
    are allowed, the others fail with [EPERM], and a foreign ABI is killed. *)
Theorem allowlist_filter_exact allowed d :
  (∀ nr, nr ∈ allowed → 0 ≤ nr ≤ u32_max) →
  bpf_run d (allowlist_filter allowed) 0 = Some
    (if bool_decide (sd_arch d ≠ AUDIT_ARCH_NATIVE) then SECCOMP_RET_KILL_PROCESS
     else if bool_decide (sd_nr d ∈ allowed) then SECCOMP_RET_ALLOW
     else Z.lor SECCOMP_RET_ERRNO (Z.land EPERM 65535)).
Proof.
  intros Hall. unfold allowlist_filter.
  rewrite run_prologue, run_match_instrs, bpf_run_ret, existsb_wrap by done.
  destruct (Z.eqb_spec (sd_arch d) AUDIT_ARCH_NATIVE); repeat case_bool_decide; naive_solver.
Qed.
End run.

(** ** A reference machine *)

(** An interpreter of the instruction forms; a jump only goes forward, so the
    length of the program is enough fuel. *)
Fixpoint ref_run (fuel : nat) (d : seccomp_data) (prog : list sock_filter) (a : Z)
    : option Z :=
  match fuel, prog with
  | S fuel, i :: prog =>
      if code i =? 32 then
        ref_run fuel d prog (if k i =? SECCOMP_DATA_NR_OFFSET then sd_nr d else sd_arch d)
      else if code i =? 21 then
        ref_run fuel d (drop (Z.to_nat (if a =? k i then jt i else jf i)) prog) a
      else if code i =? 6 then Some (k i)
      else None
  | _, _ => None
  end.

Lemma ref_run_fuel fuel fuel' d prog a :
  (length prog ≤ fuel)%nat → (length prog ≤ fuel')%nat →
  ref_run fuel d prog a = ref_run fuel' d prog a.
Proof.
  revert fuel' prog a. induction fuel as [|fuel IH]; intros fuel' prog a Hf Hf';
    destruct prog as [|i prog]; simpl in *; try lia; [by destruct fuel'..|].
  destruct fuel' as [|fuel']; [lia|]. simpl.
  repeat case_match; try done; apply IH; rewrite ?length_drop; lia.
Qed.

#[export, refine] Instance ref_machine : SeccompMachine :=
  { bpf_run d prog a := ref_run (length prog) d prog a }.
Proof.
  - done.
  - done.
  - intros d prog a k0 t f. simpl. apply ref_run_fuel; rewrite ?length_drop; lia.
  - done.
Defined.

(** Numbers of a few syscalls on x86_64, for the examples. *)
Definition sys_x86_64 (name : string) : Z :=
  default 0 (assoc name [("mount", 165); ("reboot", 169); ("bpf", 321); ("socket", 41)]).

Lemma denylist_filter_exact_witness :
  denylist_filter [165; 169] = Some (default [] (denylist_filter [165; 169])) ∧
  bpf_run {| sd_nr := 169; sd_arch := AUDIT_ARCH_NATIVE |}
    (default [] (denylist_filter [165; 169])) 0 = Some SECCOMP_RET_KILL_PROCESS.
Proof.
  split; [reflexivity|].
  exact (denylist_filter_exact [165; 169] (default [] (denylist_filter [165; 169]))
    {| sd_nr := 169; sd_arch := AUDIT_ARCH_NATIVE |} eq_refl).
Defined.

Lemma allowlist_filter_exact_witness :
  bpf_run {| sd_nr := 165; sd_arch := AUDIT_ARCH_NATIVE |} (allowlist_filter [0; 1]) 0
  = Some 327681.
Proof.
  refine (allowlist_filter_exact [0; 1] {| sd_nr := 165; sd_arch := AUDIT_ARCH_NATIVE |} _).
  intros nr Hnr. unfold u32_max. apply elem_of_cons in Hnr as [->|Hnr]; [lia|].
  apply list_elem_of_singleton in Hnr as ->. lia.
Defined.

(** ** Properties of the names and lists *)

Lemma assoc_Some {A} key (l : list (string * A)) v :
  NoDup (fst <$> l) → assoc key l = Some v ↔ (key, v) ∈ l.
Proof.
  induction l as [|[k0 v0] l IH]; simpl; intros Hnd.
  - split; [done|]. intros H. by apply not_elem_of_nil in H.
  - apply NoDup_cons in Hnd as [Hk Hnd]. rewrite elem_of_cons.
    destruct (String.eqb_spec key k0) as [->|Hne].
    + split; [intros [= ->]; by left|]. intros [[= ->]|Hin]; [done|].
      exfalso. apply Hk, list_elem_of_fmap. by exists (k0, v).
    + rewrite IH by done. naive_solver.
Qed.

Lemma capability_names_NoDup : NoDup (fst <$> capability_table).
Proof. apply (bool_decide_eq_true_1 _). vm_compute. reflexivity. Qed.

(** Capability names and numbers: the table is a bijection between its names and
    [0..40]; a name is accepted exactly when its upper-case, prefixed form is in the
    table; and lower case, a missing [CAP_] prefix or surrounding blanks do not
    change the number. *)
Theorem capability_name_to_number_spec :
  (snd <$> capability_table) = Z.of_nat <$> seq 0 41 ∧
  (∀ name n, capability_name_to_number name = Some n ↔
     (canonical_capability name, n) ∈ capability_table) ∧
  (∀ name n, (name, n) ∈ capability_table →
     capability_name_to_number name = Some n ∧
     capability_name_to_number (to_ascii_lowercase name) = Some n ∧
     capability_name_to_number (default name (strip_prefix "CAP_" name)) = Some n ∧
     capability_name_to_number (" " +:+ name +:+ " ") = Some n).
Proof.
  split_and!.
  - reflexivity.
  - intros name n. apply assoc_Some, capability_names_NoDup.
  - intros name n Hin.
    assert (Forall (λ p : string * Z,
      capability_name_to_number p.1 = Some p.2 ∧
      capability_name_to_number (to_ascii_lowercase p.1) = Some p.2 ∧
      capability_name_to_number (default p.1 (strip_prefix "CAP_" p.1)) = Some p.2 ∧
      capability_name_to_number (" " +:+ p.1 +:+ " ") = Some p.2) capability_table) as Hall.
    { apply (bool_decide_eq_true_1 _). vm_compute. reflexivity. }
    rewrite Forall_forall in Hall. exact (Hall _ Hin).
Qed.

Lemma resolve_capability_numbers_Ok names numbers :
  resolve_capability_numbers names = Ok numbers ↔
  Forall2 (λ name n, capability_name_to_number name = Some n) names numbers.
Proof.
  revert numbers. induction names as [|name names IH]; intros numbers; simpl.
  - split; [intros [= <-]; constructor | intros H; by inversion H].
  - rewrite result_bind_Ok. split.
    + intros (n & Hn & Hr). apply result_bind_Ok in Hr as (ns & Hns%IH & [= <-]).
      constructor; [|done]. by destruct (capability_name_to_number name); simplify_eq/=.
    + intros H. inversion H as [|? n ? ns Hn Hns]; subst. exists n. rewrite Hn.
      split; [done|]. apply result_bind_Ok. exists ns. split; [by apply IH | done].
Qed.

Lemma elem_of_dedup x l : x ∈ dedup l ↔ x ∈ l.
Proof.
  induction l as [|a [|b l] IH]; [done..|].
  change (dedup (a :: b :: l)) with (if a =? b then dedup (b :: l) else a :: dedup (b :: l)).
  destruct (Z.eqb_spec a b) as [->|Hne].
  - rewrite IH, !elem_of_cons. naive_solver.
  - by rewrite elem_of_cons, IH, (elem_of_cons (b :: l)).
Qed.

Lemma dedup_sorted l : StronglySorted Z.le l → StronglySorted Z.lt (dedup l).
Proof.
  induction l as [|a [|b l] IH]; intros Hs; [constructor | by repeat constructor|].
  apply StronglySorted_inv in Hs as [Hs Ha]. specialize (IH Hs).
  change (dedup (a :: b :: l)) with (if a =? b then dedup (b :: l) else a :: dedup (b :: l)).
  destruct (Z.eqb_spec a b) as [->|Hne]; [done|]. constructor; [done|].
  apply StronglySorted_inv in Hs as [_ Hb]. apply Forall_cons in Ha as [Hab _].
  rewrite Forall_forall in *. intros x Hx. rewrite elem_of_dedup in Hx.
  apply elem_of_cons in Hx as [->|Hx]; [lia|]. specialize (Hb x Hx). lia.
Qed.

Lemma sort_dedup_spec l :
  StronglySorted Z.lt (sort_dedup l) ∧ ∀ x, x ∈ sort_dedup l ↔ x ∈ l.
Proof.
  unfold sort_dedup, sort_unstable. split.
  - apply dedup_sorted, Sorted_StronglySorted; [intros ???; lia|].
    apply Sorted_merge_sort. intros ??; lia.
  - intros x. rewrite elem_of_dedup. by rewrite merge_sort_Permutation.
Qed.

Lemma dedup_length l : (length (dedup l) ≤ length l)%nat.
Proof.
  induction l as [|a [|b l] IH]; [done..|].
  change (dedup (a :: b :: l)) with (if a =? b then dedup (b :: l) else a :: dedup (b :: l)).
  destruct (a =? b); simpl in *; lia.
Qed.

Lemma sort_dedup_length l : (length (sort_dedup l) ≤ length l)%nat.
Proof.
  unfold sort_dedup, sort_unstable. etrans; [apply dedup_length|].
  by rewrite merge_sort_Permutation.
Qed.

Lemma match_instrs_length action l : length (match_instrs action l) = (2 * length l)%nat.
Proof. induction l; simpl; lia. Qed.

(** The extra syscalls of a profile beyond the default list. *)
Definition profile_extra (SYS : string → Z) (name : string) : option (list Z) :=
  if String.eqb name SECCOMP_PROFILE_DEFAULT then Some []
  else if String.eqb name SECCOMP_PROFILE_NETWORK_DAEMON then Some (network_daemon_extra SYS)
  else if String.eqb name SECCOMP_PROFILE_NETWORK_TIGHT then Some (network_tight_extra SYS)
  else None.

Lemma resolve_profile_cases SYS name :
  match profile_extra SYS (to_ascii_lowercase (trim name)) with
  | Some extra => ∃ l, resolve_seccomp_profile_denylist SYS name = Ok l ∧
      StronglySorted Z.lt l ∧ (∀ x, x ∈ l ↔ x ∈ default_denylist SYS ∨ x ∈ extra) ∧
      (length l ≤ 30)%nat
  | None => ∃ e, resolve_seccomp_profile_denylist SYS name = Err e
  end.
Proof.
  unfold profile_extra, resolve_seccomp_profile_denylist.
  assert (∀ extra, (length extra ≤ 14)%nat →
    ∃ l, Ok (E := string) (sort_dedup (sort_dedup (default_denylist SYS) ++ extra)) = Ok l ∧
      StronglySorted Z.lt l ∧ (∀ x, x ∈ l ↔ x ∈ default_denylist SYS ∨ x ∈ extra) ∧
      (length l ≤ 30)%nat) as Hx.
  { intros extra Hlen. eexists. split; [done|].
    destruct (sort_dedup_spec (sort_dedup (default_denylist SYS) ++ extra)) as [Hs He].
    split_and!; [done| |].
    - intros x. rewrite He, elem_of_app. by rewrite (proj2 (sort_dedup_spec _)).
    - etrans; [apply sort_dedup_length|]. rewrite length_app.
      pose proof (sort_dedup_length (default_denylist SYS)) as Hd. simpl in Hd. lia. }
  destruct (String.eqb _ SECCOMP_PROFILE_DEFAULT).
  - eexists. split; [done|]. destruct (sort_dedup_spec (default_denylist SYS)) as [Hs He].
    split_and!; [done| |].
    + intros x. rewrite He. split; [by left|]. intros [|Hn]; [done|].
      by apply not_elem_of_nil in Hn.
    + etrans; [apply sort_dedup_length|]. simpl. lia.
  - destruct (String.eqb _ SECCOMP_PROFILE_NETWORK_DAEMON); [apply Hx; simpl; lia|].
    destruct (String.eqb _ SECCOMP_PROFILE_NETWORK_TIGHT); [apply Hx; simpl; lia|]. eauto.
Qed.

(** C24: from a profile name to what the kernel enforces: the three supported names
    (any case, surrounding blanks) and no others resolve to a strictly increasing
    list with the default denylist in it, and the filter built from it fits a
    [sock_fprog] and kills exactly those syscalls of the native ABI. *)
Theorem seccomp_profile_enforced `{SeccompMachine} SYS name l :
  (∀ s, 0 ≤ SYS s ≤ u32_max) →
  resolve_seccomp_profile_denylist SYS name = Ok l →
  (∃ p, p ∈ supported_seccomp_profiles ∧ to_ascii_lowercase (trim name) = p) ∧
  StronglySorted Z.lt l ∧ default_denylist SYS ⊆ l ∧
  ∃ filter, denylist_filter l = Some filter ∧
    sock_fprog_len filter = Z.of_nat (length filter) ∧
    ∀ nr, bpf_run {| sd_nr := nr; sd_arch := AUDIT_ARCH_NATIVE |} filter 0 = Some
      (if bool_decide (nr ∈ l) then SECCOMP_RET_KILL_PROCESS else SECCOMP_RET_ALLOW).
Proof.
  intros HSYS Hres. pose proof (resolve_profile_cases SYS name) as Hc.
  destruct (profile_extra _ _) as [extra|] eqn:Eextra; [|destruct Hc; congruence].
  destruct Hc as (l' & Hl' & Hs & Hin & Hlen). rewrite Hres in Hl'. simplify_eq.
  assert (∀ x, x ∈ l' → 0 ≤ x ≤ u32_max) as Hrange.
  { assert (∀ names x, x ∈ SYS <$> names → 0 ≤ x ≤ u32_max) as Hf
      by (intros names x Hx; apply list_elem_of_fmap in Hx as (y & -> & _); apply HSYS).
    intros x. rewrite Hin. intros [Hx|Hx]; [by eapply Hf|].
    unfold profile_extra in Eextra. repeat case_match; simplify_eq;
      [by apply not_elem_of_nil in Hx | by eapply Hf..]. }
  split_and!.
  - unfold profile_extra in Eextra.
    exists (to_ascii_lowercase (trim name)). split; [|done].
    unfold supported_seccomp_profiles.
    repeat match type of Eextra with
    | context [String.eqb ?a ?b] => destruct (String.eqb_spec a b) as [->|_]
    end; simplify_eq; rewrite !elem_of_cons; tauto.
  - done.
  - intros x Hx. apply Hin. by left.
  - unfold denylist_filter.
    assert (forallb (λ nr, negb ((nr <? 0) || (u32_max <? nr))) l' = true) as Hall.
    { apply forallb_forall. intros x Hx%list_elem_of_In%Hrange.
      apply negb_true_iff, orb_false_iff. rewrite !Z.ltb_ge. lia. }
    rewrite Hall. eexists. split_and!; [reflexivity| |].
    + unfold sock_fprog_len, wrap_u16. rewrite Z.mod_small; [done|].
      rewrite !length_app, match_instrs_length. simpl. lia.
    + intros nr. rewrite run_prologue, run_match_instrs, bpf_run_ret, existsb_wrap by done.
      simpl. by case_bool_decide.
Qed.

Lemma seccomp_profile_enforced_witness :
  ∃ l, resolve_seccomp_profile_denylist sys_x86_64 " Network-Daemon " = Ok l ∧
  StronglySorted Z.lt l.
Proof.
  eexists. split; [reflexivity|].
  refine (proj1 (proj2 (seccomp_profile_enforced sys_x86_64 " Network-Daemon " _ _ eq_refl))).
  intros s. unfold sys_x86_64, u32_max. simpl. repeat case_match; simpl; lia.
Defined.
