(* ===== verification/Effects.v ===== *)
(** * Effectful code

    The code that talks to the kernel, the file system, the clock and the other
    threads is a [prog]: a tree of operations, each followed by what the code does
    with the answer.  Trees are finite, so a loop that the code bounds by a
    deadline is written with fuel and proved to end within it.

    A program is related to the world by a step relation, the behaviour that the
    world is known to have: [wp step p w Q] says that [p], started in the world
    [w], ends, whatever answers [step] allows, in a world and with a value that
    satisfy [Q].  [exec] runs a program on a deterministic world. *)

From stdpp Require Import base tactics list.
From S2P Require Import Prelude.

Inductive prog (E : Type → Type) (A : Type) : Type :=
| Ret (a : A)
| Vis {X : Type} (e : E X) (k : X → prog E A).
Arguments Ret {E A} a.
Arguments Vis {E A X} e k.

Fixpoint prog_bind {E A B} (p : prog E A) (k : A → prog E B) : prog E B :=
  match p with
  | Ret a => k a
  | Vis e k' => Vis e (λ x, prog_bind (k' x) k)
  end.

Definition trigger {E X} (e : E X) : prog E X := Vis e Ret.

Declare Scope prog_scope.
Delimit Scope prog_scope with prog.

Notation "'let*' x ':=' c 'in' k" := (prog_bind c (λ x, k))
  (at level 200, x pattern, c at level 100, k at level 200, right associativity)
  : prog_scope.
Notation "c ';*' k" := (prog_bind c (λ _, k))
  (at level 199, k at level 200, right associativity) : prog_scope.
Local Open Scope prog_scope.

(** A fallible step inside a program: the [?] operator. *)
Definition try_bind {E Er A B} (p : prog E (result Er A)) (k : A → prog E (result Er B))
    : prog E (result Er B) :=
  let* r := p in
  match r with
  | Ok a => k a
  | Err e => Ret (Err e)
  end.

Notation "'try*' x ':=' c 'in' k" := (try_bind c (λ x, k))
  (at level 200, x pattern, c at level 100, k at level 200, right associativity)
  : prog_scope.

(** [for x in l { f(x) }]. *)
Fixpoint for_each {E A} (f : A → prog E unit) (l : list A) : prog E unit :=
  match l with
  | [] => Ret tt
  | a :: l => f a;* for_each f l
  end.

(** [for x in l { f(x)?; }]. *)
Fixpoint for_try {E Er A} (f : A → prog E (result Er unit)) (l : list A)
    : prog E (result Er unit) :=
  match l with
  | [] => Ret (Ok tt)
  | a :: l => try* _ := f a in for_try f l
  end.

(** A loop over [l] that stops at the first [Some]. *)
Fixpoint for_break {E A B} (f : A → prog E (option B)) (l : list A) : prog E (option B) :=
  match l with
  | [] => Ret None
  | a :: l =>
      let* r := f a in
      match r with
      | Some b => Ret (Some b)
      | None => for_break f l
      end
  end.

(** [loop { body }] on a state, at most [fuel] times: [inl] is another turn,
    [inr] a [break] or [return]; [None] is out of fuel. *)
Fixpoint loop {E S B} (fuel : nat) (body : S → prog E (S + B)) (s : S) : prog E (option B) :=
  match fuel with
  | O => Ret None
  | S fuel =>
      let* r := body s in
      match r with
      | inl s => loop fuel body s
      | inr b => Ret (Some b)
      end
  end.

(** The same for a body that needs fuel of its own. *)
Fixpoint loop_fuel {E S B} (turns : nat) (body : S → prog E (option (S + B))) (s : S)
    : prog E (option B) :=
  match turns with
  | O => Ret None
  | S turns =>
      let* r := body s in
      match r with
      | Some (inl s) => loop_fuel turns body s
      | Some (inr b) => Ret (Some b)
      | None => Ret None
      end
  end.

(** A step that can run out of fuel: [None] goes through. *)
Definition fuel_bind {E A B} (p : prog E (option A)) (k : A → prog E (option B))
    : prog E (option B) :=
  let* r := p in
  match r with
  | Some a => k a
  | None => Ret None
  end.

Notation "'fuel*' x ':=' c 'in' k" := (fuel_bind c (λ x, k))
  (at level 200, x pattern, c at level 100, k at level 200, right associativity)
  : prog_scope.

(** ** Total correctness *)

Section wp.
Context {E : Type → Type} {W : Type}.
Context (step : ∀ X, E X → W → X → W → Prop).

Fixpoint wp {A} (p : prog E A) (w : W) (Q : W → A → Prop) : Prop :=
  match p with
  | Ret a => Q w a
  | Vis e k => ∀ x w', step _ e w x w' → wp (k x) w' Q
  end.

Lemma wp_mono {A} (p : prog E A) w (Q Q' : W → A → Prop) :
  (∀ w a, Q w a → Q' w a) → wp p w Q → wp p w Q'.
Proof. intros HQ. revert w. induction p; simpl; naive_solver. Qed.

Lemma wp_true {A} (p : prog E A) w (Q : W → A → Prop) : (∀ w a, Q w a) → wp p w Q.
Proof. intros HQ. revert w. induction p; simpl; naive_solver. Qed.

Lemma wp_bind {A B} (p : prog E A) (k : A → prog E B) w Q :
  wp (prog_bind p k) w Q ↔ wp p w (λ w a, wp (k a) w Q).
Proof. revert w. induction p; simpl; naive_solver. Qed.

Lemma wp_bind_2 {A B} (p : prog E A) (k : A → prog E B) w Q R :
  wp p w R → (∀ w a, R w a → wp (k a) w Q) → wp (prog_bind p k) w Q.
Proof. intros Hp Hk. apply wp_bind. by eapply wp_mono. Qed.

Lemma wp_trigger {X} (e : E X) w Q :
  wp (trigger e) w Q ↔ ∀ x w', step _ e w x w' → Q w' x.
Proof. done. Qed.

Lemma wp_op {X A} (e : E X) (k : X → prog E A) w Q :
  (∀ x w', step X e w x w' → wp (k x) w' Q) → wp (prog_bind (trigger e) k) w Q.
Proof. done. Qed.

Lemma wp_try {Er A B} (p : prog E (result Er A)) (k : A → prog E (result Er B)) w Q :
  wp (try_bind p k) w Q ↔
  wp p w (λ w r, match r with Ok a => wp (k a) w Q | Err e => Q w (Err e) end).
Proof.
  unfold try_bind. rewrite wp_bind.
  split; apply wp_mono; intros ? []; simpl; done.
Qed.

Lemma wp_fuel {A B} (p : prog E (option A)) (k : A → prog E (option B)) w Q R :
  wp p w (λ w r, ∃ a, r = Some a ∧ R w a) → (∀ w a, R w a → wp (k a) w Q) →
  wp (fuel_bind p k) w Q.
Proof.
  intros Hp Hk. unfold fuel_bind. eapply wp_bind_2; [exact Hp|].
  intros w' r (a & -> & HR). by apply Hk.
Qed.

Lemma wp_and {A} (p : prog E A) w Q Q' :
  wp p w Q → wp p w Q' → wp p w (λ w a, Q w a ∧ Q' w a).
Proof. revert w. induction p; simpl; naive_solver. Qed.

Lemma wp_all {A B} (p : prog E A) w (Q : B → W → A → Prop) :
  (∀ b, wp p w (Q b)) → wp p w (λ w a, ∀ b, Q b w a).
Proof. revert w. induction p; simpl; naive_solver. Qed.

(** The rule of [for]: an invariant of the list that is left. *)
Lemma wp_for_each {A} (f : A → prog E unit) (I : list A → W → Prop) l w :
  (∀ a l w, I (a :: l) w → wp (f a) w (λ w _, I l w)) →
  I l w → wp (for_each f l) w (λ w _, I [] w).
Proof.
  intros Hf. revert w. induction l as [|a l IH]; intros w HI; simpl; [done|].
  eapply wp_bind_2; [by apply Hf|]. intros w' ? HI'. by apply IH.
Qed.

(** ... and one that does not mention the list. *)
Lemma wp_for_each_inv {A} (f : A → prog E unit) (I : W → Prop) l w :
  (∀ a w, a ∈ l → I w → wp (f a) w (λ w _, I w)) →
  I w → wp (for_each f l) w (λ w _, I w).
Proof.
  intros Hf. revert w. induction l as [|a l IH]; intros w HI; simpl; [done|].
  eapply wp_bind_2; [apply Hf; [left|done]|]. intros w' ? HI'. apply IH; [|done].
  intros b w0 Hb. apply Hf. by right.
Qed.

(** The rule of [loop]: a measure that every further turn lowers is enough fuel. *)
Lemma wp_loop {S B} (body : S → prog E (S + B)) (I : S → W → nat → Prop) Q fuel s w n :
  (∀ s w n, I s w n →
     wp (body s) w (λ w r, match r with
       | inl s => ∃ n', n' < n ∧ I s w n'
       | inr b => Q w b
       end)) →
  I s w n → n < fuel →
  wp (loop fuel body s) w (λ w r, ∃ b, r = Some b ∧ Q w b).
Proof.
  intros Hb. revert s w n. induction fuel as [|fuel IH]; intros s w n HI Hlt; [lia|].
  simpl. eapply wp_bind_2; [by apply (Hb s w n)|]. intros w' [s'|b]; simpl.
  - intros (n' & Hn & HI'). apply (IH s' w' n'); [done|lia].
  - intros HQ. by exists b.
Qed.

(** A sequence of fallible phases: one of them establishes what the later ones keep. *)
Lemma wp_for_try_inv {Er A} (f : A → prog E (result Er unit)) (I : W → Prop) l w :
  (∀ a w, a ∈ l → I w → wp (f a) w (λ w r, r = Ok tt → I w)) →
  I w → wp (for_try f l) w (λ w r, r = Ok tt → I w).
Proof.
  intros Hf. revert w. induction l as [|a l IH]; intros w HI; simpl; [done|].
  apply wp_try. eapply wp_mono; [|apply Hf; [left|done]]. intros w' [[]|e] Ha; [|done].
  apply IH; [|by apply Ha]. intros b w0 Hb. apply Hf. by right.
Qed.

Lemma wp_for_try_phase {Er A} (f : A → prog E (result Er unit)) (J K : W → Prop) l1 a l2 w :
  (∀ b w, b ∈ l1 → J w → wp (f b) w (λ w r, r = Ok tt → J w)) →
  (∀ w, J w → wp (f a) w (λ w r, r = Ok tt → K w)) →
  (∀ b w, b ∈ l2 → K w → wp (f b) w (λ w r, r = Ok tt → K w)) →
  J w → wp (for_try f (l1 ++ a :: l2)) w (λ w r, r = Ok tt → K w).
Proof.
  intros H1 Ha H2. revert w. induction l1 as [|b l1 IH]; intros w HJ; simpl; apply wp_try.
  - eapply wp_mono; [|by apply Ha]. intros w' [[]|e] HK; [|done]. apply wp_for_try_inv; [done|by apply HK].
  - eapply wp_mono; [|apply H1; [left|done]]. intros w' [[]|e] Hb; [|done].
    apply IH; [|by apply Hb]. intros c w0 Hc. apply H1. by right.
Qed.

(** One phase that cannot succeed. *)
Lemma wp_for_try_fails {Er A} (f : A → prog E (result Er unit)) (F : W → Prop) l a w :
  a ∈ l → (∀ b w, b ∈ l → F w → wp (f b) w (λ w _, F w)) →
  (∀ w, F w → wp (f a) w (λ _ r, ∃ e, r = Err e)) →
  F w → wp (for_try f l) w (λ w r, F w ∧ ∃ e, r = Err e).
Proof.
  intros Ha Hl Hfail. revert w Ha Hl. induction l as [|b l IH]; intros w Ha Hl HF; simpl.
  { by apply not_elem_of_nil in Ha. }
  apply wp_try. apply elem_of_cons in Ha as [<-|Ha].
  - eapply wp_mono; [|apply wp_and; [apply Hl; [left|done]|by apply Hfail]].
    intros w' r [HF' [e ->]]. by eauto.
  - eapply wp_mono; [|apply Hl; [left|done]]. intros w' [[]|e] HF'; [|by eauto].
    apply IH; [done| |done]. intros c w0 Hc. apply Hl. by right.
Qed.

(** Code that keeps an invariant, whatever its value. *)
Definition keeps {A} (I : W → Prop) (p : prog E A) : Prop :=
  ∀ w, I w → wp p w (λ w' _, I w').

Lemma keeps_ret {A} I (a : A) : keeps I (Ret a).
Proof. by intros w. Qed.

Lemma keeps_bind {A B} I (p : prog E A) (k : A → prog E B) :
  keeps I p → (∀ a, keeps I (k a)) → keeps I (prog_bind p k).
Proof. intros Hp Hk w HI. eapply wp_bind_2; [by apply Hp|]. intros w' a HI'. by apply Hk. Qed.

Lemma keeps_trigger {X} I (e : E X) :
  (∀ w x w', I w → step X e w x w' → I w') → keeps I (trigger e).
Proof. intros He w HI. apply wp_trigger. eauto. Qed.

Lemma keeps_for_each {A} I (f : A → prog E unit) l :
  (∀ a, keeps I (f a)) → keeps I (for_each f l).
Proof. intros Hf. induction l; simpl; [apply keeps_ret|]. by apply keeps_bind. Qed.

Lemma keeps_for_break {A B} I (f : A → prog E (option B)) l :
  (∀ a, keeps I (f a)) → keeps I (for_break f l).
Proof.
  intros Hf. induction l; simpl; [apply keeps_ret|]. apply keeps_bind; [done|].
  intros [b|]; [apply keeps_ret|done].
Qed.

Lemma keeps_try {Er A B} I (p : prog E (result Er A)) (k : A → prog E (result Er B)) :
  keeps I p → (∀ a, keeps I (k a)) → keeps I (try_bind p k).
Proof. intros Hp Hk. apply keeps_bind; [done|]. intros [a|e]; [apply Hk|apply keeps_ret]. Qed.

Lemma keeps_for_try {Er A} I (f : A → prog E (result Er unit)) l :
  (∀ a, a ∈ l → keeps I (f a)) → keeps I (for_try f l).
Proof.
  intros Hf. induction l as [|a l IH]; simpl; [apply keeps_ret|].
  apply keeps_try; [apply Hf; left|]. intros _. apply IH. intros b Hb. apply Hf. by right.
Qed.

Lemma keeps_loop {S B} I fuel (body : S → prog E (S + B)) s :
  (∀ s, keeps I (body s)) → keeps I (loop fuel body s).
Proof.
  intros Hb. revert s. induction fuel; intros s; simpl; [apply keeps_ret|].
  apply keeps_bind; [done|]. intros [|]; [done|apply keeps_ret].
Qed.

(** A loop that may go on for ever. *)
Lemma wp_loop_inv {S B} (I : S → W → Prop) (Q : W → B → Prop)
    (body : S → prog E (S + B)) fuel s w :
  (∀ s w, I s w → wp (body s) w (λ w r, match r with inl s => I s w | inr b => Q w b end)) →
  I s w → wp (loop fuel body s) w (λ w r, match r with Some b => Q w b | None => ∃ s, I s w end).
Proof.
  intros Hb. revert s w. induction fuel as [|fuel IH]; intros s w HI; simpl; [by exists s|].
  eapply wp_bind_2; [by apply Hb|]. intros w' [s'|b] Hr; simpl; [by apply IH|done].
Qed.

Lemma keeps_loop_fuel {S B} I turns (body : S → prog E (option (S + B))) s :
  (∀ s, keeps I (body s)) → keeps I (loop_fuel turns body s).
Proof.
  intros Hb. revert s. induction turns; intros s; simpl; [apply keeps_ret|].
  apply keeps_bind; [done|]. intros [[|]|]; [done|apply keeps_ret..].
Qed.

(** An invariant of the turns, for code that may go on for ever. *)
Lemma wp_loop_fuel {S B} (I : S → W → Prop) (Q : W → Prop)
    (body : S → prog E (option (S + B))) turns s w :
  (∀ s w, I s w → Q w) →
  (∀ s w, I s w → wp (body s) w (λ w r, match r with Some (inl s) => I s w | _ => Q w end)) →
  I s w → wp (loop_fuel turns body s) w (λ w _, Q w).
Proof.
  intros HQ Hb. revert s w. induction turns as [|turns IH]; intros s w HI; simpl; [by eapply HQ|].
  eapply wp_bind_2; [by apply Hb|]. intros w' [[s'|b]|] Hr; simpl; [by apply IH|done..].
Qed.

(** Used in the middle of a program. *)
Lemma wp_keeps_bind {A B} I (p : prog E A) (k : A → prog E B) w Q :
  keeps I p → I w → (∀ w a, I w → wp (k a) w Q) → wp (prog_bind p k) w Q.
Proof. intros Hp HI Hk. eapply wp_bind_2; [by apply Hp|]. done. Qed.
End wp.

(** Goes through the structure of a program; the operations that are left over are
    those that touch the invariant. *)
Ltac keeps :=
  repeat first
    [ apply keeps_ret | apply keeps_bind; [|intros ?]
    | apply keeps_for_each; intros ? | apply keeps_for_break; intros ?
    | apply keeps_loop; intros ? | apply keeps_loop_fuel; intros ?
    | case_match
    | apply keeps_trigger; intros ? ? ? ?; simpl; try done; naive_solver ].

(** ** Running a program *)

(** A deterministic world: an answer and the next world for every operation. *)
Fixpoint exec {E W A} (h : ∀ X, E X → W → X * W) (p : prog E A) (w : W) : A * W :=
  match p with
  | Ret a => (a, w)
  | Vis e k => let (x, w') := h _ e w in exec h (k x) w'
  end.

Lemma exec_wp {E W A} (step : ∀ X, E X → W → X → W → Prop) (h : ∀ X, E X → W → X * W)
    (p : prog E A) w Q :
  (∀ X (e : E X) w, step X e w (fst (h X e w)) (snd (h X e w))) →
  wp step p w Q → Q (snd (exec h p w)) (fst (exec h p w)).
Proof.
  intros Hh. revert w. induction p as [a|X e k IH]; intros w; simpl; [done|].
  intros Hwp. specialize (Hh X e w). destruct (h X e w) as [x w']. by apply IH, Hwp.
Qed.

(** A run of a program, as a relation: for an operation of one program that is a program
    itself. *)
Fixpoint runs {E W A} (step : ∀ X, E X → W → X → W → Prop) (p : prog E A) (w : W) (a : A) (w' : W) : Prop :=
  match p with
  | Ret b => b = a ∧ w' = w
  | Vis e k => ∃ x w1, step _ e w x w1 ∧ runs step (k x) w1 a w'
  end.

Lemma runs_wp {E W A} (step : ∀ X, E X → W → X → W → Prop) (p : prog E A) w a w' Q :
  runs step p w a w' → wp step p w Q → Q w' a.
Proof.
  revert w. induction p as [b|X e k IH]; intros w; simpl; [by intros [-> ->]|].
  intros (x & w1 & Hs & Hr) Hwp. by eapply IH, Hwp.
Qed.

(** A world that only records what happens: the answers are arbitrary. *)
Definition record_step {E W} (f : ∀ X, E X → X → W → W) : ∀ X, E X → W → X → W → Prop :=
  λ X e w x w', w' = f X e x w.

(** Every operation that a program can perform satisfies [P]. *)
Fixpoint performs {E A} (P : ∀ X, E X → Prop) (p : prog E A) : Prop :=
  match p with
  | Ret _ => True
  | Vis e k => P _ e ∧ ∀ x, performs P (k x)
  end.

Section performs.
Context {E : Type → Type} (P : ∀ X, E X → Prop).

Lemma performs_ret {A} (a : A) : performs P (Ret a).
Proof. done. Qed.

Lemma performs_op {X} (e : E X) : P X e → performs P (trigger e).
Proof. by split. Qed.

Lemma performs_bind {A B} (p : prog E A) (k : A → prog E B) :
  performs P p → (∀ a, performs P (k a)) → performs P (prog_bind p k).
Proof. intros Hp Hk. induction p as [a|X e k' IH]; simpl in *; [done|]. destruct Hp. split; [done|]. auto. Qed.

Lemma performs_for_each {A} (f : A → prog E unit) l : (∀ a, performs P (f a)) → performs P (for_each f l).
Proof. intros Hf. induction l; simpl; [done|]. by apply performs_bind. Qed.

Lemma performs_loop {S B} fuel (body : S → prog E (S + B)) s :
  (∀ s, performs P (body s)) → performs P (loop fuel body s).
Proof.
  intros Hb. revert s. induction fuel; intros s; simpl; [done|]. apply performs_bind; [done|]. by intros [].
Qed.
End performs.

Lemma performs_mono {E A} (P Q : ∀ X, E X → Prop) (p : prog E A) :
  (∀ X e, P X e → Q X e) → performs P p → performs Q p.
Proof. intros HPQ. induction p as [a|X e k IH]; simpl; [done|]. intros [He Hk]. split; [by apply HPQ|]. auto. Qed.

Lemma performs_try {E Er A B} (P : ∀ X, E X → Prop) (p : prog E (result Er A)) (k : A → prog E (result Er B)) :
  performs P p → (∀ a, performs P (k a)) → performs P (try_bind p k).
Proof. intros Hp Hk. unfold try_bind. apply performs_bind; [done|]. intros [a|e]; [apply Hk|done]. Qed.

Lemma performs_fuel {E A B} (P : ∀ X, E X → Prop) (p : prog E (option A)) (k : A → prog E (option B)) :
  performs P p → (∀ a, performs P (k a)) → performs P (fuel_bind p k).
Proof. intros Hp Hk. unfold fuel_bind. apply performs_bind; [done|]. intros [a|]; [apply Hk|done]. Qed.

Lemma performs_for_each_in {E A} (P : ∀ X, E X → Prop) (f : A → prog E unit) l :
  (∀ a, a ∈ l → performs P (f a)) → performs P (for_each f l).
Proof.
  intros Hf. induction l as [|a l IH]; simpl; [done|].
  apply performs_bind; [apply Hf; left|]. intros _. apply IH. intros b Hb. apply Hf. by right.
Qed.

Lemma performs_for_try_in {E Er A} (P : ∀ X, E X → Prop) (f : A → prog E (result Er unit)) l :
  (∀ a, a ∈ l → performs P (f a)) → performs P (for_try f l).
Proof.
  intros Hf. induction l as [|a l IH]; simpl; [done|].
  apply performs_try; [apply Hf; left|]. intros _. apply IH. intros b Hb. apply Hf. by right.
Qed.

Lemma performs_for_break {E A B} (P : ∀ X, E X → Prop) (f : A → prog E (option B)) l :
  (∀ a, performs P (f a)) → performs P (for_break f l).
Proof. intros Hf. induction l; simpl; [done|]. apply performs_bind; [done|]. by intros []. Qed.

(** Operations that each keep an invariant. *)
Lemma performs_keeps {E W A} (step : ∀ X, E X → W → X → W → Prop) (P : ∀ X, E X → Prop)
    (I : W → Prop) (p : prog E A) :
  (∀ X e w x w', P X e → I w → step X e w x w' → I w') → performs P p → keeps step I p.
Proof.
  intros He. unfold keeps. induction p as [a|X e k IH]; simpl; [done|].
  intros [HP Hk] w HI x w' Hs. apply IH; [done|]. by eapply He.
Qed.

(** Two views of a world: what happened, and what time it is. *)
Definition both {E W W'} (s : ∀ X, E X → W → X → W → Prop) (s' : ∀ X, E X → W' → X → W' → Prop)
    : ∀ X, E X → W * W' → X → W * W' → Prop :=
  λ X e w x w', s X e w.1 x w'.1 ∧ s' X e w.2 x w'.2.

Lemma wp_both {E W W' A} (s : ∀ X, E X → W → X → W → Prop) (s' : ∀ X, E X → W' → X → W' → Prop)
    (p : prog E A) w w' Q Q' :
  wp s p w Q → wp s' p w' Q' → wp (both s s') p (w, w') (λ w a, Q w.1 a ∧ Q' w.2 a).
Proof.
  revert w w'. induction p as [a|X e k IH]; intros w w'; simpl; [done|].
  intros H H' x [v v'] [Hs Hs']. simpl in Hs, Hs'. apply IH; [by apply H|by apply H'].
Qed.

(** Code that does not run out of fuel. *)
Section ends.
Context {E : Type → Type} {W : Type} (step : ∀ X, E X → W → X → W → Prop).

Definition ends {A} (p : prog E (option A)) : Prop := ∀ w, wp step p w (λ _ r, r ≠ None).

Lemma ends_some {A} (a : A) : ends (Ret (Some a)).
Proof. done. Qed.

Lemma ends_bind {A B} (p : prog E A) (k : A → prog E (option B)) :
  (∀ a, ends (k a)) → ends (prog_bind p k).
Proof. intros Hk w. eapply wp_bind_2 with (R := λ _ _, True); [by apply wp_true|]. intros w' a _. apply Hk. Qed.

Lemma ends_fuel {A B} (p : prog E (option A)) (k : A → prog E (option B)) :
  ends p → (∀ a, ends (k a)) → ends (fuel_bind p k).
Proof. intros Hp Hk w. eapply wp_bind_2; [apply Hp|]. intros w' [a|] Ha; [apply Hk|done]. Qed.
End ends.

(** Goes through the structure of a program down to its waits. *)
Ltac ends :=
  repeat first
    [ simple apply ends_some | simple apply ends_fuel; [|intros ?] | simple apply ends_bind; intros ? | case_match ].

(** A world seen through a projection. *)
Lemma wp_project {E W W' A} (step : ∀ X, E X → W → X → W → Prop)
    (step' : ∀ X, E X → W' → X → W' → Prop) (f : W → W') (p : prog E A) w Q :
  (∀ X e w x w', step X e w x w' → step' X e (f w) x (f w')) →
  wp step' p (f w) Q → wp step p w (λ w a, Q (f w) a).
Proof.
  intros Hf. revert w. induction p as [a|X e k IH]; intros w; simpl; [done|].
  intros Hp x w' Hs. apply IH, Hp. by apply Hf.
Qed.
