(* ===== verification/Launch.v ===== *)
(** * Starting a process

    [start_service_as] of [quantra/src/process.rs]: what the parent prepares before
    [fork], and the exact sequence of calls that the child makes from there to
    [execvpe].  The child is a [prog] over [Sys], its calls to the C library; the
    three that other crates or modules implement (AppArmor, the sandbox, which [Sandbox]
    models, the opening of the console) are single operations. *)

From Stdlib Require Import ZArith Ascii.
From stdpp Require Import base tactics numbers list strings gmap sorting.
From S2P Require Import Prelude RustStr Types Seccomp Effects.

Local Open Scope string_scope.
Local Open Scope list_scope.
Local Open Scope Z_scope.
Local Open Scope quantra_scope.
Local Open Scope prog_scope.

(** ** What to start *)

Definition BASE_PATH : string :=
  "/overlayer/syshub/bin:/overlayer/syshub/sbin:/overlayer/syshub/x86_64-zainium-linux-musl/bin:/overlayer/zexlib/union/bin".

Definition SD_LISTEN_FDS_START : Z := 3.
Definition PR_CAPBSET_DROP : Z := 24.
Definition PR_CAP_AMBIENT : Z := 47.
Definition PR_CAP_AMBIENT_CLEAR_ALL : Z := 4.
Definition PR_CAP_AMBIENT_RAISE : Z := 2.
(** From the [libc] crate. *)
Definition PR_SET_NO_NEW_PRIVS : Z := 38.
Definition PR_SET_DUMPABLE : Z := 4.
Definition FD_CLOEXEC : Z := 1.

Record ServiceLaunch := {
  sl_cmd : string;
  sl_args : list string;
  sl_uid : option Z;
  sl_gid : option Z;
  sl_working_dir : option string;
  sl_tty_path : option string;
  sl_env : option (gmap string string);
  sl_log_write_fd : option Z;
  sl_activation_fds : list Z;
  sl_apparmor_profile : option string;
  sl_no_new_privileges : bool;
  sl_non_dumpable : bool;
  sl_clear_ambient_caps : bool;
  sl_drop_capabilities : list Z;
  sl_ambient_capabilities : list Z;
  sl_capability_bounding_set : list Z;
  sl_seccomp_profile_denylist : list Z;
  sl_seccomp_allowlist : list Z;
  sl_seccomp_strict : bool;
  sl_rlimit : option ResourceLimits;
  sl_private_tmp : bool;
  sl_protect_system : bool;
  sl_landlock_paths : list string;
  sl_service_for_sandbox : option Service;
}.

(** [start_service]: nothing special. *)
Definition start_service_launch (cmd : string) (args : list string) : ServiceLaunch := {|
  sl_cmd := cmd;
  sl_args := args;
  sl_uid := None;
  sl_gid := None;
  sl_working_dir := None;
  sl_tty_path := None;
  sl_env := None;
  sl_log_write_fd := None;
  sl_activation_fds := [];
  sl_apparmor_profile := None;
  sl_no_new_privileges := true;
  sl_non_dumpable := true;
  sl_clear_ambient_caps := false;
  sl_drop_capabilities := [];
  sl_ambient_capabilities := [];
  sl_capability_bounding_set := [];
  sl_seccomp_profile_denylist := [];
  sl_seccomp_allowlist := [];
  sl_seccomp_strict := false;
  sl_rlimit := None;
  sl_private_tmp := false;
  sl_protect_system := false;
  sl_landlock_paths := [];
  sl_service_for_sandbox := None
|}.

(** ** In the parent, before [fork] *)

(** Position of the first NUL byte, which [CString::new] refuses. *)
Fixpoint nul_position (s : string) : option nat :=
  match s with
  | EmptyString => None
  | String c s =>
      if Ascii.eqb c zero then Some O else S <$> nul_position s
  end.

Definition CString (s : string) : result string string :=
  match nul_position s with
  | None => Ok s
  | Some n => Err ("nul byte found in provided data at position: " +:+ show_nat n)
  end.

Fixpoint c_args (args : list string) : result string (list string) :=
  match args with
  | [] => Ok []
  | arg :: args =>
      let? a := map_err (λ e, "Invalid arg '" +:+ arg +:+ "': " +:+ e) (CString arg) in
      let? l := c_args args in
      Ok (a :: l)
  end.

(** The environment: three base variables under the service's own. *)
Definition env_map (svc_env : option (gmap string string)) : gmap string string :=
  let base : gmap string string :=
    <["TERM" := "linux"]> (<["HOME" := "/"]> (<["PATH" := BASE_PATH]> ∅)) in
  match svc_env with
  | Some env => env ∪ base
  | None => base
  end.

(** Entries that hold a NUL byte are left out. *)
Definition c_env (env : gmap string string) : list string :=
  omap (λ '(k, v), match CString (k +:+ "=" +:+ v) with Ok s => Some s | Err _ => None end)
    (map_to_list env).

(** What the child finds in its copy of the parent's memory. *)
Record Prepared := {
  p_cmd : string;
  p_argv : list string;
  p_envp : list string;
  p_cwd : string;
  p_tty : option string;
}.

Definition prepare (cfg : ServiceLaunch) : result string Prepared :=
  let? cmd := map_err (λ e, "Invalid cmd '" +:+ sl_cmd cfg +:+ "': " +:+ e)
                (CString (sl_cmd cfg)) in
  let? args := c_args (sl_args cfg) in
  let env := c_env (env_map (sl_env cfg)) in
  let? cwd := map_err (λ e, "Invalid working_dir: " +:+ e)
                (CString (default "/" (sl_working_dir cfg))) in
  let? tty :=
    match sl_tty_path cfg with
    | Some path =>
        let? t := map_err (λ e, "Invalid tty_path '" +:+ path +:+ "': " +:+ e)
                    (CString path) in
        Ok (Some t)
    | None => Ok None
    end in
  Ok {| p_cmd := cmd; p_argv := cmd :: args; p_envp := env; p_cwd := cwd; p_tty := tty |}.

(** ** The calls of the child *)

(** Integer results are those of the C functions: [0] or a descriptor on success,
    negative (nonzero for the [prctl]s) on failure. *)
Inductive Sys : Type → Type :=
| Child_err (msg : string) : Sys unit
| Setsid : Sys Z
| Open (path : string) (flags : Z) : Sys Z
| Tiocsctty (fd : Z) : Sys Z
| Dup2 (oldfd newfd : Z) : Sys Z
| Close (fd : Z) : Sys unit
| Fcntl_getfd (fd : Z) : Sys Z
| Fcntl_setfd (fd flags : Z) : Sys Z
| Open_console : Sys (option Z)
| Chdir (path : string) : Sys Z
| Setgroups_none : Sys Z
| Setgid (gid : Z) : Sys Z
| Setuid (uid : Z) : Sys Z
| Prctl (option arg2 arg3 : Z) : Sys Z
| Confine_next_exec (profile : string) : Sys bool
| Seccomp_strict : Sys Z
| Seccomp_filter (len : Z) (filter : list sock_filter) : Sys Z
| Setrlimit (resource : Rlimit) (cur max : Z) : Sys unit
| Unshare_newns : Sys Z
| Mount (source target fstype : string) (flags : Z) (data : string) : Sys unit
| Landlock_create_ruleset (access : Z) : Sys Z
| Landlock_add_rule (ruleset fd access : Z) : Sys unit
| Landlock_restrict_self (ruleset : Z) : Sys unit
| Apply_sandbox (svc : Service) : Sys (result string unit)
| Execvpe (cmd : string) (argv envp : list string) : Sys bool.

(** How the child's run of this code ends: it exited, or it became the service. *)
Inductive ChildEnd := Exited (code : Z) | Replaced.

Definition fail (msg : string) : prog Sys ChildEnd :=
  trigger (Child_err msg);* Ret (Exited 1).

Definition O_RDWR : Z := 2.
Definition O_PATH_CLOEXEC : Z := Z.lor 2097152 524288.
Definition MS_RDONLY : Z := 1.
Definition MS_NOSUID : Z := 2.
Definition MS_NODEV : Z := 4.
Definition MS_REMOUNT : Z := 32.
Definition MS_BIND : Z := 4096.

(** ** Standard streams *)

(** [true] when the terminal is attached. *)
Definition attach_terminal (path : string) : prog Sys bool :=
  let* fd := trigger (Open path O_RDWR) in
  if fd <? 0 then Ret false
  else
    let* rc := trigger (Tiocsctty fd) in
    if rc <? 0 then trigger (Close fd);* Ret false
    else
      let* dup_stdin := trigger (Dup2 fd 0) in
      let* dup_stdout := trigger (Dup2 fd 1) in
      let* dup_stderr := trigger (Dup2 fd 2) in
      trigger (Close fd);*
      Ret (negb ((dup_stdin <? 0) || (dup_stdout <? 0) || (dup_stderr <? 0))).

(** The [File] is closed when it goes out of scope. *)
Definition setup_console_io : prog Sys bool :=
  let* console := trigger Open_console in
  match console with
  | Some fd =>
      trigger (Dup2 fd 0);* trigger (Dup2 fd 1);* trigger (Dup2 fd 2);*
      trigger (Close fd);* Ret true
  | None => Ret false
  end.

(** Step 2 of the child; [false] is the fatal case. *)
Definition setup_stdio (tty : option string) (log_fd : option Z) : prog Sys bool :=
  match tty with
  | Some path =>
      let* attached := attach_terminal path in
      if attached then Ret true else setup_console_io
  | None =>
      match log_fd with
      | None => setup_console_io;* Ret true
      | Some _ => Ret true
      end
  end.

(** Step 5: the logger pipe. *)
Definition redirect_log (log_fd : option Z) : prog Sys unit :=
  match log_fd with
  | Some wfd => trigger (Dup2 wfd 1);* trigger (Dup2 wfd 2);* trigger (Close wfd)
  | None => Ret tt
  end.

(** Step 6: one activation descriptor. *)
Definition dup_activation (i : Z) (src_fd : Z) : prog Sys unit :=
  let target := SD_LISTEN_FDS_START + i in
  (if src_fd =? target then Ret tt else trigger (Dup2 src_fd target);* Ret tt);*
  let* flags := trigger (Fcntl_getfd target) in
  trigger (Fcntl_setfd target (Z.land flags (Z.lnot FD_CLOEXEC)));*
  Ret tt.

Fixpoint dup_activations (i : Z) (act_fds : list Z) : prog Sys unit :=
  match act_fds with
  | [] => Ret tt
  | src_fd :: act_fds => dup_activation i src_fd;* dup_activations (i + 1) act_fds
  end.

(** ** Privileges and hardening *)

(** Step 4: [None] when the identity is as configured, the message otherwise. *)
Definition drop_privileges (uid gid : option Z) : prog Sys (option string) :=
  match uid, gid with
  | None, None => Ret None
  | _, _ =>
      let* rc := trigger Setgroups_none in
      if negb (rc =? 0) then Ret (Some "[zai-init] setgroups failed")
      else
        let* rc := match gid with Some g => trigger (Setgid g) | None => Ret 0 end in
        if negb (rc =? 0) then Ret (Some "[zai-init] setgid failed")
        else
          let* rc := match uid with Some u => trigger (Setuid u) | None => Ret 0 end in
          if negb (rc =? 0) then Ret (Some "[zai-init] setuid failed")
          else Ret None
  end.

(** [cfg.flag && prctl(...) != 0]. *)
Definition prctl_if (flag : bool) (option arg2 : Z) : prog Sys bool :=
  if flag then
    let* rc := trigger (Prctl option arg2 0) in
    Ret (rc =? 0)
  else Ret true.

(** Capabilities [0..40], the upper bound excluded. *)
Definition cap_range : list Z := Z.of_nat <$> seq 0 40.

Definition drop_outside_bounding_set (keep : list Z) : prog Sys unit :=
  match keep with
  | [] => Ret tt
  | _ =>
      for_each (λ cap,
        if bool_decide (cap ∈ keep) then Ret tt
        else trigger (Prctl PR_CAPBSET_DROP cap 0);* Ret tt) cap_range
  end.

(** [None] when every capability was dropped. *)
Definition drop_capabilities (caps : list Z) : prog Sys (option unit) :=
  for_break (λ cap,
    let* rc := trigger (Prctl PR_CAPBSET_DROP cap 0) in
    Ret (if rc =? 0 then None else Some tt)) caps.

Definition raise_ambient (caps : list Z) : prog Sys unit :=
  for_each (λ cap,
    let* rc := trigger (Prctl PR_CAP_AMBIENT PR_CAP_AMBIENT_RAISE cap) in
    if rc =? 0 then Ret tt
    else trigger (Child_err "[zai-init] ambient cap raise failed (non-fatal)")) caps.

Definition apply_child_hardening (cfg : ServiceLaunch) : prog Sys bool :=
  let* ok := prctl_if (sl_no_new_privileges cfg) PR_SET_NO_NEW_PRIVS 1 in
  if negb ok then Ret false
  else
    let* ok := prctl_if (sl_non_dumpable cfg) PR_SET_DUMPABLE 0 in
    if negb ok then Ret false
    else
      let* ok := prctl_if (sl_clear_ambient_caps cfg) PR_CAP_AMBIENT PR_CAP_AMBIENT_CLEAR_ALL in
      if negb ok then Ret false
      else
        drop_outside_bounding_set (sl_capability_bounding_set cfg);*
        let* failed := drop_capabilities (sl_drop_capabilities cfg) in
        match failed with
        | Some _ => Ret false
        | None => raise_ambient (sl_ambient_capabilities cfg);* Ret true
        end.

(** The seccomp modes, the first that is configured. *)
Definition apply_seccomp_allowlist (allowed : list Z) : prog Sys bool :=
  let filter := allowlist_filter allowed in
  trigger (Prctl PR_SET_NO_NEW_PRIVS 1 0);*
  let* rc := trigger (Seccomp_filter (sock_fprog_len filter) filter) in
  Ret (rc =? 0).

Definition apply_seccomp_denylist (denied : list Z) : prog Sys bool :=
  match denied with
  | [] => Ret true
  | _ =>
      match denylist_filter denied with
      | None => Ret false
      | Some filter =>
          let* rc := trigger (Seccomp_filter (sock_fprog_len filter) filter) in
          Ret (rc =? 0)
      end
  end.

Definition apply_seccomp (cfg : ServiceLaunch) : prog Sys (option string) :=
  match sl_seccomp_allowlist cfg with
  | _ :: _ =>
      let* ok := apply_seccomp_allowlist (sl_seccomp_allowlist cfg) in
      Ret (if ok then None else Some "[zai-init] seccomp allowlist apply failed")
  | [] =>
      match sl_seccomp_profile_denylist cfg with
      | _ :: _ =>
          let* ok := apply_seccomp_denylist (sl_seccomp_profile_denylist cfg) in
          Ret (if ok then None else Some "[zai-init] seccomp profile apply failed")
      | [] =>
          if sl_seccomp_strict cfg then
            let* rc := trigger Seccomp_strict in
            Ret (if rc =? 0 then None else Some "[zai-init] seccomp strict mode apply failed")
          else Ret None
      end
  end.

(** ** Isolation *)

Definition apply_limits (rl : option ResourceLimits) : prog Sys unit :=
  match rl with
  | Some rl =>
      for_each (λ '(resource, cur, max), trigger (Setrlimit resource cur max))
        (ResourceLimits_apply rl)
  | None => Ret tt
  end.

(** The private mount namespace; a failure is reported and ignored. *)
Definition isolate_namespace (private_tmp protect_system : bool) : prog Sys unit :=
  if private_tmp || protect_system then
    let* rc := trigger Unshare_newns in
    if rc =? 0 then
      (if private_tmp
       then trigger (Mount "tmpfs" "/tmp" "tmpfs" (Z.lor MS_NOSUID MS_NODEV)
                       "size=64M,mode=1777")
       else Ret tt);*
      (if protect_system
       then trigger (Mount "" "/" "" (Z.lor (Z.lor MS_REMOUNT MS_RDONLY) MS_BIND) "")
       else Ret tt)
    else trigger (Child_err "[zai-init] unshare(CLONE_NEWNS) failed")
  else Ret tt.

Definition LANDLOCK_ACCESS_FS_READ : Z :=
  Z.lor (Z.lor (Z.lor (Z.lor (Z.lor 1 2) 4) 8) 16) 32.

Definition landlock_path (ruleset_fd : Z) (path : string) : prog Sys unit :=
  match CString path with
  | Ok cpath =>
      let* fd := trigger (Open cpath O_PATH_CLOEXEC) in
      if 0 <=? fd then
        trigger (Landlock_add_rule ruleset_fd fd LANDLOCK_ACCESS_FS_READ);*
        trigger (Close fd)
      else Ret tt
  | Err _ => Ret tt
  end.

Definition apply_landlock (paths : list string) : prog Sys unit :=
  let* ruleset_fd := trigger (Landlock_create_ruleset LANDLOCK_ACCESS_FS_READ) in
  if ruleset_fd <? 0 then Ret tt
  else
    for_each (landlock_path ruleset_fd) paths;*
    trigger (Landlock_restrict_self ruleset_fd);*
    trigger (Close ruleset_fd).

Definition isolate_landlock (paths : list string) : prog Sys unit :=
  match paths with
  | [] => Ret tt
  | _ => apply_landlock paths
  end.

Definition isolate_sandbox (svc : option Service) : prog Sys unit :=
  match svc with
  | Some svc =>
      let* r := trigger (Apply_sandbox svc) in
      match r with
      | Ok _ => Ret tt
      | Err e =>
          trigger (Child_err "[zai-init] sandbox::apply_sandbox failed");*
          trigger (Child_err e)
      end
  | None => Ret tt
  end.

(** ** The child *)

(** From the seccomp filter to [execvpe]. *)
Definition child_exec (cfg : ServiceLaunch) (p : Prepared) : prog Sys ChildEnd :=
  let* failed := apply_seccomp cfg in
  match failed with
  | Some msg => fail msg
  | None =>
      apply_limits (sl_rlimit cfg);*
      isolate_namespace (sl_private_tmp cfg) (sl_protect_system cfg);*
      isolate_landlock (sl_landlock_paths cfg);*
      isolate_sandbox (sl_service_for_sandbox cfg);*
      let* replaced := trigger (Execvpe (p_cmd p) (p_argv p) (p_envp p)) in
      if (replaced : bool) then Ret Replaced
      else fail "[zai-init] execvpe failed"
  end.

(** Descriptors and the AppArmor profile. *)
Definition child_fds (cfg : ServiceLaunch) (p : Prepared) : prog Sys ChildEnd :=
  redirect_log (sl_log_write_fd cfg);*
  dup_activations 0 (sl_activation_fds cfg);*
  match sl_apparmor_profile cfg with
  | Some profile =>
      let* ok := trigger (Confine_next_exec profile) in
      if (ok : bool) then child_exec cfg p
      else fail "[zai-init] AppArmor profile apply failed"
  | None => child_exec cfg p
  end.

Definition child_main (cfg : ServiceLaunch) (p : Prepared) : prog Sys ChildEnd :=
  let* rc := trigger Setsid in
  if rc <? 0 then fail "[zai-init] setsid failed"
  else
    let* ok := setup_stdio (p_tty p) (sl_log_write_fd cfg) in
    if negb ok then fail "[zai-init] tty attach failed"
    else
      let* rc := trigger (Chdir (p_cwd p)) in
      if negb (rc =? 0) then fail "[zai-init] chdir failed"
      else
        let* failed := drop_privileges (sl_uid cfg) (sl_gid cfg) in
        match failed with
        | Some msg => fail msg
        | None =>
            let* ok := apply_child_hardening cfg in
            if negb ok then fail "[zai-init] child hardening failed"
            else child_fds cfg p
        end.

(** ** The specification: a plan of calls

    The calls that the child makes to the system, all of them but the messages it prints.
    A plan lists them in order, each with whether its failure is fatal and, where later
    calls depend on it, with its answer.  A log lists what was called, whether it
    succeeded and what it answered (a negative number for a failure without a code). *)
Inductive call :=
| CSetsid
| COpen (path : string) (flags : Z)
| CTiocsctty (fd : Z)
| CDup2 (oldfd newfd : Z)
| CClose (fd : Z)
| CGetfd (fd : Z)
| CSetfd (fd flags : Z)
| CConsole
| CChdir (path : string)
| CSetgroups_none
| CSetgid (gid : Z)
| CSetuid (uid : Z)
| CPrctl (option arg2 arg3 : Z)
| CAppArmor (profile : string)
| CSeccomp_strict
| CSeccomp_filter (len : Z) (filter : list sock_filter)
| CSetrlimit (resource : Rlimit) (cur max : Z)
| CUnshare
| CMount (source target fstype : string) (flags : Z) (data : string)
| CRuleset (access : Z)
| CAdd_rule (ruleset fd access : Z)
| CRestrict_self (ruleset : Z)
| CSandbox (svc : Service)
| CExec (cmd : string) (argv envp : list string).

Record made := Made { m_call : call; m_ok : bool; m_answer : Z }.

Definition by_bool (c : call) (ok : bool) : option made := Some (Made c ok (if ok then 0 else -1)).

(** The call that an operation is, and the success that its result means. *)
Definition call_of {X} (e : Sys X) : X → option made :=
  match e in Sys X return X → option made with
  | Child_err _ => λ _, None
  | Setsid => λ rc, Some (Made CSetsid (0 <=? rc) rc)
  | Open path flags => λ fd, Some (Made (COpen path flags) (0 <=? fd) fd)
  | Tiocsctty fd => λ rc, Some (Made (CTiocsctty fd) (0 <=? rc) rc)
  | Dup2 a b => λ rc, Some (Made (CDup2 a b) (0 <=? rc) rc)
  | Close fd => λ _, Some (Made (CClose fd) true 0)
  | Fcntl_getfd fd => λ rc, Some (Made (CGetfd fd) (0 <=? rc) rc)
  | Fcntl_setfd fd flags => λ rc, Some (Made (CSetfd fd flags) (0 <=? rc) rc)
  | Open_console => λ r, Some (match r with Some fd => Made CConsole true fd | None => Made CConsole false (-1) end)
  | Chdir path => λ rc, Some (Made (CChdir path) (rc =? 0) rc)
  | Setgroups_none => λ rc, Some (Made CSetgroups_none (rc =? 0) rc)
  | Setgid gid => λ rc, Some (Made (CSetgid gid) (rc =? 0) rc)
  | Setuid uid => λ rc, Some (Made (CSetuid uid) (rc =? 0) rc)
  | Prctl option arg2 arg3 => λ rc, Some (Made (CPrctl option arg2 arg3) (rc =? 0) rc)
  | Confine_next_exec profile => by_bool (CAppArmor profile)
  | Seccomp_strict => λ rc, Some (Made CSeccomp_strict (rc =? 0) rc)
  | Seccomp_filter len filter => λ rc, Some (Made (CSeccomp_filter len filter) (rc =? 0) rc)
  | Setrlimit resource cur max => λ _, Some (Made (CSetrlimit resource cur max) true 0)
  | Unshare_newns => λ rc, Some (Made CUnshare (rc =? 0) rc)
  | Mount source target fstype flags data => λ _, Some (Made (CMount source target fstype flags data) true 0)
  | Landlock_create_ruleset access => λ rc, Some (Made (CRuleset access) (0 <=? rc) rc)
  | Landlock_add_rule ruleset fd access => λ _, Some (Made (CAdd_rule ruleset fd access) true 0)
  | Landlock_restrict_self ruleset => λ _, Some (Made (CRestrict_self ruleset) true 0)
  | Apply_sandbox svc => λ r, by_bool (CSandbox svc) (match r with Ok _ => true | Err _ => false end)
  | Execvpe cmd argv envp => by_bool (CExec cmd argv envp)
  end.

Definition log_step : ∀ X, Sys X → list made → X → list made → Prop :=
  record_step (λ X e x log, log ++ option_list (call_of e x)).

(** An entry of a plan: a call that must succeed, one whose failure changes nothing, and
    one of each with the answer that the rest of the plan counts on. *)
Record planned := Planned { pl_call : call; pl_fatal : bool; pl_answer : option Z }.

Definition must (c : call) : planned := Planned c true None.
Definition may (c : call) : planned := Planned c false None.
Definition must_as (c : call) (r : Z) : planned := Planned c true (Some r).
Definition saw (c : call) (r : Z) : planned := Planned c false (Some r).

(** The plans that are possible; which one is followed depends on the answers of the
    system. *)
Notation Plan := (list planned → Prop).

Definition exactly (plan : list planned) : Plan := λ l, l = plan.
Definition andthen (P Q : Plan) : Plan := λ l, ∃ l1 l2, P l1 ∧ Q l2 ∧ l = l1 ++ l2.
Infix "+++" := andthen (at level 60, right associativity).

Fixpoint each {A} (P : A → Plan) (l : list A) : Plan :=
  match l with [] => exactly [] | a :: l => P a +++ each P l end.

(** *** The standard streams *)

Definition streams (fd : Z) : list planned := [may (CDup2 fd 0); may (CDup2 fd 1); may (CDup2 fd 2); may (CClose fd)].

(** The terminal of the service becomes its three streams ... *)
Definition terminal_plan (path : string) : Plan := λ l, ∃ fd rc r0 r1 r2,
  0 ≤ fd ∧ 0 ≤ rc ∧ 0 ≤ r0 ∧ 0 ≤ r1 ∧ 0 ≤ r2 ∧
  l = [saw (COpen path O_RDWR) fd; saw (CTiocsctty fd) rc;
       saw (CDup2 fd 0) r0; saw (CDup2 fd 1) r1; saw (CDup2 fd 2) r2; may (CClose fd)].

(** ... or one of the steps to that fails. *)
Definition no_terminal_plan (path : string) : Plan := λ l, ∃ fd rc r0 r1 r2,
  (fd < 0 ∧ l = [saw (COpen path O_RDWR) fd]) ∨
  (0 ≤ fd ∧ rc < 0 ∧ l = [saw (COpen path O_RDWR) fd; saw (CTiocsctty fd) rc; may (CClose fd)]) ∨
  (0 ≤ fd ∧ 0 ≤ rc ∧ (r0 < 0 ∨ r1 < 0 ∨ r2 < 0) ∧
   l = [saw (COpen path O_RDWR) fd; saw (CTiocsctty fd) rc;
        saw (CDup2 fd 0) r0; saw (CDup2 fd 1) r1; saw (CDup2 fd 2) r2; may (CClose fd)]).

(** The console instead: it must open after a terminal that failed; a service without a
    terminal and a log does without. *)
Definition console_required : Plan := λ l, ∃ fd, l = must_as CConsole fd :: streams fd.
Definition console_wanted : Plan := λ l, (∃ fd, l = saw CConsole fd :: streams fd) ∨ l = [saw CConsole (-1)].

Definition stdio_plan (tty : option string) (log_fd : option Z) : Plan :=
  match tty, log_fd with
  | Some path, _ => λ l, terminal_plan path l ∨ (no_terminal_plan path +++ console_required) l
  | None, None => console_wanted
  | None, Some _ => exactly []
  end.

Definition log_plan (log_fd : option Z) : list planned :=
  match log_fd with
  | Some wfd => [may (CDup2 wfd 1); may (CDup2 wfd 2); may (CClose wfd)]
  | None => []
  end.

(** The [i]th activation socket goes to descriptor [3 + i], open across the exec. *)
Definition activation_plan (i src_fd : Z) : Plan := λ l, ∃ flags,
  l = (if src_fd =? SD_LISTEN_FDS_START + i then [] else [may (CDup2 src_fd (SD_LISTEN_FDS_START + i))]) ++
      [saw (CGetfd (SD_LISTEN_FDS_START + i)) flags;
       may (CSetfd (SD_LISTEN_FDS_START + i) (Z.land flags (Z.lnot FD_CLOEXEC)))].

Fixpoint activations_plan (i : Z) (fds : list Z) : Plan :=
  match fds with [] => exactly [] | fd :: fds => activation_plan i fd +++ activations_plan (i + 1) fds end.

(** *** Identity and hardening *)

Definition identity_plan (uid gid : option Z) : list planned :=
  match uid, gid with
  | None, None => []
  | _, _ =>
      [must CSetgroups_none] ++
      match gid with Some g => [must (CSetgid g)] | None => [] end ++
      match uid with Some u => [must (CSetuid u)] | None => [] end
  end.

Definition plan_if (b : bool) (c : call) : list planned := if b then [must c] else [].

Definition bounding_plan (keep : list Z) : list planned :=
  match keep with
  | [] => []
  | keep => (λ cap, may (CPrctl PR_CAPBSET_DROP cap 0)) <$> filter (λ cap, cap ∉ keep) cap_range
  end.

Definition hardening_plan (cfg : ServiceLaunch) : list planned :=
  plan_if (sl_no_new_privileges cfg) (CPrctl PR_SET_NO_NEW_PRIVS 1 0) ++
  plan_if (sl_non_dumpable cfg) (CPrctl PR_SET_DUMPABLE 0 0) ++
  plan_if (sl_clear_ambient_caps cfg) (CPrctl PR_CAP_AMBIENT PR_CAP_AMBIENT_CLEAR_ALL 0) ++
  bounding_plan (sl_capability_bounding_set cfg) ++
  ((λ cap, must (CPrctl PR_CAPBSET_DROP cap 0)) <$> sl_drop_capabilities cfg) ++
  ((λ cap, may (CPrctl PR_CAP_AMBIENT PR_CAP_AMBIENT_RAISE cap)) <$> sl_ambient_capabilities cfg).

Definition filter_call (f : list sock_filter) : call := CSeccomp_filter (sock_fprog_len f) f.

Definition seccomp_plan (cfg : ServiceLaunch) : list planned :=
  match sl_seccomp_allowlist cfg, sl_seccomp_profile_denylist cfg with
  | _ :: _, _ =>
      [may (CPrctl PR_SET_NO_NEW_PRIVS 1 0); must (filter_call (allowlist_filter (sl_seccomp_allowlist cfg)))]
  | [], _ :: _ =>
      match denylist_filter (sl_seccomp_profile_denylist cfg) with
      | Some f => [must (filter_call f)]
      | None => []
      end
  | [], [] => plan_if (sl_seccomp_strict cfg) CSeccomp_strict
  end.

(** *** Isolation *)

Definition limits_plan (rl : option ResourceLimits) : list planned :=
  match rl with
  | Some rl => (λ '(resource, cur, max), may (CSetrlimit resource cur max)) <$> ResourceLimits_apply rl
  | None => []
  end.

Definition tmp_mount : planned := may (CMount "tmpfs" "/tmp" "tmpfs" (Z.lor MS_NOSUID MS_NODEV) "size=64M,mode=1777").
Definition readonly_mount : planned := may (CMount "" "/" "" (Z.lor (Z.lor MS_REMOUNT MS_RDONLY) MS_BIND) "").

(** The mounts only after the namespace. *)
Definition namespace_plan (private_tmp protect_system : bool) : Plan :=
  if private_tmp || protect_system then λ l,
    l = saw CUnshare 0 :: (if private_tmp then [tmp_mount] else []) ++ (if protect_system then [readonly_mount] else []) ∨
    ∃ rc, rc ≠ 0 ∧ l = [saw CUnshare rc]
  else exactly [].

(** A rule for every path that can be opened. *)
Definition rule_plan (ruleset : Z) (path : string) : Plan :=
  match CString path with
  | Ok cpath => λ l, ∃ fd,
      (0 ≤ fd ∧ l = [saw (COpen cpath O_PATH_CLOEXEC) fd;
                     may (CAdd_rule ruleset fd LANDLOCK_ACCESS_FS_READ); may (CClose fd)]) ∨
      (fd < 0 ∧ l = [saw (COpen cpath O_PATH_CLOEXEC) fd])
  | Err _ => exactly []
  end.

Definition landlock_plan (paths : list string) : Plan :=
  match paths with
  | [] => exactly []
  | _ => λ l, ∃ ruleset,
      (0 ≤ ruleset ∧
       (exactly [saw (CRuleset LANDLOCK_ACCESS_FS_READ) ruleset] +++ each (rule_plan ruleset) paths +++
        exactly [may (CRestrict_self ruleset); may (CClose ruleset)]) l) ∨
      (ruleset < 0 ∧ l = [saw (CRuleset LANDLOCK_ACCESS_FS_READ) ruleset])
  end.

Definition sandbox_plan (svc : option Service) : list planned :=
  match svc with Some svc => [may (CSandbox svc)] | None => [] end.

Definition apparmor_plan (profile : option string) : list planned :=
  match profile with Some a => [must (CAppArmor a)] | None => [] end.

Definition exec_plan (p : Prepared) : planned := must (CExec (p_cmd p) (p_argv p) (p_envp p)).

(** From the seccomp filter to the exec. *)
Definition exec_part (cfg : ServiceLaunch) (p : Prepared) : Plan :=
  exactly (seccomp_plan cfg) +++
  exactly (limits_plan (sl_rlimit cfg)) +++
  namespace_plan (sl_private_tmp cfg) (sl_protect_system cfg) +++
  landlock_plan (sl_landlock_paths cfg) +++
  exactly (sandbox_plan (sl_service_for_sandbox cfg)) +++
  exactly [exec_plan p].

Definition child_plan (cfg : ServiceLaunch) (p : Prepared) : Plan :=
  exactly [must CSetsid] +++
  stdio_plan (p_tty p) (sl_log_write_fd cfg) +++
  exactly [must (CChdir (p_cwd p))] +++
  exactly (identity_plan (sl_uid cfg) (sl_gid cfg)) +++
  exactly (hardening_plan cfg) +++
  exactly (log_plan (sl_log_write_fd cfg)) +++
  activations_plan 0 (sl_activation_fds cfg) +++
  exactly (apparmor_plan (sl_apparmor_profile cfg)) +++
  exec_part cfg p.

(** *** Carrying out a plan *)

Definition carried_out (pl : planned) (m : made) : Prop :=
  m_call m = pl_call pl ∧ (pl_fatal pl = true → m_ok m = true) ∧ (∀ r, pl_answer pl = Some r → m_answer m = r).

(** The whole plan was carried out ... *)
Definition passed (plan : list planned) (log : list made) : Prop := Forall2 carried_out plan log.

(** ... or only a first part of it: the last call that was made is a fatal one, and it
    failed. *)
Definition failed (plan : list planned) (log : list made) : Prop :=
  ∃ before next after made r, plan = before ++ next :: after ∧ passed before made ∧
    pl_fatal next = true ∧ log = made ++ [Made (pl_call next) false r].

(** A part of the child that follows one of the plans [P] and says so in its result. *)
Definition follows {A} (m : prog Sys A) (P : Plan) (good bad : A → Prop) : Prop :=
  ∀ log0, wp log_step m log0 (λ log a, ∃ l plan, P plan ∧ log = log0 ++ l ∧
    ((good a ∧ passed plan l) ∨ (bad a ∧ failed plan l))).

(** Some plan is possible. *)
Class Possible (P : Plan) := possible : ∃ l, P l.

#[export] Instance exactly_possible l : Possible (exactly l).
Proof. by exists l. Qed.

#[export] Instance andthen_possible P Q : Possible P → Possible Q → Possible (P +++ Q).
Proof. intros [l Hl] [l' Hl']. by exists (l ++ l'), l, l'. Qed.

#[export] Instance each_possible {A} (P : A → Plan) l : (∀ a, Possible (P a)) → Possible (each P l).
Proof. intros HP. induction l; simpl; apply _. Qed.

#[export] Instance activations_possible i fds : Possible (activations_plan i fds).
Proof.
  revert i. induction fds as [|fd fds IH]; intros i; simpl; [apply _|]. apply andthen_possible; [|apply IH].
  by eexists _, 0.
Qed.

#[export] Instance namespace_possible t p : Possible (namespace_plan t p).
Proof. unfold namespace_plan. destruct (t || p); [|apply _]. eexists. by left. Qed.

#[export] Instance rule_possible ruleset path : Possible (rule_plan ruleset path).
Proof. unfold rule_plan. destruct (CString path); [|apply _]. eexists _, 0. by left. Qed.

#[export] Instance landlock_possible paths : Possible (landlock_plan paths).
Proof. unfold landlock_plan. destruct paths; [apply _|]. eexists _, (-1). by right. Qed.

#[export] Instance stdio_possible tty log_fd : Possible (stdio_plan tty log_fd).
Proof.
  unfold stdio_plan. destruct tty as [path|].
  - eexists. left. by exists 0, 0, 0, 0, 0.
  - destruct log_fd; [apply _|]. eexists. by right.
Qed.

Lemma passed_app plan1 plan2 l1 l2 :
  passed plan1 l1 → passed plan2 l2 → passed (plan1 ++ plan2) (l1 ++ l2).
Proof. apply Forall2_app. Qed.

Lemma failed_app_r plan1 plan2 l1 l2 :
  passed plan1 l1 → failed plan2 l2 → failed (plan1 ++ plan2) (l1 ++ l2).
Proof.
  intros H1 (b & c & a & d & r & -> & H2 & Hc & ->). exists (plan1 ++ b), c, a, (l1 ++ d), r.
  rewrite !app_assoc. split_and!; [done | by apply passed_app|done..].
Qed.

Lemma failed_app_l plan1 plan2 l : failed plan1 l → failed (plan1 ++ plan2) l.
Proof.
  intros (b & c & a & d & r & -> & H). exists b, c, (a ++ plan2), d, r. by rewrite <- app_assoc.
Qed.

Lemma follows_ret {A} (a : A) (good bad : A → Prop) : good a → follows (Ret a) (exactly []) good bad.
Proof. intros Ha log0. exists [], []. rewrite app_nil_r. split_and!; [done..|]. left. by repeat constructor. Qed.

Lemma follows_bind {A B} (m : prog Sys A) (k : A → prog Sys B) P1 P2 `{!Possible P2}
    good bad (good' bad' : B → Prop) :
  follows m P1 good bad →
  (∀ a, good a → follows (k a) P2 good' bad') →
  (∀ a log, bad a → wp log_step (k a) log (λ log' b, log' = log ∧ bad' b)) →
  follows (prog_bind m k) (P1 +++ P2) good' bad'.
Proof.
  intros Hm Hgood Hbad log0. eapply wp_bind_2; [apply Hm|].
  intros log a (l & p1 & Hp1 & -> & [[Ha Hl]|[Ha Hl]]).
  - eapply wp_mono; [|by apply (Hgood a Ha)]. simpl.
    intros log b (l' & p2 & Hp2 & -> & Hl'). exists (l ++ l'), (p1 ++ p2). rewrite app_assoc.
    split_and!; [by exists p1, p2|done|].
    destruct Hl' as [[? ?]|[? ?]]; [left|right]; split; try done;
      [by apply passed_app | by apply failed_app_r].
  - eapply wp_mono; [|by apply (Hbad a _ Ha)]. simpl. destruct (possible (P := P2)) as [p2 Hp2].
    intros log b [-> Hb]. exists l, (p1 ++ p2). split_and!; [by exists p1, p2|done|]. right. split; [done|].
    by apply failed_app_l.
Qed.

(** The same code under a plan that is written differently. *)
Lemma follows_mono {A} (m : prog Sys A) (P P' : Plan) (good bad good' bad' : A → Prop) :
  follows m P good bad → (∀ l, P l → P' l) → (∀ a, good a → good' a) → (∀ a, bad a → bad' a) →
  follows m P' good' bad'.
Proof.
  intros Hm HP Hg Hb log. eapply wp_mono; [|apply Hm]. simpl.
  intros log' a (l & plan & Hplan & -> & H). exists l, plan. naive_solver.
Qed.

Lemma follows_plan {A} (m : prog Sys A) (P P' : Plan) (good bad : A → Prop) :
  follows m P good bad → (∀ l, P l → P' l) → follows m P' good bad.
Proof. intros Hm HP. by eapply follows_mono. Qed.

Lemma exactly_app l l' l'' : (exactly l +++ exactly l') l'' → exactly (l ++ l') l''.
Proof. by intros (? & ? & -> & -> & ->). Qed.

Lemma andthen_mono (P P' Q Q' : Plan) l :
  (∀ l, P l → P' l) → (∀ l, Q l → Q' l) → (P +++ Q) l → (P' +++ Q') l.
Proof. intros HP HQ (l1 & l2 & ? & ? & ->). exists l1, l2. auto. Qed.

Lemma andthen_nil_l (P : Plan) l : (exactly [] +++ P) l → P l.
Proof. by intros (? & l2 & -> & ? & ->). Qed.

Lemma andthen_nil_r (P : Plan) l : (P +++ exactly []) l → P l.
Proof. intros (l1 & ? & ? & -> & ->). by rewrite app_nil_r. Qed.

Lemma follows_bind_exact {A B} (m : prog Sys A) (k : A → prog Sys B) p1 p2 good bad (good' bad' : B → Prop) :
  follows m (exactly p1) good bad →
  (∀ a, good a → follows (k a) (exactly p2) good' bad') →
  (∀ a log, bad a → wp log_step (k a) log (λ log' b, log' = log ∧ bad' b)) →
  follows (prog_bind m k) (exactly (p1 ++ p2)) good' bad'.
Proof.
  intros. eapply follows_plan; [|intros l; apply exactly_app].
  by apply (follows_bind m k (exactly p1) (exactly p2) good bad).
Qed.

(** A single call. *)
Lemma follows_fatal {X B} (e : Sys X) c ok (k : X → prog Sys B) P `{!Possible P} good bad :
  (∀ x, ∃ r, call_of e x = Some (Made c (ok x) r)) →
  (∀ x, ok x = true → follows (k x) P good bad) →
  (∀ x log, ok x = false → wp log_step (k x) log (λ log' b, log' = log ∧ bad b)) →
  follows (prog_bind (trigger e) k) (exactly [must c] +++ P) good bad.
Proof.
  intros He Hk Hf. apply (follows_bind _ _ _ _ (λ x, ok x = true) (λ x, ok x = false)); [|exact Hk|intros x log; apply Hf].
  intros log0. apply wp_trigger. intros x w' ->. destruct (He x) as [r ->]. simpl.
  exists [Made c (ok x) r], [must c]. split_and!; [done..|]. destruct (ok x) eqn:E.
  - left. split; [done|]. by repeat constructor.
  - right. split; [done|]. exists [], (must c), [], [], r. split_and!; [done|constructor|done..].
Qed.

(** A call whose failure changes nothing; the rest may count on its answer. *)
Lemma follows_call {X B} (e : Sys X) c (k : X → prog Sys B) (P : Z → Plan) `{!∀ r, Possible (P r)} good bad :
  (∀ x, ∃ ok r, call_of e x = Some (Made c ok r) ∧ follows (k x) (P r) good bad) →
  follows (prog_bind (trigger e) k) (λ l, ∃ r, (exactly [saw c r] +++ P r) l) good bad.
Proof.
  intros He log0. simpl. intros x w' ->. destruct (He x) as (ok & r & -> & Hk). simpl.
  eapply wp_mono; [|apply Hk]. simpl. intros log a (l & plan & Hp & -> & Hd).
  exists (Made c ok r :: l), (saw c r :: plan). rewrite <- app_assoc.
  split_and!; [by exists r, [saw c r], plan|done|].
  assert (Hc : passed [saw c r] [Made c ok r]) by (constructor; [|done]; split_and!; try done; by intros ? [= ->]).
  destruct Hd as [[? Hd]|[? Hd]]; [left|right]; (split; [done|]);
    [exact (passed_app [_] _ [_] _ Hc Hd)|exact (failed_app_r [_] _ [_] _ Hc Hd)].
Qed.

Lemma follows_ignored {X B} (e : Sys X) c (k : X → prog Sys B) P `{!Possible P} good bad :
  (∀ x, ∃ ok r, call_of e x = Some (Made c ok r)) →
  (∀ x, follows (k x) P good bad) →
  follows (prog_bind (trigger e) k) (exactly [may c] +++ P) good bad.
Proof.
  intros He Hk. apply (follows_bind _ _ _ _ (λ _, True) (λ _, False)); [|by intros x _|done].
  intros log0. apply wp_trigger. intros x w' ->. destruct (He x) as (ok & r & ->). simpl.
  exists [Made c ok r], [may c]. split_and!; [done..|]. left. by repeat constructor.
Qed.

(** Messages are not logged. *)
Lemma follows_message {A} msg (k : unit → prog Sys A) P good bad :
  follows (k tt) P good bad → follows (prog_bind (trigger (Child_err msg)) k) P good bad.
Proof. intros Hk log0. simpl. intros [] w ->. simpl. rewrite app_nil_r. apply Hk. Qed.

Lemma fail_bad msg log : wp log_step (fail msg) log (λ log' e, log' = log ∧ e = Exited 1).
Proof. unfold fail. simpl. intros ? ? ->. simpl. by rewrite app_nil_r. Qed.

Lemma follows_for_each {A} (f : A → prog Sys unit) (P : A → Plan) `{!∀ a, Possible (P a)} l :
  (∀ a, follows (f a) (P a) (λ _, True) (λ _, False)) →
  follows (for_each f l) (each P l) (λ _, True) (λ _, False).
Proof.
  intros Hf. induction l as [|a l IH]; simpl; [by apply follows_ret|].
  eapply (follows_bind _ _ _ (each P l)); [apply Hf | done | done].
Qed.

Lemma each_exactly {A} (f : A → list planned) l plan : each (λ a, exactly (f a)) l plan → exactly (mbind f l) plan.
Proof.
  revert plan. induction l as [|a l IH]; intros plan; simpl; [done|].
  intros (? & l2 & -> & ->%IH & ->). done.
Qed.

Lemma each_single {A} (f : A → planned) l plan : each (λ a, exactly [f a]) l plan → exactly (f <$> l) plan.
Proof. intros ->%each_exactly. unfold exactly. induction l; simpl; [done|by f_equal]. Qed.

Lemma follows_for_break {A B} (f : A → prog Sys (option B)) c l :
  (∀ a, follows (f a) (exactly [must (c a)]) (λ r, r = None) (λ r, r ≠ None)) →
  follows (for_break f l) (exactly ((λ a, must (c a)) <$> l)) (λ r, r = None) (λ r, r ≠ None).
Proof.
  intros Hf. induction l as [|a l IH]; simpl; [by apply follows_ret|].
  apply (follows_bind_exact _ _ [must (c a)] _ _ _ _ _ (Hf a)).
  - by intros r ->.
  - intros [r|] log Hr; done.
Qed.

(** ** The parts of the child follow their plans *)

Ltac carried := simpl; repeat (apply Forall2_cons; (split; [split_and!; [done|try done|intros ? [= <-]; done]|])); apply Forall2_nil; done.
Ltac logged plan := eexists _, plan; split; [|split; [rewrite <- ?app_assoc; reflexivity|]].

Lemma attach_terminal_plan path log0 :
  wp log_step (attach_terminal path) log0 (λ log b, ∃ l plan,
    (if b then terminal_plan path plan else no_terminal_plan path plan) ∧ log = log0 ++ l ∧ passed plan l).
Proof.
  unfold attach_terminal. simpl. intros fd w ->. simpl. destruct (Z.ltb_spec fd 0) as [Hfd|Hfd]; simpl.
  { logged [saw (COpen path O_RDWR) fd]; [by exists fd, 0, 0, 0, 0; left|carried]. }
  intros rc w ->. simpl. destruct (Z.ltb_spec rc 0) as [Hrc|Hrc]; simpl.
  { intros [] w ->. simpl. logged [saw (COpen path O_RDWR) fd; saw (CTiocsctty fd) rc; may (CClose fd)];
      [by exists fd, rc, 0, 0, 0; right; left|carried]. }
  intros r0 w1 -> r1 w2 -> r2 w3 -> [] w4 ->. simpl.
  logged [saw (COpen path O_RDWR) fd; saw (CTiocsctty fd) rc; saw (CDup2 fd 0) r0; saw (CDup2 fd 1) r1;
          saw (CDup2 fd 2) r2; may (CClose fd)]; [|carried].
  destruct (Z.ltb_spec r0 0), (Z.ltb_spec r1 0), (Z.ltb_spec r2 0); simpl; exists fd, rc, r0, r1, r2;
    [right; right; naive_solver..|split_and!; done].
Qed.

Lemma console_plan log0 :
  wp log_step setup_console_io log0 (λ log b, ∃ l, log = log0 ++ l ∧
    if b then ∃ fd, passed (must_as CConsole fd :: streams fd) l ∧ passed (saw CConsole fd :: streams fd) l
    else l = [Made CConsole false (-1)]).
Proof.
  unfold setup_console_io. simpl. intros [fd|] w ->; simpl; [|by eexists].
  intros r0 w1 -> r1 w2 -> r2 w3 -> [] w4 ->. simpl. eexists. split; [rewrite <- !app_assoc; reflexivity|].
  exists fd. split; carried.
Qed.

Lemma follows_stdio tty log_fd :
  follows (setup_stdio tty log_fd) (stdio_plan tty log_fd) (λ ok, ok = true) (λ ok, ok = false).
Proof.
  unfold setup_stdio, stdio_plan. destruct tty as [path|].
  - intros log0. eapply wp_bind_2; [apply attach_terminal_plan|].
    intros log [] (l & plan & Hplan & -> & Hl); [exists l, plan; split_and!; [by left|done|by left]|].
    eapply wp_mono; [|apply console_plan]. intros log [] (l' & -> & H); rewrite <- app_assoc.
    + destruct H as (fd & H & _). eexists _, _. split; [right; by exists plan; eexists; split; [|split; [by exists fd|]]|].
      split; [done|]. left. split; [done|]. by apply passed_app.
    + eexists _, _. split; [right; exists plan; eexists; split; [done|split; [by exists 0|done]]|]. split; [done|].
      right. split; [done|]. subst l'. exists plan, (must_as CConsole 0), (streams 0), l, (-1). by split_and!.
  - destruct log_fd as [wfd|]; [by apply follows_ret|]. intros log0. eapply wp_bind_2; [apply console_plan|].
    intros log [] (l & -> & H); simpl.
    + destruct H as (fd & _ & H). eexists _, _. split; [left; by exists fd|]. split; [done|]. by left.
    + subst l. eexists _, _. split; [by right|]. split; [done|]. left. split; [done|]. carried.
Qed.

Lemma follows_log log_fd : follows (redirect_log log_fd) (exactly (log_plan log_fd)) (λ _, True) (λ _, False).
Proof.
  unfold redirect_log, log_plan. destruct log_fd as [wfd|]; [|by apply follows_ret]. intros log0. simpl.
  intros r1 w1 -> r2 w2 -> [] w3 ->. simpl. logged [may (CDup2 wfd 1); may (CDup2 wfd 2); may (CClose wfd)]; [done|].
  left. split; [done|]. carried.
Qed.

Lemma follows_activation i fd : follows (dup_activation i fd) (activation_plan i fd) (λ _, True) (λ _, False).
Proof.
  unfold dup_activation, activation_plan. intros log0. destruct (fd =? SD_LISTEN_FDS_START + i); simpl.
  - intros flags w1 -> r w2 ->. simpl. eexists _, _. split; [by exists flags|]. split; [rewrite <- !app_assoc; reflexivity|].
    left. split; [done|]. carried.
  - intros r0 w1 -> flags w2 -> r w3 ->. simpl. eexists _, _. split; [by exists flags|].
    split; [rewrite <- !app_assoc; reflexivity|]. left. split; [done|]. carried.
Qed.

Lemma follows_activations i fds : follows (dup_activations i fds) (activations_plan i fds) (λ _, True) (λ _, False).
Proof.
  revert i. induction fds as [|fd fds IH]; intros i; simpl; [by apply follows_ret|].
  eapply (follows_bind _ _ _ (activations_plan (i + 1) fds)); [apply follows_activation|done|done].
Qed.

Lemma follows_limits rl : follows (apply_limits rl) (exactly (limits_plan rl)) (λ _, True) (λ _, False).
Proof.
  unfold apply_limits, limits_plan. destruct rl as [rl|]; [|by apply follows_ret].
  pose (P := λ '(r, c, m), exactly [may (CSetrlimit r c m)]).
  assert (HP : ∀ a, Possible (P a)) by (intros [[r c] m]; apply _).
  eapply follows_plan; [apply (follows_for_each _ P)|].
  - intros [[r c] m] log0. simpl. intros [] w ->. simpl. logged [may (CSetrlimit r c m)]; [done|]. left. split; [done|]. carried.
  - intros l Hl. apply each_single. revert l Hl. induction (ResourceLimits_apply rl) as [|[[r c] m] rs IH]; intros l; [done|].
    simpl. apply andthen_mono; [done|apply IH].
Qed.

Lemma follows_namespace t p : follows (isolate_namespace t p) (namespace_plan t p) (λ _, True) (λ _, False).
Proof.
  unfold isolate_namespace, namespace_plan. destruct (t || p); [|by apply follows_ret]. intros log0. simpl.
  intros rc w ->. simpl. destruct (Z.eqb_spec rc 0) as [->|Hrc].
  - destruct t, p; simpl; intros;
      repeat match goal with H : log_step _ _ _ _ _ |- _ => unfold log_step, record_step in H; simpl in H; subst end;
      (eexists _, _; split; [by left|split; [rewrite <- ?app_assoc; reflexivity|left; split; [done|carried]]]).
  - simpl. intros [] w ->. simpl. rewrite app_nil_r. logged [saw CUnshare rc]; [right; by exists rc|]. left. split; [done|]. carried.
Qed.

Lemma follows_rule ruleset path : follows (landlock_path ruleset path) (rule_plan ruleset path) (λ _, True) (λ _, False).
Proof.
  unfold landlock_path, rule_plan. destruct (CString path) as [cpath|e]; [|by apply follows_ret]. intros log0. simpl.
  intros fd w ->. simpl. destruct (Z.leb_spec 0 fd) as [Hfd|Hfd]; simpl.
  - intros [] w1 -> [] w2 ->. simpl. eexists _, _. split; [exists fd; by left|]. split; [rewrite <- !app_assoc; reflexivity|].
    left. split; [done|]. carried.
  - eexists _, _. split; [exists fd; by right|]. split; [reflexivity|]. left. split; [done|]. carried.
Qed.

Lemma follows_rules ruleset paths :
  follows (for_each (landlock_path ruleset) paths;* trigger (Landlock_restrict_self ruleset);* trigger (Close ruleset))
    (each (rule_plan ruleset) paths +++ exactly [may (CRestrict_self ruleset); may (CClose ruleset)]) (λ _, True) (λ _, False).
Proof.
  apply (follows_bind _ _ _ _ (λ _, True) (λ _, False)); [|intros _ _|done].
  - apply follows_for_each; [apply _|]. intros path. apply follows_rule.
  - intros log0. simpl. intros [] w1 -> [] w2 ->. simpl.
    logged [may (CRestrict_self ruleset); may (CClose ruleset)]; [done|]. left. split; [done|]. carried.
Qed.

Lemma follows_landlock paths : follows (isolate_landlock paths) (landlock_plan paths) (λ _, True) (λ _, False).
Proof.
  unfold isolate_landlock, landlock_plan. destruct paths as [|p ps]; [by apply follows_ret|].
  generalize (p :: ps). intros paths log0. unfold apply_landlock. simpl. intros rs w ->. simpl.
  destruct (Z.ltb_spec rs 0) as [Hrs|Hrs]; simpl.
  - eexists _, _. split; [exists rs; by right|]. split; [reflexivity|]. left. split; [done|]. carried.
  - eapply wp_mono; [|apply follows_rules]. simpl. intros log _ (l & plan & Hplan & -> & [[_ Hl]|[[] _]]).
    eexists _, _. split; [exists rs; left; split; [done|]; eexists _, plan; by split|].
    split; [rewrite <- app_assoc; reflexivity|]. left. split; [done|]. apply passed_app; [carried|done].
Qed.

Lemma follows_sandbox svc : follows (isolate_sandbox svc) (exactly (sandbox_plan svc)) (λ _, True) (λ _, False).
Proof.
  unfold isolate_sandbox, sandbox_plan. destruct svc as [svc|]; [|by apply follows_ret]. intros log0. simpl.
  intros [[]|e] w ->; simpl; [|intros [] w1 -> [] w2 ->; simpl; rewrite !app_nil_r];
    (logged [may (CSandbox svc)]; [done|left; split; [done|carried]]).
Qed.

Lemma follows_must {B} (e : Sys Z) c (m : string) (k : prog Sys (option B)) plan good bad (stop : prog Sys (option B)) :
  (∀ x, call_of e x = Some (Made c (x =? 0) x)) →
  follows k (exactly plan) good bad →
  (∀ log, wp log_step stop log (λ log' b, log' = log ∧ bad b)) →
  follows (let* rc := trigger e in if negb (rc =? 0) then stop else k) (exactly (must c :: plan)) good bad.
Proof.
  intros He Hk Hs. eapply follows_plan; [apply (follows_fatal _ c (λ rc, rc =? 0) _ (exactly plan))|].
  - intros x. by exists x.
  - by intros x ->.
  - intros x log ->. apply Hs.
  - by intros l ->%exactly_app.
Qed.

Lemma follows_privileges uid gid :
  follows (drop_privileges uid gid) (exactly (identity_plan uid gid)) (λ r, r = None) (λ r, r ≠ None).
Proof.
  assert (Hu : ∀ u : option Z,
    follows (let* rc := match u with Some u => trigger (Setuid u) | None => Ret 0 end in
             if negb (rc =? 0) then Ret (Some "[zai-init] setuid failed") else Ret None)
      (exactly match u with Some u => [must (CSetuid u)] | None => [] end) (λ r, r = None) (λ r, r ≠ None)).
  { intros [u|]; simpl; [|by apply follows_ret]. by apply (follows_must _ _ ""); [|apply follows_ret|]. }
  assert (Hg : ∀ u g : option Z,
    follows (let* rc := match g with Some g => trigger (Setgid g) | None => Ret 0 end in
             if negb (rc =? 0) then Ret (Some "[zai-init] setgid failed")
             else
               let* rc := match u with Some u => trigger (Setuid u) | None => Ret 0 end in
               if negb (rc =? 0) then Ret (Some "[zai-init] setuid failed") else Ret None)
      (exactly (match g with Some g => [must (CSetgid g)] | None => [] end ++
                match u with Some u => [must (CSetuid u)] | None => [] end)) (λ r, r = None) (λ r, r ≠ None)).
  { intros u [g|]; [|apply (Hu u)]. by apply (follows_must _ _ ""); [|apply (Hu u)|]. }
  unfold drop_privileges, identity_plan.
  destruct uid as [u|], gid as [g|]; try by apply follows_ret.
  - by apply (follows_must _ _ ""); [|apply (Hg (Some u) (Some g))|].
  - by apply (follows_must _ _ ""); [|apply (Hg (Some u) None)|].
  - by apply (follows_must _ _ ""); [|apply (Hg None (Some g))|].
Qed.

(** One fatal call whose result the code turns into its own. *)
Lemma follows_one {B} (e : Sys Z) c (f : Z → B) (good bad : B → Prop) :
  (∀ x, call_of e x = Some (Made c (x =? 0) x)) → (∀ x, if x =? 0 then good (f x) else bad (f x)) →
  follows (let* rc := trigger e in Ret (f rc)) (exactly [must c]) good bad.
Proof.
  intros He Hf log0. simpl. intros x w ->. rewrite He. simpl. eexists [_], [_]. split; [done|]. split; [done|].
  specialize (Hf x). destruct (x =? 0) eqn:E.
  - left. split; [done|]. constructor; [|constructor]. by split_and!.
  - right. split; [done|]. exists [], (must c), [], [], x. split_and!; [done|constructor|done..].
Qed.

Lemma follows_prctl_if {B} flag option_ arg2 plan (good bad : B → Prop) (k : bool → prog Sys B) :
  follows (k true) (exactly plan) good bad →
  (∀ log, wp log_step (k false) log (λ log' b, log' = log ∧ bad b)) →
  follows (prog_bind (prctl_if flag option_ arg2) k)
    (exactly (plan_if flag (CPrctl option_ arg2 0) ++ plan)) good bad.
Proof.
  intros Hk Hf. unfold prctl_if, plan_if. destruct flag; [|done].
  apply (follows_bind_exact _ _ [must (CPrctl option_ arg2 0)] plan (λ b, b = true) (λ b, b = false)).
  - apply follows_one; [done|]. intros x. by destruct (x =? 0).
  - by intros a ->.
  - by intros a log ->.
Qed.

Lemma follows_bounding_set keep :
  follows (drop_outside_bounding_set keep) (exactly (bounding_plan keep)) (λ _, True) (λ _, False).
Proof.
  unfold drop_outside_bounding_set, bounding_plan. destruct keep as [|c0 keep]; [by apply follows_ret|].
  set (K := c0 :: keep).
  eapply follows_plan.
  - apply (follows_for_each _ (λ cap,
      exactly (if bool_decide (cap ∈ K) then [] else [may (CPrctl PR_CAPBSET_DROP cap 0)]))).
    intros cap. destruct (bool_decide (cap ∈ K)); [by apply follows_ret|].
    intros log0. simpl. intros rc w ->. simpl. logged [may (CPrctl PR_CAPBSET_DROP cap 0)]; [done|]. left. split; [done|]. carried.
  - intros l ->%each_exactly. unfold exactly. induction cap_range as [|cap l IH]; [done|].
    rewrite filter_cons, bind_cons, IH. case_bool_decide as Hc.
    + by rewrite decide_False by (intros Hn; by apply Hn).
    + by rewrite decide_True by done.
Qed.

Lemma follows_ambient caps :
  follows (raise_ambient caps) (exactly ((λ cap, may (CPrctl PR_CAP_AMBIENT PR_CAP_AMBIENT_RAISE cap)) <$> caps))
    (λ _, True) (λ _, False).
Proof.
  eapply follows_plan; [|apply each_single]. apply follows_for_each; [apply _|]. intros cap log0. simpl. intros rc w1 ->.
  simpl. destruct (rc =? 0) eqn:E; simpl; [|intros [] w2 ->; simpl; rewrite app_nil_r];
    (logged [may (CPrctl PR_CAP_AMBIENT PR_CAP_AMBIENT_RAISE cap)]; [done|left; split; [done|carried]]).
Qed.

Lemma follows_hardening cfg :
  follows (apply_child_hardening cfg) (exactly (hardening_plan cfg)) (λ r, r = true) (λ r, r = false).
Proof.
  unfold apply_child_hardening, hardening_plan.
  apply follows_prctl_if; [|done].
  apply follows_prctl_if; [|done].
  apply follows_prctl_if; [|done].
  eapply follows_bind_exact; [apply follows_bounding_set| |done]. intros _ _.
  eapply follows_bind_exact.
  - apply (follows_for_break _ (λ cap, CPrctl PR_CAPBSET_DROP cap 0)). intros cap.
    apply follows_one; [done|]. intros x. by destruct (x =? 0).
  - intros r ->. rewrite <- (app_nil_r (_ <$> sl_ambient_capabilities cfg)).
    eapply follows_bind_exact; [apply follows_ambient|by intros; apply follows_ret|done].
  - intros [r|] log Hr; done.
Qed.

Lemma follows_seccomp cfg :
  (∀ nr, nr ∈ sl_seccomp_profile_denylist cfg → 0 ≤ nr ≤ u32_max) →
  follows (apply_seccomp cfg) (exactly (seccomp_plan cfg)) (λ r, r = None) (λ r, r ≠ None).
Proof.
  intros Hnr. unfold apply_seccomp, seccomp_plan.
  assert (Hone : ∀ (e : Sys Z) c msg, (∀ x, call_of e x = Some (Made c (x =? 0) x)) →
    follows (let* ok := (let* rc := trigger e in Ret (rc =? 0)) in Ret (if (ok : bool) then None else Some msg))
      (exactly [must c]) (λ r : option string, r = None) (λ r, r ≠ None)).
  { intros e c msg He. apply (follows_one e c (λ rc, if rc =? 0 then None else Some msg)); [done|].
    intros x. by destruct (x =? 0). }
  destruct (sl_seccomp_allowlist cfg) as [|a al]; [|set (L := a :: al)].
  2:{ eapply follows_plan; [|intros l; apply (exactly_app [_] [_])].
      apply (follows_ignored (Prctl PR_SET_NO_NEW_PRIVS 1 0)); [apply _|intros x; by eexists _, _|]. intros _. by apply Hone. }
  destruct (sl_seccomp_profile_denylist cfg) as [|d dl]; [|set (L := d :: dl) in *].
  - unfold plan_if. destruct (sl_seccomp_strict cfg); [|by apply follows_ret]. by apply Hone.
  - assert (∃ f, denylist_filter L = Some f) as [f Hf].
    { unfold denylist_filter. rewrite (proj2 (forallb_forall _ L)); [by eexists|].
      intros x Hx%list_elem_of_In%Hnr.
      apply negb_true_iff, orb_false_iff. rewrite !Z.ltb_ge. lia. }
    assert (apply_seccomp_denylist L = prog_bind (trigger (Seccomp_filter (sock_fprog_len f) f))
      (λ rc, Ret (rc =? 0))) as -> by (unfold apply_seccomp_denylist; unfold L in *; by rewrite Hf).
    rewrite Hf. by apply Hone.
Qed.

Lemma follows_child_exec cfg p :
  (∀ nr, nr ∈ sl_seccomp_profile_denylist cfg → 0 ≤ nr ≤ u32_max) →
  follows (child_exec cfg p) (exec_part cfg p) (λ e, e = Replaced) (λ e, e = Exited 1).
Proof.
  intros Hnr. unfold child_exec, exec_part. eapply follows_bind; [apply _|by apply follows_seccomp|..].
  - intros r ->.
    eapply follows_bind; [apply _|apply follows_limits|intros _ _|done].
    eapply follows_bind; [apply _|apply follows_namespace|intros _ _|done].
    eapply follows_bind; [apply _|apply follows_landlock|intros _ _|done].
    eapply follows_bind; [apply _|apply follows_sandbox|intros _ _|done].
    eapply follows_plan; [|intros l; apply andthen_nil_r].
    apply (follows_fatal _ _ (λ ok, ok)); [apply _|intros []; by eexists|..].
    + intros x ->. by apply follows_ret.
    + intros x log ->. apply fail_bad.
  - intros [msg|] log Hr; [|done]. apply fail_bad.
Qed.

Lemma child_follows cfg p :
  (∀ nr, nr ∈ sl_seccomp_profile_denylist cfg → 0 ≤ nr ≤ u32_max) →
  follows (child_main cfg p) (child_plan cfg p) (λ e, e = Replaced) (λ e, e = Exited 1).
Proof.
  intros Hnr. unfold child_main, child_plan.
  assert (Possible (exec_part cfg p)) by (unfold exec_part; apply _).
  apply (follows_fatal _ _ (λ rc, negb (rc <? 0))); [apply _| | |].
  { intros x. exists x. simpl. by rewrite Z.leb_antisym. }
  2:{ intros x log ->%negb_false_iff. apply fail_bad. }
  intros rc ->%negb_true_iff. eapply follows_bind; [apply _|apply follows_stdio| |intros y log ->; apply fail_bad].
  intros ok ->. simpl negb. cbv iota.
  apply (follows_fatal _ _ (λ rc, rc =? 0)); [apply _|intros x; by exists x| |intros x log ->; apply fail_bad].
  intros x ->. simpl negb. cbv iota.
  eapply follows_bind; [apply _|apply follows_privileges| |intros [msg|] log Hr; [apply fail_bad|done]].
  intros r ->. eapply follows_bind; [apply _|apply follows_hardening| |intros y log ->; apply fail_bad].
  intros b ->. simpl negb. cbv iota. unfold child_fds.
  eapply follows_bind; [apply _|apply follows_log|intros _ _|done].
  eapply follows_bind; [apply _|apply follows_activations|intros _ _|done].
  destruct (sl_apparmor_profile cfg) as [a|]; simpl.
  - apply (follows_fatal _ _ (λ ok, ok)); [apply _|intros []; by eexists| |intros y log ->; apply fail_bad].
    intros y ->. by apply follows_child_exec.
  - eapply follows_plan; [by apply follows_child_exec|]. intros l Hl. by exists [], l.
Qed.

(** The calls of a log that succeeded. *)
Definition succeeded (log : list made) : list call := m_call <$> filter (λ m, m_ok m = true) log.

Lemma passed_sublist cs plan log : passed plan log → must <$> cs `sublist_of` plan → cs `sublist_of` succeeded log.
Proof.
  intros Hp Hs. remember (must <$> cs) as l eqn:El. revert cs El log Hp. unfold succeeded.
  induction Hs as [|x l plan Hs IH|x l plan Hs IH]; intros cs El log Hp.
  - destruct cs; [|done]. apply sublist_nil_l.
  - destruct cs as [|c cs]; simplify_eq/=. inversion Hp as [|? m ? log' (Hc & Hok & _)]; subst.
    rewrite filter_cons, decide_True by auto. simpl in *. rewrite Hc. constructor. by eapply IH.
  - inversion Hp as [|? m ? log' _]; subst. rewrite filter_cons. case_decide; simpl; [constructor|]; by eapply IH.
Qed.

(** ** What the child guarantees *)

(** C5: the child carries out exactly the configured plan, which names every call that it
    makes but its messages: when it becomes the service, every call of the plan was made, in
    the plan's order, and each fatal one succeeded; otherwise it exits with code 1, having
    made only a first part of the plan, and the last call it made is a fatal one, which
    failed.  Nothing is assumed of the answers of the system; the plan follows them where
    the calls do: the terminal or else the console, the flags of the activation sockets, the
    mounts after the namespace, the Landlock rules. *)
Theorem child_carries_out_plan cfg p :
  (∀ nr, nr ∈ sl_seccomp_profile_denylist cfg → 0 ≤ nr ≤ u32_max) →
  wp log_step (child_main cfg p) [] (λ log e, ∃ plan, child_plan cfg p plan ∧
    (e = Replaced ∧ passed plan log ∨ e = Exited 1 ∧ failed plan log)).
Proof.
  intros Hnr. eapply wp_mono; [|by apply (child_follows cfg p)].
  intros log e (l & plan & Hplan & -> & H). by exists plan.
Qed.

(** No privilege survives into the service: when a service configured with a
    user and a group is executed, its supplementary groups were cleared, then its
    group set, then its user, all successfully and before the program image was
    replaced; and a configured AppArmor profile was set after them. *)
Theorem child_drops_privileges cfg p u g :
  (∀ nr, nr ∈ sl_seccomp_profile_denylist cfg → 0 ≤ nr ≤ u32_max) →
  sl_uid cfg = Some u → sl_gid cfg = Some g →
  wp log_step (child_main cfg p) [] (λ log e, e = Replaced →
    [CSetgroups_none; CSetgid g; CSetuid u] ++ (CAppArmor <$> option_list (sl_apparmor_profile cfg))
    ++ [CExec (p_cmd p) (p_argv p) (p_envp p)] `sublist_of` succeeded log).
Proof.
  intros Hnr Hu Hg. eapply wp_mono; [|by apply (child_follows cfg p)].
  intros log e (l & plan & Hplan & -> & [[-> Hp]|[-> _]]); [|done]. intros _.
  apply (passed_sublist _ _ _ Hp). rewrite !fmap_app. clear Hp. unfold child_plan in Hplan.
  destruct Hplan as (? & ? & -> & (? & ? & _ & (? & ? & -> & (? & ? & -> & (? & ? & -> & (? & ? & -> &
    (? & ? & _ & (? & ? & -> & Hrest & ->) & ->) & ->) & ->) & ->) & ->) & ->) & ->).
  do 3 apply sublist_inserts_l. unfold identity_plan. rewrite Hu, Hg. apply sublist_app; [done|].
  do 3 apply sublist_inserts_l. apply sublist_app; [by destruct (sl_apparmor_profile cfg)|].
  unfold exec_part in Hrest. destruct Hrest as (? & ? & _ & (? & ? & _ & (? & ? & _ & (? & ? & _ & (? & ? & _ & -> & ->) & ->) & ->) & ->) & ->).
  by do 5 apply sublist_inserts_l.
Qed.

(** ** Examples *)

(** A small configuration and the calls that succeed. *)
Definition daemon_launch : ServiceLaunch := {|
  sl_cmd := "/bin/daemon"; sl_args := ["-f"]; sl_uid := Some 101; sl_gid := Some 102;
  sl_working_dir := None; sl_tty_path := None; sl_env := None; sl_log_write_fd := Some 9;
  sl_activation_fds := [7; 8]; sl_apparmor_profile := Some "daemon";
  sl_no_new_privileges := true; sl_non_dumpable := true; sl_clear_ambient_caps := false;
  sl_drop_capabilities := []; sl_ambient_capabilities := [];
  sl_capability_bounding_set := []; sl_seccomp_profile_denylist := [165; 166];
  sl_seccomp_allowlist := []; sl_seccomp_strict := false; sl_rlimit := None;
  sl_private_tmp := false; sl_protect_system := false; sl_landlock_paths := [];
  sl_service_for_sandbox := None |}.

Definition daemon_prepared : Prepared := {|
  p_cmd := "/bin/daemon"; p_argv := ["/bin/daemon"; "-f"]; p_envp := []; p_cwd := "/";
  p_tty := None |}.

Lemma daemon_denylist_u32 nr :
  nr ∈ sl_seccomp_profile_denylist daemon_launch → 0 ≤ nr ≤ u32_max.
Proof. unfold u32_max. simpl. rewrite !elem_of_cons, elem_of_nil. lia. Qed.

Lemma child_carries_out_plan_witness :
  wp log_step (child_main daemon_launch daemon_prepared) [] (λ log e, ∃ plan, child_plan daemon_launch daemon_prepared plan ∧
    (e = Replaced ∧ passed plan log ∨ e = Exited 1 ∧ failed plan log)).
Proof. apply child_carries_out_plan, daemon_denylist_u32. Defined.

Lemma child_drops_privileges_witness :
  wp log_step (child_main daemon_launch daemon_prepared) [] (λ log e, e = Replaced →
    [CSetgroups_none; CSetgid 102; CSetuid 101; CAppArmor "daemon"]
    ++ [CExec "/bin/daemon" ["/bin/daemon"; "-f"] []] `sublist_of` succeeded log).
Proof.
  apply (child_drops_privileges daemon_launch daemon_prepared 101 102);
    [apply daemon_denylist_u32 | reflexivity..].
Defined.
