(* ===== verification/Descriptors.v ===== *)
(** * What the service inherits

    The child of [start_service_as] against two worlds with a documented
    behaviour: the descriptor table that [dup2], [fcntl] and [close] act on, and a
    kernel that enforces an installed seccomp filter on every later call. *)

From Stdlib Require Import ZArith.
From stdpp Require Import base tactics numbers list strings gmap.
From S2P Require Import Prelude RustStr Types Seccomp Effects Launch.

Local Open Scope string_scope.
Local Open Scope list_scope.
Local Open Scope Z_scope.
Local Open Scope prog_scope.

(** ** The descriptor table *)

Section descriptors.
Context {F : Type}.

(** An open file and the close-on-exec flag. *)
Notation table := (gmap Z (F * bool)).

(** dup2(2), fcntl(2), close(2): a duplicate shares the file and has the flag
    clear; duplicating onto itself changes nothing. *)
Definition fd_step : ∀ X, Sys X → table → X → table → Prop :=
  λ X e, match e in Sys X return table → X → table → Prop with
  | Dup2 a b => λ w x w',
      match w !! a with
      | Some (f, _) => x = b ∧ w' = if a =? b then w else <[b := (f, false)]> w
      | None => x = -1 ∧ w' = w
      end
  | Fcntl_getfd fd => λ w x w', w' = w ∧
      x = match w !! fd with Some (_, c) => if c : bool then 1 else 0 | None => -1 end
  | Fcntl_setfd fd flags => λ w x w',
      match w !! fd with
      | Some (f, _) => x = 0 ∧ w' = <[fd := (f, Z.testbit flags 0)]> w
      | None => x = -1 ∧ w' = w
      end
  | Close fd => λ w _ w', w' = delete fd w
  | _ => λ w _ w', w' = w
  end.

Lemma cloexec_cleared (c : bool) :
  Z.odd (Z.land (if c then 1 else 0) (Z.lnot FD_CLOEXEC)) = false.
Proof. by destruct c. Qed.

Lemma dup_activation_spec i src f c (w : table) :
  w !! src = Some (f, c) →
  wp fd_step (dup_activation i src) w (λ w' _,
    w' = <[SD_LISTEN_FDS_START + i := (f, false)]> w).
Proof.
  intros Hs. unfold dup_activation. set (t := SD_LISTEN_FDS_START + i).
  eapply (wp_bind_2 _ _ _ _ _ (λ w' _, ∃ c', <[t := (f, c')]> w' = <[t := (f, c')]> w ∧
    w' !! t = Some (f, c'))).
  - destruct (Z.eqb_spec src t) as [->|Hne].
    + exists c. done.
    + simpl. rewrite Hs. intros x w' [_ ->]. rewrite (proj2 (Z.eqb_neq _ _) Hne).
      exists false. rewrite insert_insert_eq, lookup_insert_eq. done.
  - intros w' _ (c' & Hw & Ht). simpl. intros x w2 [-> ->]. rewrite Ht.
    intros y w3 [_ ->]. rewrite cloexec_cleared.
    apply map_eq. intros k. destruct (decide (k = t)) as [->|Hk].
    + by rewrite !lookup_insert_eq.
    + rewrite !lookup_insert_ne by done.
      transitivity ((<[t:=(f, c')]> w' : table) !! k); [by rewrite lookup_insert_ne|].
      by rewrite Hw, lookup_insert_ne.
Qed.

Lemma dup_activations_spec i fds (w : table) :
  (∀ fd, fd ∈ fds → ∃ f c, w !! fd = Some (f, c)) →
  (∀ j k fd, (j < k)%nat → fds !! k = Some fd → fd ≠ SD_LISTEN_FDS_START + i + Z.of_nat j) →
  wp fd_step (dup_activations i fds) w (λ w' _,
    (∀ k fd, fds !! k = Some fd → ∃ f c, w !! fd = Some (f, c) ∧
       w' !! (SD_LISTEN_FDS_START + i + Z.of_nat k) = Some (f, false)) ∧
    (∀ n, n < SD_LISTEN_FDS_START + i ∨ SD_LISTEN_FDS_START + i + Z.of_nat (length fds) ≤ n →
       w' !! n = w !! n)).
Proof.
  revert i w. induction fds as [|fd fds IH]; intros i w Hopen Hdis; simpl.
  { split; [|done]. intros k fd Hk. by rewrite lookup_nil in Hk. }
  destruct (Hopen fd) as (f & c & Hf); [left|].
  eapply wp_bind_2; [by apply (dup_activation_spec _ _ f c)|]. intros w' _ ->.
  assert (∀ k fd', fds !! k = Some fd' → fd' ≠ SD_LISTEN_FDS_START + i) as Hne.
  { intros k fd' Hk. pose proof (Hdis 0%nat (S k) fd') as Hd. simpl in Hd.
    rewrite Z.add_0_r in Hd. apply Hd; [lia|done]. }
  eapply wp_mono; [|apply (IH (i + 1))].
  - simpl. intros w2 _ [H1 H2]. split.
    + intros [|k] fd' Hk; simpl in Hk.
      * simplify_eq. exists f, c. split; [done|]. simpl. rewrite Z.add_0_r, H2 by lia.
        apply lookup_insert_eq.
      * destruct (H1 k fd' Hk) as (f' & c' & Hw & Hw2). exists f', c'.
        rewrite lookup_insert_ne in Hw by (intros Heq; by apply (Hne k fd')).
        split; [done|]. rewrite <- Hw2. f_equal. lia.
    + intros n Hn. rewrite H2 by lia. rewrite lookup_insert_ne; [done|]. lia.
  - intros fd' Hin. apply list_elem_of_lookup in Hin as [k Hk].
    rewrite lookup_insert_ne by (intros Heq; by apply (Hne k fd')).
    apply Hopen. right. apply list_elem_of_lookup. eauto.
  - intros j k fd' Hjk Hk. pose proof (Hdis (S j) (S k) fd') as Hd. simpl in Hd.
    specialize (Hd ltac:(lia) Hk). lia.
Qed.

Lemma redirect_log_spec wfd f c (w : table) :
  w !! wfd = Some (f, c) → 2 < wfd →
  wp fd_step (redirect_log (Some wfd)) w (λ w' _,
    w' = delete wfd (<[2 := (f, false)]> (<[1 := (f, false)]> w))).
Proof.
  intros Hw Hgt. simpl. rewrite Hw. intros x w1 [_ ->].
  rewrite (proj2 (Z.eqb_neq wfd 1)) by lia.
  rewrite lookup_insert_ne, Hw by lia. intros y w2 [_ ->].
  rewrite (proj2 (Z.eqb_neq wfd 2)) by lia. by intros _ w3 ->.
Qed.

End descriptors.

(** Descriptors handed out in ascending order from 3 up do not clobber each other. *)
Lemma ascending_disjoint (fds : list Z) j k fd :
  (∀ i fd, fds !! i = Some fd → SD_LISTEN_FDS_START + Z.of_nat i ≤ fd) →
  (j < k)%nat → fds !! k = Some fd → fd ≠ SD_LISTEN_FDS_START + Z.of_nat j.
Proof. intros Hasc Hjk Hk. apply Hasc in Hk. lia. Qed.


(** The proviso is needed: with the two sockets at 4 and 3, the duplicate of the
    first onto 3 closes the second, and the service gets the first one twice. *)
Definition fd_exec X (e : Sys X) (w : gmap Z (string * bool)) : X * gmap Z (string * bool) :=
  match e in Sys X return X * gmap Z (string * bool) with
  | Child_err _ | Close _ | Setrlimit _ _ _ | Mount _ _ _ _ _ | Landlock_add_rule _ _ _
  | Landlock_restrict_self _ => (tt, w)
  | Open_console => (None, w)
  | Confine_next_exec _ | Execvpe _ _ _ => (true, w)
  | Apply_sandbox _ => (Ok tt, w)
  | Dup2 a b =>
      match w !! a with
      | Some (f, _) => (b, if a =? b then w else <[b := (f, false)]> w)
      | None => (-1, w)
      end
  | Fcntl_getfd fd =>
      (match w !! fd with Some (_, c) => if c : bool then 1 else 0 | None => -1 end, w)
  | Fcntl_setfd fd flags =>
      match w !! fd with
      | Some (f, _) => (0, <[fd := (f, Z.testbit flags 0)]> w)
      | None => (-1, w)
      end
  | _ => (0, w)
  end.

Lemma activation_fds_clobbered :
  let w : gmap Z (string * bool) := <[4 := ("http", true)]> (<[3 := ("https", true)]> ∅) in
  let w' := snd (exec fd_exec (dup_activations 0 [4; 3]) w) in
  w' !! 3 = Some ("http", false) ∧ w' !! 4 = Some ("http", false).
Proof. split; vm_compute; reflexivity. Qed.

(** ** A kernel that enforces what the child installs *)

Record kworld := {
  k_filters : list (list sock_filter);
  k_strict : bool;
  k_isolated : bool;
}.

Section enforcement.
Context `{SeccompMachine} (SYS : string → Z).

(** seccomp(2): in strict mode only [read], [write] and [_exit] are answered; under
    a filter, a call is answered only if every filter allows it.  A call that is not
    answered kills the process, so nothing follows it. *)
Definition answered (w : kworld) (syscall : string) : Prop :=
  k_strict w = false ∧
  ∀ f, f ∈ k_filters w →
    bpf_run {| sd_nr := SYS syscall; sd_arch := AUDIT_ARCH_NATIVE |} f 0
    = Some SECCOMP_RET_ALLOW.

Definition enforce_step : ∀ X, Sys X → kworld → X → kworld → Prop :=
  λ X e, match e in Sys X return kworld → X → kworld → Prop with
  | Child_err _ => λ w _ w', w' = w
  | Seccomp_filter _ f => λ w x w', k_strict w = false ∧ w' =
      if x =? 0
      then {| k_filters := f :: k_filters w; k_strict := k_strict w; k_isolated := k_isolated w |}
      else w
  | Seccomp_strict => λ w x w', k_strict w = false ∧ w' =
      if x =? 0
      then {| k_filters := k_filters w; k_strict := true; k_isolated := k_isolated w |}
      else w
  | Unshare_newns => λ w x w', answered w "unshare" ∧ w' =
      if x =? 0
      then {| k_filters := k_filters w; k_strict := k_strict w; k_isolated := true |}
      else w
  | Mount _ _ _ _ _ => λ w _ w', answered w "mount" ∧ w' = w
  | Execvpe _ _ _ => λ w _ w', answered w "execve" ∧ w' = w
  | _ => λ w _ w', k_strict w = false ∧ w' = w
  end.

(** Up to the seccomp filter the child changes nothing of this world. *)
Lemma wp_child_main cfg p w Q :
  Q w (Exited 1) → wp enforce_step (child_exec cfg p) w Q →
  wp enforce_step (child_main cfg p) w Q.
Proof.
  intros HQ Hexec.
  assert (∀ msg, wp enforce_step (fail msg) w Q) as Hfail by (intros msg; by intros ? w' ->).
  unfold child_main. apply wp_op. intros rc w1 [_ ->].
  destruct (rc <? 0); [apply Hfail|].
  apply (wp_keeps_bind _ (λ w', w' = w)); [|done|].
  { unfold setup_stdio, attach_terminal, setup_console_io. keeps. }
  intros w2 ok ->. destruct (negb ok); [apply Hfail|].
  apply wp_op. intros rc2 w3 [_ ->]. destruct (negb (rc2 =? 0)); [apply Hfail|].
  apply (wp_keeps_bind _ (λ w', w' = w)); [|done|].
  { unfold drop_privileges. keeps. }
  intros w4 [msg|] ->; [apply Hfail|].
  apply (wp_keeps_bind _ (λ w', w' = w)); [|done|].
  { unfold apply_child_hardening, prctl_if, drop_outside_bounding_set, drop_capabilities,
      raise_ambient. keeps. }
  intros w5 ok2 ->. destruct (negb ok2); [apply Hfail|]. unfold child_fds.
  apply (wp_keeps_bind _ (λ w', w' = w)); [|done|].
  { unfold redirect_log. keeps. }
  intros w6 ? ->.
  apply (wp_keeps_bind _ (λ w', w' = w)); [|done|].
  { generalize 0. induction (sl_activation_fds cfg) as [|fd fds IH]; intros i; simpl; [keeps|].
    apply keeps_bind; [unfold dup_activation; keeps|]. intros _. apply IH. }
  intros w7 ? ->. destruct (sl_apparmor_profile cfg) as [prof|]; [|done].
  apply wp_op. intros [] w8 [_ ->]; [done|apply Hfail].
Qed.

(** A service with [seccomp = "strict"] never runs: strict mode forbids the calls
    that lead from it to [execvpe], so the child is killed or exits, whatever else
    is configured. *)
Theorem strict_seccomp_never_execs cfg p w :
  sl_seccomp_strict cfg = true → sl_seccomp_allowlist cfg = [] →
  sl_seccomp_profile_denylist cfg = [] →
  wp enforce_step (child_main cfg p) w (λ _ e, e = Exited 1).
Proof.
  intros Hs Ha Hd. apply wp_child_main; [done|]. unfold child_exec, apply_seccomp.
  rewrite Ha, Hd, Hs. apply wp_bind, wp_op. intros rc w1 [_ ->]. destruct (rc =? 0).
  2:{ intros ? w2 ->. done. }
  set (w1 := {| k_filters := _ |}).
  cbv beta iota. apply (wp_keeps_bind _ (λ w, k_strict w = true)); [|done|].
  { unfold apply_limits. keeps. }
  intros w2 ? H2. apply (wp_keeps_bind _ (λ w, k_strict w = true)); [|done|].
  { unfold isolate_namespace. keeps;
      apply keeps_trigger; intros ? ? ? ? [[? _] _]; congruence. }
  intros w3 ? H3. apply (wp_keeps_bind _ (λ w, k_strict w = true)); [|done|].
  { unfold isolate_landlock, apply_landlock, landlock_path. keeps. }
  intros w4 ? H4. apply (wp_keeps_bind _ (λ w, k_strict w = true)); [|done|].
  { unfold isolate_sandbox. keeps. }
  intros w5 ? H5. apply wp_op. intros ok w6 [[Hno _] _]. congruence.
Qed.

(** C36: a seccomp profile and a private mount namespace exclude each other: the
    filter of every profile forbids [mount] and is installed before the namespace is
    set up, so a service that asks for both ([private_tmp] or [protect_system]) is
    killed, or, when the namespace could not be created, runs without it. *)
Theorem seccomp_profile_defeats_isolation cfg p w name l :
  resolve_seccomp_profile_denylist SYS name = Ok l →
  (∀ s, 0 ≤ SYS s ≤ u32_max) →
  sl_seccomp_profile_denylist cfg = l → sl_seccomp_allowlist cfg = [] →
  sl_private_tmp cfg || sl_protect_system cfg = true →
  k_isolated w = false →
  wp enforce_step (child_main cfg p) w (λ w' e, e = Replaced → k_isolated w' = false).
Proof.
  intros Hres HSYS Hl Ha Hiso Hw. apply wp_child_main; [done|].
  pose proof (resolve_profile_cases SYS name) as Hc.
  destruct (profile_extra _ _) as [extra|]; [|destruct Hc; congruence].
  destruct Hc as (l' & Hl' & _ & Hin & _). rewrite Hres in Hl'. simplify_eq.
  assert (SYS "mount" ∈ sl_seccomp_profile_denylist cfg) as Hmount.
  { apply Hin. left. apply list_elem_of_here. }
  unfold child_exec, apply_seccomp, apply_seccomp_denylist. rewrite Ha.
  destruct (sl_seccomp_profile_denylist cfg) as [|d dl] eqn:El; [by apply not_elem_of_nil in Hmount|].
  rewrite <- El in *. clear El.
  destruct (denylist_filter _) as [f|] eqn:Ef; [|by intros ? w' ->].
  apply wp_bind, wp_op. intros rc w1 [_ ->]. destruct (rc =? 0); [|by intros ? w' ->].
  set (w1 := {| k_filters := _ |}). simpl.
  apply (wp_keeps_bind _ (λ w', w' = w1)); [|done|].
  { unfold apply_limits. keeps. }
  intros w2 ? ->. unfold isolate_namespace. rewrite Hiso.
  apply wp_bind, wp_op. intros rc2 w3 [_ ->]. destruct (rc2 =? 0).
  - assert (∀ w', f ∈ k_filters w' → ¬ answered w' "mount") as Hno.
    { intros w' Hf [_ Hall]. specialize (Hall f Hf).
      rewrite (denylist_filter_run _ _ _ Ef) in Hall.
      rewrite bool_decide_eq_true_2 in Hall by (by right). discriminate Hall. }
    assert (∀ w', f ∈ k_filters w' → ∀ m1 m2 m3 m4 m5 Q,
      wp enforce_step (trigger (Mount m1 m2 m3 m4 m5)) w' Q) as Hm.
    { intros w' Hf m1 m2 m3 m4 m5 Q x w4 [Hans _]. by destruct (Hno w' Hf). }
    assert (f ∈ k_filters {| k_filters := k_filters w1; k_strict := k_strict w1; k_isolated := true |})
      as Hf by (simpl; left).
    destruct (sl_private_tmp cfg), (sl_protect_system cfg); try done;
      apply wp_bind; first [by apply Hm | simpl; by apply Hm].
  - apply wp_mono with (Q := λ w _, w = w1).
    { intros w4 ? ->.
      apply (wp_keeps_bind _ (λ w', k_isolated w' = false)); [|done|].
      { unfold isolate_landlock, apply_landlock, landlock_path. keeps. }
      intros w5 ? H5. apply (wp_keeps_bind _ (λ w', k_isolated w' = false)); [|done|].
      { unfold isolate_sandbox. keeps. }
      intros w6 ? H6. apply wp_op. intros ok w7 [_ ->].
      destruct ok; [intros ?; exact H6|]. by intros ? w8 ->. }
    by intros ? w4 ->.
Qed.
End enforcement.

(** Two services that fall under these. *)
Definition seccomp_launch (strict : bool) (denied : list Z) (private_tmp : bool)
    : ServiceLaunch := {|
  sl_cmd := "/bin/app"; sl_args := []; sl_uid := None; sl_gid := None;
  sl_working_dir := None; sl_tty_path := None; sl_env := None; sl_log_write_fd := None;
  sl_activation_fds := []; sl_apparmor_profile := None; sl_no_new_privileges := true;
  sl_non_dumpable := true; sl_clear_ambient_caps := false; sl_drop_capabilities := [];
  sl_ambient_capabilities := []; sl_capability_bounding_set := [];
  sl_seccomp_profile_denylist := denied; sl_seccomp_allowlist := [];
  sl_seccomp_strict := strict; sl_rlimit := None; sl_private_tmp := private_tmp;
  sl_protect_system := false; sl_landlock_paths := []; sl_service_for_sandbox := None |}.

Definition fresh_kworld : kworld :=
  {| k_filters := []; k_strict := false; k_isolated := false |}.

Lemma strict_seccomp_never_execs_witness :
  wp (enforce_step (H := ref_machine) sys_x86_64)
    (child_main (seccomp_launch true [] false) daemon_prepared) fresh_kworld
    (λ _ e, e = Exited 1).
Proof. apply strict_seccomp_never_execs; reflexivity. Defined.

Lemma sys_x86_64_range s : 0 ≤ sys_x86_64 s ≤ u32_max.
Proof. unfold sys_x86_64, u32_max. simpl. repeat case_match; simpl; lia. Qed.

Lemma seccomp_profile_defeats_isolation_witness :
  ∃ l, resolve_seccomp_profile_denylist sys_x86_64 "default" = Ok l ∧
  wp (enforce_step (H := ref_machine) sys_x86_64)
    (child_main (seccomp_launch false l true) daemon_prepared) fresh_kworld
    (λ w' e, e = Replaced → k_isolated w' = false).
Proof.
  eexists. split; [reflexivity|].
  eapply (seccomp_profile_defeats_isolation (H := ref_machine) sys_x86_64 _ _ _ "default");
    [reflexivity | apply sys_x86_64_range | reflexivity..].
Defined.
