(* ===== verification/Sandbox.v ===== *)
(** * The sandbox of a service

    [quantra/src/sandbox.rs]: what the child does, after [fork] and before [execve],
    to hide or protect parts of the system ([apply_sandbox]), and what the parent
    prepares for it (the directories of the service, a dynamic user).  The calls to
    the kernel and to the file system are operations of [Sb]; an error is the text
    that [anyhow] shows, its outermost context. *)

From Stdlib Require Import ZArith Ascii.
From stdpp Require Import base tactics numbers list strings gmap.
From S2P Require Import Prelude RustStr Types Effects Launch.

Local Open Scope string_scope.
Local Open Scope list_scope.
Local Open Scope Z_scope.
Local Open Scope quantra_scope.
Local Open Scope prog_scope.

(** ** Operations *)

Inductive Sb : Type → Type :=
| SbUnshare (flags : Z) : Sb (result string unit)
| SbMount (source : option string) (target : string) (fstype : option string) (flags : Z)
    (data : option string) : Sb (result string unit)
| SbPathExists (path : string) : Sb bool
| SbCreateDirAll (path : string) : Sb (result string unit)
| SbChroot (path : string) : Sb (result string unit)
| SbChdir (path : string) : Sb (result string unit)
| SbPrctl (option arg2 : Z) : Sb Z
| SbPersonality (persona : Z) : Sb Z
| SbStatus (cmd : string) (args : list string) : Sb unit
| SbOpen (path : string) (flags : Z) : Sb Z
| SbIoctl (fd request arg : Z) : Sb Z
| SbClose (fd : Z) : Sb unit
| SbLastError : Sb string
| SbMetadata (path : string) : Sb (result string Z)
| SbSetPermissions (path : string) (mode : Z) : Sb (result string unit)
| SbChown (path : string) (uid gid : option Z) : Sb (result string unit)
| SbWriteFile (path content : string) : Sb (result string unit)
| SbReadToString (path : string) : Sb (result string string).

(** The flags of unshare(2) and mount(2) that [nix] names. *)
Definition CLONE_NEWNS : Z := 131072.
Definition CLONE_NEWUTS : Z := 67108864.
Definition CLONE_NEWIPC : Z := 134217728.
Definition CLONE_NEWUSER : Z := 268435456.
Definition CLONE_NEWNET : Z := 1073741824.
Definition MS_NOEXEC : Z := 8.
Definition MS_STRICTATIME : Z := 16777216.

Definition REMOUNT_RDONLY : Z := Z.lor (Z.lor MS_BIND MS_RDONLY) MS_REMOUNT.

(** [.context(msg)] and [.with_context]: the message replaces the text of the error. *)
Definition context {A} (msg : string) (p : prog Sb (result string A)) : prog Sb (result string A) :=
  let* r := p in Ret (map_err (λ _, msg) r).

Definition path_exists (path : string) : prog Sb bool := trigger (SbPathExists path).

Definition unshare (flag : Z) (msg : string) : prog Sb (result string unit) :=
  context msg (trigger (SbUnshare flag)).

(** A bind mount and its remount, which the code writes out each time. *)
Definition bind (source target : string) : prog Sb (result string unit) :=
  trigger (SbMount (Some source) target None MS_BIND None).

Definition remount_rdonly (source target : string) : prog Sb (result string unit) :=
  trigger (SbMount (Some source) target None REMOUNT_RDONLY None).

Definition ignore {A} (p : prog Sb A) : prog Sb unit := let* _ := p in Ret tt.

Definition done_ok : prog Sb (result string unit) := Ret (Ok tt).

(** [if cond { f()?; }]. *)
Definition when (cond : bool) (p : prog Sb (result string unit)) : prog Sb (result string unit) :=
  if cond then p else done_ok.

(** ** Namespaces *)

Definition setup_private_network : prog Sb (result string unit) :=
  try* _ := unshare CLONE_NEWNET "unshare(CLONE_NEWNET) for private_network" in
  trigger (SbStatus "ip" ["link"; "set"; "lo"; "up"]);* done_ok.

Definition setup_private_ipc : prog Sb (result string unit) :=
  try* _ := unshare CLONE_NEWIPC "unshare(CLONE_NEWIPC) for private_ipc" in done_ok.

Definition setup_protect_hostname : prog Sb (result string unit) :=
  try* _ := unshare CLONE_NEWUTS "unshare(CLONE_NEWUTS) for protect_hostname" in done_ok.

(** ** Devices, home directories, /proc *)

Definition raw_devices : list string :=
  ["/dev/sda"; "/dev/sdb"; "/dev/sdc"; "/dev/sdd"; "/dev/nvme0"; "/dev/nvme1"; "/dev/vda";
   "/dev/vdb"; "/dev/mmcblk0"; "/dev/mem"; "/dev/kmem"; "/dev/port"; "/dev/kvm"; "/dev/dri"].

(** A failed mount is only logged. *)
Definition hide_device (dev : string) : prog Sb unit :=
  let* exists_ := path_exists dev in
  if exists_ then ignore (bind "/dev/null" dev) else Ret tt.

Definition setup_private_devices : prog Sb (result string unit) :=
  try* _ := unshare CLONE_NEWNS "unshare(CLONE_NEWNS) for private_devices" in
  for_each hide_device raw_devices;*
  hide_device "/dev/kmsg";*
  done_ok.

Definition HOME_PATHS : list string := ["/home"; "/root"; "/run/user"].

Definition protect_home_path (mode : ProtectHome) (path : string) : prog Sb (result string unit) :=
  let* exists_ := path_exists path in
  if negb exists_ then done_ok
  else
    match mode with
    | ProtectHome_No => done_ok
    | ProtectHome_ReadOnly =>
        try* _ := context ("bind " +:+ path +:+ " for read-only") (bind path path) in
        context ("remount " +:+ path +:+ " read-only") (remount_rdonly path path)
    | ProtectHome_Tmpfs =>
        context ("tmpfs over " +:+ path)
          (trigger (SbMount (Some "tmpfs") path (Some "tmpfs") (Z.lor MS_NOSUID MS_NODEV) (Some "mode=0755")))
    | ProtectHome_Yes =>
        context ("inaccessible tmpfs over " +:+ path)
          (trigger (SbMount (Some "tmpfs") path (Some "tmpfs")
             (Z.lor (Z.lor MS_NOSUID MS_NODEV) MS_RDONLY) (Some "mode=0000")))
    end.

Definition setup_protect_home (mode : ProtectHome) : prog Sb (result string unit) :=
  match mode with
  | ProtectHome_No => done_ok
  | _ =>
      try* _ := unshare CLONE_NEWNS "unshare(CLONE_NEWNS) for protect_home" in
      for_try (protect_home_path mode) HOME_PATHS
  end.

(** [None] is the early return of the mode [Default]. *)
Definition hidepid (mode : ProtectProc) : option string :=
  match mode with
  | ProtectProc_Default => None
  | ProtectProc_Invisible => Some "hidepid=invisible"
  | ProtectProc_Noaccess => Some "hidepid=noaccess"
  | ProtectProc_Ptraceable => Some "hidepid=ptraceable"
  end.

Definition PROC_FLAGS : Z := Z.lor (Z.lor MS_NOSUID MS_NODEV) MS_NOEXEC.

Definition setup_protect_proc (mode : ProtectProc) : prog Sb (result string unit) :=
  match hidepid mode with
  | None => done_ok
  | Some hidepid =>
      try* _ := unshare CLONE_NEWNS "unshare(CLONE_NEWNS) for protect_proc" in
      context ("remount /proc with " +:+ hidepid)
        (trigger (SbMount (Some "proc") "/proc" (Some "proc") PROC_FLAGS (Some hidepid)))
  end.

(** ** The kernel's files *)

Definition ro_paths : list string :=
  ["/proc/sys"; "/proc/sysrq-trigger"; "/proc/latency_stats"; "/proc/acpi"; "/proc/timer_list"; "/sys"].

(** Both mounts may fail: the step that [setup_read_only_paths] makes too. *)
Definition try_read_only (path : string) : prog Sb unit :=
  let* exists_ := path_exists path in
  if negb exists_ then Ret tt
  else ignore (bind path path);* ignore (remount_rdonly path path).

Definition setup_protect_kernel_tunables : prog Sb (result string unit) :=
  try* _ := unshare CLONE_NEWNS "unshare(CLONE_NEWNS) for protect_kernel_tunables" in
  for_each try_read_only ro_paths;* done_ok.

Definition setup_protect_kernel_logs : prog Sb (result string unit) :=
  let* exists_ := path_exists "/dev/kmsg" in
  if exists_ then
    try* _ := unshare CLONE_NEWNS "unshare(CLONE_NEWNS) for protect_kernel_logs" in
    context "bind /dev/null over /dev/kmsg" (bind "/dev/null" "/dev/kmsg")
  else done_ok.

Definition setup_protect_control_groups : prog Sb (result string unit) :=
  let cg := "/sys/fs/cgroup" in
  let* exists_ := path_exists cg in
  if exists_ then
    try* _ := unshare CLONE_NEWNS "unshare(CLONE_NEWNS) for protect_control_groups" in
    ignore (bind cg cg);*
    context "remount /sys/fs/cgroup read-only" (remount_rdonly cg cg)
  else done_ok.

(** ** Configured paths *)

Definition setup_inaccessible_paths (paths : list string) : prog Sb (result string unit) :=
  if is_nil paths then done_ok
  else
    try* _ := unshare CLONE_NEWNS "unshare(CLONE_NEWNS) for inaccessible_paths" in
    for_each hide_device paths;* done_ok.

Definition setup_read_only_paths (paths : list string) : prog Sb (result string unit) :=
  if is_nil paths then done_ok
  else
    try* _ := unshare CLONE_NEWNS "unshare(CLONE_NEWNS) for read_only_paths" in
    for_each try_read_only paths;* done_ok.

Definition colon : ascii := ":".

(** A specification that is not [host:dest], or whose source is missing, is skipped. *)
Definition bind_path (read_only : bool) (spec : string) : prog Sb (result string unit) :=
  match splitn 2 colon spec with
  | [src; dst] =>
      let* exists_ := path_exists src in
      if negb exists_ then done_ok
      else
        try* _ := context ("bind " +:+ src +:+ " → " +:+ dst) (bind src dst) in
        if read_only
        then context ("remount RO " +:+ src +:+ " → " +:+ dst) (remount_rdonly src dst)
        else done_ok
  | _ => done_ok
  end.

Definition setup_bind_paths (bind_paths : list string) (read_only : bool)
    : prog Sb (result string unit) :=
  if is_nil bind_paths then done_ok
  else
    try* _ := unshare CLONE_NEWNS "unshare(CLONE_NEWNS) for bind_paths" in
    for_try (bind_path read_only) bind_paths.

(** ** Process attributes *)

Definition PR_SET_MDWE : Z := 65.
Definition PROC_MDWE_REFUSE_EXEC_GAIN : Z := 1.
Definition PR_SET_SECUREBITS : Z := 28.
Definition SECURE_ALL_BITS : Z := 63.
Definition PR_SET_TIMERSLACK : Z := 29.

Definition setup_memory_deny_write_execute : prog Sb (result string unit) :=
  trigger (SbPrctl PR_SET_MDWE PROC_MDWE_REFUSE_EXEC_GAIN);* done_ok.

Definition setup_restrict_suid_sgid : prog Sb (result string unit) :=
  trigger (SbPrctl PR_SET_SECUREBITS SECURE_ALL_BITS);* done_ok.

Definition setup_restrict_realtime : prog Sb (result string unit) :=
  trigger (SbPrctl PR_SET_TIMERSLACK 50000);* done_ok.

Definition setup_lock_personality : prog Sb (result string unit) :=
  let* current := trigger (SbPersonality 4294967295) in
  (if 0 <=? current then ignore (trigger (SbPersonality current)) else Ret tt);*
  done_ok.

(** ** The root directory *)

Definition setup_root_directory (path : string) : prog Sb (result string unit) :=
  try* _ := context ("chroot to '" +:+ path +:+ "'") (trigger (SbChroot path)) in
  context "chdir / after chroot" (trigger (SbChdir "/")).

Definition O_RDWR_CLOEXEC : Z := Z.lor O_RDWR 524288.
Definition IMAGE_FLAGS : Z := 524288.
Definition ROOT_IMAGE_TARGET : string := "/run/quantra-service-root".
Definition root_image_fstypes : list string := ["ext4"; "squashfs"; "btrfs"; "xfs"; "f2fs"].

Definition os_error (msg : string) : prog Sb (result string unit) :=
  let* e := trigger SbLastError in Ret (Err (msg +:+ ": " +:+ e)).

(** [None]: this file system type does not fit. *)
Definition mount_root_image (loop_dev fstype : string) : prog Sb (option (result string unit)) :=
  let* r := trigger (SbMount (Some loop_dev) ROOT_IMAGE_TARGET (Some fstype) MS_RDONLY None) in
  match r with
  | Ok _ => let* r := setup_root_directory ROOT_IMAGE_TARGET in Ret (Some r)
  | Err _ => Ret None
  end.

Definition attach_image (loop_fd : Z) (image_path : string) : prog Sb (result string unit) :=
  let LOOP_SET_FD := 19456 in
  match CString image_path with
  | Err _ => Ret (Err ("invalid image path: " +:+ image_path))
  | Ok _ =>
      let* img_fd := trigger (SbOpen image_path IMAGE_FLAGS) in
      if img_fd <? 0 then
        trigger (SbClose loop_fd);* os_error ("open image '" +:+ image_path +:+ "'")
      else
        let* ret := trigger (SbIoctl loop_fd LOOP_SET_FD img_fd) in
        trigger (SbClose img_fd);*
        if ret <? 0 then trigger (SbClose loop_fd);* os_error "LOOP_SET_FD"
        else trigger (SbClose loop_fd);* done_ok
  end.

Definition setup_root_image (image_path : string) : prog Sb (result string unit) :=
  let LOOP_CTL_GET_FREE := 19586 in
  let* ctrl_fd := trigger (SbOpen "/dev/loop-control" O_RDWR_CLOEXEC) in
  if ctrl_fd <? 0 then os_error "open /dev/loop-control"
  else
    let* loop_idx := trigger (SbIoctl ctrl_fd LOOP_CTL_GET_FREE 0) in
    trigger (SbClose ctrl_fd);*
    if loop_idx <? 0 then os_error "LOOP_CTL_GET_FREE"
    else
      let loop_dev := "/dev/loop" +:+ show_int loop_idx in
      let* loop_fd := trigger (SbOpen loop_dev O_RDWR_CLOEXEC) in
      if loop_fd <? 0 then os_error ("open " +:+ loop_dev)
      else
        try* _ := attach_image loop_fd image_path in
        try* _ := context ("create root image mount target '" +:+ ROOT_IMAGE_TARGET +:+ "'")
                    (trigger (SbCreateDirAll ROOT_IMAGE_TARGET)) in
        let* r := for_break (mount_root_image loop_dev) root_image_fstypes in
        match r with
        | Some r => Ret r
        | None =>
            Ret (Err ("root_image '" +:+ image_path +:+ "' (" +:+ loop_dev +:+
                      ") could not be mounted as ext4/squashfs/btrfs/xfs/f2fs"))
        end.

(** ** Temporary and API file systems *)

(** Path, size and mode of ["path"], ["path:size"] or ["path:size:mode"]. *)
Definition parse_tmpfs_spec (spec : string) : string * string * string :=
  let parts := splitn 3 colon spec in
  (default "" (parts !! 0%nat), default "64M" (parts !! 1%nat), default "0755" (parts !! 2%nat)).

Definition temporary_filesystem (spec : string) : prog Sb (result string unit) :=
  let '(path, size, mode) := parse_tmpfs_spec spec in
  let* exists_ := path_exists path in
  try* _ := (if negb exists_
             then context ("mkdir '" +:+ path +:+ "' for tmpfs") (trigger (SbCreateDirAll path))
             else done_ok) in
  let opts := "size=" +:+ size +:+ ",mode=" +:+ mode in
  context ("tmpfs on '" +:+ path +:+ "' (" +:+ opts +:+ ")")
    (trigger (SbMount (Some "tmpfs") path (Some "tmpfs") (Z.lor MS_NOSUID MS_NODEV) (Some opts))).

Definition setup_temporary_filesystems (specs : list string) : prog Sb (result string unit) :=
  if is_nil specs then done_ok
  else
    try* _ := unshare CLONE_NEWNS "unshare(CLONE_NEWNS) for temporary_filesystems" in
    for_try temporary_filesystem specs.

(** Source, target, type, flags and options. *)
Definition api_mounts : list (string * string * string * Z * option string) :=
  let nosuid_noexec := Z.lor MS_NOSUID MS_NOEXEC in
  [("proc", "/proc", "proc", Z.lor nosuid_noexec MS_NODEV, None);
   ("sysfs", "/sys", "sysfs", Z.lor nosuid_noexec MS_NODEV, None);
   ("devtmpfs", "/dev", "devtmpfs", Z.lor MS_NOSUID MS_STRICTATIME, Some "mode=755");
   ("devpts", "/dev/pts", "devpts", nosuid_noexec, Some "mode=620,ptmxmode=0666");
   ("tmpfs", "/dev/shm", "tmpfs", Z.lor (Z.lor MS_NOSUID MS_NODEV) MS_NOEXEC, Some "mode=1777");
   ("tmpfs", "/run", "tmpfs", Z.lor MS_NOSUID MS_NODEV, Some "mode=755")].

Definition mount_api (m : string * string * string * Z * option string) : prog Sb unit :=
  let '(src, dst, fstype, flags, opts) := m in
  trigger (SbCreateDirAll dst);*
  ignore (trigger (SbMount (Some src) dst (Some fstype) flags opts)).

Definition setup_mount_api_vfs : prog Sb (result string unit) :=
  try* _ := unshare CLONE_NEWNS "unshare(CLONE_NEWNS) for mount_api_vfs" in
  for_each mount_api api_mounts;* done_ok.

(** A failed mount is only logged. *)
Definition setup_proc_subset_pid : prog Sb (result string unit) :=
  try* _ := unshare CLONE_NEWNS "unshare(CLONE_NEWNS) for proc_subset" in
  ignore (trigger (SbMount (Some "proc") "/proc" (Some "proc") PROC_FLAGS (Some "subset=pid")));*
  done_ok.

(** ** Markers: no enforcement here *)

Definition af_name_to_number (name : string) : option Z :=
  let name := to_ascii_uppercase (trim_start_matches "AF_" name) in
  if String.eqb name "UNIX" || String.eqb name "LOCAL" then Some 1
  else if String.eqb name "INET" then Some 2
  else if String.eqb name "INET6" then Some 10
  else if String.eqb name "NETLINK" then Some 16
  else if String.eqb name "PACKET" then Some 17
  else if String.eqb name "BLUETOOTH" then Some 16
  else if String.eqb name "VSOCK" then Some 40
  else None.

(** The numbers are only logged. *)
Definition setup_restrict_address_families (families : list string) : prog Sb (result string unit) :=
  if is_nil families then done_ok
  else
    let allowed := omap af_name_to_number families in
    if is_nil allowed then done_ok else done_ok.

Definition setup_system_call_architectures_native : prog Sb (result string unit) := done_ok.

Definition setup_restrict_bpf : prog Sb (result string unit) := done_ok.

(** ** The whole sandbox *)

Definition apply_sandbox_extended (svc : Service) : prog Sb (result string unit) :=
  try* _ := when (negb (is_nil (svc_temporary_filesystems svc)))
              (setup_temporary_filesystems (svc_temporary_filesystems svc)) in
  try* _ := when (svc_mount_api_vfs svc) setup_mount_api_vfs in
  try* _ := when (svc_proc_subset_pid svc) setup_proc_subset_pid in
  try* _ := when (svc_restrict_realtime svc) setup_restrict_realtime in
  try* _ := when (svc_lock_personality svc) setup_lock_personality in
  try* _ := when (negb (is_nil (svc_restrict_address_families svc)))
              (setup_restrict_address_families (svc_restrict_address_families svc)) in
  try* _ := when (svc_system_call_architectures_native svc) setup_system_call_architectures_native in
  done_ok.

(** [root_image] overrides [root_directory]. *)
Definition setup_root (svc : Service) : prog Sb (result string unit) :=
  match svc_root_image svc, svc_root_directory svc with
  | Some img, _ => setup_root_image img
  | None, Some root => setup_root_directory root
  | None, None => done_ok
  end.

Definition apply_sandbox (svc : Service) : prog Sb (result string unit) :=
  try* _ := when (svc_private_network svc) setup_private_network in
  try* _ := when (svc_private_ipc svc) setup_private_ipc in
  try* _ := when (svc_protect_hostname svc) setup_protect_hostname in
  try* _ := when (svc_private_devices svc) setup_private_devices in
  try* _ := setup_protect_home (svc_protect_home svc) in
  try* _ := setup_protect_proc (svc_protect_proc svc) in
  try* _ := when (svc_protect_kernel_tunables svc) setup_protect_kernel_tunables in
  try* _ := when (svc_protect_kernel_logs svc) setup_protect_kernel_logs in
  try* _ := when (svc_protect_control_groups svc) setup_protect_control_groups in
  try* _ := when (negb (is_nil (svc_inaccessible_paths svc)))
              (setup_inaccessible_paths (svc_inaccessible_paths svc)) in
  try* _ := when (negb (is_nil (svc_read_only_paths svc)))
              (setup_read_only_paths (svc_read_only_paths svc)) in
  try* _ := when (negb (is_nil (svc_bind_paths svc)))
              (setup_bind_paths (svc_bind_paths svc) false) in
  try* _ := when (negb (is_nil (svc_bind_read_only_paths svc)))
              (setup_bind_paths (svc_bind_read_only_paths svc) true) in
  try* _ := when (svc_memory_deny_write_execute svc) setup_memory_deny_write_execute in
  try* _ := when (svc_restrict_suid_sgid svc) setup_restrict_suid_sgid in
  try* _ := setup_root svc in
  try* _ := apply_sandbox_extended svc in
  done_ok.

(** ** In the parent *)

(** [{:?}] of an [Option<u32>]. *)
Definition show_opt (o : option Z) : string :=
  match o with Some z => "Some(" +:+ show_uint z +:+ ")" | None => "None" end.

(** The mode is 0750. *)
Definition ensure_service_directory (dir_path : string) (uid gid : option Z)
    : prog Sb (result string unit) :=
  let* exists_ := path_exists dir_path in
  try* _ := (if negb exists_
             then context ("create service dir '" +:+ dir_path +:+ "'") (trigger (SbCreateDirAll dir_path))
             else done_ok) in
  try* _ := trigger (SbMetadata dir_path) in
  try* _ := trigger (SbSetPermissions dir_path 488) in
  match uid, gid with
  | None, None => done_ok
  | _, _ =>
      context ("chown '" +:+ dir_path +:+ "' to uid=" +:+ show_opt uid +:+ " gid=" +:+ show_opt gid)
        (trigger (SbChown dir_path uid gid))
  end.

Definition directory_of (base : string) (name : option string) (uid gid : option Z)
    : prog Sb (result string unit) :=
  match name with
  | Some name => ensure_service_directory (base +:+ name) uid gid
  | None => done_ok
  end.

Definition setup_service_directories (svc : Service) (uid gid : option Z)
    : prog Sb (result string unit) :=
  try* _ := directory_of "/run/" (svc_runtime_directory svc) uid gid in
  try* _ := directory_of "/overlayer/syshub/var/lib/" (svc_state_directory svc) uid gid in
  try* _ := directory_of "/overlayer/syshub/var/cache/" (svc_cache_directory svc) uid gid in
  try* _ := directory_of "/overlayer/syshub/var/log/" (svc_logs_directory svc) uid gid in
  done_ok.

Definition id_map (inner outer : Z) : string :=
  show_uint inner +:+ " " +:+ show_uint outer +:+ " 1" +:+ String newline EmptyString.

Definition setup_private_users (uid gid : option Z) : prog Sb (result string unit) :=
  try* _ := unshare CLONE_NEWUSER "unshare(CLONE_NEWUSER) for private_users" in
  try* _ := context "write /proc/self/uid_map"
              (trigger (SbWriteFile "/proc/self/uid_map" (id_map 0 (default 65534 uid)))) in
  try* _ := context "write /proc/self/setgroups deny"
              (trigger (SbWriteFile "/proc/self/setgroups" "deny")) in
  context "write /proc/self/gid_map"
    (trigger (SbWriteFile "/proc/self/gid_map" (id_map 0 (default 65534 gid)))).

Definition DYNAMIC_UID_MIN : Z := 60000.
Definition DYNAMIC_UID_MAX : Z := 65533.

(** The user of a line of the passwd file. *)
Definition passwd_uid (line : string) : option Z :=
  match split colon line with
  | _ :: _ :: uid :: _ => parse_uint u32_max uid
  | _ => None
  end.

Definition used_uids (content : string) : gset Z := list_to_set (omap passwd_uid (lines content)).

Definition first_free (used : gset Z) : option Z :=
  snd <$> list_find (λ uid, uid ∉ used) (seqZ DYNAMIC_UID_MIN (DYNAMIC_UID_MAX - DYNAMIC_UID_MIN + 1)).

Definition allocate_dynamic_uid : prog Sb (result string (Z * Z)) :=
  let* content := trigger (SbReadToString "/overlayer/syshub/etc/passwd") in
  let used := match content with Ok content => used_uids content | Err _ => ∅ end in
  match first_free used with
  | Some uid => Ret (Ok (uid, uid))
  | None =>
      Ret (Err ("dynamic_user: no free UID in range " +:+ show_uint DYNAMIC_UID_MIN +:+ "-" +:+
                show_uint DYNAMIC_UID_MAX))
  end.

(** The allocated user is the first of the range that the passwd file does not list,
    and an error means that it lists all of them. *)
Lemma first_free_spec used :
  match first_free used with
  | Some uid => DYNAMIC_UID_MIN ≤ uid ≤ DYNAMIC_UID_MAX ∧ uid ∉ used ∧
      ∀ u, DYNAMIC_UID_MIN ≤ u < uid → u ∈ used
  | None => ∀ u, DYNAMIC_UID_MIN ≤ u ≤ DYNAMIC_UID_MAX → u ∈ used
  end.
Proof.
  unfold first_free, DYNAMIC_UID_MIN, DYNAMIC_UID_MAX. set (l := seqZ _ _).
  destruct (list_find _ l) as [[i uid]|] eqn:Hf; simpl.
  - apply list_find_Some in Hf as (Hi & Hfree & Hbefore). apply lookup_seqZ in Hi as [-> Hi].
    split_and!; [lia..|done|]. intros u Hu.
    assert (l !! Z.to_nat (u - 60000) = Some u) as Hl by (apply lookup_seqZ; lia).
    destruct (decide (u ∈ used)) as [|Hn]; [done|]. by destruct (Hbefore _ _ Hl); [lia|].
  - intros u Hu. apply list_find_None in Hf. rewrite Forall_forall in Hf.
    destruct (decide (u ∈ used)) as [|Hn]; [done|]. destruct (Hf u); [|done].
    apply elem_of_seqZ. lia.
Qed.
