(* ===== verification/SandboxWorld.v ===== *)
(** * The sandbox and the kernel

    The operations of [Sandbox] against the mount namespace of a process: which mount is
    in force at a path, and whether a mount is made in the process's own namespace or in
    the host's.  How the kernel finds a path (symbolic links, [..]) is a parameter.  Then
    what each part of the sandbox mounts, and that a protection stays in force as long as
    nothing is mounted over it. *)

From Stdlib Require Import ZArith Ascii.
From stdpp Require Import base tactics numbers list strings gmap.
From S2P Require Import Prelude RustStr Types Effects Launch Sandbox.

Local Open Scope string_scope.
Local Open Scope list_scope.
Local Open Scope Z_scope.
Local Open Scope quantra_scope.
Local Open Scope prog_scope.

(** ** The mount namespace *)

(** The target is where the kernel found the path, component by component. *)
Record MountPoint := {
  mp_source : option string;
  mp_target : list string;
  mp_fstype : option string;
  mp_flags : Z;
  mp_data : option string;
}.

(** [ns_admin]: the process has CAP_SYS_ADMIN; [ns_private]: it has left the host's
    mount namespace; [ns_root]: its root directory; [ns_mounts], [ns_host]: the mounts
    of its own namespace and of the host's, the latest first; [ns_absent]: the paths
    that were looked for and not found. *)
Record Ns := {
  ns_admin : bool;
  ns_private : bool;
  ns_root : list string;
  ns_mounts : list MountPoint;
  ns_host : list MountPoint;
  ns_absent : list string;
}.

(** The mount in force at [p]: the latest one on [p] or on a directory above it. *)
Fixpoint in_force (ms : list MountPoint) (p : list string) : option MountPoint :=
  match ms with
  | [] => None
  | m :: ms => if bool_decide (mp_target m `prefix_of` p) then Some m else in_force ms p
  end.

(** MS_REMOUNT: new flags for the mount in force, which must be one on [t] itself. *)
Fixpoint remount (t : list string) (flags : Z) (ms : list MountPoint) : option (list MountPoint) :=
  match ms with
  | [] => None
  | m :: ms =>
      if bool_decide (mp_target m `prefix_of` t) then
        if bool_decide (mp_target m = t) then
          Some ({| mp_source := mp_source m; mp_target := t; mp_fstype := mp_fstype m;
                   mp_flags := flags; mp_data := mp_data m |} :: ms)
        else None
      else cons m <$> remount t flags ms
  end.

Definition mount_on (source : option string) (t : list string) (fstype : option string) (flags : Z)
    (data : option string) (ms : list MountPoint) : option (list MountPoint) :=
  if Z.testbit flags 5 then remount t flags ms
  else Some ({| mp_source := source; mp_target := t; mp_fstype := fstype;
                mp_flags := flags; mp_data := data |} :: ms).

(** Mounts are private to a namespace (the kernel's default, which the program leaves
    alone); before [unshare(CLONE_NEWNS)] the process's mounts are the host's. *)
Definition set_mounts (ms : list MountPoint) (w : Ns) : Ns :=
  {| ns_admin := ns_admin w; ns_private := ns_private w; ns_root := ns_root w; ns_mounts := ms;
     ns_host := if ns_private w then ns_host w else ms; ns_absent := ns_absent w |}.

Definition set_private (w : Ns) : Ns :=
  {| ns_admin := ns_admin w; ns_private := true; ns_root := ns_root w; ns_mounts := ns_mounts w;
     ns_host := ns_host w; ns_absent := ns_absent w |}.

Definition set_admin (b : bool) (w : Ns) : Ns :=
  {| ns_admin := b; ns_private := ns_private w; ns_root := ns_root w; ns_mounts := ns_mounts w;
     ns_host := ns_host w; ns_absent := ns_absent w |}.

Definition set_root (r : list string) (w : Ns) : Ns :=
  {| ns_admin := ns_admin w; ns_private := ns_private w; ns_root := r; ns_mounts := ns_mounts w;
     ns_host := ns_host w; ns_absent := ns_absent w |}.

Definition add_absent (p : string) (w : Ns) : Ns :=
  {| ns_admin := ns_admin w; ns_private := ns_private w; ns_root := ns_root w; ns_mounts := ns_mounts w;
     ns_host := ns_host w; ns_absent := p :: ns_absent w |}.

(** The components of a path, as written. *)
Definition comps (path : string) : list string :=
  filter (λ c, c ≠ "" ∧ c ≠ ".") (split "/" path).

Section sandbox.
(** Where the kernel finds a path. *)
Context (canon : Ns → string → list string).

(** mount(2) and chroot(2) need CAP_SYS_ADMIN (CAP_SYS_CHROOT), unshare(2) too, except
    for a user namespace, in which the process has every capability. *)
Definition sb_step : ∀ X, Sb X → Ns → X → Ns → Prop :=
  λ X e, match e in Sb X return Ns → X → Ns → Prop with
  | SbUnshare flags => λ w r w', match r with
      | Ok _ =>
          if flags =? CLONE_NEWUSER then w' = set_admin true w
          else ns_admin w = true ∧ w' = if flags =? CLONE_NEWNS then set_private w else w
      | Err _ => w' = w
      end
  | SbMount source target fstype flags data => λ w r w', match r with
      | Ok _ => ns_admin w = true ∧ ∃ ms,
          mount_on source (canon w target) fstype flags data (ns_mounts w) = Some ms ∧
          w' = set_mounts ms w
      | Err _ => w' = w
      end
  | SbChroot path => λ w r w', match r with
      | Ok _ => ns_admin w = true ∧ w' = set_root (canon w path) w
      | Err _ => w' = w
      end
  | SbPathExists path => λ w x w', w' = if x : bool then w else add_absent path w
  | _ => λ w _ w', w' = w
  end.

(** ** What is in force stays in force *)

Lemma in_force_mount_ne source t fstype flags data ms ms' q :
  ¬ t `prefix_of` q → mount_on source t fstype flags data ms = Some ms' → in_force ms' q = in_force ms q.
Proof.
  intros Hne. unfold mount_on. destruct (Z.testbit flags 5).
  - revert ms'. induction ms as [|m ms IH]; intros ms'; simpl; [done|].
    case_bool_decide as Hp.
    + case_bool_decide as Heq; [|done]. intros [= <-]. simpl.
      rewrite Heq, !bool_decide_eq_false_2 by done. done.
    + intros (ms2 & Hr & ->)%fmap_Some_1. simpl. rewrite (IH ms2) by done. done.
  - intros [= <-]. simpl. by rewrite bool_decide_eq_false_2.
Qed.

Lemma in_force_remount t flags ms ms' :
  remount t flags ms = Some ms' → ∃ m, in_force ms' t = Some m ∧ mp_flags m = flags.
Proof.
  revert ms'. induction ms as [|m ms IH]; intros ms'; simpl; [done|].
  case_bool_decide as Hp.
  - case_bool_decide as Heq; [|done]. intros [= <-]. simpl.
    rewrite bool_decide_eq_true_2 by done. eauto.
  - intros (ms2 & Hr & ->)%fmap_Some_1. simpl. rewrite bool_decide_eq_false_2 by done. by apply IH.
Qed.

Lemma in_force_new source t fstype flags data ms :
  in_force ({| mp_source := source; mp_target := t; mp_fstype := fstype;
               mp_flags := flags; mp_data := data |} :: ms) t
  = Some {| mp_source := source; mp_target := t; mp_fstype := fstype;
            mp_flags := flags; mp_data := data |}.
Proof. simpl. by rewrite bool_decide_eq_true_2. Qed.

(** [prot] describes the mount in force at [path]; an optional path may be missing. *)
Definition guarded (optional : bool) (path : string) (prot : MountPoint → Prop) (w : Ns) : Prop :=
  ns_root w = [] ∧
  (optional = true ∧ path ∈ ns_absent w ∨
   ∃ m, in_force (ns_mounts w) (comps path) = Some m ∧ prot m).

(** Programs that mount only on the targets [T], and change the root only if [chroot_ok]. *)
Definition acts (chroot_ok : Prop) (T : string → Prop) : ∀ X, Sb X → Prop :=
  λ X e, match e with
  | SbMount _ t _ _ _ => T t
  | SbChroot _ => chroot_ok
  | SbUnshare flags => flags ≠ CLONE_NEWUSER
  | _ => True
  end.

(** Targets that do not cover [path]. *)
Definition beside (path : string) (t : string) : Prop :=
  ∀ w, ns_root w = [] → ¬ canon w t `prefix_of` comps path.

Lemma keeps_guarded {A} o path prot (p : prog Sb A) :
  performs (acts False (beside path)) p → keeps sb_step (guarded o path prot) p.
Proof.
  apply performs_keeps. intros X e w x w' HP [Hr Hg] Hs. unfold guarded.
  destruct e; simpl in *; try (by subst).
  - destruct x as [[]|]; [|by subst]. rewrite (proj2 (Z.eqb_neq _ _) HP) in Hs.
    destruct Hs as [_ ->]. by destruct (_ =? _).
  - destruct x as [[]|]; [|by subst]. destruct Hs as (_ & ms & Hm & ->). simpl. split; [done|].
    by rewrite (in_force_mount_ne _ _ _ _ _ _ _ _ (HP w Hr) Hm).
  - subst w'. destruct x; [done|]. simpl. split; [done|]. destruct Hg as [[Ho Hg]|Hg]; [|by right]. left. split; [done|]. by right.
Qed.

Lemma keeps_root {A} T (p : prog Sb A) :
  performs (acts False T) p → keeps sb_step (λ w, ns_root w = []) p.
Proof.
  apply performs_keeps. intros X e w x w' HP Hr Hs.
  destruct e; simpl in *; try (by subst).
  - destruct x as [[]|]; [|by subst]. destruct (_ =? _); [by subst|]. destruct Hs as [_ ->]. by destruct (_ =? _).
  - destruct x as [[]|]; [|by subst]. by destruct Hs as (_ & ms & Hm & ->).
  - subst w'. by destruct x.
Qed.

(** In a namespace of its own, a process cannot reach the mounts of the host. *)
Lemma keeps_private {A} h (p : prog Sb A) :
  keeps sb_step (λ w, ns_private w = true ∧ ns_host w = h) p.
Proof.
  apply (performs_keeps _ (λ _ _, True)); [|induction p; simpl; auto].
  intros X e w x w' _ [Hp Hh] Hs. destruct e; simpl in *; try (by subst).
  - destruct x as [[]|]; [|by subst]. destruct (_ =? _); [by subst|]. destruct Hs as [_ ->]. by destruct (_ =? _).
  - destruct x as [[]|]; [|by subst]. destruct Hs as (_ & ms & Hm & ->). simpl. by rewrite Hp.
  - subst w'. by destruct x.
  - destruct x as [[]|]; [|by subst]. by destruct Hs as [_ ->].
Qed.

(** Without mounts, neither. *)
Lemma keeps_host {A} C h (p : prog Sb A) :
  performs (acts C (λ _, False)) p → keeps sb_step (λ w, ns_host w = h) p.
Proof.
  apply performs_keeps. intros X e w x w' HP Hh Hs. destruct e; simpl in *; try done; try (by subst).
  - destruct x as [[]|]; [|by subst]. destruct (_ =? _); [by subst|]. destruct Hs as [_ ->]. by destruct (_ =? _).
  - subst w'. by destruct x.
  - destruct x as [[]|]; [|by subst]. by destruct Hs as [_ ->].
Qed.

(** A process without privileges changes none of it. *)
Definition frozen (w0 w : Ns) : Prop :=
  ns_admin w = false ∧ ns_private w = ns_private w0 ∧ ns_root w = ns_root w0 ∧
  ns_mounts w = ns_mounts w0 ∧ ns_host w = ns_host w0.

Lemma keeps_frozen {A} w0 (p : prog Sb A) :
  performs (acts True (λ _, True)) p → keeps sb_step (frozen w0) p.
Proof.
  apply performs_keeps. intros X e w x w' HP (Ha & Hf) Hs. unfold frozen.
  destruct e; simpl in *; try (by subst).
  - destruct x as [[]|]; [|by subst]. rewrite (proj2 (Z.eqb_neq _ _) HP) in Hs. destruct Hs; congruence.
  - destruct x as [[]|]; [|by subst]. destruct Hs as [? _]; congruence.
  - subst w'. by destruct x.
  - destruct x as [[]|]; [|by subst]. destruct Hs as [? _]; congruence.
Qed.

(** The rules of the steps that the parts share. *)
Lemma wp_context {A} msg (p : prog Sb (result string A)) w Q :
  wp sb_step p w (λ w r, Q w (map_err (λ _, msg) r)) → wp sb_step (context msg p) w Q.
Proof. intros Hp. unfold context. apply wp_bind. exact Hp. Qed.

Lemma wp_unshare flags msg w (Q : Ns → result string unit → Prop) :
  flags ≠ CLONE_NEWUSER →
  (ns_admin w = true → Q (if flags =? CLONE_NEWNS then set_private w else w) (Ok tt)) →
  Q w (Err msg) → wp sb_step (unshare flags msg) w Q.
Proof.
  intros Hne Hok Herr. apply wp_context, wp_trigger. intros [[]|e] w' Hs; simpl in *.
  - rewrite (proj2 (Z.eqb_neq _ _) Hne) in Hs. destruct Hs as [Ha ->]. by apply Hok.
  - by subst.
Qed.

(** After the private namespace was created, or not. *)
Lemma wp_private_try msg (k : unit → prog Sb (result string unit)) w Q :
  (ns_admin w = true → wp sb_step (k tt) (set_private w) Q) → Q w (Err msg) →
  wp sb_step (try_bind (unshare CLONE_NEWNS msg) k) w Q.
Proof. intros Hk He. apply wp_try, wp_unshare; [done|exact Hk|exact He]. Qed.

(** ** Where each part mounts *)

Section acts.
Context (C : Prop) (T : string → Prop).

Ltac acts_step :=
  first
    [ simple apply performs_ret
    | progress unfold done_ok, when, unshare, context, ignore, path_exists, bind, remount_rdonly, os_error
    | simple apply performs_try; [|intros ?]
    | simple apply performs_bind; [|intros ?]
    | simple apply performs_op; simpl; solve [done | auto | naive_solver]
    | case_match ].

Lemma acts_hide dev : T dev → performs (acts C T) (hide_device dev).
Proof. intros Hd. unfold hide_device. repeat acts_step. Qed.

Lemma acts_read_only path : T path → performs (acts C T) (try_read_only path).
Proof. intros Hd. unfold try_read_only. repeat acts_step. Qed.

Lemma acts_private_devices :
  (∀ t, t ∈ "/dev/kmsg" :: raw_devices → T t) → performs (acts C T) setup_private_devices.
Proof.
  intros HT. unfold setup_private_devices. apply performs_try; [repeat acts_step|]. intros _.
  apply performs_bind; [apply performs_for_each_in; intros a Ha; apply acts_hide, HT; by right|].
  intros _. apply performs_bind; [apply acts_hide, HT; left|]. intros _. repeat acts_step.
Qed.

Lemma acts_home_path mode path : T path → performs (acts C T) (protect_home_path mode path).
Proof. intros Hd. unfold protect_home_path. repeat acts_step. Qed.

Lemma acts_protect_home mode : (∀ t, t ∈ HOME_PATHS → T t) → performs (acts C T) (setup_protect_home mode).
Proof.
  intros HT. assert (performs (acts C T)
    (try* _ := unshare CLONE_NEWNS "unshare(CLONE_NEWNS) for protect_home" in
     for_try (protect_home_path mode) HOME_PATHS)) as H.
  { apply performs_try; [repeat acts_step|]. intros _. apply performs_for_try_in. intros a Ha.
    by apply acts_home_path, HT. }
  unfold setup_protect_home. destruct mode; [repeat acts_step|exact H..].
Qed.

Lemma acts_protect_proc mode : T "/proc" → performs (acts C T) (setup_protect_proc mode).
Proof. intros HT. unfold setup_protect_proc. repeat acts_step. Qed.

Lemma acts_tunables : (∀ t, t ∈ ro_paths → T t) → performs (acts C T) setup_protect_kernel_tunables.
Proof.
  intros HT. unfold setup_protect_kernel_tunables. apply performs_try; [repeat acts_step|]. intros _.
  apply performs_bind; [|intros _; repeat acts_step].
  apply performs_for_each_in. intros a Ha. by apply acts_read_only, HT.
Qed.

Lemma acts_kernel_logs : T "/dev/kmsg" → performs (acts C T) setup_protect_kernel_logs.
Proof. intros HT. unfold setup_protect_kernel_logs. repeat acts_step. Qed.

Lemma acts_control_groups : T "/sys/fs/cgroup" → performs (acts C T) setup_protect_control_groups.
Proof. intros HT. unfold setup_protect_control_groups. repeat acts_step. Qed.

Lemma acts_inaccessible paths : (∀ t, t ∈ paths → T t) → performs (acts C T) (setup_inaccessible_paths paths).
Proof.
  intros HT. unfold setup_inaccessible_paths. case_match; [repeat acts_step|].
  apply performs_try; [repeat acts_step|]. intros _. apply performs_bind; [|intros _; repeat acts_step].
  apply performs_for_each_in. intros a Ha. by apply acts_hide, HT.
Qed.

Lemma acts_read_only_paths paths : (∀ t, t ∈ paths → T t) → performs (acts C T) (setup_read_only_paths paths).
Proof.
  intros HT. unfold setup_read_only_paths. case_match; [repeat acts_step|].
  apply performs_try; [repeat acts_step|]. intros _. apply performs_bind; [|intros _; repeat acts_step].
  apply performs_for_each_in. intros a Ha. by apply acts_read_only, HT.
Qed.

(** The [dest] of a specification [host:dest]. *)
Definition bind_target (spec : string) : option string :=
  match splitn 2 colon spec with [_; dst] => Some dst | _ => None end.

Lemma acts_bind_paths specs ro :
  (∀ t, t ∈ omap bind_target specs → T t) → performs (acts C T) (setup_bind_paths specs ro).
Proof.
  intros HT. unfold setup_bind_paths. case_match; [repeat acts_step|].
  apply performs_try; [repeat acts_step|]. intros _. apply performs_for_try_in. intros spec Hs.
  assert (∀ dst, bind_target spec = Some dst → T dst) as Hdst.
  { intros dst Hd. apply HT. apply list_elem_of_omap. eauto. }
  unfold bind_target in Hdst. unfold bind_path. destruct (splitn 2 colon spec) as [|src [|dst [|]]]; try done.
  specialize (Hdst _ eq_refl). repeat acts_step.
Qed.

Definition tmpfs_target (spec : string) : string := (parse_tmpfs_spec spec).1.1.

Lemma acts_temporary specs :
  (∀ t, t ∈ tmpfs_target <$> specs → T t) → performs (acts C T) (setup_temporary_filesystems specs).
Proof.
  intros HT. unfold setup_temporary_filesystems. case_match; [repeat acts_step|].
  apply performs_try; [repeat acts_step|]. intros _. apply performs_for_try_in. intros spec Hs.
  assert (T (tmpfs_target spec)) as Ht by (apply HT, list_elem_of_fmap; eauto).
  unfold temporary_filesystem, tmpfs_target in *. destruct (parse_tmpfs_spec spec) as [[path size] mode].
  repeat acts_step.
Qed.

Definition api_targets : list string := (λ m, m.1.1.1.2) <$> api_mounts.

Lemma acts_mount_api : (∀ t, t ∈ api_targets → T t) → performs (acts C T) setup_mount_api_vfs.
Proof.
  intros HT. unfold setup_mount_api_vfs. apply performs_try; [repeat acts_step|]. intros _.
  apply performs_bind; [|intros _; repeat acts_step]. apply performs_for_each_in. intros m Hm.
  assert (T m.1.1.1.2) as Ht by (apply HT; apply list_elem_of_fmap; eauto).
  destruct m as [[[[src dst] fstype] flags] opts]. unfold mount_api. simpl in Ht. repeat acts_step.
Qed.

Lemma acts_subset_pid : T "/proc" → performs (acts C T) setup_proc_subset_pid.
Proof. intros HT. unfold setup_proc_subset_pid. repeat acts_step. Qed.

Lemma acts_attributes :
  performs (acts C T) setup_private_network ∧ performs (acts C T) setup_private_ipc ∧
  performs (acts C T) setup_protect_hostname ∧
  performs (acts C T) setup_memory_deny_write_execute ∧ performs (acts C T) setup_restrict_suid_sgid ∧
  performs (acts C T) setup_restrict_realtime ∧ performs (acts C T) setup_lock_personality ∧
  performs (acts C T) setup_system_call_architectures_native.
Proof.
  unfold setup_private_network, setup_private_ipc, setup_protect_hostname, setup_memory_deny_write_execute,
    setup_restrict_suid_sgid, setup_restrict_realtime, setup_lock_personality, setup_system_call_architectures_native.
  split_and!; repeat acts_step.
Qed.

Lemma acts_address_families l : performs (acts C T) (setup_restrict_address_families l).
Proof. unfold setup_restrict_address_families. repeat acts_step. Qed.

Lemma acts_root_directory path : C → performs (acts C T) (setup_root_directory path).
Proof. intros HC. unfold setup_root_directory. repeat acts_step. Qed.

Lemma acts_root_image img : C → T ROOT_IMAGE_TARGET → performs (acts C T) (setup_root_image img).
Proof.
  intros HC HT. unfold setup_root_image, attach_image.
  repeat first [ simple apply performs_for_break; intros ?; unfold mount_root_image
               | simple apply acts_root_directory; done | acts_step ].
Qed.

Lemma acts_when b p : (b = true → performs (acts C T) p) → performs (acts C T) (when b p).
Proof. intros Hp. unfold when. destruct b; [auto|repeat acts_step]. Qed.
End acts.
End sandbox.
