(* ===== verification/SandboxGuard.v ===== *)
(** * What the sandbox protects

    The protections that a service definition asks for are in force when [apply_sandbox]
    ends well, provided that nothing that the definition asks for later covers them; and
    the host's mounts are left alone, unless a root image is mounted. *)

From Stdlib Require Import ZArith Ascii.
From stdpp Require Import base tactics numbers list strings gmap.
From S2P Require Import Prelude RustStr Types Effects Launch Sandbox SandboxWorld.

Local Open Scope string_scope.
Local Open Scope list_scope.
Local Open Scope Z_scope.
Local Open Scope quantra_scope.
Local Open Scope prog_scope.

(** ** The phases of the sandbox *)

Definition builtin_phases (svc : Service) : list (prog Sb (result string unit)) :=
  [when (svc_private_network svc) setup_private_network;
   when (svc_private_ipc svc) setup_private_ipc;
   when (svc_protect_hostname svc) setup_protect_hostname;
   when (svc_private_devices svc) setup_private_devices;
   setup_protect_home (svc_protect_home svc);
   setup_protect_proc (svc_protect_proc svc);
   when (svc_protect_kernel_tunables svc) setup_protect_kernel_tunables;
   when (svc_protect_kernel_logs svc) setup_protect_kernel_logs;
   when (svc_protect_control_groups svc) setup_protect_control_groups].

Definition configured_phases (svc : Service) : list (prog Sb (result string unit)) :=
  [when (negb (is_nil (svc_inaccessible_paths svc))) (setup_inaccessible_paths (svc_inaccessible_paths svc));
   when (negb (is_nil (svc_read_only_paths svc))) (setup_read_only_paths (svc_read_only_paths svc));
   when (negb (is_nil (svc_bind_paths svc))) (setup_bind_paths (svc_bind_paths svc) false);
   when (negb (is_nil (svc_bind_read_only_paths svc))) (setup_bind_paths (svc_bind_read_only_paths svc) true);
   when (svc_memory_deny_write_execute svc) setup_memory_deny_write_execute;
   when (svc_restrict_suid_sgid svc) setup_restrict_suid_sgid;
   setup_root svc;
   apply_sandbox_extended svc].

Definition extended_phases (svc : Service) : list (prog Sb (result string unit)) :=
  [when (negb (is_nil (svc_temporary_filesystems svc)))
     (setup_temporary_filesystems (svc_temporary_filesystems svc));
   when (svc_mount_api_vfs svc) setup_mount_api_vfs;
   when (svc_proc_subset_pid svc) setup_proc_subset_pid;
   when (svc_restrict_realtime svc) setup_restrict_realtime;
   when (svc_lock_personality svc) setup_lock_personality;
   when (negb (is_nil (svc_restrict_address_families svc)))
     (setup_restrict_address_families (svc_restrict_address_families svc));
   when (svc_system_call_architectures_native svc) setup_system_call_architectures_native].

Lemma apply_sandbox_phases svc :
  apply_sandbox svc = for_try id (builtin_phases svc ++ configured_phases svc).
Proof. reflexivity. Qed.

Lemma extended_phases_eq svc : apply_sandbox_extended svc = for_try id (extended_phases svc).
Proof. reflexivity. Qed.

(** The targets of the mounts that a definition asks for after the built-in ones. *)
Definition later_targets (svc : Service) : list string :=
  svc_inaccessible_paths svc ++ svc_read_only_paths svc ++
  omap bind_target (svc_bind_paths svc) ++ omap bind_target (svc_bind_read_only_paths svc) ++
  (tmpfs_target <$> svc_temporary_filesystems svc) ++
  (if svc_mount_api_vfs svc then api_targets else []) ++
  (if svc_proc_subset_pid svc then ["/proc"] else []).

Definition keeps_root_dir (svc : Service) : Prop :=
  svc_root_image svc = None ∧ svc_root_directory svc = None.

Lemma acts_extended C T svc :
  (∀ t, t ∈ later_targets svc → T t) → performs (acts C T) (apply_sandbox_extended svc).
Proof.
  intros HT. unfold later_targets in HT. repeat setoid_rewrite elem_of_app in HT.
  destruct (acts_attributes C T) as (_ & _ & _ & _ & _ & ? & ? & ?).
  rewrite extended_phases_eq. apply performs_for_try_in. unfold id, extended_phases.
  intros p Hp. repeat (apply elem_of_cons in Hp as [->|Hp]); [..|by apply not_elem_of_nil in Hp];
    apply acts_when; intros Hb.
  - apply acts_temporary. intros t Ht. apply HT. tauto.
  - apply acts_mount_api. rewrite Hb in HT. intros t Ht. apply HT. tauto.
  - apply acts_subset_pid. apply HT. rewrite Hb, list_elem_of_singleton. tauto.
  - done.
  - done.
  - apply acts_address_families.
  - done.
Qed.

Lemma acts_root (C : Prop) (T : string → Prop) svc :
  (keeps_root_dir svc ∨ C ∧ (svc_root_image svc = None ∨ T ROOT_IMAGE_TARGET)) →
  performs (acts C T) (setup_root svc).
Proof.
  unfold setup_root, keeps_root_dir. intros [[-> ->]|[HC HT]]; [done|].
  destruct (svc_root_image svc); [apply acts_root_image; [done|]; by destruct HT|].
  destruct (svc_root_directory svc); [by apply acts_root_directory|done].
Qed.

Lemma acts_configured (C : Prop) (T : string → Prop) svc p :
  (keeps_root_dir svc ∨ C ∧ (svc_root_image svc = None ∨ T ROOT_IMAGE_TARGET)) →
  (∀ t, t ∈ later_targets svc → T t) → p ∈ configured_phases svc → performs (acts C T) p.
Proof.
  intros Hroot HT Hp. pose proof HT as HT'. unfold later_targets in HT'. repeat setoid_rewrite elem_of_app in HT'.
  destruct (acts_attributes C T) as (_ & _ & _ & ? & ? & _).
  unfold configured_phases in Hp.
  repeat (apply elem_of_cons in Hp as [->|Hp]); [..|by apply not_elem_of_nil in Hp];
    try (apply acts_when; intros _).
  - apply acts_inaccessible. intros t Ht. apply HT'. tauto.
  - apply acts_read_only_paths. intros t Ht. apply HT'. tauto.
  - apply acts_bind_paths. intros t Ht. apply HT'. tauto.
  - apply acts_bind_paths. intros t Ht. apply HT'. tauto.
  - done.
  - done.
  - by apply acts_root.
  - by apply acts_extended.
Qed.

(** The targets of the built-in phases. *)
Definition builtin_paths : list string :=
  "/dev/kmsg" :: raw_devices ++ HOME_PATHS ++ ["/proc"] ++ ro_paths ++ ["/sys/fs/cgroup"] ++ api_targets.

Definition builtin_targets : list (list string) :=
  [[]; []; []; "/dev/kmsg" :: raw_devices; HOME_PATHS; ["/proc"]; ro_paths; ["/dev/kmsg"]; ["/sys/fs/cgroup"]].

Lemma acts_builtin C T svc i p l :
  builtin_phases svc !! i = Some p → builtin_targets !! i = Some l → (∀ t, t ∈ l → T t) →
  performs (acts C T) p.
Proof.
  intros Hp Hl HT. destruct (acts_attributes C T) as (? & ? & ? & _).
  destruct i as [|[|[|[|[|[|[|[|[|]]]]]]]]]; simpl in Hp, Hl; simplify_eq;
    try (apply acts_when; intros _).
  - done.
  - done.
  - done.
  - by apply acts_private_devices.
  - by apply acts_protect_home.
  - apply acts_protect_proc, HT. by left.
  - by apply acts_tunables.
  - apply acts_kernel_logs, HT. by left.
  - apply acts_control_groups, HT. by left.
Qed.

Section guard.
Context (canon : Ns → string → list string).
(** The built-in paths are found as written. *)
Context (Hcanon : ∀ w t, ns_root w = [] → t ∈ builtin_paths → canon w t = comps t).
Notation step := (sb_step canon).

(** Nothing that is asked for later covers [path], nor changes the root directory. *)
Definition undisturbed (svc : Service) (path : string) : Prop :=
  keeps_root_dir svc ∧ ∀ t, t ∈ later_targets svc → beside canon path t.

(** A list of built-in targets none of which covers [path]. *)
Definition clear (path : string) (l : list string) : bool :=
  forallb (λ t, bool_decide (t ∈ builtin_paths) && negb (bool_decide (comps t `prefix_of` comps path))) l.

Lemma clear_beside path l t : clear path l = true → t ∈ l → beside canon path t.
Proof.
  unfold clear. intros Hl%Is_true_true Ht w Hw. rewrite forallb_True, Forall_forall in Hl.
  specialize (Hl t Ht). apply Is_true_true, andb_prop in Hl as [Hb Hn].
  apply bool_decide_eq_true_1 in Hb. rewrite Hcanon by done.
  by apply negb_true_iff, bool_decide_eq_false_1 in Hn.
Qed.

(** The [n]th phase establishes a protection that the later ones leave in force. *)
Lemma guarded_phase svc n p o path prot w :
  builtin_phases svc !! n = Some p → undisturbed svc path →
  forallb (clear path) (drop (S n) builtin_targets) = true →
  (∀ w, ns_root w = [] → wp step p w (λ w r, r = Ok tt → guarded o path prot w)) →
  ns_root w = [] →
  wp step (apply_sandbox svc) w (λ w r, r = Ok tt → guarded o path prot w).
Proof.
  intros Hn [Hroot Hlater] Hclear Hp Hw. rewrite apply_sandbox_phases.
  rewrite <- (take_drop_middle _ _ _ Hn), <- app_assoc, <- app_comm_cons.
  assert (length (builtin_phases svc) = length builtin_targets) as Hlen by done.
  eapply (wp_for_try_phase _ _ (λ w, ns_root w = [])); [..|done]; unfold id.
  - intros q w' Hq Hw'. apply list_elem_of_lookup in Hq as [i Hi].
    apply lookup_take_Some in Hi as [Hi _].
    destruct (lookup_lt_is_Some_2 builtin_targets i) as [l Hl]; [rewrite <- Hlen; by eapply lookup_lt_Some|].
    eapply wp_mono; [|apply (keeps_root canon (λ _, True)); [by eapply acts_builtin|done]]. done.
  - exact Hp.
  - intros q w' Hq Hw'. eapply wp_mono; [|apply (keeps_guarded canon o path prot); [|exact Hw']]; [done|].
    apply elem_of_app in Hq as [Hq|Hq]; [|by apply (acts_configured _ _ svc); [left| |]].
    apply list_elem_of_lookup in Hq as [i Hi]. rewrite lookup_drop in Hi.
    destruct (lookup_lt_is_Some_2 builtin_targets (S n + i)) as [l Hl]; [rewrite <- Hlen; by eapply lookup_lt_Some|].
    eapply acts_builtin; [exact Hi|exact Hl|]. intros t Ht. apply (clear_beside _ l); [|done].
    apply Is_true_true in Hclear. rewrite forallb_True, Forall_forall in Hclear. apply Is_true_true, Hclear.
    apply list_elem_of_lookup. exists i. by rewrite lookup_drop.
Qed.

(** ** The protections *)

Definition read_only (m : MountPoint) : Prop := Z.testbit (mp_flags m) 0 = true.

Definition home_protection (mode : ProtectHome) (m : MountPoint) : Prop :=
  match mode with
  | ProtectHome_No => True
  | ProtectHome_ReadOnly => read_only m
  | ProtectHome_Tmpfs => mp_fstype m = Some "tmpfs" ∧ mp_data m = Some "mode=0755"
  | ProtectHome_Yes => mp_fstype m = Some "tmpfs" ∧ mp_data m = Some "mode=0000" ∧ read_only m
  end.

(** A mount that succeeds on a built-in path is in force there. *)
Lemma wp_mount_new msg source path fstype flags data o (prot : MountPoint → Prop) w :
  path ∈ builtin_paths → ns_root w = [] → Z.testbit flags 5 = false →
  (∀ m, mp_source m = source → mp_fstype m = fstype → mp_flags m = flags → mp_data m = data → prot m) →
  wp step (context msg (trigger (SbMount source path fstype flags data))) w
    (λ w r, r = Ok tt → guarded o path prot w).
Proof.
  intros Hin Hw Hf Hprot. apply wp_context, wp_trigger. intros [[]|e] w' Hs; [|done]. intros _.
  destruct Hs as (_ & ms & Hm & ->). unfold mount_on in Hm. rewrite Hf, Hcanon in Hm by done.
  simplify_eq. split; [done|]. right. eexists. split; [apply in_force_new|]. by apply Hprot.
Qed.

Lemma wp_remount msg source path o w :
  path ∈ builtin_paths → ns_root w = [] →
  wp step (context msg (remount_rdonly source path)) w (λ w r, r = Ok tt → guarded o path read_only w).
Proof.
  intros Hin Hw. apply wp_context, wp_trigger. intros [[]|e] w' Hs; [|done]. intros _.
  destruct Hs as (_ & ms & Hm & ->). unfold mount_on in Hm.
  change (Z.testbit REMOUNT_RDONLY 5) with true in Hm. rewrite Hcanon in Hm by done.
  apply in_force_remount in Hm as (m & Hm & Hfl). split; [done|]. right.
  exists m. split; [done|]. unfold read_only. by rewrite Hfl.
Qed.

Lemma keeps_root_bind source target : keeps step (λ w, ns_root w = []) (bind source target).
Proof. apply (keeps_root canon (λ _, True)). by split. Qed.

Lemma home_path_guarded mode path w :
  path ∈ HOME_PATHS → mode ≠ ProtectHome_No → ns_root w = [] →
  wp step (protect_home_path mode path) w (λ w r, r = Ok tt → guarded true path (home_protection mode) w).
Proof.
  intros Hin Hmode Hw. assert (path ∈ builtin_paths) as Hb.
  { unfold builtin_paths. right. apply elem_of_app. right. apply elem_of_app. by left. }
  unfold protect_home_path. apply wp_op. intros [] w' ->; simpl negb; cbv iota.
  2:{ intros _. split; [done|]. left. split; [done|]. by left. }
  destruct mode; [done|..].
  - apply wp_try, wp_context. eapply wp_mono; [|by apply (keeps_root_bind path path)].
    intros w2 [[]|e] Hw2; simpl map_err; cbv iota; [|done]. by apply wp_remount.
  - apply wp_mount_new; [done..|]. intros m _ Hf _ Hd. by split.
  - apply wp_mount_new; [done..|]. intros m _ Hf Hfl Hd. split_and!; [done..|]. unfold read_only. by rewrite Hfl.
Qed.

(** Each of the three paths is left alone by the steps for the others. *)
Lemma home_guarded mode path w :
  path ∈ HOME_PATHS → mode ≠ ProtectHome_No → ns_root w = [] →
  wp step (setup_protect_home mode) w (λ w r, r = Ok tt → guarded true path (home_protection mode) w).
Proof.
  intros Hin Hmode Hw.
  assert (wp step (try* _ := unshare CLONE_NEWNS "unshare(CLONE_NEWNS) for protect_home" in
                   for_try (protect_home_path mode) HOME_PATHS) w
    (λ w r, r = Ok tt → guarded true path (home_protection mode) w)) as H; [|by destruct mode].
  apply wp_private_try; [|done]. intros _.
  assert (Hk : ∀ b w, b ∈ HOME_PATHS → clear path [b] = true → guarded true path (home_protection mode) w →
    wp step (protect_home_path mode b) w (λ w r, r = Ok tt → guarded true path (home_protection mode) w)).
  { intros b w' Hb Hc Hg. eapply wp_mono; [|apply (keeps_guarded canon true path); [|exact Hg]]; [done|].
    apply acts_home_path. apply (clear_beside _ [b]); [done|by left]. }
  assert (Hr : ∀ b w, ns_root w = [] → wp step (protect_home_path mode b) w (λ w r, r = Ok tt → ns_root w = [])).
  { intros b w' Hw'. eapply wp_mono; [|apply (keeps_root canon (λ _, True)); [by apply acts_home_path|done]]. done. }
  pose proof Hin as Hin'. apply list_elem_of_lookup in Hin as [i Hi].
  rewrite <- (take_drop_middle _ _ _ Hi).
  eapply (wp_for_try_phase _ _ (λ w, ns_root w = [])); [by intros; apply Hr| | |done].
  { intros w' Hw'. by apply home_path_guarded. }
  intros b w' Hb. apply Hk.
  - by apply (subseteq_drop (S i)).
  - destruct i as [|[|[|]]]; simpl in Hi, Hb; simplify_eq;
      repeat (apply elem_of_cons in Hb as [->|Hb]); try reflexivity; by apply not_elem_of_nil in Hb.
Qed.

Lemma proc_guarded mode w :
  hidepid mode ≠ None → ns_root w = [] →
  wp step (setup_protect_proc mode) w (λ w r, r = Ok tt → guarded false "/proc" (λ m, mp_data m = hidepid mode) w).
Proof.
  intros Hmode Hw. unfold setup_protect_proc. destruct (hidepid mode) as [opt|] eqn:E; [|done].
  apply wp_private_try; [|done]. intros _. apply wp_mount_new; [|done|done|by intros m].
  apply (bool_decide_unpack _). vm_compute. exact I.
Qed.

Lemma logs_guarded w :
  ns_root w = [] →
  wp step setup_protect_kernel_logs w
    (λ w r, r = Ok tt → guarded true "/dev/kmsg" (λ m, mp_source m = Some "/dev/null") w).
Proof.
  intros Hw. unfold setup_protect_kernel_logs. apply wp_op. intros [] w' ->.
  - apply wp_private_try; [|done]. intros _. apply wp_mount_new; [by left|done|done|by intros m].
  - intros _. split; [done|]. left. split; [done|]. by left.
Qed.

Lemma control_groups_guarded w :
  ns_root w = [] →
  wp step setup_protect_control_groups w (λ w r, r = Ok tt → guarded true "/sys/fs/cgroup" read_only w).
Proof.
  intros Hw. unfold setup_protect_control_groups. apply wp_op. intros [] w' ->.
  - apply wp_private_try; [|done]. intros _.
    apply (wp_keeps_bind _ (λ w, ns_root w = [])); [|done|].
    { unfold ignore. apply keeps_bind; [apply keeps_root_bind|intros _; apply keeps_ret]. }
    intros w2 _ Hw2. apply wp_remount; [|done].
    apply (bool_decide_unpack _). vm_compute. exact I.
  - intros _. split; [done|]. left. split; [done|]. by left.
Qed.

(** ** The host's mounts *)

Section host.
Context (h : list MountPoint).
Notation untouched := (keeps step (λ w, ns_host w = h)).

Lemma untouched_private msg (k : unit → prog Sb (result string unit)) : untouched (try_bind (unshare CLONE_NEWNS msg) k).
Proof.
  intros w Hw. apply wp_private_try; [|done]. intros _.
  eapply wp_mono; [|by apply (keeps_private canon h)]. by intros w' r [_ Hh].
Qed.

Lemma untouched_when b p : untouched p → untouched (when b p).
Proof. intros Hp. unfold when. destruct b; [done|apply keeps_ret]. Qed.

(** A part that leaves the namespace of the host before it mounts anything. *)
Ltac untouched :=
  repeat first
    [ progress unfold done_ok | simple apply keeps_ret | simple apply untouched_when | simple apply untouched_private
    | simple apply keeps_bind; [by apply (keeps_host canon True)|intros ?]
    | case_match ].

Lemma untouched_extended svc : untouched (apply_sandbox_extended svc).
Proof.
  rewrite extended_phases_eq. apply keeps_for_try. unfold id, extended_phases. intros p Hp.
  destruct (acts_attributes True (λ _, False)) as (_ & _ & _ & _ & _ & ? & ? & ?).
  repeat (apply elem_of_cons in Hp as [->|Hp]); [..|by apply not_elem_of_nil in Hp]; apply untouched_when.
  - unfold setup_temporary_filesystems. untouched.
  - unfold setup_mount_api_vfs. untouched.
  - unfold setup_proc_subset_pid. untouched.
  - by apply (keeps_host canon True).
  - by apply (keeps_host canon True).
  - apply (keeps_host canon True), acts_address_families.
  - by apply (keeps_host canon True).
Qed.

Lemma untouched_configured svc p :
  svc_root_image svc = None → p ∈ configured_phases svc → untouched p.
Proof.
  intros Himg Hp. destruct (acts_attributes True (λ _, False)) as (_ & _ & _ & ? & ? & _).
  unfold configured_phases in Hp.
  repeat (apply elem_of_cons in Hp as [->|Hp]); [..|by apply not_elem_of_nil in Hp]; try apply untouched_when.
  - unfold setup_inaccessible_paths. untouched.
  - unfold setup_read_only_paths. untouched.
  - unfold setup_bind_paths. untouched.
  - unfold setup_bind_paths. untouched.
  - by apply (keeps_host canon True).
  - by apply (keeps_host canon True).
  - apply (keeps_host canon True), acts_root. right. by split; [|left].
  - apply untouched_extended.
Qed.

Lemma untouched_builtin svc p : p ∈ builtin_phases svc → untouched p.
Proof.
  intros Hp. destruct (acts_attributes True (λ _, False)) as (? & ? & ? & _).
  unfold builtin_phases in Hp.
  repeat (apply elem_of_cons in Hp as [->|Hp]); [..|by apply not_elem_of_nil in Hp]; try apply untouched_when.
  - by apply (keeps_host canon True).
  - by apply (keeps_host canon True).
  - by apply (keeps_host canon True).
  - unfold setup_private_devices. untouched.
  - unfold setup_protect_home. untouched.
  - unfold setup_protect_proc. untouched.
  - unfold setup_protect_kernel_tunables. untouched.
  - unfold setup_protect_kernel_logs. untouched.
  - unfold setup_protect_control_groups. untouched.
Qed.
End host.

Lemma host_untouched svc w :
  svc_root_image svc = None → wp step (apply_sandbox svc) w (λ w' _, ns_host w' = ns_host w).
Proof.
  intros Himg. rewrite apply_sandbox_phases. apply (keeps_for_try _ (λ w', ns_host w' = ns_host w)); [|done].
  intros p [Hp|Hp]%elem_of_app; [by eapply untouched_builtin|by eapply untouched_configured].
Qed.

(** C35: whatever the kernel answers, the sandbox leaves the mounts of the host alone,
    unless a root image is mounted; and when it succeeds, the protections of the home
    directories, of /proc, of the kernel log and of the control groups that the definition
    asks for are in force (a path that does not exist excepted), provided that nothing that
    the definition asks for later covers the path or changes the root directory. *)
Theorem sandbox_protects svc w0 :
  ns_root w0 = [] →
  wp step (apply_sandbox svc) w0 (λ w r,
    (svc_root_image svc = None → ns_host w = ns_host w0) ∧
    (r = Ok tt →
      (∀ path, path ∈ HOME_PATHS → svc_protect_home svc ≠ ProtectHome_No → undisturbed svc path →
         guarded true path (home_protection (svc_protect_home svc)) w) ∧
      (hidepid (svc_protect_proc svc) ≠ None → undisturbed svc "/proc" →
         guarded false "/proc" (λ m, mp_data m = hidepid (svc_protect_proc svc)) w) ∧
      (svc_protect_kernel_logs svc = true → undisturbed svc "/dev/kmsg" →
         guarded true "/dev/kmsg" (λ m, mp_source m = Some "/dev/null") w) ∧
      (svc_protect_control_groups svc = true → undisturbed svc "/sys/fs/cgroup" →
         guarded true "/sys/fs/cgroup" read_only w))).
Proof.
  intros Hw. apply wp_and; [by apply wp_all; intros; apply host_untouched|].
  assert (Hp : ∀ n p o path prot, builtin_phases svc !! n = Some p →
    forallb (clear path) (drop (S n) builtin_targets) = true →
    (∀ w, ns_root w = [] → wp step p w (λ w r, r = Ok tt → guarded o path prot w)) →
    undisturbed svc path → wp step (apply_sandbox svc) w0 (λ w r, r = Ok tt → guarded o path prot w)).
  { intros n p o path prot Hn Hc He Hu. by eapply guarded_phase. }
  eapply wp_mono; [|apply wp_and; [|apply wp_and; [|apply wp_and]]].
  { intros w r (H1 & H2 & H3 & H4) Hr.
    split_and!; [exact (λ p a b c, H1 p a b c Hr)|exact (λ a b, H2 a b Hr)|exact (λ a b, H3 a b Hr)|exact (λ a b, H4 a b Hr)]. }
  - apply wp_all; intros path. apply wp_all; intros Hin. apply wp_all; intros Hm. apply wp_all; intros Hu.
    apply (Hp 4%nat _ _ _ _ eq_refl); [|by intros; apply home_guarded|done].
    repeat (apply elem_of_cons in Hin as [->|Hin]); [by vm_compute..|by apply not_elem_of_nil in Hin].
  - apply wp_all; intros Hm. apply wp_all; intros Hu. apply (Hp 5%nat _ _ _ _ eq_refl); [by vm_compute|by intros; apply proc_guarded|done].
  - apply wp_all; intros Hf. apply wp_all; intros Hu. apply (Hp 7%nat _ _ _ _ eq_refl); [by vm_compute| |done].
    intros w Hw'. rewrite Hf. by apply logs_guarded.
  - apply wp_all; intros Hf. apply wp_all; intros Hu. apply (Hp 8%nat _ _ _ _ eq_refl); [by vm_compute| |done].
    intros w Hw'. rewrite Hf. by apply control_groups_guarded.
Qed.
End guard.

(** ** Examples *)

(** A file system without symbolic links, and the host's namespace. *)
Definition literal (w : Ns) (t : string) : list string := ns_root w ++ comps t.

Definition host_ns : Ns :=
  {| ns_admin := true; ns_private := false; ns_root := []; ns_mounts := []; ns_host := []; ns_absent := [] |}.

Lemma literal_canon w t : ns_root w = [] → t ∈ builtin_paths → literal w t = comps t.
Proof. intros Hw _. unfold literal. by rewrite Hw. Qed.

Definition hidden_home : Service :=
  Service_default <|svc_protect_home := ProtectHome_Yes|> <|svc_protect_proc := ProtectProc_Invisible|>
    <|svc_protect_kernel_logs := true|> <|svc_protect_control_groups := true|>
    <|svc_inaccessible_paths := ["/srv/secret"]|>.

Lemma sandbox_protects_witness :
  undisturbed literal hidden_home "/home" ∧ undisturbed literal hidden_home "/proc" ∧
  wp (sb_step literal) (apply_sandbox hidden_home) host_ns (λ w r,
    (svc_root_image hidden_home = None → ns_host w = ns_host host_ns) ∧
    (r = Ok tt →
      (∀ path, path ∈ HOME_PATHS → svc_protect_home hidden_home ≠ ProtectHome_No →
         undisturbed literal hidden_home path →
         guarded true path (home_protection (svc_protect_home hidden_home)) w) ∧
      (hidepid (svc_protect_proc hidden_home) ≠ None → undisturbed literal hidden_home "/proc" →
         guarded false "/proc" (λ m, mp_data m = hidepid (svc_protect_proc hidden_home)) w) ∧
      (svc_protect_kernel_logs hidden_home = true → undisturbed literal hidden_home "/dev/kmsg" →
         guarded true "/dev/kmsg" (λ m, mp_source m = Some "/dev/null") w) ∧
      (svc_protect_control_groups hidden_home = true → undisturbed literal hidden_home "/sys/fs/cgroup" →
         guarded true "/sys/fs/cgroup" read_only w))).
Proof.
  assert (∀ path, bool_decide (comps "/srv/secret" `prefix_of` comps path) = false →
    undisturbed literal hidden_home path) as Hu.
  { intros path Hp. split; [by split|]. intros t Ht%list_elem_of_singleton w Hw. subst t.
    unfold literal. rewrite Hw. by apply bool_decide_eq_false_1 in Hp. }
  split_and!; [by apply Hu, eq_refl..|].
  apply (sandbox_protects literal literal_canon hidden_home host_ns). reflexivity.
Defined.

(** A kernel that grants everything to a process with privileges. *)
Definition privileged {A} (w : Ns) (r : result string A * Ns) : result string A * Ns :=
  if ns_admin w then r else (Err "EPERM", w).

Definition sb_exec X (e : Sb X) (w : Ns) : X * Ns :=
  match e in Sb X return X * Ns with
  | SbUnshare flags => privileged w (Ok tt, if flags =? CLONE_NEWNS then set_private w else w)
  | SbMount source target fstype flags data =>
      privileged w
        match mount_on source (literal w target) fstype flags data (ns_mounts w) with
        | Some ms => (Ok tt, set_mounts ms w)
        | None => (Err "EINVAL", w)
        end
  | SbPathExists _ => (true, w)
  | SbChroot path => privileged w (Ok tt, set_root (literal w path) w)
  | SbCreateDirAll _ | SbChdir _ | SbSetPermissions _ _ | SbChown _ _ _ | SbWriteFile _ _ => (Ok tt, w)
  | SbPrctl _ _ | SbPersonality _ | SbIoctl _ _ _ => (0, w)
  | SbOpen _ _ => (9, w)
  | SbStatus _ _ | SbClose _ => (tt, w)
  | SbLastError => ("", w)
  | SbMetadata _ => (Ok 493, w)
  | SbReadToString _ => (Ok "", w)
  end.

Definition run_sandbox (svc : Service) : result string unit * Ns := exec sb_exec (apply_sandbox svc) host_ns.

(** The provisos are needed.  [mount_api_vfs] and [proc_subset_pid] come after
    [protect_proc] and mount /proc anew, without the option: *)
Lemma api_vfs_undoes_protect_proc :
  let hidden := Service_default <|svc_protect_proc := ProtectProc_Invisible|> in
  let data svc := m ← in_force (ns_mounts (run_sandbox svc).2) (comps "/proc"); mp_data m in
  data hidden = Some "hidepid=invisible" ∧
  data (hidden <|svc_mount_api_vfs := true|>) = None ∧
  data (hidden <|svc_proc_subset_pid := true|>) = Some "subset=pid".
Proof. vm_compute. done. Qed.

(** ... the protections are applied to the paths of the host, not to those below
    [root_directory]: *)
Lemma root_directory_unprotected :
  let w := (run_sandbox (hidden_home <|svc_root_directory := Some "/srv/root"|>)).2 in
  ns_root w = comps "/srv/root" ∧ in_force (ns_mounts w) (ns_root w ++ comps "/home") = None.
Proof. vm_compute. done. Qed.

(** ... and a root image is mounted in the host's namespace when nothing else asks for a
    namespace. *)
Lemma root_image_mounted_on_host :
  let w := (run_sandbox (Service_default <|svc_root_image := Some "/srv/app.img"|>)).2 in
  mp_target <$> ns_host w = [comps "/run/quantra-service-root"].
Proof. vm_compute. done. Qed.
