(* ===== verification/SandboxUser.v ===== *)
(** * Isolation of services with a user

    The child of [start_service_as] with the sandbox in the place of the operation
    [Apply_sandbox], in a kernel that takes the privileges of a process that changes to
    another user: the user is changed before the namespaces are set up, so none is. *)

From Stdlib Require Import ZArith.
From stdpp Require Import base tactics numbers list strings gmap.
From S2P Require Import Prelude RustStr Types Seccomp Effects Launch Descriptors Sandbox SandboxWorld SandboxGuard.

Local Open Scope string_scope.
Local Open Scope list_scope.
Local Open Scope Z_scope.
Local Open Scope quantra_scope.
Local Open Scope prog_scope.

(** The parts of the sandbox that cannot do without a namespace. *)
Definition wants_namespace (svc : Service) : bool :=
  svc_private_network svc || svc_private_ipc svc || svc_protect_hostname svc ||
  svc_private_devices svc || match svc_protect_home svc with ProtectHome_No => false | _ => true end ||
  match hidepid (svc_protect_proc svc) with Some _ => true | None => false end || svc_protect_kernel_tunables svc ||
  negb (is_nil (svc_inaccessible_paths svc)) || negb (is_nil (svc_read_only_paths svc)) ||
  negb (is_nil (svc_bind_paths svc)) || negb (is_nil (svc_bind_read_only_paths svc)).

Section user.
Context (canon : Ns → string → list string).
Notation step := (sb_step canon).

(** setuid(2) from root to another user clears the capabilities; without them no
    namespace is created and nothing is mounted. *)
Definition user_step : ∀ X, Sys X → Ns → X → Ns → Prop :=
  λ X e, match e in Sys X return Ns → X → Ns → Prop with
  | Setuid u => λ w x w', w' = if (x =? 0) && negb (u =? 0) then set_admin false w else w
  | Unshare_newns => λ w x w',
      if x =? 0 then ns_admin w = true ∧ w' = set_private w else w' = w
  | Mount source target fstype flags data => λ w _ w', w' = w ∨
      ns_admin w = true ∧ ∃ ms,
        mount_on (Some source) (canon w target) (Some fstype) flags (Some data) (ns_mounts w) = Some ms ∧
        w' = set_mounts ms w
  | Apply_sandbox svc => λ w r w', runs step (apply_sandbox svc) w r w'
  | _ => λ w _ w', w' = w
  end.

Lemma acts_sandbox svc p :
  p ∈ builtin_phases svc ++ configured_phases svc → performs (acts True (λ _, True)) p.
Proof.
  intros [[i Hi]%list_elem_of_lookup|Hp]%elem_of_app.
  - assert (length (builtin_phases svc) = length builtin_targets) as Hlen by done.
    destruct (lookup_lt_is_Some_2 builtin_targets i) as [l Hl]; [rewrite <- Hlen; by eapply lookup_lt_Some|].
    by eapply acts_builtin.
  - apply (acts_configured _ _ svc); [right; split; [done|by right]|done|done].
Qed.

Lemma sandbox_frozen svc w0 w :
  frozen w0 w → wp step (apply_sandbox svc) w (λ w _, frozen w0 w).
Proof.
  intros Hf. rewrite apply_sandbox_phases. apply (keeps_for_try _ (frozen w0)); [|done].
  intros p Hp. by apply keeps_frozen, (acts_sandbox svc).
Qed.

(** Creating a namespace is the first thing that these parts do. *)
Lemma refused flags msg (k : unit → prog Sb (result string unit)) w :
  flags ≠ CLONE_NEWUSER → ns_admin w = false →
  wp step (try_bind (unshare flags msg) k) w (λ _ r, ∃ e, r = Err e).
Proof.
  intros Hne Ha. apply wp_try, wp_unshare; [done|by rewrite Ha|by eexists].
Qed.

Lemma sandbox_refused svc w0 w :
  wants_namespace svc = true → frozen w0 w →
  wp step (apply_sandbox svc) w (λ w r, frozen w0 w ∧ ∃ e, r = Err e).
Proof.
  intros Hw Hf. rewrite apply_sandbox_phases.
  assert (∃ p, p ∈ builtin_phases svc ++ configured_phases svc ∧
    ∀ w, frozen w0 w → wp step p w (λ _ r, ∃ e, r = Err e)) as (p & Hin & Hp).
  { unfold wants_namespace in Hw. repeat rewrite orb_true_iff in Hw.
    assert (∀ n p, (builtin_phases svc ++ configured_phases svc) !! n = Some p →
      (∀ w, ns_admin w = false → wp step p w (λ _ r, ∃ e, r = Err e)) →
      ∃ p, p ∈ builtin_phases svc ++ configured_phases svc ∧
        ∀ w, frozen w0 w → wp step p w (λ _ r, ∃ e, r = Err e)) as Hphase.
    { intros n p Hn Hr. exists p. split; [by eapply list_elem_of_lookup_2|]. intros w' [Ha _]. by apply Hr. }
    repeat destruct Hw as [Hw|Hw].
    - apply (Hphase 0%nat _ eq_refl). intros w'. rewrite Hw. by apply refused.
    - apply (Hphase 1%nat _ eq_refl). intros w'. rewrite Hw. by apply refused.
    - apply (Hphase 2%nat _ eq_refl). intros w'. rewrite Hw. by apply refused.
    - apply (Hphase 3%nat _ eq_refl). intros w'. rewrite Hw. by apply refused.
    - apply (Hphase 4%nat _ eq_refl). intros w'.
      unfold setup_protect_home. destruct (svc_protect_home svc); [done|by apply refused..].
    - apply (Hphase 5%nat _ eq_refl). intros w'.
      unfold setup_protect_proc. destruct (hidepid (svc_protect_proc svc)); [by apply refused|done].
    - apply (Hphase 6%nat _ eq_refl). intros w'. rewrite Hw. by apply refused.
    - apply (Hphase 9%nat _ eq_refl). intros w'. rewrite Hw. unfold when, setup_inaccessible_paths.
      destruct (svc_inaccessible_paths svc); [done|by apply refused].
    - apply (Hphase 10%nat _ eq_refl). intros w'. rewrite Hw. unfold when, setup_read_only_paths.
      destruct (svc_read_only_paths svc); [done|by apply refused].
    - apply (Hphase 11%nat _ eq_refl). intros w'. rewrite Hw. unfold when, setup_bind_paths.
      destruct (svc_bind_paths svc); [done|by apply refused].
    - apply (Hphase 12%nat _ eq_refl). intros w'. rewrite Hw. unfold when, setup_bind_paths.
      destruct (svc_bind_read_only_paths svc); [done|by apply refused]. }
  eapply (wp_for_try_fails _ _ (frozen w0)); [exact Hin| |exact Hp|exact Hf].
  intros q w' Hq. by apply keeps_frozen, (acts_sandbox svc).
Qed.
(** No call gives the privileges back. *)
Lemma keeps_user {A} w0 (p : prog Sys A) : keeps user_step (frozen w0) p.
Proof.
  apply (performs_keeps _ (λ _ _, True)); [|induction p; simpl; auto].
  intros X e w x w' _ Hf Hs. destruct e; simpl in *; try (by subst).
  - subst w'. by destruct (_ && _); destruct Hf as [??].
  - destruct (x =? 0); [|by subst]. destruct Hs, Hf; congruence.
  - destruct Hs as [->|[? _]]; [done|]. destruct Hf; congruence.
  - by apply (runs_wp _ _ _ _ _ (λ w _, frozen w0 w) Hs), sandbox_frozen.
Qed.

Lemma user_drops u gid w :
  u ≠ 0 → wp user_step (drop_privileges (Some u) gid) w (λ w' r, r = None → frozen w w').
Proof.
  intros Hu. apply wp_op. intros rc w' ->. destruct (negb (rc =? 0)); [done|].
  assert (wp user_step (let* rc := trigger (Setuid u) in
    if negb (rc =? 0) then Ret (Some "[zai-init] setuid failed") else Ret None) w
    (λ w' r, r = None → frozen w w')) as Huid.
  { apply wp_op. intros x w' ->. rewrite (proj2 (Z.eqb_neq _ _) Hu). destruct (x =? 0); simpl; first [done | intros _; by split]. }
  destruct gid as [g|]; [|exact Huid].
  apply wp_op. intros rc2 w' ->. destruct (negb (rc2 =? 0)); [done|exact Huid].
Qed.

(** C34: a service that is configured with a user other than root is never isolated:
    privileges are dropped before the namespaces are set up, so whatever [private_tmp],
    [protect_system] and the sandbox ask for, the program image that replaces the child
    sees exactly the mounts, the mount namespace and the root directory that the child
    started with; a sandbox that needs a namespace reports an error, and the child goes on. *)
Theorem user_services_unisolated cfg p svc u w :
  sl_uid cfg = Some u → u ≠ 0 → wants_namespace svc = true →
  wp user_step (child_main cfg p) w (λ w' e, e = Replaced → frozen w w') ∧
  (∀ w', ns_admin w' = false → wp step (apply_sandbox svc) w' (λ _ r, ∃ e, r = Err e)).
Proof.
  intros Huid Hu Hwants. split.
  2:{ intros w' Ha. eapply wp_mono; [|apply (sandbox_refused svc w'); [done|by split]]. by intros w2 r [_ ?]. }
  assert (∀ msg w', wp user_step (fail msg) w' (λ w' e, e = Replaced → frozen w w')) as Hfail.
  { intros msg w'. by intros ? w2 _. }
  unfold child_main. apply wp_op. intros rc w1 ->. destruct (rc <? 0); [apply Hfail|].
  apply (wp_keeps_bind _ (λ w', w' = w)); [|done|].
  { unfold setup_stdio, attach_terminal, setup_console_io. keeps. }
  intros w2 ok ->. destruct (negb ok); [apply Hfail|].
  apply wp_op. intros rc2 w3 ->. destruct (negb (rc2 =? 0)); [apply Hfail|].
  rewrite Huid. eapply wp_bind_2; [by apply user_drops|].
  intros w4 [msg|] Hf; [apply Hfail|]. specialize (Hf eq_refl).
  eapply wp_mono; [|apply (keeps_user w _ w4 Hf)]. done.
Qed.
End user.

(** ** Example *)

(** The answers to the child of a kernel that grants what the privileges allow. *)
Definition user_exec X (e : Sys X) (w : Ns) : X * Ns :=
  match e in Sys X return X * Ns with
  | Child_err _ | Close _ | Setrlimit _ _ _ | Landlock_add_rule _ _ _ | Landlock_restrict_self _ => (tt, w)
  | Open_console => (None, w)
  | Confine_next_exec _ | Execvpe _ _ _ => (true, w)
  | Setuid u => (0, if u =? 0 then w else set_admin false w)
  | Unshare_newns => if ns_admin w then (0, set_private w) else (-1, w)
  | Mount source target fstype flags data =>
      (tt, (sb_exec _ (SbMount (Some source) target (Some fstype) flags (Some data)) w).2)
  | Apply_sandbox svc => exec sb_exec (apply_sandbox svc) w
  | _ => (0, w)
  end.

(** A service with [protect_home], for a user and for root. *)
Definition home_launch (uid : option Z) : ServiceLaunch := {|
  sl_cmd := "/bin/app"; sl_args := []; sl_uid := uid; sl_gid := None;
  sl_working_dir := None; sl_tty_path := None; sl_env := None; sl_log_write_fd := None;
  sl_activation_fds := []; sl_apparmor_profile := None; sl_no_new_privileges := true;
  sl_non_dumpable := true; sl_clear_ambient_caps := false; sl_drop_capabilities := [];
  sl_ambient_capabilities := []; sl_capability_bounding_set := [];
  sl_seccomp_profile_denylist := []; sl_seccomp_allowlist := []; sl_seccomp_strict := false;
  sl_rlimit := None; sl_private_tmp := true; sl_protect_system := false;
  sl_landlock_paths := []; sl_service_for_sandbox := Some hidden_home |}.

Lemma user_services_unisolated_witness :
  wp (user_step literal) (child_main (home_launch (Some 101)) daemon_prepared) host_ns
    (λ w' e, e = Replaced → frozen host_ns w') ∧
  (∀ w', ns_admin w' = false → wp (sb_step literal) (apply_sandbox hidden_home) w' (λ _ r, ∃ e, r = Err e)).
Proof.
  apply (user_services_unisolated literal (home_launch (Some 101)) daemon_prepared hidden_home 101 host_ns);
    [reflexivity|discriminate|reflexivity].
Defined.

(** The image is replaced in both cases; for root with eight mounts, for the user with none. *)
Lemma home_launch_runs :
  let run uid := exec user_exec (child_main (home_launch uid) daemon_prepared) host_ns in
  ((run None).1, length (ns_mounts (run None).2)) = (Replaced, 8%nat) ∧
  ((run (Some 101)).1, length (ns_mounts (run (Some 101)).2)) = (Replaced, 0%nat).
Proof. vm_compute. done. Qed.
