(* ===== verification/Os.v ===== *)
(** * What PID 1 asks of the system

    The operations that the supervising code performs on the file system, on
    processes, on the clock, on descriptors and on the state it shares with its own
    threads.  Errors are the texts that [std::io::Error] displays.  Time is in
    nanoseconds. *)

From Stdlib Require Import ZArith.
From stdpp Require Import base tactics numbers list strings gmap.
From S2P Require Import Prelude RustStr Types Effects Launch.

Local Open Scope Z_scope.

Inductive Signal :=
| SIGHUP | SIGINT | SIGQUIT | SIGABRT | SIGKILL | SIGUSR1 | SIGUSR2 | SIGPIPE
| SIGALRM | SIGTERM | SIGCHLD | SIGCONT | SIGSTOP.

#[export] Instance Signal_eq_dec : EqDecision Signal.
Proof. solve_decision. Defined.

(** The threads that [ServiceSupervisor::start] spawns. *)
Inductive Thread :=
| Log_thread (name : string) (read_fd : Z)
| Monitor_thread (svc : Service)
| Watchdog_thread (name : string) (interval_sec : Z)
| Health_thread (name : string) (hc : HealthCheck).

(** What [recv] on a socket with a timeout gives. *)
Inductive RecvError := Timeout | RecvFailed (e : string).

Inductive Os : Type → Type :=
(* files *)
| PathExists (path : string) : Os bool
| ReadToString (path : string) : Os (result string string)
| WriteFile (path contents : string) : Os (result string unit)
| RemoveFile (path : string) : Os (result string unit)
| RemoveDir (path : string) : Os (result string unit)
| CreateDirAll (path : string) : Os (result string unit)
| Symlink (target link : string) : Os (result string unit)
| ReadDir (path : string) : Os (result string (list (result string string)))
(* descriptors: [-1] or a descriptor *)
| OpenFd (path : string) (flags : Z) : Os Z
| CloseFd (fd : Z) : Os unit
| Pipe : Os (option (Z * Z))
| BindUnix (path : string) : Os (result string Z)
| BindTcp (addr : string) : Os (result string Z)
| BindUdp (addr : string) : Os (result string Z)
| BindDatagram (path : string) : Os (result string Z)
| Socket_netlink (family : Z) : Os Z
| Bind_netlink (fd groups : Z) : Os Z
| Mkfifo (path : string) (mode : Z) : Os Z
| Setsockopt (fd : Z) (option : string) : Os Z
| Listen (fd backlog : Z) : Os Z
| BpfProgLoad (name : string) (insn_cnt : Z) : Os Z
| BpfProgAttach (cgroup_fd prog_fd : Z) : Os Z
| LastOsError : Os string
| SetReadTimeout (fd timeout : Z) : Os (result string unit)
| Recv (fd : Z) : Os (RecvError + string)
| Accept (fd : Z) : Os Z
| LastErrorWouldBlock : Os bool
| ForkInetd (listen_fd conn_fd : Z) (command : list string) : Os Z
| WaitAnyNohang : Os Z
(* processes; an exit status is [None] when a signal ended the process *)
| Status (cmd : string) (args : list string) : Os (result string (option Z))
| Spawn (cmd : string) (args : list string) : Os (result string Z)
| TryWait (child : Z) : Os (result string (option (option Z)))
| KillChild (child : Z) : Os unit
| Kill (pid : Z) (sig : Signal) : Os (result string unit)
| Fork (cfg : ServiceLaunch) (p : Prepared) : Os (result string Z)
(* time and threads *)
| Sleep (duration : Z) : Os unit
| Now : Os Z
| SpawnThread (t : Thread) : Os (result string unit)
(* the cells [pid], [running] and [stop_requested] of one supervisor *)
| LoadPid : Os Z
| StorePid (pid : Z) : Os unit
| LoadRunning : Os bool
| StoreRunning (b : bool) : Os unit
| LoadStop : Os bool
| StoreStop (b : bool) : Os unit
(* globals *)
| GetExitCode (pid : Z) : Os (option Z)
| RegisterService (name : string) (pid : Z) (active : bool) : Os unit
| QueueChain (name : string) : Os unit
| EnvVar (name : string) : Os (option string)
| LoadShutdown : Os bool
(* the channel from the timers to the dispatcher: [false] when it is closed *)
| SendActivation (unit_ : string) : Os bool
| RecvActivation : Os (option string)
(* the wall clock, in nanoseconds since the epoch *)
| WallClock : Os Z
| ReadBytes (path : string) : Os (option (list Z))
(* [sandbox.rs] *)
| AllocateDynamicUid : Os (result string (Z * Z))
| SetupServiceDirectories (svc : Service) (uid gid : option Z) : Os (result string unit).

Definition from_secs (s : Z) : Z := s * 1000000000.
Definition from_millis (ms : Z) : Z := ms * 1000000.

(** ** A world with a clock

    All that is said of the system is that its clock does not go back and that a
    sleep lasts at least as long as asked. *)
Definition clock_step : ∀ X, Os X → Z → X → Z → Prop :=
  λ X e, match e in Os X return Z → X → Z → Prop with
  | Now => λ t x t', t ≤ x ∧ x = t'
  | Sleep d => λ t _ t', t + d ≤ t' ∧ t ≤ t'
  | _ => λ t _ t', t ≤ t'
  end.

(** What is done by a program that only counts time. *)
Lemma clock_step_mono X (e : Os X) t x t' : clock_step X e t x t' → t ≤ t'.
Proof. destruct e; simpl; lia. Qed.

Lemma keeps_clock {A} (p : prog Os A) t0 : keeps clock_step (λ t, t0 ≤ t) p.
Proof.
  intros t Ht. revert t Ht. induction p as [a|X e k IH]; intros t Ht; simpl; [done|].
  intros x t' Hs%clock_step_mono. apply IH. lia.
Qed.

(** ** A file system that stays as it is *)

Record FsView := {
  fs_exists : string → bool;
  fs_read : string → result string string;
  fs_dir : string → result string (list (result string string));
}.

Definition fs_step (f : FsView) : ∀ X, Os X → unit → X → unit → Prop :=
  λ X e, match e in Os X return unit → X → unit → Prop with
  | PathExists p => λ _ x _, x = fs_exists f p
  | ReadToString p => λ _ x _, x = fs_read f p
  | ReadDir p => λ _ x _, x = fs_dir f p
  | _ => λ _ _ _, True
  end.

(** ** A world of open descriptors

    Opening gives a descriptor that was not open, closing removes it; a pipe opens both
    ends.  [fd_log] are the read ends of the log pipes that a log thread has taken over
    (and closes when it ends, which is not looked at here), [fd_lost] those whose thread
    could not be spawned: a [ServiceLogger] that is dropped closes nothing. *)
Record Fds := { fd_open : gset Z; fd_log : gset Z; fd_lost : gset Z }.

Definition with_open (w : Fds) (s : gset Z) : Fds :=
  {| fd_open := s; fd_log := fd_log w; fd_lost := fd_lost w |}.

Definition leak_step : ∀ X, Os X → Fds → X → Fds → Prop :=
  λ X e, match e in Os X return Fds → X → Fds → Prop with
  | OpenFd _ _ | BpfProgLoad _ _ => λ w fd w',
      (fd < 0 ∧ w' = w) ∨ (0 ≤ fd ∧ fd ∉ fd_open w ∧ w' = with_open w ({[fd]} ∪ fd_open w))
  | BindUnix _ | BindTcp _ | BindUdp _ | BindDatagram _ => λ w r w',
      match r with
      | Ok fd => fd ∉ fd_open w ∧ w' = with_open w ({[fd]} ∪ fd_open w)
      | Err _ => w' = w
      end
  | Pipe => λ w r w',
      match r with
      | Some (rfd, wfd) => rfd ∉ fd_open w ∧ wfd ∉ fd_open w ∧ rfd ≠ wfd ∧
                           w' = with_open w ({[rfd; wfd]} ∪ fd_open w)
      | None => w' = w
      end
  | SpawnThread (Log_thread _ fd) => λ w r w',
      w' = match r with
           | Ok _ => {| fd_open := fd_open w; fd_log := {[fd]} ∪ fd_log w; fd_lost := fd_lost w |}
           | Err _ => {| fd_open := fd_open w; fd_log := fd_log w; fd_lost := {[fd]} ∪ fd_lost w |}
           end
  | CloseFd fd => λ w _ w', w' = with_open w (fd_open w ∖ {[fd]})
  | _ => λ w _ w', w' = w
  end.

Lemma with_open_same w s : s = fd_open w → with_open w s = w.
Proof. intros ->. by destruct w. Qed.
