(* ===== verification/IpFilter.v ===== *)
(** * IP address filters

    [IpRange], the eBPF program of [build_bpf_ip_filter], its attachment and the
    nftables fallback, from [quantra/src/process.rs]. *)

From Stdlib Require Import ZArith Ascii.
From stdpp Require Import base tactics numbers list strings gmap.
From S2P Require Import Prelude RustStr Types Effects Os.

Local Open Scope string_scope.
Local Open Scope list_scope.
Local Open Scope Z_scope.
Local Open Scope quantra_scope.
Local Open Scope prog_scope.

(** ** Addresses

    [Ipv4Addr]'s parser takes four decimal numbers of one to three digits, at most
    255, without leading zeros, separated by dots. *)
Definition parse_octet (s : string) : option Z :=
  if str_forall is_ascii_digit s && (String.length s <=? 3)%nat && negb (is_empty s)
     && negb (starts_with "0" s && negb (String.length s =? 1)%nat)
  then parse_digits u8_max 0 s
  else None.

Definition ipv4 (a b c d : Z) : Z := Z.shiftl a 24 + Z.shiftl b 16 + Z.shiftl c 8 + d.

Definition parse_ipv4 (s : string) : option Z :=
  match split "." s with
  | [a; b; c; d] =>
      match parse_octet a, parse_octet b, parse_octet c, parse_octet d with
      | Some a, Some b, Some c, Some d => Some (ipv4 a b c d)
      | _, _, _, _ => None
      end
  | _ => None
  end.

(** [Display] of an [Ipv4Addr]. *)
Definition show_ipv4 (ip : Z) : string :=
  show_uint (Z.land (Z.shiftr ip 24) 255) +:+ "." +:+
  show_uint (Z.land (Z.shiftr ip 16) 255) +:+ "." +:+
  show_uint (Z.land (Z.shiftr ip 8) 255) +:+ "." +:+ show_uint (Z.land ip 255).

(** ** Ranges *)

Record IpRange := {
  addr : Z;
  mask : Z;
  is_v6 : bool;
}.

(** [!0u32 << n]: shifting by 32 or more panics with the overflow checks on, and
    shifts by [n mod 32] with them off. *)
Definition shl_u32 (oc : bool) (v n : Z) : option Z :=
  if n <? 32 then Some (wrap_u32 (Z.shiftl v n))
  else if oc then None else Some (wrap_u32 (Z.shiftl v (n mod 32))).

Definition prefix_mask (oc : bool) (prefix : Z) : option Z :=
  if prefix =? 0 then Some 0
  else
    match arith_u32 oc (32 - prefix) with
    | Some n => shl_u32 oc u32_max n
    | None => None
    end.

(** [None] is the panic, [Some None] the failure to parse. *)
Definition IpRange_parse (oc : bool) (cidr : string) : option (option IpRange) :=
  let cidr := trim cidr in
  if String.eqb cidr "any" || String.eqb cidr "0.0.0.0/0" then
    Some (Some {| addr := 0; mask := 0; is_v6 := false |})
  else if String.eqb cidr "::/0" then
    Some (Some {| addr := 0; mask := 0; is_v6 := true |})
  else
    match split_once "/" cidr with
    | None => Some None
    | Some (ip_str, prefix_str) =>
        match parse_uint u32_max prefix_str with
        | None => Some None
        | Some prefix =>
            match parse_ipv4 ip_str with
            | Some ip =>
                match prefix_mask oc prefix with
                | None => None
                | Some mask =>
                    Some (Some {| addr := Z.land ip mask; mask := mask; is_v6 := false |})
                end
            | None => Some (Some {| addr := 0; mask := 0; is_v6 := true |})
            end
        end
    end.

Definition contains_ipv4 (r : IpRange) (ip : Z) : bool :=
  if is_v6 r then false
  else if mask r =? 0 then true
  else Z.land ip (mask r) =? addr r.

(** ** The eBPF program *)

Definition EBPF_LD : Z := 0.
Definition EBPF_ALU : Z := 4.
Definition EBPF_JMP : Z := 5.
Definition EBPF_RET : Z := 6.
Definition EBPF_W : Z := 0.
Definition EBPF_ABS : Z := 32.
Definition EBPF_AND : Z := 80.
Definition EBPF_JEQ : Z := 16.
Definition EBPF_K_IMM : Z := 0.
Definition CGROUP_BPF_DROP : Z := 0.
Definition CGROUP_BPF_PASS : Z := 1.
Definition SKB_REMOTE_IP4_OFFSET : Z := 40.

Record BpfInsn := {
  insn_code : Z;
  insn_regs : Z;
  insn_off : Z;
  insn_imm : Z;
}.

Definition ld_abs (dst off : Z) : BpfInsn :=
  {| insn_code := Z.lor (Z.lor EBPF_LD EBPF_W) EBPF_ABS; insn_regs := dst; insn_off := 0;
     insn_imm := off |}.
Definition and_imm (dst val : Z) : BpfInsn :=
  {| insn_code := Z.lor (Z.lor EBPF_ALU EBPF_AND) EBPF_K_IMM; insn_regs := dst;
     insn_off := 0; insn_imm := val |}.
Definition jeq_imm (dst val off : Z) : BpfInsn :=
  {| insn_code := Z.lor (Z.lor EBPF_JMP EBPF_JEQ) EBPF_K_IMM; insn_regs := dst;
     insn_off := off; insn_imm := val |}.
Definition ret_imm (val : Z) : BpfInsn :=
  {| insn_code := Z.lor EBPF_RET EBPF_K_IMM; insn_regs := 0; insn_off := 0;
     insn_imm := val |}.
(** The unconditional jump, with the classic [BPF_JMP | BPF_K]. *)
Definition jmp (off : Z) : BpfInsn :=
  {| insn_code := Z.lor 5 0; insn_regs := 0; insn_off := off; insn_imm := 0 |}.

(** The instructions of the deny ranges; [inr] when one covers everything, which
    ends the program. *)
Fixpoint deny_insns (deny : list IpRange) : list BpfInsn + list BpfInsn :=
  match deny with
  | [] => inl []
  | range :: deny =>
      if is_v6 range then deny_insns deny
      else if mask range =? 0 then inr [ret_imm CGROUP_BPF_DROP]
      else
        let insns := [and_imm 1 (wrap_i32 (mask range)); jeq_imm 1 (wrap_i32 (addr range)) 1;
                      jmp 1; ret_imm CGROUP_BPF_DROP] in
        match deny_insns deny with
        | inl l => inl (insns ++ l)
        | inr l => inr (insns ++ l)
        end
  end.

(** ... of the allow ranges, with whether one of them covers everything.  [n] is
    [(allow.len() as i16) * 3], in range for the lists of a service file. *)
Fixpoint allow_insns (n : Z) (allow : list IpRange) : list BpfInsn * bool :=
  match allow with
  | [] => ([], false)
  | range :: allow =>
      if is_v6 range then allow_insns n allow
      else if mask range =? 0 then ([], true)
      else
        let (l, found_pass) := allow_insns n allow in
        (and_imm 1 (wrap_i32 (mask range)) :: jeq_imm 1 (wrap_i32 (addr range)) n :: l,
         found_pass)
  end.

Definition build_bpf_ip_filter (deny allow : list IpRange) : list BpfInsn :=
  ld_abs 0 SKB_REMOTE_IP4_OFFSET ::
  match deny_insns deny with
  | inr l => l
  | inl l =>
      l ++
      match allow with
      | [] => []
      | _ =>
          let (l, found_pass) := allow_insns (Z.of_nat (length allow) * 3) allow in
          l ++ if found_pass then [] else [ret_imm CGROUP_BPF_DROP]
      end ++ [ret_imm CGROUP_BPF_PASS]
  end.

(** ** Attaching the program *)

Definition BPF_OPEN_FLAGS : Z := Z.lor 0 524288.

(** [apply_ip_filter] only needs to know whether this succeeded.  The length of the
    name is at most 12, so it fits [prog_name]. *)
Definition attach_bpf_ip_filter (service_name : string) (deny allow : list IpRange)
    : prog Os (result string unit) :=
  let insns := build_bpf_ip_filter deny allow in
  let cgroup_path := "/sys/fs/cgroup/quantra-system/" +:+ service_name in
  let* present := trigger (PathExists cgroup_path) in
  if negb present then
    Ret (Err ("cgroup path '" +:+ cgroup_path +:+ "' not found — service not started yet?"))
  else
    let* cgroup_fd := trigger (OpenFd cgroup_path BPF_OPEN_FLAGS) in
    if cgroup_fd <? 0 then
      let* e := trigger LastOsError in
      Ret (Err ("open cgroup '" +:+ cgroup_path +:+ "': " +:+ e))
    else
      let name := "qip_" +:+ String.substring 0 8 service_name in
      let* prog_fd := trigger (BpfProgLoad name (wrap_u32 (Z.of_nat (length insns)))) in
      if prog_fd <? 0 then
        trigger (CloseFd cgroup_fd);*
        let* e := trigger LastOsError in
        Ret (Err ("BPF_PROG_LOAD: " +:+ e))
      else
        let* ret := trigger (BpfProgAttach cgroup_fd prog_fd) in
        trigger (CloseFd prog_fd);*
        trigger (CloseFd cgroup_fd);*
        if ret <? 0 then
          let* e := trigger LastOsError in
          Ret (Err ("BPF_PROG_ATTACH: " +:+ e))
        else Ret (Ok tt).

(** ** The nftables fallback *)

Fixpoint trailing_zeros_from (fuel : nat) (v : Z) : Z :=
  match fuel with
  | O => 0
  | S fuel => if Z.testbit v 0 then 0 else 1 + trailing_zeros_from fuel (Z.shiftr v 1)
  end.

(** [u32::trailing_zeros]: 32 for 0. *)
Definition trailing_zeros (v : Z) : Z := trailing_zeros_from 32 v.

Definition nl : string := String newline "".

Definition cidr_text (r : IpRange) : string :=
  show_ipv4 (addr r) +:+ "/" +:+ show_uint (32 - trailing_zeros (mask r)).

Definition nft_rule (verdict : string) (r : IpRange) : string :=
  "        ip daddr " +:+ cidr_text r +:+ " " +:+ verdict +:+ nl.

Definition v4_ranges (l : list IpRange) : list IpRange := filter (λ r, is_v6 r = false) l.

Definition underscore (c : ascii) : ascii := if Ascii.eqb c "-" then "_"%char else c.

Definition nft_rules (service_name : string) (deny allow : list IpRange) : string :=
  "table inet quantra_ipfilter_" +:+ str_map underscore service_name +:+ " {" +:+ nl +:+
  "    chain egress {" +:+ nl +:+ "        type filter hook output priority 0" +:+ nl +:+
  String.concat "" (nft_rule "drop" <$> v4_ranges deny) +:+
  match allow with
  | [] => ""
  | _ => String.concat "" (nft_rule "accept" <$> v4_ranges allow) +:+ "        drop" +:+ nl
  end +:+
  "    }" +:+ nl +:+ "}" +:+ nl.

Definition apply_nft_ip_filter (service_name : string) (deny allow : list IpRange)
    : prog Os (result string unit) :=
  let tmp := "/run/quantra-system/ipfilter-" +:+ service_name +:+ ".nft" in
  let* written := trigger (WriteFile tmp (nft_rules service_name deny allow)) in
  match written with
  | Err e => Ret (Err ("write nft file '" +:+ tmp +:+ "': " +:+ e))
  | Ok _ =>
      let* status := trigger (Status "nft" ["-f"; tmp]) in
      match status with
      | Err e => Ret (Err ("nft exec: " +:+ e))
      | Ok code =>
          trigger (RemoveFile tmp);*
          if bool_decide (code = Some 0) then Ret (Ok tt)
          else Ret (Err ("nft -f failed for '" +:+ service_name +:+ "'"))
      end
  end.

Definition apply_ip_filter (service_name : string) (deny_ranges allow_ranges : list IpRange)
    : prog Os (result string unit) :=
  match deny_ranges, allow_ranges with
  | [], [] => Ret (Ok tt)
  | _, _ =>
      let* attached := attach_bpf_ip_filter service_name deny_ranges allow_ranges in
      match attached with
      | Ok _ => Ret (Ok tt)
      | Err _ =>
          let* r := apply_nft_ip_filter service_name deny_ranges allow_ranges in
          Ret (map_err (λ e, "IP filter (BPF+nftables both failed) for '" +:+ service_name
                             +:+ "': " +:+ e) r)
      end
  end.

(** ** Address and mask arithmetic *)

Lemma prefix_mask_ones oc p :
  0 ≤ p ≤ 32 → prefix_mask oc p = Some (Z.shiftl (Z.ones p) (32 - p)).
Proof.
  intros Hp. assert (p ∈ Z.of_nat <$> seq 0 33) as Hin.
  { apply list_elem_of_fmap. exists (Z.to_nat p). rewrite elem_of_seq. lia. }
  revert p Hp Hin. assert (Forall (λ p, prefix_mask oc p = Some (Z.shiftl (Z.ones p) (32 - p)))
    (Z.of_nat <$> seq 0 33)) as Hall.
  { destruct oc; apply (bool_decide_unpack _); vm_compute; exact I. }
  intros p _ Hin. rewrite Forall_forall in Hall. by apply Hall.
Qed.

Lemma land_mask p ip :
  0 ≤ p ≤ 32 → 0 ≤ ip < 2 ^ 32 →
  Z.land ip (Z.shiftl (Z.ones p) (32 - p)) = Z.shiftl (Z.shiftr ip (32 - p)) (32 - p).
Proof.
  intros Hp Hip. apply Z.bits_inj'. intros i Hi.
  rewrite Z.land_spec, !Z.shiftl_spec by done.
  destruct (Z.ltb_spec i (32 - p)).
  { rewrite !(Z.testbit_neg_r _ (i - (32 - p))) by lia. apply andb_false_r. }
  rewrite Z.shiftr_spec by lia. replace (i - (32 - p) + (32 - p)) with i by lia.
  rewrite Z.testbit_ones by lia.
  destruct (Z.ltb_spec i 32).
  - rewrite (proj2 (Z.leb_le 0 _)), (proj2 (Z.ltb_lt (i - (32 - p)) p)) by lia.
    apply andb_true_r.
  - rewrite (proj2 (Z.ltb_ge (i - (32 - p)) p)) by lia.
    rewrite andb_false_r, andb_false_r. symmetry.
    rewrite <- (Z.mod_small ip (2 ^ 32)) by done. apply Z.mod_pow2_bits_high. lia.
Qed.

Lemma shiftl_shiftr_inj n x y :
  0 ≤ n → Z.shiftl x n = Z.shiftl y n ↔ x = y.
Proof.
  intros Hn. split; [|by intros ->]. intros H. rewrite !Z.shiftl_mul_pow2 in H by done.
  apply Z.mul_cancel_r in H; [done|]. pose proof (Z.pow_pos_nonneg 2 n). lia.
Qed.

Lemma mask_zero p : 0 ≤ p ≤ 32 → Z.shiftl (Z.ones p) (32 - p) = 0 → p = 0.
Proof.
  intros Hp. rewrite Z.shiftl_mul_pow2, Z.ones_equiv by lia. intros [H|H]%Z.mul_eq_0.
  - destruct (decide (p = 0)); [done|].
    pose proof (Z.pow_gt_1 2 p). lia.
  - pose proof (Z.pow_pos_nonneg 2 (32 - p)). lia.
Qed.

Lemma ipv4_range a b c d :
  0 ≤ a ≤ 255 → 0 ≤ b ≤ 255 → 0 ≤ c ≤ 255 → 0 ≤ d ≤ 255 → 0 ≤ ipv4 a b c d < 2 ^ 32.
Proof. unfold ipv4. rewrite !Z.shiftl_mul_pow2 by lia. lia. Qed.

(** Membership in the range [ip/p] is agreement of the first [p] bits. *)
Lemma contains_ipv4_prefix oc p m ip ip' :
  0 ≤ p ≤ 32 → 0 ≤ ip < 2 ^ 32 → 0 ≤ ip' < 2 ^ 32 → prefix_mask oc p = Some m →
  contains_ipv4 {| addr := Z.land ip m; mask := m; is_v6 := false |} ip' = true ↔
  Z.shiftr ip' (32 - p) = Z.shiftr ip (32 - p).
Proof.
  intros Hp Hip Hip' Hm. rewrite prefix_mask_ones in Hm by done. simplify_eq.
  unfold contains_ipv4. simpl. destruct (Z.eqb_spec (Z.shiftl (Z.ones p) (32 - p)) 0) as [E|E].
  - apply mask_zero in E as ->; [|done]. simpl Z.sub.
    rewrite !Z.shiftr_div_pow2, !Z.div_small by lia. done.
  - rewrite Z.eqb_eq, !land_mask by done. apply shiftl_shiftr_inj. lia.
Qed.

(** ** Parsing what was printed *)

Lemma digit_not_sep x c :
  is_ascii_digit c = true → is_ascii_digit x = false → negb (Ascii.eqb c x) = true.
Proof. intros Hc Hx. apply negb_true_iff, Ascii.eqb_neq. congruence. Qed.

Lemma show_uint_no x z :
  is_ascii_digit x = false → str_forall (λ c, negb (Ascii.eqb c x)) (show_uint z) = true.
Proof.
  intros Hx. eapply str_forall_impl; [|apply show_uint_digits].
  intros c Hc. by apply digit_not_sep.
Qed.

Lemma parse_octet_show n : 0 ≤ n ≤ 255 → parse_octet (show_uint n) = Some n.
Proof.
  intros Hn. assert (n ∈ Z.of_nat <$> seq 0 256) as Hin.
  { apply list_elem_of_fmap. exists (Z.to_nat n). rewrite elem_of_seq. lia. }
  assert (Forall (λ n, parse_octet (show_uint n) = Some n) (Z.of_nat <$> seq 0 256)) as Hall.
  { apply (bool_decide_unpack _). vm_compute. exact I. }
  rewrite Forall_forall in Hall. by apply Hall.
Qed.

(** The dotted quad of four numbers. *)
Definition dotted (a b c d : Z) : string :=
  show_uint a +:+ String "." (show_uint b +:+ String "." (show_uint c +:+ String "." (show_uint d))).

Lemma parse_ipv4_dotted a b c d :
  0 ≤ a ≤ 255 → 0 ≤ b ≤ 255 → 0 ≤ c ≤ 255 → 0 ≤ d ≤ 255 →
  parse_ipv4 (dotted a b c d) = Some (ipv4 a b c d).
Proof.
  intros. unfold parse_ipv4, dotted.
  rewrite !split_sep, split_no_sep by (by apply show_uint_no).
  by rewrite !parse_octet_show.
Qed.

Definition cidr_char (c : ascii) : bool :=
  is_ascii_digit c || Ascii.eqb c "." || Ascii.eqb c "/".

Lemma cidr_text_chars a b c d p :
  str_forall cidr_char (dotted a b c d +:+ String "/" (show_uint p)) = true.
Proof.
  assert (∀ z, str_forall cidr_char (show_uint z) = true) as Hd.
  { intros z. eapply str_forall_impl; [|apply show_uint_digits].
    intros x Hx. unfold cidr_char. by rewrite Hx. }
  unfold dotted. repeat (rewrite ?str_forall_app, ?Hd; simpl). done.
Qed.

Lemma cidr_chars_trim s : str_forall cidr_char s = true → trim s = s.
Proof.
  intros Hs. apply trim_by_none. eapply str_forall_impl; [|done].
  intros [[] [] [] [] [] [] [] []]; done.
Qed.

(** What the code does once the special texts are out of the way. *)
Lemma IpRange_parse_general oc a b c d p :
  0 ≤ a ≤ 255 → 0 ≤ b ≤ 255 → 0 ≤ c ≤ 255 → 0 ≤ d ≤ 255 → 0 ≤ p ≤ u32_max →
  IpRange_parse oc (dotted a b c d +:+ String "/" (show_uint p)) =
  match prefix_mask oc p with
  | Some m => Some (Some {| addr := Z.land (ipv4 a b c d) m; mask := m; is_v6 := false |})
  | None => None
  end.
Proof.
  intros. pose proof (cidr_text_chars a b c d p) as Hchars.
  set (s := dotted a b c d +:+ String "/" (show_uint p)) in *.
  assert (split_once "/" s = Some (dotted a b c d, show_uint p)) as Hsplit.
  { apply split_once_first. unfold dotted.
    repeat (rewrite ?str_forall_app; simpl; rewrite ?show_uint_no by done). done. }
  unfold IpRange_parse. rewrite cidr_chars_trim by done.
  destruct (String.eqb_spec s "any") as [E|_]; [by rewrite E in Hchars|].
  destruct (String.eqb_spec s "::/0") as [E|_]; [by rewrite E in Hchars|].
  assert (parse_uint u32_max (show_uint p) = Some p) as Hp by (by apply parse_uint_show).
  assert (parse_ipv4 (dotted a b c d) = Some (ipv4 a b c d)) as Hip by (by apply parse_ipv4_dotted).
  destruct (String.eqb_spec s "0.0.0.0/0") as [E|_]; simpl.
  - rewrite E in Hsplit. simpl in Hsplit. injection Hsplit as Hd Hp'.
    rewrite <- Hd in Hip. rewrite <- Hp' in Hp. revert Hip Hp.
    generalize (ipv4 a b c d). intros ip Hip Hp. vm_compute in Hip, Hp.
    apply (inj Some) in Hip as <-. apply (inj Some) in Hp as <-. reflexivity.
  - by rewrite Hsplit, Hp, Hip.
Qed.

(** CIDR texts mean what they say: [a.b.c.d/p] with [p ≤ 32] parses without a
    panic, and the range contains exactly the IPv4 addresses that agree with
    [a.b.c.d] on the first [p] bits; the range that is printed for nftables is the
    network address with the same prefix length. *)
Theorem IpRange_parse_spec oc a b c d p :
  0 ≤ a ≤ 255 → 0 ≤ b ≤ 255 → 0 ≤ c ≤ 255 → 0 ≤ d ≤ 255 → 0 ≤ p ≤ 32 →
  ∃ r, IpRange_parse oc (dotted a b c d +:+ String "/" (show_uint p)) = Some (Some r) ∧
    is_v6 r = false ∧
    (∀ ip, 0 ≤ ip < 2 ^ 32 → contains_ipv4 r ip = true ↔
       Z.shiftr ip (32 - p) = Z.shiftr (ipv4 a b c d) (32 - p)) ∧
    cidr_text r = show_ipv4 (Z.shiftl (Z.shiftr (ipv4 a b c d) (32 - p)) (32 - p))
                  +:+ "/" +:+ show_uint p.
Proof.
  intros. pose proof (ipv4_range a b c d) as Hr.
  rewrite IpRange_parse_general by (unfold u32_max; lia).
  rewrite prefix_mask_ones by done. eexists. split_and!; [done..| |].
  - intros ip Hip. apply (contains_ipv4_prefix oc); auto using prefix_mask_ones.
  - unfold cidr_text. cbn [addr mask]. rewrite land_mask by auto.
    assert (32 - trailing_zeros (Z.shiftl (Z.ones p) (32 - p)) = p) as ->; [|done].
    assert (p ∈ Z.of_nat <$> seq 0 33) as Hin.
    { apply list_elem_of_fmap. exists (Z.to_nat p). rewrite elem_of_seq. lia. }
    assert (Forall (λ p, 32 - trailing_zeros (Z.shiftl (Z.ones p) (32 - p)) = p)
      (Z.of_nat <$> seq 0 33)) as Hall by (apply (bool_decide_unpack _); vm_compute; exact I).
    rewrite Forall_forall in Hall. by apply Hall.
Qed.

Lemma IpRange_parse_spec_witness :
  ∃ r, IpRange_parse false "10.0.0.7/8" = Some (Some r) ∧ is_v6 r = false ∧
    (∀ ip, 0 ≤ ip < 2 ^ 32 → contains_ipv4 r ip = true ↔
       Z.shiftr ip (32 - 8) = Z.shiftr (ipv4 10 0 0 7) (32 - 8)) ∧
    cidr_text r = "10.0.0.0/8".
Proof. apply (IpRange_parse_spec false 10 0 0 7 8); lia. Defined.

(** A longer prefix panics in a build with overflow checks, and in one without gives
    a mask that has nothing to do with it. *)
Lemma IpRange_parse_long_prefix :
  IpRange_parse true "10.0.0.0/33" = None ∧
  IpRange_parse false "10.0.0.0/33"
  = Some (Some {| addr := 0; mask := 2147483648; is_v6 := false |}).
Proof. split; vm_compute; reflexivity. Qed.

(** ** Where the program jumps *)

(** An instruction of class [BPF_JMP]; its target is relative to the next one. *)
Definition is_jump (i : BpfInsn) : bool := Z.land (insn_code i) 7 =? EBPF_JMP.

Definition jumps_inside (l : list BpfInsn) : Prop :=
  ∀ n i, l !! n = Some i → is_jump i = true →
    0 ≤ Z.of_nat n + 1 + insn_off i < Z.of_nat (length l).

Lemma jumps_inside_cons i l :
  (is_jump i = true → 0 ≤ insn_off i < Z.of_nat (length l)) →
  jumps_inside l → jumps_inside (i :: l).
Proof.
  intros Hi Hl [|n] j Hj Hjump; simpl in *.
  - simplify_eq. specialize (Hi Hjump). lia.
  - specialize (Hl n j Hj Hjump). lia.
Qed.

Lemma deny_insns_inside deny tail :
  tail ≠ [] → jumps_inside tail →
  jumps_inside match deny_insns deny with inr l => l | inl l => l ++ tail end.
Proof.
  intros Hne Ht. assert (jumps_inside [ret_imm CGROUP_BPF_DROP]) as Hret.
  { apply jumps_inside_cons; [done|]. intros n i Hn. by rewrite lookup_nil in Hn. }
  assert (∀ r l, l ≠ [] → jumps_inside l → jumps_inside
    ([and_imm 1 (wrap_i32 (mask r)); jeq_imm 1 (wrap_i32 (addr r)) 1; jmp 1;
      ret_imm CGROUP_BPF_DROP] ++ l)) as Hchunk.
  { intros r [|i l] Hl Hin; [done|]. simpl.
    do 4 (apply jumps_inside_cons; [intros Hj; try discriminate Hj; simpl; lia|]). done. }
  induction deny as [|r deny IH]; simpl; [done|].
  destruct (is_v6 r); [done|]. destruct (mask r =? 0); [done|].
  destruct (deny_insns deny) as [l|l] eqn:E.
  - apply (Hchunk r (l ++ tail)); [|done]. by destruct l.
  - apply (Hchunk r l); [|done]. intros ->. clear -E. revert E.
    induction deny as [|r' deny IH]; simpl; [done|].
    repeat case_match; intros; simplify_eq; try done.
Qed.

Lemma allow_insns_length n allow : (length (allow_insns n allow).1 ≤ 2 * length allow)%nat.
Proof.
  induction allow as [|r allow IH]; simpl; [lia|].
  repeat case_match; simpl; simplify_eq/=; lia.
Qed.

(** The jumps of the filter program: without an allow list they all land inside
    it; with one that starts with an ordinary IPv4 range the program has a jump past
    its own end, for which the kernel refuses to load it, so that such a filter is
    only ever enforced by the nftables fallback. *)
Theorem bpf_filter_jumps :
  (∀ deny, jumps_inside (build_bpf_ip_filter deny [])) ∧
  (∀ deny r allow, Forall (λ d, mask d ≠ 0) (v4_ranges deny) →
     is_v6 r = false → mask r ≠ 0 →
     ¬ jumps_inside (build_bpf_ip_filter deny (r :: allow))).
Proof.
  split.
  - intros deny. unfold build_bpf_ip_filter. apply jumps_inside_cons; [done|].
    apply (deny_insns_inside deny [ret_imm CGROUP_BPF_PASS]); [done|].
    apply jumps_inside_cons; [done|]. intros n i Hn. by rewrite lookup_nil in Hn.
  - intros deny r allow Hd Hv Hm Hin. unfold build_bpf_ip_filter in Hin.
    assert (∃ l, deny_insns deny = inl l) as [l Hdl].
    { clear Hin. induction deny as [|d deny IH]; simpl; [by eexists|].
      unfold v4_ranges in Hd. rewrite filter_cons in Hd. destruct (is_v6 d).
      - apply IH. rewrite decide_False in Hd by done. exact Hd.
      - rewrite decide_True in Hd by done. inversion Hd; subst.
        rewrite (proj2 (Z.eqb_neq _ _)) by done.
        destruct IH as [l' ->]; [done|]. by eexists. }
    rewrite Hdl in Hin. set (n := Z.of_nat (length (r :: allow)) * 3) in *. simpl in Hin.
    rewrite Hv, (proj2 (Z.eqb_neq _ _) Hm) in Hin.
    pose proof (allow_insns_length n allow) as Hlen.
    destruct (allow_insns n allow) as [l2 found]. simpl in *.
    specialize (Hin (S (length l + 1))%nat (jeq_imm 1 (wrap_i32 (addr r)) n)).
    destruct Hin as [_ Hin]; [|done|].
    + simpl. by rewrite lookup_app_r, Nat.add_comm, Nat.add_sub by lia.
    + simpl in Hin. rewrite !length_app in Hin. simpl in Hin. rewrite !length_app in Hin.
      destruct found; simpl in Hin; unfold n in Hin; simpl in Hin; lia.
Qed.

(** ** No descriptor is leaked *)

(** Whatever fails on the way, [apply_ip_filter] closes exactly the descriptors that
    it opened. *)
Lemma apply_ip_filter_no_leak name deny allow (w : Fds) :
  wp leak_step (apply_ip_filter name deny allow) w (λ w' _, w' = w).
Proof.
  unfold apply_ip_filter.
  assert (wp leak_step
    (let* attached := attach_bpf_ip_filter name deny allow in
     match attached with
     | Ok _ => Ret (Ok tt)
     | Err _ =>
         let* r := apply_nft_ip_filter name deny allow in
         Ret (map_err (λ e, "IP filter (BPF+nftables both failed) for '" +:+ name
                            +:+ "': " +:+ e) r)
     end) w (λ w' _, w' = w)) as H; [|by destruct deny, allow].
  eapply (wp_bind_2 _ _ _ _ _ (λ w' _, w' = w)).
  - unfold attach_bpf_ip_filter. apply wp_op. intros present w1 ->.
    destruct (negb present); [done|]. apply wp_op. intros cg w2 Hcg.
    destruct (Z.ltb_spec cg 0) as [Hneg|Hpos].
    { destruct Hcg as [[_ ->]|?]; [|lia]. by intros e w3 ->. }
    destruct Hcg as [?|(_ & Hcg & ->)]; [lia|]. apply wp_op. intros pf w3 Hpf.
    destruct (Z.ltb_spec pf 0) as [Hneg'|Hpos'].
    { destruct Hpf as [[_ ->]|?]; [|lia]. intros ? w4 ->. intros e w5 ->. apply (with_open_same w). simpl. set_solver. }
    destruct Hpf as [?|(_ & Hpf & ->)]; [lia|].
    apply wp_op. intros r w4 ->. intros ? w5 ->. intros ? w6 ->. simpl.
    set (w6 := with_open _ _). assert (w6 = w) as -> by (apply (with_open_same w); simpl; set_solver).
    destruct (r <? 0); simpl; [by intros e w7 ->|done].
  - intros w1 r ->. destruct r as [u|e]; [done|].
    unfold apply_nft_ip_filter. apply wp_bind, wp_op. intros wr w2 ->.
    destruct wr as [u|e']; [|done]. apply wp_op. intros st w3 ->.
    destruct st as [code|e']; [|done]. apply wp_op. intros rm w4 ->.
    by destruct (bool_decide _).
Qed.
