(* ===== verification/Cgroup.v ===== *)
(** * Control groups

    [quantra/src/services/cgroup.rs]: the slice of a service under
    [/sys/fs/cgroup/quantra-system] and the files written in it. *)

From Stdlib Require Import ZArith Ascii.
From stdpp Require Import base tactics numbers list strings gmap.
From S2P Require Import Prelude RustStr Types Effects Os.

Local Open Scope string_scope.
Local Open Scope list_scope.
Local Open Scope Z_scope.
Local Open Scope quantra_scope.
Local Open Scope prog_scope.

Definition ZAINIUM_CGROUP_ROOT : string := "/sys/fs/cgroup/quantra-system".
Definition CGROUP_V2_SENTINEL : string := "/sys/fs/cgroup/cgroup.controllers".

Definition slice_char (c : ascii) : bool :=
  is_alphanumeric c || Ascii.eqb c "-" || Ascii.eqb c "_".

Definition sanitize (name : string) : string :=
  str_map (λ c, if slice_char c then c else "_"%char) name.

Definition slice_path (name : string) : string :=
  ZAINIUM_CGROUP_ROOT +:+ "/" +:+ sanitize name.

(** ** Operations *)

Definition is_cgroup_v2 : prog Os bool := trigger (PathExists CGROUP_V2_SENTINEL).

Definition create_service_cgroup (name : string) : prog Os (result string unit) :=
  let* v2 := is_cgroup_v2 in
  if negb v2 then Ret (Ok tt)
  else
    let path := slice_path name in
    let* r := trigger (CreateDirAll path) in
    Ret (map_err (λ e, "Cannot create cgroup slice '" +:+ path +:+ "': " +:+ e) r).

Definition assign_pid_to_cgroup (name : string) (pid : Z) : prog Os (result string unit) :=
  let* v2 := is_cgroup_v2 in
  if negb v2 then Ret (Ok tt)
  else
    let procs := slice_path name +:+ "/cgroup.procs" in
    let* present := trigger (PathExists procs) in
    if negb present then Ret (Ok tt)
    else
      let* r := trigger (WriteFile procs (show_uint pid)) in
      Ret (map_err (λ e, "Cannot assign PID " +:+ show_uint pid +:+ " to cgroup '" +:+ procs
                         +:+ "': " +:+ e) r).

Definition kill_service_cgroup (name : string) : prog Os (result string unit) :=
  let* v2 := is_cgroup_v2 in
  if negb v2 then Ret (Ok tt)
  else
    let kill_path := slice_path name +:+ "/cgroup.kill" in
    let* present := trigger (PathExists kill_path) in
    if negb present then Ret (Ok tt)
    else
      let* r := trigger (WriteFile kill_path "1") in
      Ret (map_err (λ e, "cgroup.kill failed for '" +:+ name +:+ "': " +:+ e) r).

Definition get_memory_bytes (name : string) : prog Os (option Z) :=
  let* v2 := is_cgroup_v2 in
  if negb v2 then Ret None
  else
    let* content := trigger (ReadToString (slice_path name +:+ "/memory.current")) in
    Ret match content with
        | Ok s => parse_uint u64_max (trim s)
        | Err _ => None
        end.

Definition remove_service_cgroup (name : string) : prog Os unit :=
  let* v2 := is_cgroup_v2 in
  if negb v2 then Ret tt
  else trigger (RemoveDir (slice_path name));* Ret tt.

(** The common shape of the limits: skipped without cgroup v2 or without the file,
    otherwise one value is written. *)
Definition write_limit (name file val : string) (ctx : string → string)
    : prog Os (result string unit) :=
  let path := slice_path name +:+ "/" +:+ file in
  let* r := trigger (WriteFile path val) in
  Ret (map_err ctx r).

Definition tasks_max_value (n : Z) : string := if n =? 0 then "max" else show_uint n.

Definition apply_tasks_max (name : string) (n : Z) : prog Os (result string unit) :=
  let* v2 := is_cgroup_v2 in
  if negb v2 then Ret (Ok tt)
  else
    let* present := trigger (PathExists (slice_path name +:+ "/pids.max")) in
    if negb present then Ret (Ok tt)
    else
      write_limit name "pids.max" (tasks_max_value n)
        (λ e, "pids.max write for '" +:+ name +:+ "': " +:+ e).

Definition swap_max_value (swap_str : string) : string :=
  let s := trim swap_str in
  if String.eqb s "max" then "max"
  else if String.eqb s "0" then "0"
  else
    let bytes := parse_memory_limit s in
    if bytes =? 0 then "max" else show_uint bytes.

Definition apply_memory_swap_max (name swap_str : string) : prog Os (result string unit) :=
  let* v2 := is_cgroup_v2 in
  if negb v2 then Ret (Ok tt)
  else
    let* present := trigger (PathExists (slice_path name +:+ "/memory.swap.max")) in
    if negb present then Ret (Ok tt)
    else
      write_limit name "memory.swap.max" (swap_max_value swap_str)
        (λ e, "memory.swap.max write for '" +:+ name +:+ "': " +:+ e).

Definition get_device_major_minor (device : string) : prog Os (result string string) :=
  match file_name device with
  | None => Ret (Err ("invalid device path: " +:+ device))
  | Some dev_name =>
      let sysfs_dev := "/sys/class/block/" +:+ dev_name +:+ "/dev" in
      let* content := trigger (ReadToString sysfs_dev) in
      Ret match content with
          | Err e => Err ("read " +:+ sysfs_dev +:+ ": " +:+ e +:+ " (device not found?)")
          | Ok s => Ok (trim s)
          end
  end.

(** [u32::clamp]. *)
Definition clamp (lo hi v : Z) : Z := Z.max lo (Z.min hi v).

Definition apply_io_device_weight (name device : string) (weight : Z)
    : prog Os (result string unit) :=
  let* v2 := is_cgroup_v2 in
  if negb v2 then Ret (Ok tt)
  else
    try* major_minor := get_device_major_minor device in
    let* present := trigger (PathExists (slice_path name +:+ "/io.weight")) in
    if negb present then Ret (Ok tt)
    else
      write_limit name "io.weight" (major_minor +:+ " " +:+ show_uint (clamp 1 10000 weight))
        (λ e, "io.weight device '" +:+ device +:+ "': " +:+ e).

Definition apply_io_device_latency (name device : string) (target_usec : Z)
    : prog Os (result string unit) :=
  let* v2 := is_cgroup_v2 in
  if negb v2 then Ret (Ok tt)
  else
    try* major_minor := get_device_major_minor device in
    let* present := trigger (PathExists (slice_path name +:+ "/io.latency")) in
    if negb present then Ret (Ok tt)
    else
      write_limit name "io.latency" (major_minor +:+ " target=" +:+ show_uint target_usec)
        (λ e, "io.latency device '" +:+ device +:+ "': " +:+ e).

(** The arithmetic on the percentage is on [f64]; [quota_us] stands for
    [((pct / 100.0) * 100000.0) as u64] of a text that parses as a number. *)
Section quota.
Context (quota_us : string → option Z).

Definition cpu_max_value (quota_str : string) : result string string :=
  let quota_str := trim quota_str in
  if String.eqb quota_str "max" || String.eqb quota_str "0" then Ok "max 100000"
  else
    match strip_suffix "%" quota_str with
    | Some p =>
        match quota_us (trim p) with
        | Some us => Ok (show_uint us +:+ " " +:+ show_uint 100000)
        | None => Err ("invalid cpu_quota: " +:+ quota_str)
        end
    | None => Err ("cpu_quota must end with '%': got '" +:+ quota_str +:+ "'")
    end.

Definition apply_cpu_quota (name quota_str : string) : prog Os (result string unit) :=
  let* v2 := is_cgroup_v2 in
  if negb v2 then Ret (Ok tt)
  else
    let* present := trigger (PathExists (slice_path name +:+ "/cpu.max")) in
    if negb present then Ret (Ok tt)
    else
      match cpu_max_value quota_str with
      | Err e => Ret (Err e)
      | Ok val =>
          write_limit name "cpu.max" val
            (λ e, if String.eqb val "max 100000" then e
                  else "cpu.max write for '" +:+ name +:+ "': " +:+ e)
      end.
End quota.

(** ** Where these operations write *)

(** What a program changes on the file system, in order: the path and the contents
    of each write, the directories made and removed. *)
Inductive change :=
| Wrote (path contents : string)
| MadeDir (path : string)
| RemovedDir (path : string)
| OtherChange.

Definition change_of {X} (e : Os X) : list change :=
  match e with
  | WriteFile p s => [Wrote p s]
  | CreateDirAll p => [MadeDir p]
  | RemoveDir p => [RemovedDir p]
  | PathExists _ | ReadToString _ => []
  | _ => [OtherChange]
  end.

Definition change_step : ∀ X, Os X → list change → X → list change → Prop :=
  record_step (λ X e _ w, w ++ change_of e).

(** A change inside the directory of one slice, whose name is a single component of
    harmless characters. *)
Definition in_slice (name : string) (c : change) : Prop :=
  ∃ dir, dir = ZAINIUM_CGROUP_ROOT +:+ "/" +:+ sanitize name ∧
    match c with
    | Wrote p _ => ∃ file, str_forall (λ c, negb (Ascii.eqb c "/")) file = true ∧
        p = dir +:+ "/" +:+ file
    | MadeDir p | RemovedDir p => p = dir
    | OtherChange => False
    end.

Definition confined {A} (name : string) (m : prog Os A) : Prop :=
  keeps change_step (Forall (in_slice name)) m.

Lemma confined_read {X} name (e : Os X) : change_of e = [] → confined name (trigger e).
Proof. intros He. apply keeps_trigger. intros w x w' Hw ->. by rewrite He, app_nil_r. Qed.

Lemma confined_write name file s :
  str_forall (λ c, negb (Ascii.eqb c "/")) file = true →
  confined name (trigger (WriteFile (slice_path name +:+ "/" +:+ file) s)).
Proof.
  intros Hf. apply keeps_trigger. intros w x w' Hw ->. simpl. apply Forall_app. split; [done|].
  constructor; [|done]. eexists. split; [done|]. by exists file.
Qed.

Lemma confined_dir name :
  confined name (trigger (CreateDirAll (slice_path name))) ∧
  confined name (trigger (RemoveDir (slice_path name))).
Proof.
  split; apply keeps_trigger; intros w x w' Hw ->; simpl; apply Forall_app;
    (split; [done|]; constructor; [|done]; by eexists).
Qed.

Ltac confined :=
  repeat first
    [ apply keeps_ret | apply keeps_bind; [|intros ?]
    | apply confined_read; done | apply confined_write; done | apply confined_dir
    | case_match ].

Lemma sanitize_chars name : str_forall slice_char (sanitize name) = true.
Proof.
  unfold sanitize. induction name as [|c s IH]; simpl; [done|]. rewrite IH, andb_true_r.
  by destruct (slice_char c) eqn:E.
Qed.

Lemma sanitize_valid name : str_forall slice_char name = true → sanitize name = name.
Proof.
  intros H. apply str_map_id. eapply str_forall_impl; [|done].
  intros c ->. apply Ascii.eqb_refl.
Qed.

(** No service name escapes its slice: every operation on the control group of a
    service, whatever the name and whatever the system answers, only writes regular
    files directly in, creates or removes the one directory whose last component is
    the name with every character outside [A-Za-z0-9_-] replaced; and names that
    validation accepts are used as they are. *)
Theorem cgroup_confined name quota_us :
  str_forall slice_char (sanitize name) = true ∧
  (str_forall slice_char name = true → sanitize name = name) ∧
  confined name (create_service_cgroup name) ∧
  (∀ pid, confined name (assign_pid_to_cgroup name pid)) ∧
  confined name (kill_service_cgroup name) ∧
  confined name (get_memory_bytes name) ∧
  confined name (remove_service_cgroup name) ∧
  (∀ n, confined name (apply_tasks_max name n)) ∧
  (∀ s, confined name (apply_memory_swap_max name s)) ∧
  (∀ d w, confined name (apply_io_device_weight name d w)) ∧
  (∀ d t, confined name (apply_io_device_latency name d t)) ∧
  (∀ q, confined name (apply_cpu_quota quota_us name q)).
Proof.
  split_and!; [apply sanitize_chars | apply sanitize_valid|..]; intros;
    unfold create_service_cgroup, assign_pid_to_cgroup, kill_service_cgroup,
      get_memory_bytes, remove_service_cgroup, apply_tasks_max, apply_memory_swap_max,
      apply_io_device_weight, apply_io_device_latency, apply_cpu_quota, write_limit,
      get_device_major_minor, try_bind, is_cgroup_v2; confined.
Qed.
