(* ===== verification/Notify.v ===== *)
(** * Readiness notification

    [quantra/src/services/notify.rs]: the datagrams of the sd_notify protocol and
    the wait for [READY=1]. *)

From Stdlib Require Import ZArith Ascii.
From stdpp Require Import base tactics numbers list strings gmap.
From S2P Require Import Prelude RustStr Types Effects Os.

Local Open Scope string_scope.
Local Open Scope list_scope.
Local Open Scope Z_scope.
Local Open Scope quantra_scope.
Local Open Scope prog_scope.

Definition NOTIFY_DIR : string := "/run/quantra-system/notify".

Definition notify_sanitize (name : string) : string :=
  str_map (λ c, if is_alphanumeric c || Ascii.eqb c "-" then c else "_"%char) name.

Record NotifyServer := {
  ns_socket_path : string;
  ns_socket : Z;
  ns_main_pid : option Z;
}.

Definition NotifyServer_new (service_name : string) : prog Os (result string NotifyServer) :=
  let* dir := trigger (CreateDirAll NOTIFY_DIR) in
  match dir with
  | Err e => Ret (Err ("Cannot create notify dir '" +:+ NOTIFY_DIR +:+ "': " +:+ e))
  | Ok _ =>
      let socket_path := NOTIFY_DIR +:+ "/" +:+ notify_sanitize service_name +:+ ".sock" in
      trigger (RemoveFile socket_path);*
      let* bound := trigger (BindDatagram socket_path) in
      match bound with
      | Err e => Ret (Err ("Cannot bind notify socket '" +:+ socket_path +:+ "': " +:+ e))
      | Ok fd =>
          Ret (Ok {| ns_socket_path := socket_path; ns_socket := fd; ns_main_pid := None |})
      end
  end.

(** One line of a datagram: whether to return, and the daemon's pid from then on. *)
Definition handle_line (main_pid : option Z) (line : string) : option bool * option Z :=
  if String.eqb line "READY=1" then (Some true, main_pid)
  else if starts_with "STATUS=" line then (None, main_pid)
  else
    match strip_prefix "MAINPID=" line with
    | Some rest =>
        match parse_uint u32_max rest with
        | Some pid => (None, Some pid)
        | None => (None, main_pid)
        end
    | None => (None, main_pid)
    end.

Fixpoint handle_lines (main_pid : option Z) (l : list string) : option bool * option Z :=
  match l with
  | [] => (None, main_pid)
  | line :: l =>
      match handle_line main_pid line with
      | (Some ready, main_pid) => (Some ready, main_pid)
      | (None, main_pid) => handle_lines main_pid l
      end
  end.

(** One turn of the [loop]. *)
Definition recv_turn (fd : Z) (main_pid : option Z)
    : prog Os (option Z + result string bool * option Z) :=
  let* r := trigger (Recv fd) in
  Ret match r with
      | inr msg =>
          match handle_lines main_pid (lines msg) with
          | (Some ready, main_pid) => inr (Ok ready, main_pid)
          | (None, main_pid) => inl main_pid
          end
      | inl Timeout => inr (Ok false, main_pid)
      | inl (RecvFailed e) => inr (Err ("Notify socket recv error: " +:+ e), main_pid)
      end.

(** [None] is out of fuel: the code has no bound on the number of datagrams. *)
Definition wait_for_ready (fuel : nat) (ns : NotifyServer) (timeout : Z)
    : prog Os (option (result string bool * option Z)) :=
  let* r := trigger (SetReadTimeout (ns_socket ns) timeout) in
  match r with
  | Err e => Ret (Some (Err ("set_read_timeout: " +:+ e), ns_main_pid ns))
  | Ok _ => loop fuel (recv_turn (ns_socket ns)) (ns_main_pid ns)
  end.

Definition NotifyServer_drop (ns : NotifyServer) : prog Os unit :=
  trigger (CloseFd (ns_socket ns));* trigger (RemoveFile (ns_socket_path ns));* Ret tt.

(** ** The stream of lines *)

(** A peer that sends the given datagrams and is then silent. *)
Definition script_step : ∀ X, Os X → list string → X → list string → Prop :=
  λ X e, match e in Os X return list string → X → list string → Prop with
  | Recv _ => λ w x w',
      match w with
      | d :: ds => x = inr d ∧ w' = ds
      | [] => x = inl Timeout ∧ w' = []
      end
  | SetReadTimeout _ _ => λ w x w', x = Ok tt ∧ w' = w
  | _ => λ w _ w', w' = w
  end.

Definition main_pid_of (line : string) : option Z :=
  match strip_prefix "MAINPID=" line with
  | Some rest => parse_uint u32_max rest
  | None => None
  end.

(** The lines up to the first [READY=1], and whether there is one. *)
Fixpoint before_ready (l : list string) : list string * bool :=
  match l with
  | [] => ([], false)
  | line :: l =>
      if String.eqb line "READY=1" then ([], true)
      else let (b, r) := before_ready l in (line :: b, r)
  end.

Definition last_main_pid (init : option Z) (l : list string) : option Z :=
  fold_left (λ acc line, match main_pid_of line with Some pid => Some pid | None => acc end)
    l init.

Lemma handle_line_spec main_pid line :
  handle_line main_pid line =
  if String.eqb line "READY=1" then (Some true, main_pid)
  else (None, match main_pid_of line with Some pid => Some pid | None => main_pid end).
Proof.
  unfold handle_line, main_pid_of. destruct (String.eqb line "READY=1"); [done|].
  destruct (starts_with "STATUS=" line) eqn:Hs.
  - assert (strip_prefix "MAINPID=" line = None) as ->; [|done].
    unfold starts_with in Hs. destruct (strip_prefix "STATUS=" line) as [t|] eqn:Et; [|done].
    apply strip_prefix_Some in Et as ->. reflexivity.
  - by destruct (strip_prefix "MAINPID=" line) as [r|]; [destruct (parse_uint u32_max r)|].
Qed.

Lemma handle_lines_spec main_pid l :
  handle_lines main_pid l =
  (if (before_ready l).2 then Some true else None, last_main_pid main_pid (before_ready l).1).
Proof.
  revert main_pid. induction l as [|line l IH]; intros main_pid; simpl; [done|].
  rewrite handle_line_spec. destruct (String.eqb line "READY=1"); [done|].
  rewrite IH. by destruct (before_ready l).
Qed.

Lemma before_ready_app l1 l2 :
  before_ready (l1 ++ l2) =
  if (before_ready l1).2 then before_ready l1
  else ((before_ready l1).1 ++ (before_ready l2).1, (before_ready l2).2).
Proof.
  induction l1 as [|line l1 IH]; simpl; [by destruct (before_ready l2)|].
  destruct (String.eqb line "READY=1"); [done|]. rewrite IH.
  by destruct (before_ready l1) as [b []].
Qed.

Lemma before_ready_elem l : (before_ready l).2 = bool_decide ("READY=1" ∈ l).
Proof.
  induction l as [|line l IH]; simpl; [done|].
  destruct (String.eqb_spec line "READY=1") as [->|Hne].
  - symmetry. apply bool_decide_eq_true_2. left.
  - destruct (before_ready l) as [b r]. simpl in *. subst.
    apply bool_decide_ext. rewrite elem_of_cons. naive_solver.
Qed.

Lemma recv_loop_spec fuel fd main_pid datagrams :
  (length datagrams < fuel)%nat →
  wp script_step (loop fuel (recv_turn fd) main_pid) datagrams (λ _ r,
    let stream := datagrams ≫= lines in
    r = Some (Ok (bool_decide ("READY=1" ∈ stream)),
              last_main_pid main_pid (before_ready stream).1)).
Proof.
  revert fuel main_pid. induction datagrams as [|d ds IH]; intros [|fuel] main_pid Hf;
    simpl in Hf; try lia; cbn [loop].
  - unfold recv_turn. intros x w [-> ->]. done.
  - unfold recv_turn. intros x w [-> ->]. simpl. rewrite handle_lines_spec.
    rewrite <- before_ready_elem, before_ready_app.
    destruct (before_ready (lines d)) as [b []] eqn:E; simpl; [done|].
    eapply wp_mono; [|apply IH; lia]. simpl. intros _ r ->.
    rewrite <- before_ready_elem. unfold last_main_pid. by rewrite fold_left_app.
Qed.

(** Waiting for readiness sees the datagrams of a service as one stream of lines:
    it returns [true] exactly when [READY=1] is a line of it, [false] once the
    service is silent for the timeout, and remembers the last well-formed
    [MAINPID=] before that; one more turn than there are datagrams is enough. *)
Theorem wait_for_ready_stream fuel ns timeout datagrams :
  (length datagrams < fuel)%nat →
  wp script_step (wait_for_ready fuel ns timeout) datagrams (λ _ r,
    let stream := datagrams ≫= lines in
    r = Some (Ok (bool_decide ("READY=1" ∈ stream)),
              last_main_pid (ns_main_pid ns) (before_ready stream).1)).
Proof.
  intros Hf. unfold wait_for_ready. apply wp_op. intros r w [-> ->]. by apply recv_loop_spec.
Qed.

Lemma wait_for_ready_stream_witness :
  let datagrams := ["STATUS=starting" +:+ String newline "MAINPID=42"; "READY=1"] in
  (2 < 3)%nat ∧
  wp script_step (wait_for_ready 3
    {| ns_socket_path := ""; ns_socket := 7; ns_main_pid := None |} (from_secs 90)) datagrams
    (λ _ r, r = Some (Ok true, Some 42)).
Proof.
  split; [lia|].
  apply (wait_for_ready_stream 3 {| ns_socket_path := ""; ns_socket := 7; ns_main_pid := None |}
    (from_secs 90) ["STATUS=starting" +:+ String newline "MAINPID=42"; "READY=1"]).
  simpl. lia.
Defined.

(** ** The timeout is per datagram *)

(** A service that never says [READY=1] but keeps talking. *)
Definition chatty_step : ∀ X, Os X → unit → X → unit → Prop :=
  λ X e, match e in Os X return unit → X → unit → Prop with
  | Recv _ => λ _ x _, ∃ msg, x = inr msg ∧ "READY=1" ∉ lines msg
  | SetReadTimeout _ _ => λ _ x _, x = Ok tt
  | _ => λ _ _ _, True
  end.

Lemma chatty_loop fuel fd main_pid w :
  wp chatty_step (loop fuel (recv_turn fd) main_pid) w (λ _ r, r = None).
Proof.
  revert main_pid w. induction fuel as [|fuel IH]; intros main_pid w; cbn [loop]; [done|].
  unfold recv_turn. intros x w' (msg & -> & Hm). simpl. rewrite handle_lines_spec.
  rewrite before_ready_elem, bool_decide_eq_false_2 by done. apply IH.
Qed.

(** The start timeout does not bound the wait: against a service that keeps
    sending other lines, each within the timeout, no number of turns is enough,
    since the timeout is that of one [recv]. *)
Theorem wait_for_ready_unbounded fuel ns timeout w :
  wp chatty_step (wait_for_ready fuel ns timeout) w (λ _ r, r = None).
Proof. unfold wait_for_ready. apply wp_op. intros r w' ->. apply chatty_loop. Qed.
