(* ===== verification/SocketActivation.v ===== *)
(** * Socket activation

    [quantra/src/services/socket_activation.rs]: the sockets that PID 1 opens for a
    service, the environment that announces them, and the inetd-style loop that
    forks a service for every connection. *)

From Stdlib Require Import ZArith Ascii.
From stdpp Require Import base tactics numbers list strings gmap.
From S2P Require Import Prelude RustStr Types Effects Launch Os.

Local Open Scope string_scope.
Local Open Scope list_scope.
Local Open Scope Z_scope.
Local Open Scope quantra_scope.
Local Open Scope prog_scope.

Record ActivationSocket := {
  as_name : string;
  as_fd : Z;
}.

Definition named (name : string) (fd : Z) : ActivationSocket :=
  {| as_name := name; as_fd := fd |}.

(** ** Opening *)

Definition new_unix_stream (name path : string) : prog Os (result string ActivationSocket) :=
  trigger (RemoveFile path);*
  let* r := trigger (BindUnix path) in
  Ret match r with
      | Ok fd => Ok (named name fd)
      | Err e => Err ("Socket activation: cannot bind Unix '" +:+ name +:+ "' at " +:+ path
                      +:+ ": " +:+ e)
      end.

Definition new_tcp (name addr : string) : prog Os (result string ActivationSocket) :=
  let* r := trigger (BindTcp addr) in
  Ret match r with
      | Ok fd => Ok (named name fd)
      | Err e => Err ("Socket activation: cannot bind TCP '" +:+ name +:+ "' at " +:+ addr
                      +:+ ": " +:+ e)
      end.

Definition new_udp (name addr : string) : prog Os (result string ActivationSocket) :=
  let* r := trigger (BindUdp addr) in
  Ret match r with
      | Ok fd => Ok (named name fd)
      | Err e => Err ("Socket activation: UDP '" +:+ name +:+ "' at " +:+ addr +:+ ": " +:+ e)
      end.

Definition new_netlink (name : string) (family groups : Z)
    : prog Os (result string ActivationSocket) :=
  let* fd := trigger (Socket_netlink family) in
  if fd <? 0 then
    let* e := trigger LastOsError in
    Ret (Err ("Socket activation: NETLINK '" +:+ name +:+ "' family=" +:+ show_int family
              +:+ ": " +:+ e))
  else
    let* ret := trigger (Bind_netlink fd groups) in
    if ret <? 0 then
      trigger (CloseFd fd);*
      let* e := trigger LastOsError in
      Ret (Err ("Socket activation: NETLINK bind '" +:+ name +:+ "': " +:+ e))
    else Ret (Ok (named name fd)).

Definition O_RDONLY_NONBLOCK_CLOEXEC : Z := Z.lor 2048 524288.

Definition new_fifo (name path : string) : prog Os (result string ActivationSocket) :=
  match CString path with
  | Err _ => Ret (Err ("invalid FIFO path: " +:+ path))
  | Ok path_cstr =>
      trigger (RemoveFile path);*
      let* ret := trigger (Mkfifo path_cstr 384) in
      if ret <? 0 then
        let* e := trigger LastOsError in
        Ret (Err ("Socket activation: mkfifo '" +:+ name +:+ "' at " +:+ path +:+ ": " +:+ e))
      else
        let* fd := trigger (OpenFd path_cstr O_RDONLY_NONBLOCK_CLOEXEC) in
        if fd <? 0 then
          let* e := trigger LastOsError in
          Ret (Err ("Socket activation: open FIFO '" +:+ name +:+ "': " +:+ e))
        else Ret (Ok (named name fd))
  end.

(** The [setsockopt] helpers differ in the option and the label of the error. *)
Definition set_option (option label : string) (s : ActivationSocket)
    : prog Os (result string unit) :=
  let* ret := trigger (Setsockopt (as_fd s) option) in
  if ret =? 0 then Ret (Ok tt)
  else
    let* e := trigger LastOsError in
    Ret (Err (label +:+ " on '" +:+ as_name s +:+ "': " +:+ e)).

Definition set_reuse_port := set_option "SO_REUSEPORT" "SO_REUSEPORT".
Definition set_keep_alive := set_option "SO_KEEPALIVE" "SO_KEEPALIVE".
Definition set_pass_credentials := set_option "SO_PASSCRED" "SO_PASSCRED".
Definition set_free_bind := set_option "IP_FREEBIND" "IP_FREEBIND".

Definition bind_to_device (iface : string) (s : ActivationSocket)
    : prog Os (result string unit) :=
  match CString iface with
  | Err _ => Ret (Err ("invalid interface name: " +:+ iface))
  | Ok iface_cstr =>
      set_option ("SO_BINDTODEVICE=" +:+ iface_cstr)
        ("SO_BINDTODEVICE '" +:+ iface_cstr +:+ "'") s
  end.

Definition set_backlog (backlog : Z) (s : ActivationSocket) : prog Os (result string unit) :=
  let* ret := trigger (Listen (as_fd s) backlog) in
  if ret =? 0 then Ret (Ok tt)
  else
    let* e := trigger LastOsError in
    Ret (Err ("listen(backlog=" +:+ show_int backlog +:+ ") on '" +:+ as_name s +:+ "': " +:+ e)).

(** ** Specs *)

Inductive SocketSpec :=
| Unix (path : string)
| Tcp (addr : string)
| Udp (addr : string)
| Netlink (family groups : Z)
| Fifo (path : string).

Record SocketOptions := {
  so_reuse_port : bool;
  so_keep_alive : bool;
  so_pass_credentials : bool;
  so_bind_to_device : option string;
  so_free_bind : bool;
  so_backlog : Z;
  so_accept : bool;
  so_max_connections : nat;
  so_trigger_limit_burst : nat;
}.

Definition default_backlog : Z := 128.
Definition default_trigger_burst : nat := 200.

(** An option that is set: its helper, whose failure drops the socket, which closes
    it. *)
Definition with_option (b : bool) (f : ActivationSocket → prog Os (result string unit))
    (s : ActivationSocket) : prog Os (result string ActivationSocket) :=
  if b then
    let* r := f s in
    match r with
    | Ok _ => Ret (Ok s)
    | Err e => trigger (CloseFd (as_fd s));* Ret (Err e)
    end
  else Ret (Ok s).

Definition create_socket (name : string) (spec : SocketSpec) (opts : SocketOptions)
    : prog Os (result string ActivationSocket) :=
  try* sock :=
    match spec with
    | Unix path => new_unix_stream name path
    | Tcp addr =>
        try* s := new_tcp name addr in
        try* s := with_option (so_keep_alive opts) set_keep_alive s in
        try* s := with_option (so_reuse_port opts) set_reuse_port s in
        with_option (so_free_bind opts) set_free_bind s
    | Udp addr =>
        try* s := new_udp name addr in
        with_option (so_reuse_port opts) set_reuse_port s
    | Netlink family groups => new_netlink name family groups
    | Fifo path => new_fifo name path
    end in
  try* sock :=
    match so_bind_to_device opts with
    | Some iface => with_option true (bind_to_device iface) sock
    | None => Ret (Ok sock)
    end in
  try* sock := with_option (so_pass_credentials opts) set_pass_credentials sock in
  (if 0 <? so_backlog opts then set_backlog (so_backlog opts) sock;* Ret tt else Ret tt);*
  Ret (Ok sock).

(** The spec of a service file. *)
Definition open_listen (service_name spec : string) : prog Os (result string ActivationSocket) :=
  match strip_prefix "unix:" spec with
  | Some path => new_unix_stream service_name path
  | None =>
      match strip_prefix "tcp:" spec with
      | Some addr => new_tcp service_name addr
      | None => Ret (Err ("Unknown socket spec '" +:+ spec +:+ "' (use unix: or tcp:)"))
      end
  end.

(** ** The environment *)

Definition build_listen_env (sockets : list ActivationSocket) : list (string * string) :=
  let names := join ":" (as_name <$> sockets) in
  [("LISTEN_FDS", show_nat (length sockets)); ("LISTEN_FDNAMES", names)].

(** [setup_child_fds]: the same loop as in the child of [start_service_as]. *)
Definition setup_child_fds (sockets : list ActivationSocket) : prog Sys unit :=
  dup_activations 0 (as_fd <$> sockets).

(** ** One service per connection *)

Record AcceptConfig := {
  max_connections : nat;
  trigger_limit_burst : nat;
  trigger_limit_interval : Z;
}.

Definition AcceptConfig_default : AcceptConfig :=
  {| max_connections := 0; trigger_limit_burst := 200; trigger_limit_interval := 2 |}.

Record AcceptState := {
  active : nat;
  rate_count : nat;
  rate_window : Z;
}.

(** The rate counter after a connection accepted at [now]. *)
Definition count_connection (config : AcceptConfig) (now : Z) (st : AcceptState) : AcceptState :=
  if from_secs (trigger_limit_interval config) <=? now - rate_window st
  then {| active := active st; rate_count := 1; rate_window := now |}
  else {| active := active st; rate_count := S (rate_count st); rate_window := rate_window st |}.

Definition over_limit (config : AcceptConfig) (st : AcceptState) : bool :=
  (trigger_limit_burst config <? rate_count st)%nat ||
  ((0 <? max_connections config)%nat && (max_connections config <=? active st)%nat).

(** [while waitpid(-1, WNOHANG) > 0 { active = active.saturating_sub(1) }]: there are
    at most [fuel] children to reap. *)
Fixpoint reap_children (fuel : nat) (act : nat) : prog Os nat :=
  match fuel with
  | O => Ret act
  | S fuel =>
      let* pid := trigger WaitAnyNohang in
      if 0 <? pid then reap_children fuel (Nat.pred act) else Ret act
  end.

(** A turn of the loop: [inr] when the stop flag is set. *)
Definition accept_turn (reap_fuel : nat) (listen_fd : Z) (service_command : list string)
    (config : AcceptConfig) (st : AcceptState) : prog Os (AcceptState + unit) :=
  let* stop := trigger LoadStop in
  if stop : bool then Ret (inr tt)
  else
    let* conn_fd := trigger (Accept listen_fd) in
    if conn_fd <? 0 then
      let* would_block := trigger LastErrorWouldBlock in
      if would_block : bool then Ret (inl st)
      else trigger (Sleep (from_millis 100));* Ret (inl st)
    else
      let* now := trigger Now in
      let st := count_connection config now st in
      if over_limit config st then trigger (CloseFd conn_fd);* Ret (inl st)
      else
        let* pid := trigger (ForkInetd listen_fd conn_fd service_command) in
        if 0 <? pid then
          trigger (CloseFd conn_fd);*
          let* act := reap_children reap_fuel (S (active st)) in
          Ret (inl {| active := act; rate_count := rate_count st;
                      rate_window := rate_window st |})
        else
          trigger (CloseFd conn_fd);* Ret (inl st).

(** ** What the loop guarantees *)

(** Services started, with the times at which their connections were accepted. *)
Record aworld := { a_now : Z; a_forks : list Z }.

Definition accept_step : ∀ X, Os X → aworld → X → aworld → Prop :=
  λ X e, match e in Os X return aworld → X → aworld → Prop with
  | Now => λ w x w', a_now w ≤ x ∧ w' = {| a_now := x; a_forks := a_forks w |}
  | ForkInetd _ _ _ => λ w _ w',
      w' = {| a_now := a_now w; a_forks := a_forks w ++ [a_now w] |}
  | _ => λ w _ w', w' = w
  end.

(** With the clock at [t0] when the loop started: every full window allows at most
    [trigger_limit_burst] connections, and the current one what it has counted. *)
Definition rate_inv (config : AcceptConfig) (t0 : Z) (st : AcceptState) (w : aworld) : Prop :=
  t0 ≤ rate_window st ≤ a_now w ∧
  Z.of_nat (length (a_forks w)) ≤
    Z.of_nat (trigger_limit_burst config)
      * ((rate_window st - t0) / from_secs (trigger_limit_interval config))
    + Z.of_nat (Nat.min (rate_count st) (trigger_limit_burst config)).

Lemma keeps_reap fuel act I : keeps accept_step I (reap_children fuel act).
Proof.
  revert act. induction fuel as [|fuel IH]; intros act; simpl; [apply keeps_ret|].
  intros w HI x w' ->. destruct (0 <? x); [by apply IH|done].
Qed.

(** Counting a connection leaves room for the one that is being started. *)
Lemma count_connection_inv config t0 st w now :
  0 < trigger_limit_interval config → rate_inv config t0 st w → a_now w ≤ now →
  let st' := count_connection config now st in
  t0 ≤ rate_window st' ≤ now ∧
  Z.of_nat (length (a_forks w)) ≤
    Z.of_nat (trigger_limit_burst config)
      * ((rate_window st' - t0) / from_secs (trigger_limit_interval config))
    + Z.of_nat (Nat.min (Nat.pred (rate_count st')) (trigger_limit_burst config)).
Proof.
  intros HI [Ht Hn] Hnow. unfold count_connection.
  assert (0 < from_secs (trigger_limit_interval config)) as HI' by (unfold from_secs; lia).
  set (I := from_secs _) in *.
  destruct (Z.leb_spec I (now - rate_window st)); simpl; (split; [lia|]).
  - assert ((rate_window st - t0) / I + 1 ≤ (now - t0) / I).
    { rewrite <- (Z.div_add _ 1) by lia. apply Z.div_le_mono; lia. }
    assert (Z.of_nat (trigger_limit_burst config) * ((rate_window st - t0) / I + 1)
      ≤ Z.of_nat (trigger_limit_burst config) * ((now - t0) / I))
      by (apply Z.mul_le_mono_nonneg_l; lia).
    simpl. lia.
  - lia.
Qed.

Lemma accept_turn_inv reap_fuel fd cmd config t0 st w :
  0 < trigger_limit_interval config → rate_inv config t0 st w →
  wp accept_step (accept_turn reap_fuel fd cmd config st) w (λ w' r,
    a_now w ≤ a_now w' ∧
    match r with inl st' => rate_inv config t0 st' w' | inr _ => ∃ st', rate_inv config t0 st' w' end).
Proof.
  intros HI Hinv. unfold accept_turn. apply wp_op. intros stop w1 ->. destruct stop; [by split; [lia|exists st]|].
  apply wp_op. intros conn w1 ->. destruct (conn <? 0).
  { apply wp_op. intros wb w1 ->. destruct wb; [done|]. by intros ? w1 ->. }
  apply wp_op. intros now w1 [Hnow ->].
  pose proof (count_connection_inv config t0 st w now HI Hinv Hnow) as Hc.
  set (st' := count_connection config now st) in *. simpl in Hc. destruct Hc as [Ht Hn].
  assert (∀ forks, Z.of_nat (length forks) ≤ Z.of_nat (length (a_forks w)) →
    rate_inv config t0 st' {| a_now := now; a_forks := forks |}) as Hkeep.
  { intros forks Hf. split; [done|]. simpl. lia. }
  destruct (over_limit config st') eqn:Hover.
  { intros ? w1 ->. simpl. split; [lia|]. by apply Hkeep. }
  unfold over_limit in Hover. apply orb_false_iff in Hover as [Hb%Nat.ltb_ge _].
  apply wp_op. intros pid w1 ->. simpl.
  assert (rate_inv config t0 st' {| a_now := now; a_forks := a_forks w ++ [now] |}) as Hfork.
  { split; [done|]. simpl. rewrite length_app. simpl.
    assert (1 ≤ rate_count st')%nat.
    { unfold st', count_connection. destruct (_ <=? _); simpl; lia. }
    lia. }
  destruct (0 <? pid).
  - intros ? w1 ->. simpl.
    apply (wp_keeps_bind _ (λ w', w' = {| a_now := now; a_forks := a_forks w ++ [now] |}));
      [apply keeps_reap | done |].
    intros w1 act ->. simpl. split; [lia|]. exact Hfork.
  - intros ? w1 ->. simpl. split; [lia|]. exact Hfork.
Qed.

(** C37: the connection rate is bounded: however connections arrive, after any number
    of turns the loop has started at most [trigger_limit_burst] services for every
    [trigger_limit_interval] that has passed, and as many again for the interval
    that is running. *)
Theorem accept_rate_bounded fuel reap_fuel fd cmd config t0 :
  0 < trigger_limit_interval config →
  wp accept_step
    (loop fuel (accept_turn reap_fuel fd cmd config)
       {| active := 0; rate_count := 0; rate_window := t0 |})
    {| a_now := t0; a_forks := [] |} (λ w _,
    Z.of_nat (length (a_forks w)) ≤
      Z.of_nat (trigger_limit_burst config)
        * (1 + (a_now w - t0) / from_secs (trigger_limit_interval config))).
Proof.
  intros HI.
  assert (∀ st w, rate_inv config t0 st w →
    Z.of_nat (length (a_forks w)) ≤ Z.of_nat (trigger_limit_burst config)
      * (1 + (a_now w - t0) / from_secs (trigger_limit_interval config))) as Hend.
  { intros st w [Ht Hn].
    assert ((rate_window st - t0) / from_secs (trigger_limit_interval config) ≤
      (a_now w - t0) / from_secs (trigger_limit_interval config)) as Hd
      by (apply Z.div_le_mono; unfold from_secs; lia).
    apply (Z.mul_le_mono_nonneg_l _ _ (Z.of_nat (trigger_limit_burst config))) in Hd; lia. }
  assert (∀ fuel st w, rate_inv config t0 st w →
    wp accept_step (loop fuel (accept_turn reap_fuel fd cmd config) st) w (λ w _,
      ∃ st', rate_inv config t0 st' w)) as Hloop.
  { clear fuel. intros fuel. induction fuel as [|fuel IH]; intros st w Hinv; cbn [loop]; [by eexists|].
    eapply wp_bind_2; [by apply accept_turn_inv|].
    intros w' [st'|[]]; simpl; [intros [_ Hinv']; by apply IH | by intros [_ ?]]. }
  eapply wp_mono; [|apply Hloop].
  - intros w r [st Hinv]. by apply (Hend st).
  - split; simpl; [lia|]. rewrite Z.sub_diag, Zdiv_0_l. lia.
Qed.

Lemma accept_rate_bounded_witness :
  0 < 2 ∧
  wp accept_step
    (loop 1000 (accept_turn 8 5 ["/bin/sshd"; "-i"] AcceptConfig_default)
       {| active := 0; rate_count := 0; rate_window := 0 |})
    {| a_now := 0; a_forks := [] |} (λ w _,
    Z.of_nat (length (a_forks w)) ≤ 200 * (1 + (a_now w - 0) / from_secs 2)).
Proof.
  split; [lia|].
  apply (accept_rate_bounded 1000 8 5 ["/bin/sshd"; "-i"] AcceptConfig_default 0). simpl. lia.
Defined.

(** The connection limit never opens again: children are only reaped after a
    fork, so once [active] has reached [max_connections] every later connection is
    dropped and none is served, whatever becomes of the services. *)
Theorem accept_limit_is_final fuel reap_fuel fd cmd config st w :
  (0 < max_connections config)%nat → (max_connections config ≤ active st)%nat →
  wp accept_step (loop fuel (accept_turn reap_fuel fd cmd config) st) w (λ w' _,
    a_forks w' = a_forks w).
Proof.
  intros Hm Ha. revert st w Ha. induction fuel as [|fuel IH]; intros st w Ha; cbn [loop]; [done|].
  unfold accept_turn at 1. apply wp_bind, wp_op. intros stop w1 ->. destruct stop; [done|].
  apply wp_op. intros conn w1 ->. destruct (conn <? 0).
  { apply wp_op. intros wb w1 ->. destruct wb; [by apply IH|]. intros ? w1 ->. by apply IH. }
  apply wp_op. intros now w1 [_ ->].
  assert (max_connections config ≤ active (count_connection config now st))%nat as Ha'
    by (unfold count_connection; by destruct (_ <=? _)).
  assert (over_limit config (count_connection config now st) = true) as ->.
  { unfold over_limit. apply orb_true_iff. right. apply andb_true_iff.
    split; [by apply Nat.ltb_lt | by apply Nat.leb_le]. }
  intros ? w1 ->. simpl. eapply wp_mono; [|by apply IH]. done.
Qed.

Lemma accept_limit_is_final_witness :
  let config := {| max_connections := 2; trigger_limit_burst := 200; trigger_limit_interval := 2 |} in
  (0 < 2)%nat ∧ (2 ≤ 2)%nat ∧
  wp accept_step
    (loop 50 (accept_turn 8 5 ["/bin/sshd"] config)
       {| active := 2; rate_count := 2; rate_window := 0 |})
    {| a_now := 0; a_forks := [0; 0] |} (λ w' _, a_forks w' = [0; 0]).
Proof.
  split_and!; [lia..|].
  apply (accept_limit_is_final 50 8 5 ["/bin/sshd"]
    {| max_connections := 2; trigger_limit_burst := 200; trigger_limit_interval := 2 |}
    {| active := 2; rate_count := 2; rate_window := 0 |} {| a_now := 0; a_forks := [0; 0] |});
    simpl; lia.
Defined.
