(* ===== verification/Parser.v ===== *)
(** * Loading service files

    [quantra/src/services/parser.rs]: which files of the services directory are
    read, the checks on a definition, and the boot-time filter by marker files.
    The TOML parser is a parameter. *)

From Stdlib Require Import ZArith Ascii.
From stdpp Require Import base tactics numbers list strings gmap.
From S2P Require Import Prelude RustStr Types Effects Os.

Local Open Scope string_scope.
Local Open Scope list_scope.
Local Open Scope Z_scope.
Local Open Scope quantra_scope.
Local Open Scope prog_scope.

Definition ENABLED_DIR : string := "/overlayer/syshub/etc/quantra-system/enabled".

Definition BOOTSTRAP_SERVICES : list string :=
  ["quantra-netd"; "quantra-net"; "console-shell"].

(** ** Validation *)

Definition valid_name_char (c : ascii) : bool :=
  is_alphanumeric c || Ascii.eqb c "_" || Ascii.eqb c "-".

Definition rlimit_pairs (rl : ResourceLimits) : list (string * option (Z * Z)) :=
  [("nofile", nofile rl); ("nproc", nproc rl); ("fsize", fsize rl); ("stack", stack rl);
   ("memlock", memlock rl); ("core", core rl)].

Fixpoint check_rlimits (service_name : string) (pairs : list (string * option (Z * Z)))
    : result string unit :=
  match pairs with
  | [] => Ok tt
  | (name, lim) :: pairs =>
      match lim with
      | Some (soft, hard) =>
          if negb (hard =? 0) && (hard <? soft) then
            Err ("Service '" +:+ service_name +:+ "': rlimit." +:+ name +:+ ": soft ("
                 +:+ show_uint soft +:+ ") > hard (" +:+ show_uint hard +:+ ")")
          else check_rlimits service_name pairs
      | None => check_rlimits service_name pairs
      end
  end.

Fixpoint check_sockets (specs : list string) : result string unit :=
  match specs with
  | [] => Ok tt
  | spec :: specs =>
      if negb (starts_with "unix:" spec) && negb (starts_with "tcp:" spec) then
        Err ("Socket spec '" +:+ spec +:+ "' must start with 'unix:' or 'tcp:'")
      else check_sockets specs
  end.

Definition validate_service (service : Service) : result string unit :=
  if is_empty (trim (svc_name service)) then Err "Service name cannot be empty"
  else if negb (str_forall valid_name_char (svc_name service)) then
    Err ("Service name '" +:+ svc_name service
         +:+ "' contains invalid characters. Use only alphanumeric, underscore, and dash")
  else if is_empty (trim (svc_command service)) then Err "Service command cannot be empty"
  else if bool_decide (svc_notify_type service = BgProcess)
          && match svc_pid_file service with None => true | Some _ => false end then
    Err ("Service '" +:+ svc_name service
         +:+ "': notify_type = " +:+ dquote +:+ "bg-process" +:+ dquote
         +:+ " requires pid_file to be set")
  else if match svc_chain_to service with
          | Some chain => String.eqb chain (svc_name service)
          | None => false
          end then
    Err ("Service '" +:+ svc_name service +:+ "': chain_to cannot reference itself")
  else
    let? _ := match svc_rlimit service with
              | Some rl => check_rlimits (svc_name service) (rlimit_pairs rl)
              | None => Ok tt
              end in
    check_sockets (svc_socket_listen service).

(** ** Files *)

Definition is_toml_file (path : string) : bool :=
  bool_decide (extension path = Some "toml").

Record ServiceParseError := {
  pe_path : string;
  pe_error : string;
}.

Record ServiceParseReport := {
  pr_services : list Service;
  pr_errors : list ServiceParseError;
}.

Section parser.
Context (toml_from_str : string → result string Service).

(** The error texts are the outermost context, which is what is displayed. *)
Definition parse_service_text (path content : string) : result string Service :=
  let? service := map_err (λ _, "Failed to parse " +:+ path) (toml_from_str content) in
  let? _ := validate_service service in
  Ok service.

Definition parse_service_file (path : string) : prog Os (result string Service) :=
  let* content := trigger (ReadToString path) in
  Ret match content with
      | Ok content => parse_service_text path content
      | Err _ => Err ("Failed to read " +:+ path)
      end.

(** The loop over the directory: an unreadable entry ends it with an error, a bad
    file is recorded. *)
Fixpoint parse_entries (entries : list (result string string))
    : prog Os (result string ServiceParseReport) :=
  match entries with
  | [] => Ret (Ok {| pr_services := []; pr_errors := [] |})
  | Err e :: _ => Ret (Err e)
  | Ok path :: entries =>
      if is_toml_file path then
        let* r := parse_service_file path in
        try* report := parse_entries entries in
        Ret (Ok match r with
                | Ok service => {| pr_services := service :: pr_services report;
                                   pr_errors := pr_errors report |}
                | Err e => {| pr_services := pr_services report;
                              pr_errors := {| pe_path := path; pe_error := e |}
                                           :: pr_errors report |}
                end)
      else parse_entries entries
  end.

Fixpoint filter_enabled (enabled_dir : string) (services : list Service)
    : prog Os (list Service) :=
  match services with
  | [] => Ret []
  | svc :: services =>
      let* enabled :=
        if bool_decide (svc_name svc ∈ BOOTSTRAP_SERVICES) then Ret true
        else trigger (PathExists (path_join enabled_dir (svc_name svc))) in
      let* rest := filter_enabled enabled_dir services in
      Ret (if enabled : bool then svc :: rest else rest)
  end.

(** Fail-open without the directory. *)
Definition apply_enabled_filter (services : list Service) (enabled_dir : string)
    : prog Os (list Service) :=
  let* present := trigger (PathExists enabled_dir) in
  if negb present then Ret services else filter_enabled enabled_dir services.

Definition parse_services_inner (dir : string) (enabled_dir : option string)
    : prog Os (result string ServiceParseReport) :=
  let* entries := trigger (ReadDir dir) in
  match entries with
  | Err _ => Ret (Err ("Failed to read services directory: " +:+ dir))
  | Ok entries =>
      try* report := parse_entries entries in
      match enabled_dir with
      | Some enabled_dir =>
          let* services := apply_enabled_filter (pr_services report) enabled_dir in
          Ret (Ok {| pr_services := services; pr_errors := pr_errors report |})
      | None => Ret (Ok report)
      end
  end.

Definition parse_services (dir : string) := parse_services_inner dir None.

Definition parse_services_with_enabled_filter (dir enabled_dir : string) :=
  parse_services_inner dir (Some enabled_dir).

(** ** What validation accepts *)

Definition valid_rlimit (lim : option (Z * Z)) : Prop :=
  match lim with Some (soft, hard) => hard = 0 ∨ soft ≤ hard | None => True end.

Definition valid_service (s : Service) : Prop :=
  svc_name s ≠ "" ∧ str_forall valid_name_char (svc_name s) = true ∧
  trim (svc_command s) ≠ "" ∧
  (svc_notify_type s = BgProcess → svc_pid_file s ≠ None) ∧
  svc_chain_to s ≠ Some (svc_name s) ∧
  (∀ rl, svc_rlimit s = Some rl → Forall (λ p, valid_rlimit (snd p)) (rlimit_pairs rl)) ∧
  Forall (λ spec, starts_with "unix:" spec = true ∨ starts_with "tcp:" spec = true)
    (svc_socket_listen s).

Lemma check_rlimits_spec name pairs :
  check_rlimits name pairs = Ok tt ↔ Forall (λ p, valid_rlimit (snd p)) pairs.
Proof.
  induction pairs as [|[n [[soft hard]|]] pairs IH]; simpl; rewrite ?Forall_cons; simpl.
  - done.
  - destruct (Z.eqb_spec hard 0), (Z.ltb_spec hard soft); simpl; rewrite ?IH; try naive_solver lia.
  - rewrite IH. naive_solver.
Qed.

Lemma check_sockets_spec specs :
  check_sockets specs = Ok tt ↔
  Forall (λ spec, starts_with "unix:" spec = true ∨ starts_with "tcp:" spec = true) specs.
Proof.
  induction specs as [|spec specs IH]; simpl; [by rewrite Forall_nil|].
  rewrite Forall_cons. destruct (starts_with "unix:" spec), (starts_with "tcp:" spec); simpl;
    rewrite ?IH; naive_solver.
Qed.

Lemma is_empty_spec s : is_empty s = true ↔ s = "".
Proof. by destruct s. Qed.

Lemma valid_name_trim s : str_forall valid_name_char s = true → trim s = s.
Proof.
  intros H. apply trim_by_none. eapply str_forall_impl; [|done].
  intros [[] [] [] [] [] [] [] []]; done.
Qed.

Lemma validate_service_Ok s : validate_service s = Ok tt ↔ valid_service s.
Proof.
  unfold validate_service, valid_service.
  destruct (str_forall valid_name_char (svc_name s)) eqn:Hchars.
  2:{ destruct (is_empty _); simpl; naive_solver. }
  rewrite valid_name_trim by done. cbn [negb].
  destruct (is_empty (svc_name s)) eqn:Hn; [apply is_empty_spec in Hn; naive_solver|].
  destruct (is_empty (trim (svc_command s))) eqn:Hc; [apply is_empty_spec in Hc; naive_solver|].
  assert (svc_name s ≠ "") by (by intros E; rewrite E in Hn).
  assert (trim (svc_command s) ≠ "") by (by intros E; rewrite E in Hc).
  destruct (bool_decide (svc_notify_type s = BgProcess) && _) eqn:Hb.
  { apply andb_true_iff in Hb as [?%bool_decide_eq_true ?].
    destruct (svc_pid_file s); naive_solver. }
  assert (svc_notify_type s = BgProcess → svc_pid_file s ≠ None).
  { intros Ht. rewrite bool_decide_eq_true_2 in Hb by done. by destruct (svc_pid_file s). }
  destruct (match svc_chain_to s with Some _ => _ | None => _ end) eqn:Hch.
  { destruct (svc_chain_to s); [|done]. apply String.eqb_eq in Hch as ->. naive_solver. }
  assert (svc_chain_to s ≠ Some (svc_name s)).
  { intros E. rewrite E, String.eqb_refl in Hch. done. }
  rewrite result_bind_Ok. setoid_rewrite check_sockets_spec.
  destruct (svc_rlimit s) as [rl|]; [|naive_solver].
  split.
  - intros ([] & Hr%check_rlimits_spec & Hs). naive_solver.
  - intros (_ & _ & _ & _ & _ & Hr & Hs). exists tt. split; [|done].
    apply check_rlimits_spec. by apply Hr.
Qed.

(** The checks on a service definition accept exactly the valid ones: a non-empty
    name of harmless characters, a command, a pid file for a background process, no
    chain to itself, limits whose soft value does not exceed a finite hard one, and
    sockets of the two kinds that activation can open. *)
Theorem validate_service_spec s : validate_service s = Ok tt ↔ valid_service s.
Proof. apply validate_service_Ok. Qed.

(** ** What is loaded *)

Definition load (f : FsView) (path : string) : result string Service :=
  match fs_read f path with
  | Ok content => parse_service_text path content
  | Err _ => Err ("Failed to read " +:+ path)
  end.

Definition accepted (f : FsView) (path : string) : option Service :=
  match load f path with Ok s => Some s | Err _ => None end.

Definition rejected (f : FsView) (path : string) : option ServiceParseError :=
  match load f path with
  | Ok _ => None
  | Err e => Some {| pe_path := path; pe_error := e |}
  end.

(** Whether a service passes the filter of the markers in [dir]. *)
Definition enabled (f : FsView) (dir : string) (s : Service) : bool :=
  negb (fs_exists f dir) || bool_decide (svc_name s ∈ BOOTSTRAP_SERVICES)
  || fs_exists f (path_join dir (svc_name s)).

Lemma parse_entries_spec f paths w :
  wp (fs_step f) (parse_entries (Ok <$> paths)) w (λ _ r,
    let files := filter (λ p, is_toml_file p = true) paths in
    r = Ok {| pr_services := omap (accepted f) files; pr_errors := omap (rejected f) files |}).
Proof.
  revert w. induction paths as [|p paths IH]; intros w; simpl; [done|].
  rewrite filter_cons. destruct (is_toml_file p) eqn:Ht.
  - rewrite decide_True by done. intros c w1 ->. simpl. apply wp_try.
    eapply wp_mono; [|apply IH]. simpl. intros w2 r ->. simpl.
    unfold accepted, rejected, load.
    destruct (match fs_read f p with Ok _ => _ | Err _ => _ end) eqn:E; simpl; by rewrite ?E.
  - rewrite decide_False by done. apply IH.
Qed.

Lemma filter_enabled_spec f dir services w :
  fs_exists f dir = true →
  wp (fs_step f) (filter_enabled dir services) w (λ _ r,
    r = filter (λ s, enabled f dir s = true) services).
Proof.
  intros Hd. revert w. induction services as [|s services IH]; intros w; simpl; [done|].
  eapply (wp_bind_2 _ _ _ _ _ (λ _ b, b = enabled f dir s)).
  - unfold enabled. rewrite Hd. simpl. case_bool_decide; simpl; [done|]. by intros x w1 ->.
  - intros w1 b ->. eapply wp_bind_2; [apply IH|]. intros w2 l ->. simpl.
    rewrite filter_cons. by destruct (enabled f dir s).
Qed.

Lemma filter_all (P : Service → Prop) `{∀ s, Decision (P s)} (l : list Service) :
  (∀ s, s ∈ l → P s) → filter P l = l.
Proof.
  induction l as [|s l IH]; intros Hl; [done|]. rewrite filter_cons, decide_True.
  - f_equal. apply IH. intros t Ht. apply Hl. by right.
  - apply Hl. left.
Qed.

Lemma accepted_or_rejected f path :
  (∃ s, accepted f path = Some s ∧ rejected f path = None) ∨
  (accepted f path = None ∧ ∃ e, rejected f path = Some e).
Proof. unfold accepted, rejected. destruct (load f path); eauto. Qed.

Lemma accepted_valid f path s : accepted f path = Some s → valid_service s.
Proof.
  unfold accepted, load, parse_service_text. destruct (fs_read f path); [|done].
  destruct (toml_from_str _); simpl; [|done].
  destruct (validate_service a0) as [[]|] eqn:E; simpl; [|done].
  intros [= <-]. by apply validate_service_Ok.
Qed.

(** What booting loads: of the files of the services directory exactly those with
    the extension [toml] are read, in order; each gives a service or a recorded
    error, never both and never neither; every loaded service is valid; and of these
    the ones that start at boot are those with a marker, the three bootstrap
    services, or all of them when there is no marker directory. *)
Theorem parse_services_filtered f dir dir_enabled paths :
  fs_dir f dir = Ok (Ok <$> paths) →
  wp (fs_step f) (parse_services_with_enabled_filter dir dir_enabled) tt (λ _ r,
    let files := filter (λ p, is_toml_file p = true) paths in
    ∃ report, r = Ok report ∧
      pr_services report
      = filter (λ s, enabled f dir_enabled s = true) (omap (accepted f) files) ∧
      pr_errors report = omap (rejected f) files ∧
      (length (omap (accepted f) files) + length (pr_errors report) = length files)%nat ∧
      Forall valid_service (pr_services report)).
Proof.
  intros Hdir. unfold parse_services_with_enabled_filter, parse_services_inner.
  apply wp_op. simpl. intros entries w1 ->. rewrite Hdir.
  apply wp_try. eapply wp_mono; [|apply parse_entries_spec]. simpl. intros w2 r ->.
  set (files := filter _ paths).
  assert (length (omap (accepted f) files) + length (omap (rejected f) files) = length files)%nat
    as Hlen.
  { induction files as [|p files IH]; [done|]. csimpl.
    destruct (accepted_or_rejected f p) as [(s & -> & ->)|(-> & e & ->)]; csimpl; lia. }
  assert (Forall valid_service (omap (accepted f) files)) as Hvalid.
  { apply Forall_forall. intros s (p & _ & Hp)%list_elem_of_omap. by eapply accepted_valid. }
  simpl. unfold apply_enabled_filter. intros present w3 ->.
  destruct (fs_exists f dir_enabled) eqn:He; simpl.
  - eapply wp_bind_2; [by apply filter_enabled_spec|]. simpl. intros w4 l ->.
    eexists. split_and!; [done..|]. simpl. apply Forall_forall. intros s [_ Hs]%list_elem_of_filter. by rewrite Forall_forall in Hvalid; apply Hvalid.
  - eexists. split_and!; [done| |done..]. simpl. symmetry. apply filter_all.
    intros s _. unfold enabled. by rewrite He.
Qed.
End parser.

(** A directory with a good file, a file of another kind and a broken one. *)
Definition sample_toml (text : string) : result string Service :=
  if String.eqb text "web" then Ok (Service_minimal "web" "/bin/web")
  else Err "expected a value".

Definition sample_fs : FsView := {|
  fs_exists := λ p, bool_decide (p = "/enabled" ∨ p = "/enabled/web");
  fs_read := λ p, if String.eqb p "/s/web.toml" then Ok "web" else Ok "?";
  fs_dir := λ _, Ok (Ok <$> ["/s/web.toml"; "/s/README.md"; "/s/bad.toml"]);
|}.

Lemma parse_services_filtered_witness :
  fs_dir sample_fs "/s" = Ok (Ok <$> ["/s/web.toml"; "/s/README.md"; "/s/bad.toml"]) ∧
  wp (fs_step sample_fs)
    (parse_services_with_enabled_filter sample_toml "/s" "/enabled") tt (λ _ r,
    ∃ report, r = Ok report ∧
      pr_services report = [Service_minimal "web" "/bin/web"] ∧
      (1 + length (pr_errors report) = 2)%nat).
Proof.
  split; [reflexivity|].
  eapply wp_mono; [|apply (parse_services_filtered sample_toml sample_fs "/s" "/enabled"
    ["/s/web.toml"; "/s/README.md"; "/s/bad.toml"]); reflexivity].
  intros w r (report & Hr & Hs & He & Hl & _). exists report.
  split_and!; [exact Hr | rewrite Hs; vm_compute; reflexivity | exact Hl].
Defined.
