(* ===== verification/Helpers.v ===== *)
(** * Helpers of the supervisor

    The free functions of [quantra/src/services/supervisor.rs]: signal names, user
    and group lookup, environment files, and the loops that wait for a process, a
    path or a command. *)

From Stdlib Require Import ZArith Ascii.
From stdpp Require Import base tactics numbers list strings gmap.
From S2P Require Import Prelude RustStr Types Effects Os.

Local Open Scope string_scope.
Local Open Scope list_scope.
Local Open Scope Z_scope.
Local Open Scope quantra_scope.
Local Open Scope prog_scope.

(** ** Signals *)

Definition parse_signal_name (name : string) : option Signal :=
  match to_ascii_uppercase (trim_start_matches "SIG" name) with
  | "HUP" => Some SIGHUP
  | "INT" => Some SIGINT
  | "QUIT" => Some SIGQUIT
  | "TERM" => Some SIGTERM
  | "KILL" => Some SIGKILL
  | "USR1" => Some SIGUSR1
  | "USR2" => Some SIGUSR2
  | "CONT" => Some SIGCONT
  | "STOP" => Some SIGSTOP
  | "ALRM" => Some SIGALRM
  | "PIPE" => Some SIGPIPE
  | "CHLD" => Some SIGCHLD
  | _ => None
  end.

(** ** Users and groups *)

Definition PASSWD : string := "/overlayer/syshub/etc/passwd".
Definition GROUP : string := "/overlayer/syshub/etc/group".

(** The third field of the first line whose first field is [name]; [n] is the number
    of fields that the line is split into. *)
Fixpoint find_id (n : nat) (kind name : string) (l : list string) : option (result string Z) :=
  match l with
  | [] => None
  | line :: l =>
      match splitn n ":" line with
      | f0 :: f1 :: f2 :: _ =>
          if String.eqb f0 name then
            Some (ok_or ("Bad " +:+ kind +:+ "'" +:+ name +:+ "'") (parse_uint u32_max f2))
          else find_id n kind name l
      | _ => find_id n kind name l
      end
  end.

Definition lookup_uid (user : string) : prog Os (result string Z) :=
  match parse_uint u32_max user with
  | Some n => Ret (Ok n)
  | None =>
      let* passwd := trigger (ReadToString PASSWD) in
      Ret match passwd with
          | Err e => Err ("Cannot read " +:+ PASSWD +:+ " (user '" +:+ user +:+ "'): " +:+ e)
          | Ok passwd =>
              match find_id 7 "UID for user " user (lines passwd) with
              | Some r => r
              | None => Err ("User '" +:+ user +:+ "' not found in " +:+ PASSWD)
              end
          end
  end.

Definition lookup_gid (group : string) : prog Os (result string Z) :=
  match parse_uint u32_max group with
  | Some n => Ret (Ok n)
  | None =>
      let* gfile := trigger (ReadToString GROUP) in
      Ret match gfile with
          | Err e => Err ("Cannot read " +:+ GROUP +:+ " (group '" +:+ group +:+ "'): " +:+ e)
          | Ok gfile =>
              match find_id 4 "GID for group " group (lines gfile) with
              | Some r => r
              | None => Err ("Group '" +:+ group +:+ "' not found in " +:+ GROUP)
              end
          end
  end.

(** [opt.map(f).transpose()?]. *)
Definition transpose {A B} (f : A → prog Os (result string B)) (o : option A)
    : prog Os (result string (option B)) :=
  match o with
  | Some a => try* b := f a in Ret (Ok (Some b))
  | None => Ret (Ok None)
  end.

Definition resolve_credentials (svc : Service)
    : prog Os (result string (option Z * option Z)) :=
  try* uid := transpose lookup_uid (svc_user svc) in
  try* gid := transpose lookup_gid (svc_group svc) in
  Ret (Ok (uid, gid)).

(** ** Environment files *)

(** What one line sets. *)
Definition env_line (line : string) : option (string * string) :=
  let line := trim line in
  if is_empty line || starts_with "#" line then None
  else
    let line := trim (default line (strip_prefix "export " line)) in
    match split_once "=" line with
    | Some (key, value) =>
        let key := trim key in
        let value := trim_by (λ c, Ascii.eqb c (ascii_of_nat 34)) (trim value) in
        if is_empty key then None else Some (key, value)
    | None => None
    end.

Definition env_content (content : string) : gmap string string :=
  fold_left (λ m line, match env_line line with Some (k, v) => <[k := v]> m | None => m end)
    (lines content) ∅.

Definition load_env_file (path : string) : prog Os (result string (gmap string string)) :=
  let* content := trigger (ReadToString path) in
  Ret match content with
      | Ok content => Ok (env_content content)
      | Err e => Err ("Cannot read env_file '" +:+ path +:+ "': " +:+ e)
      end.

(** ** Processes and paths *)

Definition proc_exists (pid : Z) : prog Os bool :=
  trigger (PathExists ("/proc/" +:+ show_uint pid)).

(** [None] is out of fuel: the process may live for ever. *)
Definition wait_for_exit (fuel : nat) (pid : Z) : prog Os (option Z) :=
  loop fuel (λ _,
    let* code := trigger (GetExitCode (wrap_i32 pid)) in
    match code with
    | Some code => Ret (inr code)
    | None =>
        let* alive := proc_exists pid in
        if negb alive then
          trigger (Sleep (from_millis 50));*
          let* code := trigger (GetExitCode (wrap_i32 pid)) in
          Ret (inr (default 0 code))
        else trigger (Sleep (from_millis 200));* Ret (inl tt)
    end) tt.

Definition wait_for_path (fuel : nat) (path : string) (timeout : Z) : prog Os (option bool) :=
  let* now := trigger Now in
  let deadline := now + timeout in
  loop fuel (λ _,
    let* present := trigger (PathExists path) in
    if present : bool then Ret (inr true)
    else
      let* now := trigger Now in
      if deadline <=? now then Ret (inr false)
      else trigger (Sleep (from_millis 100));* Ret (inl tt)) tt.

(** [Path::parent] of a path with a file name. *)
Definition parent (path : string) : option string :=
  match rev (split "/" path) with
  | _ :: [] => Some ""
  | _ :: [""] => Some "/"
  | _ :: rest => Some (join "/" (rev rest))
  | [] => None
  end.

Definition create_socket_alias (alias_path target_path : string)
    : prog Os (result string unit) :=
  let* present := trigger (PathExists alias_path) in
  if present : bool then Ret (Ok tt)
  else
    try* _ :=
      match parent alias_path with
      | Some dir =>
          let* r := trigger (CreateDirAll dir) in
          Ret (map_err (λ e, "Cannot create alias parent '" +:+ dir +:+ "': " +:+ e) r)
      | None => Ret (Ok tt)
      end in
    let* r := trigger (Symlink target_path alias_path) in
    Ret (map_err (λ e, "Cannot symlink '" +:+ alias_path +:+ "' -> '" +:+ target_path
                       +:+ "': " +:+ e) r).

Definition wait_for_pid_file (fuel : nat) (pid_file_path : string) (timeout : Z)
    : prog Os (option (result string Z)) :=
  let* now := trigger Now in
  let deadline := now + timeout in
  loop fuel (λ _,
    let* now := trigger Now in
    if deadline <=? now then
      Ret (inr (Err ("Timed out waiting for PID file '" +:+ pid_file_path +:+ "' to appear ("
                     +:+ show_uint (timeout / 1000000000) +:+ "s)")))
    else
      let* content := trigger (ReadToString pid_file_path) in
      let* found :=
        match content with
        | Ok content =>
            match parse_uint u32_max (trim content) with
            | Some pid =>
                if 0 <? pid then
                  let* alive := proc_exists pid in
                  Ret (if alive : bool then Some pid else None)
                else Ret None
            | None => Ret None
            end
        | Err _ => Ret None
        end in
      match found with
      | Some pid => Ret (inr (Ok pid))
      | None => trigger (Sleep (from_millis 100));* Ret (inl tt)
      end) tt.

Definition run_with_timeout (fuel : nat) (cmd : string) (args : list string) (timeout : Z)
    : prog Os (option (result string bool)) :=
  let* child := trigger (Spawn cmd args) in
  match child with
  | Err e => Ret (Some (Err ("spawn failed: " +:+ e)))
  | Ok child =>
      let* now := trigger Now in
      let deadline := now + timeout in
      loop fuel (λ _,
        let* st := trigger (TryWait child) in
        match st with
        | Ok (Some code) => Ret (inr (Ok (bool_decide (code = Some 0))))
        | Ok None =>
            let* now := trigger Now in
            if deadline <=? now then trigger (KillChild child);* Ret (inr (Ok false))
            else trigger (Sleep (from_millis 100));* Ret (inl tt)
        | Err e => Ret (inr (Err ("wait error: " +:+ e)))
        end) tt
  end.

Definition run_healthcheck_once (fuel : nat) (hc : HealthCheck) : prog Os (option bool) :=
  fuel* r := run_with_timeout fuel (hc_command hc) (hc_args hc) (from_secs (hc_timeout_sec hc)) in
  Ret (Some match r with Ok success => success | Err _ => false end).

(** ** The watching threads *)

(** [None]: still watching when the fuel ran out. *)
Definition watchdog_thread (fuel : nat) (interval_sec : Z) : prog Os (option unit) :=
  let check_interval := from_secs (Z.max interval_sec 1 / 2 + 1) in
  loop fuel (λ _,
    trigger (Sleep check_interval);*
    let* stop := trigger LoadStop in
    if stop : bool then Ret (inr tt)
    else
      let* running := trigger LoadRunning in
      if negb running then Ret (inr tt)
      else
        let* raw_pid := trigger LoadPid in
        if raw_pid <=? 0 then Ret (inr tt)
        else
          let* alive := proc_exists raw_pid in
          if negb alive then trigger (StoreRunning false);* Ret (inr tt)
          else Ret (inl tt)) tt.

(** One turn of the health check loop, on the number of consecutive failures. *)
Definition healthcheck_turn (fuel : nat) (hc : HealthCheck) (consecutive_failures : Z)
    : prog Os (option (Z + unit)) :=
  let* stop := trigger LoadStop in
  if stop : bool then Ret (Some (inr tt))
  else
    let* running := trigger LoadRunning in
    if negb running then Ret (Some (inr tt))
    else
      let* raw_pid := trigger LoadPid in
      let* gone :=
        if raw_pid <=? 0 then Ret true
        else let* alive := proc_exists raw_pid in Ret (negb alive) in
      if gone : bool then Ret (Some (inr tt))
      else
        fuel* healthy := run_healthcheck_once fuel hc in
        if healthy : bool then
          trigger (Sleep (from_secs (hc_interval_sec hc)));* Ret (Some (inl 0))
        else
          let consecutive_failures := consecutive_failures + 1 in
          if hc_failure_threshold hc <=? consecutive_failures then
            trigger (StoreRunning false);* Ret (Some (inr tt))
          else
            trigger (Sleep (from_secs (hc_interval_sec hc)));*
            Ret (Some (inl consecutive_failures)).

Fixpoint healthcheck_loop (turns fuel : nat) (hc : HealthCheck) (failures : Z)
    : prog Os (option unit) :=
  match turns with
  | O => Ret None
  | S turns =>
      fuel* r := healthcheck_turn fuel hc failures in
      match r with
      | inl failures => healthcheck_loop turns fuel hc failures
      | inr _ => Ret (Some tt)
      end
  end.

Definition healthcheck_thread (turns fuel : nat) (hc : HealthCheck) : prog Os (option unit) :=
  trigger (Sleep (from_secs (hc_interval_sec hc)));*
  healthcheck_loop turns fuel hc 0.

(** ** The bounded waits *)

(** A loop whose every further turn is before the deadline and sleeps for 100 ms. *)
Lemma wp_deadline_loop {B} (body : unit → prog Os (unit + B)) deadline n fuel t (Q : Z → B → Prop) :
  (∀ t, wp clock_step (body tt) t (λ t' r,
     match r with inl _ => t < deadline ∧ t + from_millis 100 ≤ t' | inr b => Q t' b end)) →
  deadline - t ≤ Z.of_nat n * from_millis 100 → (n < fuel)%nat →
  wp clock_step (loop fuel body tt) t (λ t' r, ∃ b, r = Some b ∧ Q t' b).
Proof.
  intros Hb Ht Hf.
  apply (wp_loop _ _ (λ _ t n, deadline - t ≤ Z.of_nat n * from_millis 100) _ _ _ _ n); [|done..].
  intros [] t' n' Hn. eapply wp_mono; [|apply Hb]. intros t2 [[]|b]; simpl; [|done].
  intros [Hlt Hs]. exists (Nat.pred n'). unfold from_millis in *. lia.
Qed.

Lemma wait_for_path_spec fuel path timeout n t :
  timeout ≤ Z.of_nat n * from_millis 100 → (n < fuel)%nat →
  wp clock_step (wait_for_path fuel path timeout) t (λ t' r,
    ∃ b, r = Some b ∧ (b = false → t + timeout ≤ t')).
Proof.
  intros Hn Hf. unfold wait_for_path. apply wp_op. intros now t1 [Hnow ->].
  eapply wp_mono; [|apply (wp_deadline_loop _ (t1 + timeout) n _ _ (λ t' b, b = false → t1 + timeout ≤ t'))];
    [| |lia|done].
  - simpl. intros t' r (b & -> & Hb). exists b. split; [done|]. intros ->. specialize (Hb eq_refl). lia.
  - intros t2. apply wp_op. intros [] t3 Ht3; simpl in Ht3; [done|]. apply wp_op.
    intros now t4 [Hn4 ->]. destruct (Z.leb_spec (t1 + timeout) t4); [by intros ?|].
    intros ? t5 [? ?]. simpl. lia.
Qed.

Lemma wait_for_pid_file_spec fuel path timeout n t :
  timeout ≤ Z.of_nat n * from_millis 100 → (n < fuel)%nat →
  wp clock_step (wait_for_pid_file fuel path timeout) t (λ t' r,
    ∃ b, r = Some b ∧ match b with Ok pid => 0 < pid | Err _ => t + timeout ≤ t' end).
Proof.
  intros Hn Hf. unfold wait_for_pid_file. apply wp_op. intros now t1 [Hnow ->].
  eapply wp_mono; [|apply (wp_deadline_loop _ (t1 + timeout) n _ _
    (λ t' b, match b with Ok pid => 0 < pid | Err _ => t1 + timeout ≤ t' end))]; [| |lia|done].
  - simpl. intros t' r (b & -> & Hb). exists b. split; [done|]. destruct b; [done|lia].
  - intros t2. apply wp_op. intros now t3 [Hn3 ->].
    destruct (Z.leb_spec (t1 + timeout) t3); [done|].
    apply wp_op. intros content t4 Ht4. simpl in Ht4.
    eapply (wp_bind_2 _ _ _ _ _ (λ t5 found, t2 ≤ t5 ∧
      match found with Some pid => 0 < pid | None => True end)).
    + destruct content as [content|]; [|simpl; lia].
      destruct (parse_uint _ _) as [pid|]; [|simpl; lia].
      destruct (Z.ltb_spec 0 pid); [|simpl; lia].
      intros alive t5 Ht5. simpl in *. destruct alive; lia.
    + intros t5 [pid|] [Ht5 Hp]; [done|]. intros ? t6 [? ?]. simpl. lia.
Qed.

Lemma run_with_timeout_spec fuel cmd args timeout n t :
  timeout ≤ Z.of_nat n * from_millis 100 → (n < fuel)%nat →
  wp clock_step (run_with_timeout fuel cmd args timeout) t (λ _ r, ∃ b, r = Some b).
Proof.
  intros Hn Hf. unfold run_with_timeout. apply wp_op. intros child t0 Ht0.
  destruct child as [child|]; [|by eexists]. apply wp_op. intros now t1 [Hnow ->].
  eapply wp_mono; [|apply (wp_deadline_loop _ (t1 + timeout) n _ _ (λ _ _, True))]; [| |lia|done].
  - simpl. intros t' r (b & -> & _). by eexists.
  - intros t2. apply wp_op. intros st t3 Ht3. simpl in Ht3.
    destruct st as [[code|]|]; [done| |done]. apply wp_op.
    intros now t4 [Hn4 ->]. destruct (Z.leb_spec (t1 + timeout) t4); [done|].
    intros ? t5 [? ?]. simpl. lia.
Qed.

(** The waits of the supervisor end: with a clock that does not go back and
    sleeps that last, waiting for a path, for a pid file and for a command return
    after at most one turn per 100 ms of the timeout and one more; the first two
    give up only when the timeout has passed, and a pid that is found is positive. *)
Theorem waits_are_bounded fuel timeout n t :
  timeout ≤ Z.of_nat n * from_millis 100 → (n < fuel)%nat →
  (∀ path, wp clock_step (wait_for_path fuel path timeout) t (λ t' r,
     ∃ b, r = Some b ∧ (b = false → t + timeout ≤ t'))) ∧
  (∀ path, wp clock_step (wait_for_pid_file fuel path timeout) t (λ t' r,
     ∃ b, r = Some b ∧ match b with Ok pid => 0 < pid | Err _ => t + timeout ≤ t' end)) ∧
  (∀ cmd args, wp clock_step (run_with_timeout fuel cmd args timeout) t (λ _ r,
     ∃ b, r = Some b)).
Proof.
  intros Hn Hf. split_and!; intros;
    [by eapply wait_for_path_spec | by eapply wait_for_pid_file_spec
    | by eapply run_with_timeout_spec].
Qed.

Lemma waits_are_bounded_witness :
  wp clock_step (wait_for_path 902 "/run/quantra-system/quantra-netd.sock" (from_secs 90)) 0
    (λ t' r, ∃ b, r = Some b ∧ (b = false → 0 + from_secs 90 ≤ t')).
Proof.
  apply (waits_are_bounded 902 (from_secs 90) 900 0); [unfold from_secs, from_millis; lia|lia].
Defined.


(** ** Databases and environment files, printed and read back *)

(** A line of a colon-separated database: name, password, number, the rest. *)
Definition db_line (rest : string) (entry : string * Z) : string :=
  entry.1 +:+ String ":" ("x" +:+ String ":" (show_uint entry.2 +:+ String ":" rest)).

(** The number of the first entry with the name. *)
Definition db_find (name : string) (entries : list (string * Z)) : option Z :=
  snd <$> head (filter (λ e, e.1 = name) entries).

Definition db_char (c : ascii) : bool := line_char c && negb (Ascii.eqb c ":").

Lemma digit_line_char c : is_ascii_digit c = true → db_char c = true.
Proof. destruct c as [[] [] [] [] [] [] [] []]; done. Qed.

Lemma db_char_colon s :
  str_forall db_char s = true → str_forall (λ c, negb (Ascii.eqb c ":")) s = true.
Proof. apply str_forall_impl. unfold db_char. by intros c [_ ?]%andb_true_iff. Qed.

Lemma db_char_line s : str_forall db_char s = true → str_forall line_char s = true.
Proof. apply str_forall_impl. unfold db_char. by intros c [? _]%andb_true_iff. Qed.

Lemma show_uint_db z : str_forall db_char (show_uint z) = true.
Proof. eapply str_forall_impl; [|apply show_uint_digits]. apply digit_line_char. Qed.

Lemma splitn_db_line n rest e :
  (4 ≤ n)%nat → str_forall db_char e.1 = true →
  ∃ tail, splitn n ":" (db_line rest e) = e.1 :: "x" :: show_uint e.2 :: tail.
Proof.
  intros Hn He. destruct n as [|[|[|[|n]]]]; try lia. unfold db_line. cbn [splitn].
  rewrite split_once_first by (by apply db_char_colon).
  rewrite split_once_first by done.
  rewrite split_once_first by (apply db_char_colon, show_uint_db). by eexists.
Qed.

Lemma find_id_db n kind name rest entries :
  (4 ≤ n)%nat →
  Forall (λ e, str_forall db_char e.1 = true ∧ 0 ≤ e.2 ≤ u32_max) entries →
  find_id n kind name (db_line rest <$> entries) = Ok <$> db_find name entries.
Proof.
  intros Hn. unfold db_find. induction 1 as [|e entries [He Hu] _ IH]; [done|].
  rewrite fmap_cons. destruct (splitn_db_line n rest e Hn He) as [tail Ht].
  cbn [find_id]. rewrite Ht, IH, filter_cons.
  destruct (String.eqb_spec e.1 name) as [Heq|Hne].
  - rewrite decide_True by done. simpl. by rewrite parse_uint_show.
  - by rewrite decide_False by done.
Qed.

Lemma db_lines rest entries :
  str_forall line_char rest = true → Forall (λ e, str_forall db_char e.1 = true) entries →
  lines (unlines (db_line rest <$> entries)) = db_line rest <$> entries.
Proof.
  intros Hr He. apply lines_unlines. rewrite Forall_fmap. eapply Forall_impl; [done|].
  intros e He1. unfold db_line. cbn [compose].
  repeat (rewrite str_forall_app || (simpl str_forall; rewrite ?andb_true_iff)).
  rewrite (db_char_line _ He1), (db_char_line _ (show_uint_db _)), Hr. done.
Qed.

(** The identity of a service is what the system's databases say: a user or group
    given by number is that number, whatever the databases hold; one given by name
    is looked up in the password or group file, where the first entry of that name
    counts, and an unknown name is an error. *)
Theorem resolve_credentials_spec f svc users groups user group urest grest :
  fs_read f PASSWD = Ok (unlines (db_line urest <$> users)) →
  fs_read f GROUP = Ok (unlines (db_line grest <$> groups)) →
  str_forall line_char urest = true → str_forall line_char grest = true →
  Forall (λ e, str_forall db_char e.1 = true ∧ 0 ≤ e.2 ≤ u32_max) (users ++ groups) →
  svc_user svc = Some user → svc_group svc = Some group →
  let id entries name := match parse_uint u32_max name with
    | Some n => Some n | None => db_find name entries end in
  wp (fs_step f) (resolve_credentials svc) tt (λ _ r,
    match id users user, id groups group with
    | Some uid, Some gid => r = Ok (Some uid, Some gid)
    | _, _ => is_ok r = false
    end).
Proof.
  intros Hp Hg Hur Hgr [Hu1 Hg1]%Forall_app Hu Hgrp id.
  assert (∀ l : list (string * Z),
    Forall (λ e, str_forall db_char e.1 = true ∧ 0 ≤ e.2 ≤ u32_max) l →
    Forall (λ e, str_forall db_char e.1 = true) l) as Hdb
    by (intros l Hl; eapply Forall_impl; [exact Hl|]; naive_solver).
  assert (wp (fs_step f) (lookup_uid user) tt (λ _ r,
    match id users user with Some n => r = Ok n | None => is_ok r = false end)) as HU.
  { unfold lookup_uid, id. destruct (parse_uint u32_max user); [done|].
    apply wp_op. simpl. intros x w ->. rewrite Hp, db_lines by auto.
    rewrite find_id_db by (done || lia). by destruct (db_find user users). }
  assert (wp (fs_step f) (lookup_gid group) tt (λ _ r,
    match id groups group with Some n => r = Ok n | None => is_ok r = false end)) as HG.
  { unfold lookup_gid, id. destruct (parse_uint u32_max group); [done|].
    apply wp_op. simpl. intros x w ->. rewrite Hg, db_lines by auto.
    rewrite find_id_db by (done || lia). by destruct (db_find group groups). }
  unfold resolve_credentials, transpose. rewrite Hu, Hgrp.
  apply wp_try, wp_try. eapply wp_mono; [|exact HU]. intros [] ru Hru.
  destruct (id users user) as [uid|].
  - subst ru. simpl. apply wp_try, wp_try. eapply wp_mono; [|exact HG]. intros [] rg Hrg.
    destruct (id groups group) as [gid|]; [by subst|]. by destruct rg.
  - by destruct ru.
Qed.

Definition sample_db : FsView := {|
  fs_exists := λ _, true;
  fs_read := λ p,
    if String.eqb p PASSWD
    then Ok (unlines (db_line "0:root:/root:/bin/sh" <$> [("root", 0); ("www", 33)]))
    else Ok (unlines (db_line "" <$> [("root", 0); ("web", 44)]));
  fs_dir := λ _, Ok [];
|}.

Lemma resolve_credentials_spec_witness :
  let svc := (Service_minimal "web" "/bin/web") <|svc_user := Some "www"|> <|svc_group := Some "44"|> in
  wp (fs_step sample_db) (resolve_credentials svc) tt (λ _ r, r = Ok (Some 33, Some 44)).
Proof.
  intros svc.
  eapply wp_mono; [|apply (resolve_credentials_spec sample_db svc [("root", 0); ("www", 33)]
    [("root", 0); ("web", 44)] "www" "44" "0:root:/root:/bin/sh" "")]; try reflexivity.
  - intros [] r Hr. exact Hr.
  - repeat constructor; simpl; try reflexivity; unfold u32_max; lia.
Defined.

(** *** Environment files *)

(** A line of an environment file in the form that shells write. *)
Definition env_text (export : bool) (kv : string * string) : string :=
  (if export then "export " else "") +:+
  kv.1 +:+ String "=" (String (ascii_of_nat 34) (kv.2 +:+ String (ascii_of_nat 34) "")).

Definition env_key_char (c : ascii) : bool := is_alphanumeric c || Ascii.eqb c "_".
Definition env_value_char (c : ascii) : bool :=
  line_char c && negb (Ascii.eqb c (ascii_of_nat 34)).

Definition env_entry_ok (kv : string * string) : Prop :=
  kv.1 ≠ "" ∧ str_forall env_key_char kv.1 = true ∧ str_forall env_value_char kv.2 = true.

Lemma env_key_char_spec c :
  env_key_char c = true →
  is_whitespace c = false ∧ Ascii.eqb c "=" = false ∧ Ascii.eqb c "#" = false ∧
  line_char c = true.
Proof. destruct c as [[] [] [] [] [] [] [] []]; done. Qed.

(** A key is not the word [export] and a blank. *)
Lemma strip_export_key p k r :
  str_exists is_whitespace p = true → str_forall (λ c, negb (Ascii.eqb c "=")) p = true →
  str_forall env_key_char k = true → strip_prefix p (k +:+ String "=" r) = None.
Proof.
  revert k. induction p as [|a p IH]; intros k; [done|].
  intros Hw He Hk. simpl in Hw, He. apply andb_true_iff in He as [Ha He].
  destruct k as [|c k].
  - simpl. apply negb_true_iff in Ha. by rewrite Ha.
  - simpl in Hk. apply andb_true_iff in Hk as [Hc Hk].
    change (String c k +:+ ?r) with (String c (k +:+ r)). rewrite strip_prefix_cons.
    destruct (Ascii.eqb_spec a c) as [->|]; [|done].
    destruct (env_key_char_spec _ Hc) as (Hwc & _). rewrite Hwc in Hw. by apply IH.
Qed.

Lemma env_assignment k v :
  env_entry_ok (k, v) →
  let text := k +:+ String "=" (String (ascii_of_nat 34) (v +:+ String (ascii_of_nat 34) "")) in
  trim text = text ∧ split_once "=" text = Some (k, String (ascii_of_nat 34) (v +:+ String (ascii_of_nat 34) "")) ∧
  is_empty text = false ∧ starts_with "#" text = false ∧ strip_prefix "export " text = None.
Proof.
  intros (Hne & Hk & Hv) text. simpl in Hne, Hk, Hv. split_and!.
  - unfold text. destruct k as [|c k]; [done|]. simpl in Hk. apply andb_true_iff in Hk as [Hc _].
    replace (String c k +:+ String "=" (String (ascii_of_nat 34) (v +:+ String (ascii_of_nat 34) "")))
      with (String c ((k +:+ String "=" (String (ascii_of_nat 34) v)) +:+ String (ascii_of_nat 34) "")).
    + apply trim_by_ends; [|done]. by apply env_key_char_spec.
    + simpl. by rewrite <- string_app_assoc.
  - apply split_once_first. eapply str_forall_impl; [|exact Hk].
    intros c (_ & Hc & _)%env_key_char_spec. by rewrite Hc.
  - unfold text. by destruct k.
  - unfold text. destruct k as [|c k]; [done|]. simpl in Hk. apply andb_true_iff in Hk as [Hc _].
    apply env_key_char_spec in Hc as (_ & _ & Hc & _).
    rewrite Ascii.eqb_sym in Hc. unfold starts_with.
    change (String c k +:+ ?r) with (String c (k +:+ r)). by rewrite strip_prefix_cons, Hc.
  - by apply strip_export_key.
Qed.

Lemma env_line_text export kv : env_entry_ok kv → env_line (env_text export kv) = Some kv.
Proof.
  destruct kv as [k v]. intros Hok. pose proof (env_assignment k v Hok) as Ha.
  destruct Hok as (Hne & Hk & Hv). simpl in Hne, Hk, Hv. cbv zeta in Ha.
  set (text := k +:+ _) in *. destruct Ha as (Ht & Hs & Hemp & Hhash & Hexp).
  assert (trim k = k) as Htk.
  { apply trim_by_none. eapply str_forall_impl; [|exact Hk].
    intros c (Hc & _)%env_key_char_spec. by rewrite Hc. }
  assert (is_empty k = false) as Hke by (by destruct k).
  assert (trim (String (ascii_of_nat 34) (v +:+ String (ascii_of_nat 34) ""))
    = String (ascii_of_nat 34) (v +:+ String (ascii_of_nat 34) "")) as Htv
    by (by apply trim_by_ends).
  assert (trim_by (λ c, Ascii.eqb c (ascii_of_nat 34))
    (String (ascii_of_nat 34) (v +:+ String (ascii_of_nat 34) "")) = v) as Hq.
  { apply trim_by_around; [done|]. eapply str_forall_impl; [|exact Hv].
    unfold env_value_char. by intros c [_ ?]%andb_true_iff. }
  destruct export.
  - change (env_text true (k, v)) with ("export " +:+ text). unfold env_line.
    assert (trim ("export " +:+ text) = "export " +:+ text) as ->.
    { unfold text. change ("export " +:+ ?x) with (String "e" ("xport " +:+ x)).
      replace ("xport " +:+ k +:+ String "=" (String (ascii_of_nat 34) (v +:+ String (ascii_of_nat 34) "")))
        with (("xport " +:+ k +:+ String "=" (String (ascii_of_nat 34) v)) +:+ String (ascii_of_nat 34) "").
      - by apply trim_by_ends.
      - by rewrite <- !string_app_assoc. }
    simpl is_empty. simpl starts_with. cbn [orb].
    rewrite strip_prefix_app. simpl default. by rewrite Ht, Hs, Htk, Htv, Hq, Hke.
  - change (env_text false (k, v)) with text. unfold env_line.
    rewrite Ht, Hemp, Hhash. cbn [orb]. rewrite Hexp. cbn [default].
    by rewrite Ht, Hs, Htk, Htv, Hq, Hke.
Qed.

(** An environment file gives back the assignments written in it: for lines
    [KEY="value"], with or without [export], with values of any characters but quotes
    and line ends (blanks, [=] and [#] included), the loaded map is that of the
    assignments, the last one of a key counting. *)
Theorem load_env_file_spec f path export entries :
  Forall env_entry_ok entries →
  fs_read f path = Ok (unlines (env_text export <$> entries)) →
  wp (fs_step f) (load_env_file path) tt (λ _ r,
    r = Ok (fold_left (λ m kv, <[kv.1 := kv.2]> m) entries ∅)).
Proof.
  intros He Hf. unfold load_env_file. apply wp_op. intros x w ->. rewrite Hf. simpl. f_equal.
  unfold env_content. rewrite lines_unlines.
  - generalize (∅ : gmap string string). clear Hf. induction He as [|[k v] entries Hkv _ IH]; intros m; [done|].
    simpl. rewrite env_line_text by done. apply IH.
  - apply Forall_fmap. eapply Forall_impl; [exact He|]. intros [k v] (_ & Hk & Hv).
    simpl in *. unfold env_text. simpl.
    assert (str_forall line_char k = true) as Hk'.
    { eapply str_forall_impl; [|exact Hk]. by intros c (_ & _ & _ & ?)%env_key_char_spec. }
    assert (str_forall line_char v = true) as Hv'.
    { eapply str_forall_impl; [|exact Hv]. unfold env_value_char. by intros c [? _]%andb_true_iff. }
    rewrite str_forall_app. apply andb_true_iff. split; [by destruct export|].
    rewrite str_forall_app, Hk'. simpl. rewrite str_forall_app, Hv'. done.
Qed.

Lemma load_env_file_spec_witness :
  let f := {| fs_exists := λ _, true;
              fs_read := λ _, Ok (unlines (env_text true <$> [("PORT", "80"); ("OPTS", "-a #x = 1")]));
              fs_dir := λ _, Ok [] |} in
  wp (fs_step f) (load_env_file "/etc/default/web") tt (λ _ r,
    r = Ok (<["OPTS" := "-a #x = 1"]> (<["PORT" := "80"]> ∅))).
Proof.
  intros f.
  apply (load_env_file_spec f "/etc/default/web" true [("PORT", "80"); ("OPTS", "-a #x = 1")]).
  - repeat constructor; simpl; try reflexivity; discriminate.
  - reflexivity.
Defined.

(** ** Health checks *)

(** The failures in a row that the commands themselves show: a command that cannot be
    started or waited for, exits with another status than 0, or is killed for its
    timeout; and the value of this count whenever the service is marked as stopped. *)
Record hcworld := { h_streak : Z; h_marked : list Z }.

Definition failure (w : hcworld) : hcworld :=
  {| h_streak := h_streak w + 1; h_marked := h_marked w |}.
Definition success (w : hcworld) : hcworld :=
  {| h_streak := 0; h_marked := h_marked w |}.

Definition hc_step : ∀ X, Os X → hcworld → X → hcworld → Prop :=
  record_step (λ X e, match e in Os X return X → hcworld → hcworld with
  | Spawn _ _ => λ r w, if is_ok r then w else failure w
  | TryWait _ => λ r w,
      match r with
      | Ok (Some code) => if bool_decide (code = Some 0) then success w else failure w
      | Ok None => w
      | Err _ => failure w
      end
  | KillChild _ => λ _ w, failure w
  | StoreRunning _ => λ _ w,
      {| h_streak := h_streak w; h_marked := h_marked w ++ [h_streak w] |}
  | _ => λ _ w, w
  end).

Lemma run_healthcheck_once_spec fuel hc w :
  wp hc_step (run_healthcheck_once fuel hc) w (λ w' r,
    match r with
    | Some true => w' = success w
    | Some false => w' = failure w
    | None => h_marked w' = h_marked w
    end).
Proof.
  unfold run_healthcheck_once, fuel_bind, run_with_timeout. apply wp_bind, wp_op.
  intros child w1 ->. destruct child as [child|]; [|done]. apply wp_op. intros now w1 ->. simpl.
  set (deadline := now + _).
  induction fuel as [|fuel IH]; cbn [loop]; [done|].
  apply wp_bind, wp_op. intros st w1 ->. destruct st as [[code|]|]; simpl.
  - by case_bool_decide.
  - apply wp_op. intros now' w1 ->. destruct (deadline <=? now').
    + by intros ? w1 ->.
    + intros ? w1 ->. apply IH.
  - done.
Qed.

Lemma healthcheck_loop_spec turns fuel hc w :
  Forall (λ s, Z.max 1 (hc_failure_threshold hc) ≤ s) (h_marked w) → 0 ≤ h_streak w →
  wp hc_step (healthcheck_loop turns fuel hc (h_streak w)) w (λ w' _,
    Forall (λ s, Z.max 1 (hc_failure_threshold hc) ≤ s) (h_marked w')).
Proof.
  revert w. induction turns as [|turns IH]; intros w Hm Hs; cbn [healthcheck_loop]; [done|].
  unfold healthcheck_turn. apply wp_bind, wp_op. intros stop w1 ->. destruct stop; [done|].
  apply wp_op. intros running w1 ->. destruct (negb running); [done|].
  apply wp_op. intros pid w1 ->.
  apply (wp_keeps_bind _ (λ w', w' = w)); [|done|].
  { unfold proc_exists. keeps. }
  intros w1 gone ->. destruct gone; [done|]. apply wp_bind.
  eapply wp_mono; [|apply run_healthcheck_once_spec].
  intros w1 [[]|] Hw1; [| |by rewrite <- Hw1 in Hm].
  - subst w1. apply wp_op. intros ? w2 ->. simpl. apply (IH (success w)); [done|]. simpl. lia.
  - subst w1. destruct (Z.leb_spec (hc_failure_threshold hc) (h_streak w + 1)).
    + intros ? w2 ->. simpl. apply Forall_app. split; [done|]. constructor; [lia|done].
    + apply wp_op. intros ? w2 ->. simpl. apply (IH (failure w)); [done|]. simpl. lia.
Qed.

(** A service is marked unhealthy only after as many failed checks in a row as its
    threshold asks for (and at least one), whatever the commands, the clock and the
    other threads do. *)
Theorem healthcheck_threshold turns fuel hc :
  wp hc_step (healthcheck_thread turns fuel hc) {| h_streak := 0; h_marked := [] |} (λ w _,
    Forall (λ s, Z.max 1 (hc_failure_threshold hc) ≤ s) (h_marked w)).
Proof.
  unfold healthcheck_thread. apply wp_op. intros ? w ->.
  apply (healthcheck_loop_spec turns fuel hc {| h_streak := 0; h_marked := [] |}); [constructor|].
  simpl. lia.
Qed.
