(* ===== verification/Stop.v ===== *)
(** * Stopping and reloading a service

    [ServiceSupervisor::stop] of [quantra/src/services/supervisor.rs]: the escalation
    from the watchdog's SIGABRT over the stop command and SIGTERM to the kill of the
    whole control group, with [kill_cgroup_procs] and [run_exec_stop_post]; and
    [ServiceSupervisor::reload].

    The polling loops are bounded by the sum of the sleeps that the code asks for, so
    they end whatever the clock and the process do; [stop_protocol] says so and what
    has happened by then. *)

From Stdlib Require Import ZArith Ascii.
From stdpp Require Import base tactics numbers list strings gmap.
From S2P Require Import Prelude RustStr Types Effects Launch Os Cgroup Helpers.

Local Open Scope string_scope.
Local Open Scope list_scope.
Local Open Scope Z_scope.
Local Open Scope quantra_scope.
Local Open Scope prog_scope.

Definition SH : string := "/overlayer/syshub/bin/sh".

(** [run_exec_stop_post]: the failures of the commands are ignored. *)
Definition run_exec_stop_post (svc : Service) : prog Os unit :=
  for_each (λ post_cmd, trigger (Status SH ["-c"; post_cmd]);* Ret tt) (svc_exec_stop_post svc).

(** [kill_cgroup_procs]: the path is built from the name as it is. *)
Definition kill_cgroup_procs (svc : Service) (sig : Signal) : prog Os unit :=
  let* data := trigger (ReadToString ("/sys/fs/cgroup/quantra-system/" +:+ svc_name svc
                                      +:+ "/cgroup.procs")) in
  match data with
  | Ok data =>
      for_each (λ line,
        match parse_i32 (trim line) with
        | Some pid => trigger (Kill pid sig);* Ret tt
        | None => Ret tt
        end) (lines data)
  | Err _ => Ret tt
  end.

(** [while elapsed < deadline { sleep(poll); elapsed += poll; if gone { return } }]:
    whether the process went away. *)
Definition poll_exit (fuel : nat) (poll deadline raw_pid : Z) : prog Os (option bool) :=
  loop fuel (λ elapsed,
    if elapsed <? deadline then
      trigger (Sleep poll);*
      let elapsed := elapsed + poll in
      let* alive := proc_exists raw_pid in
      Ret (if negb alive then inr true else inl elapsed)
    else Ret (inr false)) 0.

(** STOP_WATCHDOG. *)
Definition stop_watchdog (fuel : nat) (svc : Service) (raw_pid : Z) : prog Os (option bool) :=
  if 0 <? svc_watchdog_sec svc then
    trigger (Kill raw_pid SIGABRT);*
    let watchdog_wait := from_secs (Z.max (svc_watchdog_sec svc / 2) 1) in
    poll_exit fuel (from_millis 200) watchdog_wait raw_pid
  else Ret (Some false).

(** STOP: the stop command. *)
Definition stop_command (fuel : nat) (svc : Service) (raw_pid : Z) : prog Os (option bool) :=
  match svc_stop_command svc with
  | Some stop_cmd =>
      let timeout := from_secs (Z.max (svc_timeout_stop svc / 2) 5) in
      fuel* r := run_with_timeout fuel stop_cmd (svc_stop_args svc) timeout in
      match r with
      | Ok true =>
          trigger (Sleep (from_millis 500));*
          let* alive := proc_exists raw_pid in
          Ret (Some (negb alive))
      | Ok false | Err _ => Ret (Some false)
      end
  | None => Ret (Some false)
  end.

(** [while k < 12 && proc_exists { sleep(250 ms); k += 1 }]. *)
Fixpoint await_kill (k : nat) (raw_pid : Z) : prog Os unit :=
  match k with
  | O => Ret tt
  | S k =>
      let* alive := proc_exists raw_pid in
      if alive : bool then trigger (Sleep (from_millis 250));* await_kill k raw_pid else Ret tt
  end.

(** STOP_SIGKILL, FINAL_SIGTERM and FINAL_SIGKILL. *)
Definition stop_by_force (svc : Service) (raw_pid : Z) : prog Os unit :=
  kill_service_cgroup (svc_name svc);*
  trigger (Kill raw_pid SIGKILL);*
  await_kill 12 raw_pid;*
  kill_cgroup_procs svc SIGTERM;*
  trigger (Sleep (from_millis 500));*
  kill_cgroup_procs svc SIGKILL;*
  trigger (StoreRunning false);*
  remove_service_cgroup (svc_name svc);*
  run_exec_stop_post svc.

(** The way out of every stage at which the process is gone. *)
Definition stopped (svc : Service) : prog Os (option unit) :=
  trigger (StoreRunning false);*
  run_exec_stop_post svc;*
  Ret (Some tt).

(** [ServiceSupervisor::stop]. *)
Definition stop (fuel : nat) (svc : Service) : prog Os (option unit) :=
  trigger (StoreStop true);*
  let* raw_pid := trigger LoadPid in
  if raw_pid <=? 0 then run_exec_stop_post svc;* Ret (Some tt)
  else
    trigger (RegisterService (svc_name svc) raw_pid false);*
    fuel* gone := stop_watchdog fuel svc raw_pid in
    if gone : bool then stopped svc
    else
      fuel* gone := stop_command fuel svc raw_pid in
      if gone : bool then stopped svc
      else
        let* r := trigger (Kill raw_pid SIGTERM) in
        match r with
        | Err _ => stopped svc
        | Ok _ =>
            fuel* gone := poll_exit fuel (from_millis 250) (from_secs (svc_timeout_stop svc)) raw_pid in
            if gone : bool then stopped svc
            else stop_by_force svc raw_pid;* Ret (Some tt)
        end.

(** [ServiceSupervisor::reload]. *)
Definition reload (svc : Service) : prog Os (result string unit) :=
  let* raw_pid := trigger LoadPid in
  let* down :=
    if raw_pid <=? 0 then Ret true
    else let* running := trigger LoadRunning in Ret (negb running) in
  if down : bool then Ret (Err ("Service '" +:+ svc_name svc +:+ "' is not running"))
  else
    match svc_reload_command svc with
    | Some cmd =>
        match split_whitespace cmd with
        | [] => Ret (Err ("reload_command for '" +:+ svc_name svc +:+ "' is empty"))
        | prog :: args =>
            let* status := trigger (Status prog args) in
            Ret match status with
                | Err e => Err ("reload_command exec failed: " +:+ e)
                | Ok code =>
                    if bool_decide (code = Some 0) then Ok tt
                    else Err ("reload_command for '" +:+ svc_name svc +:+ "' exited with "
                              +:+ show_int (default (-1) code))
                end
        end
    | None =>
        let sig := default SIGHUP (parse_signal_name (svc_reload_signal svc)) in
        let* r := trigger (Kill raw_pid sig) in
        Ret (map_err (λ e, "kill(" +:+ svc_reload_signal svc +:+ ") failed: " +:+ e) r)
    end.

(** ** The world of a stop

    What counts about a stop: the time, the cells of the supervisor, when SIGTERM
    was first sent to the process, when force was used (SIGKILL to anything, or a
    write to the control group), which ExecStopPost commands have run, and whether
    anything was signalled after the first of them. *)
Record StopWorld := {
  s_now : Z;
  s_pid : Z;
  s_stop : bool;
  s_running : bool;
  s_term : option Z;
  s_forced : list Z;
  s_post : list string;
  s_late : bool;
}.

Definition signalled (w : StopWorld) (pid : Z) (sig : Signal) : StopWorld :=
  {| s_now := s_now w; s_pid := s_pid w; s_stop := s_stop w; s_running := s_running w;
     s_term := match s_term w with
               | Some t => Some t
               | None => if bool_decide (sig = SIGTERM ∧ pid = s_pid w) then Some (s_now w) else None
               end;
     s_forced := if bool_decide (sig = SIGKILL) then s_now w :: s_forced w else s_forced w;
     s_post := s_post w;
     s_late := s_late w || negb (bool_decide (s_post w = [])) |}.

Definition set_now (t : Z) (w : StopWorld) : StopWorld :=
  {| s_now := t; s_pid := s_pid w; s_stop := s_stop w; s_running := s_running w;
     s_term := s_term w; s_forced := s_forced w; s_post := s_post w; s_late := s_late w |}.

Definition stop_effect {X} (e : Os X) (w : StopWorld) : StopWorld :=
  match e with
  | StoreStop b =>
      {| s_now := s_now w; s_pid := s_pid w; s_stop := b; s_running := s_running w;
         s_term := s_term w; s_forced := s_forced w; s_post := s_post w; s_late := s_late w |}
  | StoreRunning b =>
      {| s_now := s_now w; s_pid := s_pid w; s_stop := s_stop w; s_running := b;
         s_term := s_term w; s_forced := s_forced w; s_post := s_post w; s_late := s_late w |}
  | Kill pid sig => signalled w pid sig
  | WriteFile _ _ =>
      {| s_now := s_now w; s_pid := s_pid w; s_stop := s_stop w; s_running := s_running w;
         s_term := s_term w; s_forced := s_now w :: s_forced w; s_post := s_post w;
         s_late := s_late w || negb (bool_decide (s_post w = [])) |}
  | Status _ ["-c"; c] =>
      {| s_now := s_now w; s_pid := s_pid w; s_stop := s_stop w; s_running := s_running w;
         s_term := s_term w; s_forced := s_forced w; s_post := s_post w ++ [c]; s_late := s_late w |}
  | _ => w
  end.

Definition load_pid_answer : ∀ X, Os X → Z → X → Prop :=
  λ X e, match e in Os X return Z → X → Prop with
  | LoadPid => λ pid x, x = pid
  | _ => λ _ _, True
  end.

(** Time goes on as it likes, at least as long as a sleep; the answers are arbitrary
    except for the stored pid. *)
Definition stop_step : ∀ X, Os X → StopWorld → X → StopWorld → Prop :=
  λ X e w x w', clock_step X e (s_now w) x (s_now w') ∧ load_pid_answer X e (s_pid w) x ∧
    w' = set_now (s_now w') (stop_effect e w).

(** ** What is kept on the way *)

Section stopping.
Context (svc : Service) (pid : Z).

Definition grace : Z := from_secs (svc_timeout_stop svc).

(** Before the ExecStopPost commands: force was only used after the grace time. *)
Definition stopping (w : StopWorld) : Prop :=
  s_stop w = true ∧ s_pid w = pid ∧ s_post w = [] ∧ s_late w = false ∧
  (∀ t, s_term w = Some t → t ≤ s_now w) ∧
  Forall (λ t, ∃ t0, s_term w = Some t0 ∧ t0 + grace ≤ t) (s_forced w).

(** ... and is allowed now. *)
Definition overdue (w : StopWorld) : Prop :=
  stopping w ∧ ∃ t0, s_term w = Some t0 ∧ t0 + grace ≤ s_now w.

Definition stop_done (w : StopWorld) : Prop :=
  s_stop w = true ∧ s_post w = svc_exec_stop_post svc ∧ s_late w = false ∧
  Forall (λ t, ∃ t0, s_term w = Some t0 ∧ t0 + grace ≤ t) (s_forced w).

Lemma stopping_later w t : stopping w → s_now w ≤ t → stopping (set_now t w).
Proof.
  intros (Hs & Hp & Hpost & Hl & Ht & Hf) Hle. unfold stopping. simpl. split_and!; try done.
  intros t' Ht'. specialize (Ht t' Ht'). lia.
Qed.

Lemma stopping_quiet {X} (e : Os X) :
  (∀ w, stop_effect e w = w) → keeps stop_step stopping (trigger e).
Proof.
  intros He. apply keeps_trigger. intros w x w' Hw (Hc%clock_step_mono & _ & ->). rewrite He.
  by apply stopping_later.
Qed.

Lemma overdue_quiet {X} (e : Os X) :
  (∀ w, stop_effect e w = w) → keeps stop_step overdue (trigger e).
Proof.
  intros He. apply keeps_trigger. intros w x w' [Hw (t0 & Ht & Hle)] (Hc%clock_step_mono & _ & ->).
  rewrite He. split; [by apply stopping_later|]. exists t0. simpl. split; [done|lia].
Qed.

Lemma stopping_kill p sig : sig ≠ SIGKILL → keeps stop_step stopping (trigger (Kill p sig)).
Proof.
  intros Hsig. apply keeps_trigger. intros w x w' (Hs & Hp & Hpost & Hl & Ht & Hf) (Hc & _ & ->).
  simpl in Hc. apply stopping_later; [|done]. unfold stopping. simpl.
  rewrite (bool_decide_eq_false_2 _ Hsig), Hpost, Hl. split_and!; try done.
  - intros t. destruct (s_term w) as [t1|]; [intros [= <-]; by apply Ht|].
    case_bool_decide; [|done]. intros [= <-]. done.
  - eapply Forall_impl; [exact Hf|]. intros t (t0 & -> & Ht0). by exists t0.
Qed.

Lemma overdue_kill p sig : keeps stop_step overdue (trigger (Kill p sig)).
Proof.
  apply keeps_trigger.
  intros w x w' [(Hs & Hp & Hpost & Hl & Hlt & Hf) (t0 & Ht & Hle)] (Hc & _ & ->).
  simpl in Hc. split; [apply stopping_later; [|done]|]; unfold stopping; simpl; rewrite ?Hpost, ?Hl, ?Ht.
  - rewrite Ht in Hf, Hlt. split_and!; try done.
    case_bool_decide; [constructor; [by exists t0|]|]; done.
  - exists t0. split; [done|lia].
Qed.

Lemma overdue_write path s : keeps stop_step overdue (trigger (WriteFile path s)).
Proof.
  apply keeps_trigger.
  intros w x w' [(Hs & Hp & Hpost & Hl & Hlt & Hf) (t0 & Ht & Hle)] (Hc & _ & ->).
  simpl in Hc. split; [apply stopping_later; [|done]|]; unfold stopping; simpl; rewrite ?Hpost, ?Hl.
  - split_and!; try done. constructor; [by exists t0|done].
  - exists t0. split; [done|lia].
Qed.

Lemma stop_running b w w' x :
  stopping w → stop_step _ (StoreRunning b) w x w' → stopping w' ∧ s_running w' = b.
Proof.
  intros Hw (Hc & _ & ->). split; [|done]. by apply stopping_later.
Qed.

(** SIGTERM starts the grace time. *)
Lemma stopping_term w x w' :
  stopping w → stop_step _ (Kill pid SIGTERM) w x w' →
  ∃ t0, s_term w' = Some t0 ∧ t0 ≤ s_now w'.
Proof.
  intros (_ & Hp & _ & _ & Ht & _) (Hc & _ & Hw'). simpl in Hc. rewrite Hw'. simpl.
  destruct (s_term w) as [t|]; [exists t; specialize (Ht t eq_refl); split; [done|lia]|].
  rewrite bool_decide_eq_true_2 by done. exists (s_now w). done.
Qed.

(** The commands run once each, in order. *)
Lemma exec_stop_post_spec l w :
  wp stop_step (for_each (λ c, trigger (Status SH ["-c"; c]);* Ret tt) l) w (λ w' _,
    w' = set_now (s_now w') {| s_now := s_now w; s_pid := s_pid w; s_stop := s_stop w;
      s_running := s_running w; s_term := s_term w; s_forced := s_forced w;
      s_post := s_post w ++ l; s_late := s_late w |}).
Proof.
  revert w. induction l as [|c l IH]; intros w; simpl.
  - rewrite app_nil_r. by destruct w.
  - intros x w' (_ & _ & ->). eapply wp_mono; [|apply IH]. intros w2 _ ->. simpl.
    by rewrite <- app_assoc.
Qed.

Lemma run_exec_stop_post_spec w :
  stopping w →
  wp stop_step (run_exec_stop_post svc) w (λ w' _, stop_done w' ∧ s_running w' = s_running w).
Proof.
  intros (Hs & Hp & Hpost & Hl & _ & Hf). eapply wp_mono; [|apply exec_stop_post_spec].
  intros w' ? ->. unfold stop_done. simpl. rewrite Hpost. by split_and!.
Qed.

Lemma stopped_spec w :
  stopping w →
  wp stop_step (stopped svc) w (λ w' r, r = Some tt ∧ stop_done w' ∧ s_running w' = false).
Proof.
  intros Hw. unfold stopped. apply wp_op. intros x w1 Hs.
  apply (stop_running false w w1) in Hs as [Hw1 Hr]; [|done].
  eapply wp_bind_2; [by apply run_exec_stop_post_spec|].
  simpl. intros w2 _ [? Hr2]. by rewrite Hr2.
Qed.

(** ** The stages *)

(** [poll_exit] ends; when the process stays, the whole time has passed. *)
Lemma poll_exit_spec (I : StopWorld → Prop) fuel n poll deadline raw_pid w :
  0 < poll → deadline ≤ Z.of_nat n * poll → (n < fuel)%nat →
  (∀ X (e : Os X), (∀ w, stop_effect e w = w) → keeps stop_step I (trigger e)) →
  I w →
  wp stop_step (poll_exit fuel poll deadline raw_pid) w (λ w' r, ∃ b, r = Some b ∧
    I w' ∧ (b = false → s_now w + deadline ≤ s_now w')).
Proof.
  intros Hpoll Hn Hf HI Hw. unfold poll_exit.
  apply (wp_loop _ _ (λ elapsed w' k, I w' ∧ s_now w + elapsed ≤ s_now w' ∧
     deadline - elapsed ≤ Z.of_nat k * poll) (λ w' b, I w' ∧ (b = false → s_now w + deadline ≤ s_now w'))
     _ _ _ n); [|split; [done|lia]|done].
  intros elapsed w1 k (HI1 & Hnow & Hk). destruct (Z.ltb_spec elapsed deadline) as [Hlt|Hge].
  - apply wp_op. intros [] w2 Hs. assert (HI2 : I w2) by (by eapply (HI _ (Sleep poll))).
    destruct Hs as ([Hs _] & _ & _). unfold proc_exists. apply wp_op. intros alive w3 Hs3.
    assert (HI3 : I w3).
    { by eapply (HI _ (PathExists _)). }
    destruct Hs3 as (Hs3%clock_step_mono & _ & _). destruct alive; simpl; [|done].
    exists (Nat.pred k). split; [nia|]. split; [done|]. split; [lia|nia].
  - simpl. split; [done|]. intros _. lia.
Qed.

Lemma run_with_timeout_stopping fuel n cmd args timeout w :
  timeout ≤ Z.of_nat n * from_millis 100 → (n < fuel)%nat → stopping w →
  wp stop_step (run_with_timeout fuel cmd args timeout) w (λ w' r, (∃ b, r = Some b) ∧ stopping w').
Proof.
  intros Hn Hf Hw. apply wp_and.
  - eapply wp_mono; [|eapply (wp_project _ clock_step s_now); [|by apply (run_with_timeout_spec fuel cmd args timeout n)]].
    + simpl. intros w' r Hr. exact Hr.
    + by intros X e ? x ? (? & _ & _).
  - assert (keeps stop_step stopping (run_with_timeout fuel cmd args timeout)) as Hk; [|by apply Hk].
    unfold run_with_timeout. repeat first [progress keeps | by apply stopping_quiet].
Qed.

Lemma stop_watchdog_spec fuel n w :
  from_secs (Z.max (svc_watchdog_sec svc / 2) 1) ≤ Z.of_nat n * from_millis 100 → (n < fuel)%nat →
  stopping w →
  wp stop_step (stop_watchdog fuel svc pid) w (λ w' r, ∃ b, r = Some b ∧ stopping w').
Proof.
  intros Hn Hf Hw. unfold stop_watchdog. destruct (0 <? svc_watchdog_sec svc); [|by eexists].
  apply (wp_keeps_bind _ stopping); [by apply stopping_kill|done|].
  intros w1 _ H1. eapply wp_mono; [|eapply (poll_exit_spec stopping _ n)];
    [| | |done|intros ? ? ?; by apply stopping_quiet|done]; unfold from_millis in *; [|lia|lia].
  intros ? ? (b & -> & ? & _). by exists b.
Qed.

Lemma stop_command_spec fuel n w :
  from_secs (Z.max (svc_timeout_stop svc / 2) 5) ≤ Z.of_nat n * from_millis 100 → (n < fuel)%nat →
  stopping w →
  wp stop_step (stop_command fuel svc pid) w (λ w' r, ∃ b, r = Some b ∧ stopping w').
Proof.
  intros Hn Hf Hw. unfold stop_command. destruct (svc_stop_command svc); [|by eexists].
  apply (wp_fuel _ _ _ _ _ (λ w' _, stopping w')).
  { eapply wp_mono; [|by eapply (run_with_timeout_stopping _ n)].
    simpl. intros ? ? [[b ->] ?]. by exists b. }
  intros w1 r H1. destruct r as [[]|]; [|by eexists..].
  apply (wp_keeps_bind _ stopping); [by apply stopping_quiet|done|]. intros w2 _ H2.
  apply (wp_keeps_bind _ stopping); [by apply stopping_quiet|done|].
  intros w3 b H3. by eexists.
Qed.

(** The wait after SIGTERM: when the process stays, force is due. *)
Lemma stop_grace_spec fuel n w x w' :
  grace ≤ Z.of_nat n * from_millis 100 → (n < fuel)%nat →
  stopping w → stop_step _ (Kill pid SIGTERM) w x w' →
  wp stop_step (poll_exit fuel (from_millis 250) grace pid) w' (λ w2 r, ∃ b, r = Some b ∧
    stopping w2 ∧ (b = false → overdue w2)).
Proof.
  intros Hn Hf Hw Hs. destruct (stopping_term _ _ _ Hw Hs) as (t0 & Ht0 & Hle).
  assert (Hw' : stopping w') by (by eapply (stopping_kill pid SIGTERM)).
  eapply wp_mono; [|eapply (poll_exit_spec (λ w2, stopping w2 ∧ s_term w2 = Some t0) _ n)];
    unfold from_millis in *; [|lia|lia|done| |done].
  - intros w2 r (b & -> & [H2 Ht2] & Hb). exists b. split_and!; [done..|].
    intros Hbf. split; [done|]. exists t0. split; [done|]. specialize (Hb Hbf). lia.
  - intros X e He. apply keeps_trigger. intros w2 y w3 [H2 Ht2] Hs2. split.
    + by eapply stopping_quiet.
    + destruct Hs2 as (_ & _ & ->). by rewrite He.
Qed.

Lemma stop_by_force_spec w :
  overdue w →
  wp stop_step (stop_by_force svc pid) w (λ w' _, stop_done w' ∧ s_running w' = false).
Proof.
  intros Hw. unfold stop_by_force, kill_service_cgroup, kill_cgroup_procs, is_cgroup_v2.
  apply (wp_keeps_bind _ overdue); [|done|].
  { repeat first [progress keeps | by apply overdue_quiet | apply overdue_write]. }
  intros w1 _ H1. apply (wp_keeps_bind _ overdue); [apply overdue_kill|done|].
  intros w2 _ H2. apply (wp_keeps_bind _ overdue); [|done|].
  { generalize 12%nat. intros k. induction k; cbn [await_kill]; unfold proc_exists; [keeps|].
    repeat first [progress keeps | by apply overdue_quiet | done]. }
  intros w3 _ H3.
  assert (Hkc : ∀ sig, keeps stop_step overdue (kill_cgroup_procs svc sig)).
  { intros sig. unfold kill_cgroup_procs.
    repeat first [progress keeps | by apply overdue_quiet | apply overdue_kill]. }
  apply (wp_keeps_bind _ overdue); [apply Hkc|done|]. intros w4 _ H4.
  apply (wp_keeps_bind _ overdue); [by apply overdue_quiet|done|]. intros w5 _ H5.
  apply (wp_keeps_bind _ overdue); [apply Hkc|done|]. intros w6 _ [H6 _].
  apply wp_op. intros x w7 Hs.
  apply (stop_running false w6 w7) in Hs as [H7 Hr]; [|done].
  unfold remove_service_cgroup, is_cgroup_v2.
  apply (wp_keeps_bind _ (λ w, stopping w ∧ s_running w = false)); [|done|].
  { assert (∀ X (e : Os X), (∀ w, stop_effect e w = w) →
      keeps stop_step (λ w, stopping w ∧ s_running w = false) (trigger e)) as Hq.
    { intros X e He. apply keeps_trigger. intros w' x' w'' [Hst Hrun] (Hc & _ & ->).
      rewrite He. split; [by apply stopping_later; [|eapply clock_step_mono]|exact Hrun]. }
    repeat first [progress keeps | by apply Hq]. }
  intros w8 _ [H8 Hr8]. eapply wp_mono; [|by apply run_exec_stop_post_spec].
  simpl. intros w9 _ [? Hr9]. by rewrite Hr9.
Qed.
End stopping.

(** ** The stop protocol *)

(** C3: stopping ends and keeps its order: after a number of turns that the
    configured times bound, the supervisor is marked as stopping and not running
    (when it had a process), every ExecStopPost command has run once, in order and
    after the last signal; and neither SIGKILL nor the kill of the control group was
    used before SIGTERM was sent to the process and its whole stop timeout passed. *)
Theorem stop_protocol svc fuel n w :
  from_secs (Z.max (svc_watchdog_sec svc / 2) 1) ≤ Z.of_nat n * from_millis 100 →
  from_secs (Z.max (svc_timeout_stop svc / 2) 5) ≤ Z.of_nat n * from_millis 100 →
  from_secs (svc_timeout_stop svc) ≤ Z.of_nat n * from_millis 100 →
  (n < fuel)%nat →
  s_term w = None → s_forced w = [] → s_post w = [] → s_late w = false →
  wp stop_step (stop fuel svc) w (λ w' r,
    r = Some tt ∧ s_stop w' = true ∧
    s_running w' = (if s_pid w <=? 0 then s_running w else false) ∧
    s_post w' = svc_exec_stop_post svc ∧ s_late w' = false ∧
    Forall (λ t, ∃ t0, s_term w' = Some t0 ∧ t0 + from_secs (svc_timeout_stop svc) ≤ t)
      (s_forced w')).
Proof.
  intros Hn1 Hn2 Hn3 Hf Ht Hfo Hp Hl. unfold stop. apply wp_op. intros x1 w1 (Hc1%clock_step_mono & _ & ->).
  apply wp_op. intros raw_pid w2 (Hc2%clock_step_mono & Hpid & ->). simpl in Hpid. subst raw_pid.
  match goal with |- wp _ _ ?w' _ => set (w3 := w') end.
  assert (H3 : stopping svc (s_pid w) w3).
  { unfold stopping, w3. simpl. rewrite Hfo, Ht. by split_and!. }
  assert (Hr3 : s_running w3 = s_running w) by done. clearbody w3.
  destruct (Z.leb_spec (s_pid w) 0) as [Hle|Hgt].
  { eapply wp_bind_2; [by eapply run_exec_stop_post_spec|].
    simpl. intros w4 _ [(? & ? & ? & ?) Hr4]. by rewrite Hr4. }
  assert (Hend : ∀ w', stopping svc (s_pid w) w' → wp stop_step (stopped svc) w' (λ w' r,
     r = Some tt ∧ s_stop w' = true ∧ s_running w' = false ∧
     s_post w' = svc_exec_stop_post svc ∧ s_late w' = false ∧
     Forall (λ t, ∃ t0, s_term w' = Some t0 ∧ t0 + from_secs (svc_timeout_stop svc) ≤ t)
       (s_forced w'))).
  { intros w' Hw'. eapply wp_mono; [|by eapply stopped_spec].
    by intros ? ? (-> & (? & ? & ? & ?) & ?). }
  apply (wp_keeps_bind _ (stopping svc (s_pid w))); [by apply stopping_quiet|done|].
  intros w4 _ H4.
  eapply wp_fuel; [by apply (stop_watchdog_spec _ _ fuel n)|]. intros w5 [] H5; [by apply Hend|].
  eapply wp_fuel; [by apply (stop_command_spec _ _ fuel n)|]. intros w6 [] H6; [by apply Hend|].
  apply wp_op. intros r w7 Hs. destruct r as [[]|e].
  - eapply wp_fuel; [by eapply (stop_grace_spec _ _ fuel n)|].
    intros w8 [] [H8 Ho]; [by apply Hend|].
    eapply wp_bind_2; [by apply stop_by_force_spec, Ho|].
    intros w9 _ [(? & ? & ? & ?) ?]. simpl. by split_and!.
  - apply Hend. by eapply (stopping_kill _ _ _ SIGTERM).
Qed.

Lemma stop_protocol_witness :
  let svc := (Service_minimal "db" "/bin/db") <|svc_timeout_stop := 10|> in
  let w := {| s_now := 0; s_pid := 42; s_stop := false; s_running := true; s_term := None;
              s_forced := []; s_post := []; s_late := false |} in
  wp stop_step (stop 1000 svc) w (λ w' r,
    r = Some tt ∧ s_stop w' = true ∧
    s_running w' = (if s_pid w <=? 0 then s_running w else false) ∧
    s_post w' = svc_exec_stop_post svc ∧ s_late w' = false ∧
    Forall (λ t, ∃ t0, s_term w' = Some t0 ∧ t0 + from_secs (svc_timeout_stop svc) ≤ t)
      (s_forced w')).
Proof.
  intros svc w. apply (stop_protocol svc 1000 999 w); try reflexivity;
    first [lia | vm_compute; discriminate].
Defined.
