(* ===== verification/Spawn.v ===== *)
(** * Launching a service from PID 1

    What [ServiceSupervisor::start] and [restart_monitor] share: the logger pipe
    ([create_service_logger] of [services/logger.rs] and the thread that reads it),
    the resolution of a service definition into a [ServiceLaunch], and
    [process::start_service_as] as its caller sees it. *)

From Stdlib Require Import ZArith Ascii.
From stdpp Require Import base tactics numbers list strings gmap.
From S2P Require Import Prelude RustStr Types CommandLine Seccomp Effects Launch Os Helpers.

Local Open Scope string_scope.
Local Open Scope list_scope.
Local Open Scope Z_scope.
Local Open Scope quantra_scope.
Local Open Scope prog_scope.

(** ** The logger pipe *)

Definition LOG_DIR : string := "/overlayer/syshub/var/log/quantra-system".

Record ServiceLogger := {
  logger_name : string;
  logger_read_fd : Z;
}.

Definition create_service_logger (service_name : string)
    : prog Os (result string (Z * ServiceLogger)) :=
  let* dir := trigger (CreateDirAll LOG_DIR) in
  match dir with
  | Err e => Ret (Err ("Cannot create log dir '" +:+ LOG_DIR +:+ "': " +:+ e))
  | Ok _ =>
      let* rc := trigger Pipe in
      match rc with
      | None =>
          let* e := trigger LastOsError in
          Ret (Err ("pipe2 for logger failed: " +:+ e))
      | Some (read_fd, write_fd) =>
          Ret (Ok (write_fd, {| logger_name := service_name; logger_read_fd := read_fd |}))
      end
  end.

(** The write end, when the service does not use the console and a pipe could be
    made; the reading thread is spawned, a failure to do so is ignored. *)
Definition log_pipe (svc : Service) : prog Os (option Z) :=
  if svc_console svc then Ret None
  else
    let* r := create_service_logger (svc_name svc) in
    match r with
    | Ok (wfd, logger) =>
        trigger (SpawnThread (Log_thread (logger_name logger) (logger_read_fd logger)));*
        Ret (Some wfd)
    | Err _ => Ret None
    end.

(** ** The environment *)

Definition extend (env : gmap string string) (pairs : gmap string string) : gmap string string :=
  pairs ∪ env.

(** The variables of the file, then those of the service definition over them. *)
Definition env_from_file (svc : Service) : prog Os (gmap string string) :=
  match svc_env_file svc with
  | Some ef_path =>
      let* r := load_env_file ef_path in
      Ret match r with Ok pairs => extend ∅ pairs | Err _ => ∅ end
  | None => Ret ∅
  end.

Definition env_with_table (svc : Service) (env : gmap string string) : gmap string string :=
  match svc_environment svc with
  | Some svc_env => extend env svc_env
  | None => env
  end.

(** ** The launch *)

Section spawn.
Context (SYS : string → Z).

(** The part of the configuration that can be invalid. *)
Record Resolved := {
  rs_cmd : string;
  rs_args : list string;
  rs_drop_capabilities : list Z;
  rs_denylist : list Z;
}.

Definition launch (svc : Service) (rs : Resolved) (uid gid : option Z)
    (env : option (gmap string string)) (log_write_fd : option Z) (act_fds : list Z)
    : ServiceLaunch := {|
  sl_cmd := rs_cmd rs;
  sl_args := rs_args rs;
  sl_uid := uid;
  sl_gid := gid;
  sl_working_dir := svc_working_dir svc;
  sl_tty_path := svc_tty svc;
  sl_env := env;
  sl_log_write_fd := log_write_fd;
  sl_activation_fds := act_fds;
  sl_apparmor_profile := svc_apparmor_profile svc;
  sl_no_new_privileges := svc_no_new_privileges svc;
  sl_non_dumpable := svc_non_dumpable svc;
  sl_clear_ambient_caps := svc_clear_ambient_caps svc;
  sl_drop_capabilities := rs_drop_capabilities rs;
  sl_ambient_capabilities := resolve_ambient_caps (svc_ambient_capabilities svc);
  sl_capability_bounding_set := resolve_bounding_set (svc_capability_bounding_set svc);
  sl_seccomp_profile_denylist := rs_denylist rs;
  sl_seccomp_allowlist := resolve_seccomp_allowlist SYS svc;
  sl_seccomp_strict := bool_decide (svc_seccomp svc = SeccompMode_Strict);
  sl_rlimit := svc_rlimit svc;
  sl_private_tmp := svc_private_tmp svc;
  sl_protect_system := svc_protect_system svc;
  sl_landlock_paths := svc_landlock_paths svc;
  sl_service_for_sandbox := Some svc
|}.

(** [process::start_service_as], in the parent. *)
Definition start_service_as (cfg : ServiceLaunch) : prog Os (result string Z) :=
  match prepare cfg with
  | Err e => Ret (Err e)
  | Ok p => trigger (Fork cfg p)
  end.
End spawn.
