(* ===== verification/Monitor.v ===== *)
(** * The restart monitor

    [restart_monitor] of [quantra/src/services/supervisor.rs]: the thread that waits
    for a service to exit and starts it again as its restart policy says, with the
    crash-loop breaker and the chaining to another service.  The thread may run for
    ever, so the theorems hold for any number of turns. *)

From Stdlib Require Import ZArith Ascii.
From stdpp Require Import base tactics numbers list strings gmap.
From S2P Require Import Prelude RustStr Types CommandLine Seccomp Effects Launch Descriptors Os.
From S2P Require Import Cgroup Helpers Spawn.

Local Open Scope string_scope.
Local Open Scope list_scope.
Local Open Scope Z_scope.
Local Open Scope quantra_scope.
Local Open Scope prog_scope.

Record MonitorState := {
  ms_current_pid : Z;
  ms_restart_times : list Z;  (* the front first *)
}.

(** [while front is older than window { pop_front }]. *)
Fixpoint evict (window now : Z) (times : list Z) : list Z :=
  match times with
  | [] => []
  | t :: rest => if window <? Z.max 0 (now - t) then evict window now rest else times
  end.

(** The crash-loop breaker: [None] is giving up. *)
Definition crash_loop_check (svc : Service) (times : list Z) : prog Os (option (list Z)) :=
  if 0 <? svc_max_restarts svc then
    let window := from_secs (svc_restart_interval_sec svc) in
    let* now := trigger Now in
    let times := evict window now times in
    if svc_max_restarts svc <=? wrap_u32 (Z.of_nat (length times)) then Ret None
    else Ret (Some (times ++ [now]))
  else Ret (Some times).

(** [match svc.restart]: whether to go on. *)
Definition wants_restart (svc : Service) (exit_code : Z) : bool :=
  match svc_restart svc with
  | RestartPolicy_No => false
  | OnFailure => negb (exit_code =? 0)
  | Always => true
  end.

(** The service to start instead. *)
Definition chained (svc : Service) (exit_code : Z) : option string :=
  match svc_chain_to svc with
  | Some chain => if svc_chain_to_always svc || (exit_code =? 0) then Some chain else None
  | None => None
  end.

Section monitor.
Context (SYS : string → Z) (overflow_checks : bool).

(** Any of these errors ends the monitor. *)
Definition resolve_restart (svc : Service) : result string Resolved :=
  let? (cmd, args) := resolve_command_argv (svc_command svc) (svc_args svc) in
  let? drop := resolve_capability_numbers (svc_drop_capabilities svc) in
  let? denylist := resolve_seccomp_profile_for_service SYS svc in
  Ok {| rs_cmd := cmd; rs_args := args; rs_drop_capabilities := drop; rs_denylist := denylist |}.

(** From the logger to the new process; no socket is handed over again. *)
Definition relaunch (svc : Service) (rs : Resolved) (uid gid : option Z)
    : prog Os (result string Z) :=
  let* log_write_fd := log_pipe svc in
  let* env := env_from_file svc in
  let restart_env := env_with_table svc env in
  let restart_env_opt := if bool_decide (restart_env = ∅) then None else Some restart_env in
  start_service_as (launch SYS svc rs uid gid restart_env_opt log_write_fd []).

(** One turn of the loop; [inr] is a [break], or the panic of the last
    multiplication, which ends the thread as well. *)
Definition monitor_turn (fuel : nat) (svc : Service) (st : MonitorState)
    : prog Os (option (MonitorState + unit)) :=
  let current_pid := ms_current_pid st in
  fuel* exit_code := wait_for_exit fuel current_pid in
  trigger (StoreRunning false);*
  trigger (RegisterService (svc_name svc) (wrap_i32 current_pid) false);*
  let* stopping := trigger LoadStop in
  if stopping : bool then Ret (Some (inr tt))
  else
    let* times := crash_loop_check svc (ms_restart_times st) in
    match times with
    | None => Ret (Some (inr tt))
    | Some times =>
        let again pid := Some (inl {| ms_current_pid := pid; ms_restart_times := times |}) in
        if negb (wants_restart svc exit_code) then Ret (Some (inr tt))
        else
          trigger (Sleep (from_secs (svc_restart_sec svc)));*
          match chained svc exit_code with
          | Some chain => trigger (QueueChain chain);* Ret (Some (inr tt))
          | None =>
              let* creds := resolve_credentials svc in
              match creds with
              | Err _ => Ret (again current_pid)
              | Ok (uid, gid) =>
                  match resolve_restart svc with
                  | Err _ => Ret (Some (inr tt))
                  | Ok rs =>
                      let* r := relaunch svc rs uid gid in
                      match r with
                      | Ok raw =>
                          assign_pid_to_cgroup (svc_name svc) (wrap_u32 raw);*
                          trigger (StorePid raw);*
                          trigger (StoreRunning true);*
                          trigger (RegisterService (svc_name svc) raw true);*
                          Ret (again (wrap_u32 raw))
                      | Err _ =>
                          match arith_u64 overflow_checks (svc_restart_sec svc * 2) with
                          | Some secs => trigger (Sleep (from_secs secs));* Ret (again current_pid)
                          | None => Ret (Some (inr tt))
                          end
                      end
                  end
              end
          end
    end.

(** [None]: still watching. *)
Definition restart_monitor (turns fuel : nat) (svc : Service) : prog Os (option unit) :=
  let* pid := trigger LoadPid in
  loop_fuel turns (monitor_turn fuel svc)
    {| ms_current_pid := wrap_u32 pid; ms_restart_times := [] |}.
End monitor.

(** ** The world of a monitor

    For every process that is started: when, with which exit code of its
    predecessor, when that was learnt, what the last look at the clock of the
    crash-loop breaker gave, and whether the last look at the stop flag said to
    stop. *)
Record Restarted := {
  r_time : Z;
  r_code : Z;
  r_exit : Z;
  r_check : Z;
  r_stopping : bool;
}.

Record MonitorWorld := {
  m_now : Z;
  m_code : Z;
  m_exit : Z;
  m_check : Z;
  m_stopping : bool;
  m_starts : list Restarted;  (* the last first *)
}.

Definition monitor_effect : ∀ X, Os X → X → Z → MonitorWorld → MonitorWorld :=
  λ X e, match e in Os X return X → Z → MonitorWorld → MonitorWorld with
  | GetExitCode _ => λ code t w,
      {| m_now := t; m_code := default 0 code; m_exit := t; m_check := m_check w;
         m_stopping := m_stopping w; m_starts := m_starts w |}
  | Now => λ now t w,
      {| m_now := t; m_code := m_code w; m_exit := m_exit w; m_check := now;
         m_stopping := m_stopping w; m_starts := m_starts w |}
  | LoadStop => λ b t w,
      {| m_now := t; m_code := m_code w; m_exit := m_exit w; m_check := m_check w;
         m_stopping := b; m_starts := m_starts w |}
  | Fork _ _ => λ _ t w,
      {| m_now := t; m_code := m_code w; m_exit := m_exit w; m_check := m_check w;
         m_stopping := m_stopping w;
         m_starts := {| r_time := t; r_code := m_code w; r_exit := m_exit w;
                        r_check := m_check w; r_stopping := m_stopping w |} :: m_starts w |}
  | _ => λ _ t w,
      {| m_now := t; m_code := m_code w; m_exit := m_exit w; m_check := m_check w;
         m_stopping := m_stopping w; m_starts := m_starts w |}
  end.

Definition monitor_step : ∀ X, Os X → MonitorWorld → X → MonitorWorld → Prop :=
  λ X e w x w', clock_step X e (m_now w) x (m_now w') ∧ w' = monitor_effect X e x (m_now w') w.

Definition at_time (t : Z) (w : MonitorWorld) : MonitorWorld :=
  {| m_now := t; m_code := m_code w; m_exit := m_exit w; m_check := m_check w;
     m_stopping := m_stopping w; m_starts := m_starts w |}.

(** ** What the policy says of one restart *)

Section policy.
Context (svc : Service).

Definition restart_allowed (r : Restarted) : Prop :=
  svc_restart svc ≠ RestartPolicy_No ∧
  (svc_restart svc = OnFailure → r_code r ≠ 0) ∧
  r_stopping r = false ∧
  r_exit r + from_secs (svc_restart_sec svc) ≤ r_time r.

(** At most [svc_max_restarts] of them in any window of the breaker. *)
Definition restarts_bounded (starts : list Restarted) : Prop :=
  ∀ i a b, starts !! i = Some a →
    starts !! (i + Z.to_nat (svc_max_restarts svc))%nat = Some b →
    r_check b + from_secs (svc_restart_interval_sec svc) < r_check a.

(** What the breaker remembers of the restarts: the recent ones are among its
    timestamps, the others are too old to matter. *)
Definition remembers (times : list Z) (w : MonitorWorld) : Prop :=
  0 < svc_max_restarts svc →
  Z.of_nat (length times) ≤ svc_max_restarts svc ∧
  ∃ recent old, r_check <$> m_starts w = recent ++ old ∧ recent `sublist_of` rev times ∧
    Forall (λ c, c + from_secs (svc_restart_interval_sec svc) < m_check w) old.

Definition monitor_inv (times : list Z) (w : MonitorWorld) : Prop :=
  m_check w ≤ m_now w ∧ Forall restart_allowed (m_starts w) ∧
  (0 < svc_max_restarts svc → restarts_bounded (m_starts w)) ∧ remembers times w.

Definition monitor_good (w : MonitorWorld) : Prop :=
  Forall restart_allowed (m_starts w) ∧
  (0 < svc_max_restarts svc → restarts_bounded (m_starts w)).

(** After the decision to restart: one more restart is allowed. *)
Definition restart_due (times : list Z) (w : MonitorWorld) : Prop :=
  monitor_inv times w ∧ svc_restart svc ≠ RestartPolicy_No ∧
  (svc_restart svc = OnFailure → m_code w ≠ 0) ∧ m_stopping w = false ∧
  m_exit w + from_secs (svc_restart_sec svc) ≤ m_now w ∧
  (0 < svc_max_restarts svc → ∃ rest, times = rest ++ [m_check w] ∧
     ∃ recent old, r_check <$> m_starts w = recent ++ old ∧ recent `sublist_of` rev rest ∧
       Forall (λ c, c + from_secs (svc_restart_interval_sec svc) < m_check w) old).

Definition same_facts (w w' : MonitorWorld) : Prop :=
  m_code w' = m_code w ∧ m_exit w' = m_exit w ∧ m_stopping w' = m_stopping w ∧
  m_starts w' = m_starts w ∧ m_now w ≤ m_now w'.

Definition quiet_op {X} (e : Os X) : Prop := ∀ x t w, monitor_effect X e x t w = at_time t w.

Lemma inv_later times t w : monitor_inv times w → m_now w ≤ t → monitor_inv times (at_time t w).
Proof. intros (Hc & H) Hle. split; [simpl; lia|exact H]. Qed.

Lemma inv_quiet {X} (e : Os X) times :
  quiet_op e → keeps monitor_step (monitor_inv times) (trigger e).
Proof.
  intros He. apply keeps_trigger. intros w x w' Hw (Hc%clock_step_mono & ->). rewrite He.
  by apply inv_later.
Qed.

Lemma due_quiet {X} (e : Os X) times :
  quiet_op e → keeps monitor_step (restart_due times) (trigger e).
Proof.
  intros He. apply keeps_trigger.
  intros w x w' (Hi & Hr & Hc & Hs & Hx & Hm) (Hcl%clock_step_mono & ->). rewrite He.
  split; [by apply inv_later|]. split_and!; try done. simpl. lia.
Qed.

Lemma evict_split window now times :
  0 ≤ window →
  ∃ gone, times = gone ++ evict window now times ∧ Forall (λ t, t + window < now) gone.
Proof.
  intros Hw. induction times as [|t times (gone & IH & Hg)]; [by exists []|]. simpl.
  destruct (Z.ltb_spec window (Z.max 0 (now - t))); [|by exists []].
  exists (t :: gone). split; [by f_equal/=|]. constructor; [lia|done].
Qed.

Lemma wait_for_exit_inv fuel pid times w :
  monitor_inv times w →
  wp monitor_step (wait_for_exit fuel pid) w (λ w' r, monitor_inv times w' ∧
    ∀ code, r = Some code → m_code w' = code ∧ m_exit w' ≤ m_now w').
Proof.
  intros Hw. unfold wait_for_exit.
  assert (Hget : ∀ w x w', monitor_inv times w → monitor_step _ (GetExitCode (wrap_i32 pid)) w x w' →
    monitor_inv times w' ∧ m_code w' = default 0 x ∧ m_exit w' ≤ m_now w').
  { intros w0 x w' (Hc & Hr) (Hcl%clock_step_mono & ->). split_and!; [|done|done].
    split; [simpl; lia|exact Hr]. }
  eapply wp_mono; [|apply (wp_loop_inv _ (λ _, monitor_inv times)
    (λ w' code, monitor_inv times w' ∧ m_code w' = code ∧ m_exit w' ≤ m_now w'))].
  - intros w' [code|]; [intros [??]; split; [done|by intros ? [= <-]]|].
    intros [_ Hi]. by split.
  - intros _ w1 H1. apply wp_op. intros code w2 Hs%Hget; [|done].
    destruct Hs as (H2 & Hcode & Hx). destruct code as [code|]; [by split|].
    unfold proc_exists. apply (wp_keeps_bind _ (monitor_inv times)); [by apply inv_quiet|done|].
    intros w3 alive H3. destruct alive; simpl.
    + intros x w4 Hs. by eapply (inv_quiet (Sleep _)).
    + intros x w4 Hs. assert (H4 : monitor_inv times w4) by by eapply (inv_quiet (Sleep _)).
      by intros code w5 Hs5%Hget.
  - done.
Qed.

(** The breaker forgets nothing that matters. *)
Lemma crash_loop_check_spec times w :
  0 ≤ svc_restart_interval_sec svc → svc_max_restarts svc ≤ u32_max →
  monitor_inv times w →
  wp monitor_step (crash_loop_check svc times) w (λ w' r, same_facts w w' ∧
    match r with
    | None => True
    | Some times' => monitor_inv times' w' ∧
        (0 < svc_max_restarts svc → ∃ rest, times' = rest ++ [m_check w'] ∧
           ∃ recent old, r_check <$> m_starts w' = recent ++ old ∧ recent `sublist_of` rev rest ∧
             Forall (λ c, c + from_secs (svc_restart_interval_sec svc) < m_check w') old)
    end).
Proof.
  intros Hint Hmax (Hc & Ha & Hb & Hrem). unfold crash_loop_check.
  destruct (Z.ltb_spec 0 (svc_max_restarts svc)) as [Hpos|Hzero].
  2: { split; [by split_and!|]. split; [done|lia]. }
  apply wp_op. intros now w' [Hcl Hw']. revert Hcl Hw'. generalize (m_now w'). simpl.
  intros t' [Hle <-] Hw'.
  assert (Hsame : same_facts w w') by (subst w'; by split_and!).
  destruct (Hrem Hpos) as (Hlen & recent & old & Hcs & Hsub & Hold).
  destruct (evict_split (from_secs (svc_restart_interval_sec svc)) now times) as (gone & Ht & Hgone);
    [unfold from_secs; lia|].
  set (rest := evict _ now times) in *.
  assert (Hlr : (length rest ≤ length times)%nat) by (rewrite Ht, length_app; lia).
  unfold wrap_u32. rewrite Z.mod_small by (unfold u32_max in *; lia).
  destruct (Z.leb_spec (svc_max_restarts svc) (Z.of_nat (length rest))); [by split|].
  split; [done|].
  assert (∃ recent old, r_check <$> m_starts w' = recent ++ old ∧ recent `sublist_of` rev rest ∧
             Forall (λ c, c + from_secs (svc_restart_interval_sec svc) < m_check w') old) as Hnew.
  { rewrite Ht, rev_app_distr in Hsub. apply sublist_app_r in Hsub as (r1 & r2 & -> & H1 & H2).
    exists r1, (r2 ++ old). subst w'. simpl. rewrite Hcs, app_assoc. split_and!; [done..|]. apply Forall_app. split.
    - rewrite Forall_forall in Hgone. apply Forall_forall. intros c Hc2. apply Hgone.
      apply (elem_of_sublist _ _ _ Hc2), list_elem_of_In, in_rev in H2. by apply list_elem_of_In.
    - eapply Forall_impl; [exact Hold|]. simpl. intros. lia. }
  split; [|intros _; exists rest; by subst w'].
  split; [by subst w'|]. subst w'. simpl in *. split_and!; [done..|]. intros _. rewrite length_app. simpl.
  split; [lia|]. destruct Hnew as (r1 & o1 & Hr1 & Hs1 & Ho1). exists r1, o1.
  split_and!; [done| |done]. rewrite rev_app_distr. simpl. by constructor.
Qed.

(** The new process is the restart that was due. *)
Lemma fork_inv times cfg p w x w' :
  restart_due times w → monitor_step _ (Fork cfg p) w x w' → monitor_inv times w'.
Proof.
  intros ((Hc & Ha & Hb & Hrem) & Hno & Hcode & Hst & Hx & Hm) [Hcl Hw'].
  apply clock_step_mono in Hcl. rewrite Hw'. clear Hw'. revert Hcl. generalize (m_now w').
  intros t Ht. unfold monitor_inv, remembers. cbn [monitor_effect m_check m_now m_starts]. split_and!.
  - lia.
  - constructor; [|done]. split_and!; simpl; try done. lia.
  - intros Hpos [|i] a b; simpl; [|by apply Hb].
    intros [= <-] Hlb. simpl. destruct (Hm Hpos) as (rest & -> & recent & old & Hcs & Hsub & Hold).
    destruct (Hrem Hpos) as [Hlen _]. apply sublist_length in Hsub.
    rewrite length_app in Hlen. rewrite length_rev in Hsub. simpl in Hlen.
    destruct (Z.to_nat (svc_max_restarts svc)) as [|k] eqn:Hk; [lia|]. simpl in Hlb.
    assert (Hl : (r_check <$> m_starts w) !! k = Some (r_check b)) by (by rewrite list_lookup_fmap, Hlb).
    rewrite Hcs, lookup_app_r in Hl by lia. by apply (Forall_lookup_1 _ _ _ _ Hold Hl).
  - intros Hpos. destruct (Hrem Hpos) as [Hlen _]. split; [done|].
    destruct (Hm Hpos) as (rest & -> & recent & old & Hcs & Hsub & Hold).
    exists (m_check w :: recent), old. rewrite fmap_cons, Hcs, rev_app_distr. split_and!; [done| |done].
    simpl. by constructor.
Qed.

Lemma inv_good times w : monitor_inv times w → monitor_good w.
Proof. by intros (_ & ? & ? & _). Qed.

Lemma due_good times w : restart_due times w → monitor_good w.
Proof. intros [? _]. by eapply inv_good. Qed.

(** One turn, from the new process on. *)
Lemma relaunch_inv SYS rs uid gid times w :
  restart_due times w →
  wp monitor_step (relaunch SYS svc rs uid gid) w (λ w' _, monitor_inv times w').
Proof.
  intros Hw. unfold relaunch, log_pipe, create_service_logger, env_from_file, load_env_file.
  apply (wp_keeps_bind _ (restart_due times)); [|done|].
  { repeat first [progress keeps | by apply due_quiet]. }
  intros w1 log H1. apply (wp_keeps_bind _ (restart_due times)); [|done|].
  { repeat first [progress keeps | by apply due_quiet]. }
  intros w2 env H2. unfold start_service_as. destruct (prepare _) as [p|e]; [|by destruct H2].
  intros x w3. by apply fork_inv.
Qed.

Lemma credentials_due times w :
  restart_due times w →
  wp monitor_step (resolve_credentials svc) w (λ w' _, restart_due times w').
Proof.
  intros Hw. assert (keeps monitor_step (restart_due times) (resolve_credentials svc)) as Hk; [|by apply Hk].
  unfold resolve_credentials, transpose, lookup_uid, lookup_gid, try_bind.
  repeat first [progress keeps | by apply due_quiet].
Qed.

Lemma wants_restart_spec code :
  wants_restart svc code = true →
  svc_restart svc ≠ RestartPolicy_No ∧ (svc_restart svc = OnFailure → code ≠ 0).
Proof.
  unfold wants_restart. destruct (svc_restart svc); split; try done.
  intros _ ->. discriminate.
Qed.

Lemma monitor_turn_inv SYS oc fuel st w :
  0 ≤ svc_restart_interval_sec svc → svc_max_restarts svc ≤ u32_max →
  monitor_inv (ms_restart_times st) w →
  wp monitor_step (monitor_turn SYS oc fuel svc st) w (λ w' r,
    match r with Some (inl st') => monitor_inv (ms_restart_times st') w' | _ => monitor_good w' end).
Proof.
  intros Hint Hmax Hw. unfold monitor_turn.
  eapply wp_bind_2; [by apply wait_for_exit_inv|].
  intros w1 [code|] [H1 Hcode]; [|by eapply inv_good]. specialize (Hcode code eq_refl).
  apply wp_op. intros ? w2 [Hc2 ->]. apply wp_op. intros ? w3 [Hc3 ->].
  apply wp_op. intros stopping w4 [Hc4 Hw4].
  apply clock_step_mono in Hc2, Hc3, Hc4. simpl in Hc2, Hc3, Hc4.
  assert (H4 : monitor_inv (ms_restart_times st) w4 ∧ m_code w4 = code ∧ m_exit w4 ≤ m_now w4
               ∧ m_stopping w4 = stopping).
  { rewrite Hw4. simpl. destruct Hcode, H1. split_and!; [split; [simpl; lia|done]|done|simpl; lia|done]. }
  clear Hw4. destruct H4 as (H4 & Hcode4 & Hx4 & Hst4).
  destruct stopping; [by eapply inv_good|].
  eapply wp_bind_2; [by apply crash_loop_check_spec|].
  intros w5 [times|] [(Hc5 & Hx5 & Hs5 & Hf5 & Hn5) H5]; [|].
  2: { destruct H4 as (_ & ? & ? & _). unfold monitor_good. simpl. by rewrite Hf5. }
  destruct H5 as [H5 Hpush]. destruct (wants_restart svc code) eqn:Hwants; cbn [negb]; [|by eapply inv_good].
  apply wants_restart_spec in Hwants as [Hno Hfail].
  apply wp_op. intros ? w6 [[Hc6 Hm6] Hw6].
  assert (H6 : restart_due times w6).
  { rewrite Hw6. split; [by apply inv_later|]. simpl. rewrite Hc5, Hx5, Hs5, Hcode4.
    split_and!; try done. lia. }
  clear Hw6. destruct (chained svc code) as [chain|].
  { apply wp_op. intros ? w7 Hs. assert (restart_due times w7) by by eapply (due_quiet (QueueChain _)).
    by eapply due_good. }
  eapply wp_bind_2; [by apply credentials_due|].
  intros w7 [[uid gid]|e] H7; [|by destruct H7].
  destruct (resolve_restart SYS svc) as [rs|e]; [|by eapply due_good].
  eapply wp_bind_2; [by apply relaunch_inv|]. intros w8 [raw|e] H8.
  - apply (wp_keeps_bind _ (monitor_inv times)); [|done|].
    { unfold assign_pid_to_cgroup, is_cgroup_v2. repeat first [progress keeps | by apply inv_quiet]. }
    intros w9 ? H9. apply (wp_keeps_bind _ (monitor_inv times)); [by apply inv_quiet|done|].
    intros w10 ? H10. apply (wp_keeps_bind _ (monitor_inv times)); [by apply inv_quiet|done|].
    intros w11 ? H11. by apply (wp_keeps_bind _ (monitor_inv times)); [apply inv_quiet| |].
  - destruct (arith_u64 oc _); [|by eapply inv_good].
    intros ? w9 Hs. by eapply (inv_quiet (Sleep _)).
Qed.
End policy.

(** C4: the monitor restarts a service as configured: a new process is only started
    when the policy is not [no], after a failure when it is [on-failure], when no
    stop was requested at the last look, and [restart_sec] after the exit was learnt;
    and of the exits that the crash-loop breaker saw within any
    [restart_interval_sec], at most [max_restarts] were answered with a new
    process. *)
Theorem monitor_restarts SYS oc turns fuel svc w :
  0 ≤ svc_restart_interval_sec svc → svc_max_restarts svc ≤ u32_max →
  m_starts w = [] → m_check w ≤ m_now w →
  wp monitor_step (restart_monitor SYS oc turns fuel svc) w (λ w' _,
    Forall (restart_allowed svc) (m_starts w') ∧
    (0 < svc_max_restarts svc → restarts_bounded svc (m_starts w'))).
Proof.
  intros Hint Hmax Hs Hc. unfold restart_monitor. apply wp_op. intros pid w1 [Hc1 ->].
  apply clock_step_mono in Hc1. simpl in Hc1.
  apply (wp_loop_fuel _ (λ st, monitor_inv svc (ms_restart_times st)) (monitor_good svc)).
  - intros st w2. apply inv_good.
  - intros st w2 H2. by apply monitor_turn_inv.
  - unfold monitor_inv, remembers. simpl. rewrite Hs. split_and!; [lia|done|done|].
    intros Hpos. split; [lia|]. by exists [], [].
Qed.

Lemma monitor_restarts_witness :
  let svc := (Service_minimal "web" "/bin/web") <|svc_restart := OnFailure|> <|svc_max_restarts := 5|> in
  let w := {| m_now := 0; m_code := 0; m_exit := 0; m_check := 0; m_stopping := false; m_starts := [] |} in
  wp monitor_step (restart_monitor sys_x86_64 false 100 1000 svc) w (λ w' _,
    Forall (restart_allowed svc) (m_starts w') ∧
    (0 < svc_max_restarts svc → restarts_bounded svc (m_starts w'))).
Proof. intros svc w. apply monitor_restarts; first [reflexivity | vm_compute; discriminate]. Defined.

(** ** Descriptors

    Nothing that the monitor does closes a descriptor: the write end of the log pipe
    of every process it starts stays open in PID 1, where [start] closes it. *)
Lemma monitor_leaks_log_fds SYS oc turns fuel svc (w : Fds) :
  wp leak_step (restart_monitor SYS oc turns fuel svc) w (λ w' _, fd_open w ⊆ fd_open w').
Proof.
  assert (keeps leak_step (λ w', fd_open w ⊆ fd_open w')
            (restart_monitor SYS oc turns fuel svc)) as Hk; [|by apply Hk].
  unfold restart_monitor, monitor_turn, wait_for_exit, proc_exists, fuel_bind, crash_loop_check,
    resolve_credentials, transpose, lookup_uid, lookup_gid, try_bind, relaunch, log_pipe,
    create_service_logger, env_from_file, load_env_file, start_service_as,
    assign_pid_to_cgroup, is_cgroup_v2.
  assert (∀ X (e : Os X), (∀ w x w', leak_step X e w x w' → fd_open w ⊆ fd_open w') →
    keeps leak_step (λ w', fd_open w ⊆ fd_open w') (trigger e)) as Hq.
  { intros X e He. apply keeps_trigger. intros w1 x w2 H1 Hs. etrans; [exact H1|by eapply He]. }
  repeat first [progress keeps | apply Hq; intros [] x []; simpl; unfold with_open; simpl;
    repeat case_match; naive_solver set_solver].
Qed.
