(* ===== verification/Start.v ===== *)
(** * Starting a service

    [ServiceSupervisor::start] of [quantra/src/services/supervisor.rs], in the order
    of the code: conditions, ExecStartPre, credentials, control group, directories,
    IP filter, logger, environment, notify socket, activation sockets, launch, and
    what the parent does once the child runs.  Results that the code only logs are
    dropped here too; the values that it drops at the end of a scope are closed where
    the scope ends.  The threads that it spawns are operations; their bodies are
    [Monitor.restart_monitor], [Helpers.watchdog_thread] and
    [Helpers.healthcheck_thread]. *)

From Stdlib Require Import ZArith Ascii.
From stdpp Require Import base tactics numbers list strings gmap.
From S2P Require Import Prelude RustStr Types CommandLine Seccomp Effects Launch Descriptors Os.
From S2P Require Import IpFilter Cgroup Notify SocketActivation Helpers Stop Spawn.

Local Open Scope string_scope.
Local Open Scope list_scope.
Local Open Scope Z_scope.
Local Open Scope quantra_scope.
Local Open Scope prog_scope.

(** What a call of [start] comes to: a result, or the panic of a checked shift. *)
Inductive StartOutcome :=
| Returned (r : result string unit)
| Panicked.

(** ** Before the service *)

(** SERVICE_CONDITION: paths that must be there, then paths that must not. *)
Fixpoint all_paths (wanted : bool) (paths : list string) : prog Os bool :=
  match paths with
  | [] => Ret true
  | path :: paths =>
      let* present := trigger (PathExists path) in
      if Bool.eqb present wanted then all_paths wanted paths else Ret false
  end.

Definition conditions_met (svc : Service) : prog Os bool :=
  let* present := all_paths true (svc_condition_path_exists svc) in
  if negb present then Ret false else all_paths false (svc_condition_path_not_exists svc).

(** The ExecStartPre commands; [Some] is the error that aborts the start. *)
Definition pre_error (svc : Service) (pre_cmd : string) (status : result string (option Z))
    : option string :=
  match status with
  | Ok (Some 0) => None
  | Ok code =>
      Some ("ExecStartPre '" +:+ pre_cmd +:+ "' failed with exit code "
            +:+ show_int (default (-1) code) +:+ " — aborting start of '"
            +:+ svc_name svc +:+ "'")
  | Err e =>
      Some ("ExecStartPre '" +:+ pre_cmd +:+ "' failed to execute: " +:+ e
            +:+ " — aborting start of '" +:+ svc_name svc +:+ "'")
  end.

Definition exec_start_pre (svc : Service) : prog Os (option string) :=
  for_break (λ pre_cmd,
    let* status := trigger (Status SH ["-c"; pre_cmd]) in
    Ret (pre_error svc pre_cmd status)) (svc_exec_start_pre svc).

(** Without a dynamic user id the service falls back to root. *)
Definition start_credentials (svc : Service)
    : prog Os (result string (option Z * option Z)) :=
  if svc_dynamic_user svc then
    let* r := trigger AllocateDynamicUid in
    Ret match r with
        | Ok (u, g) => Ok (Some u, Some g)
        | Err _ => Ok (None, None)
        end
  else resolve_credentials svc.

(** A result that is only logged. *)
Definition ignore {A} (p : prog Os A) : prog Os unit := p;* Ret tt.

Definition when_some {A} (o : option A) (f : A → prog Os unit) : prog Os unit :=
  match o with Some a => f a | None => Ret tt end.

Section start.
Context (SYS : string → Z) (overflow_checks : bool) (quota_us : string → option Z).

Definition setup_cgroup (svc : Service) : prog Os unit :=
  let name := svc_name svc in
  ignore (create_service_cgroup name);*
  when_some (svc_cgroup_config svc) (λ cgcfg,
    for_each (λ fc, ignore (trigger (WriteFile fc.1 fc.2))) (CgroupConfig_apply cgcfg name));*
  when_some (svc_cpu_quota svc) (λ quota, ignore (apply_cpu_quota quota_us name quota));*
  when_some (svc_tasks_max svc) (λ n, ignore (apply_tasks_max name n));*
  when_some (svc_memory_swap_max svc) (λ swap, ignore (apply_memory_swap_max name swap));*
  for_each (λ dw, ignore (apply_io_device_weight name dw.1 dw.2))
    (map_to_list (svc_io_device_weights svc));*
  for_each (λ dl, ignore (apply_io_device_latency name dl.1 dl.2))
    (map_to_list (svc_io_device_latencies svc)).

(** [filter_map(|s| IpRange::parse(s))]; [None] is the panic of a shift. *)
Fixpoint parse_ranges (l : list string) : option (list IpRange) :=
  match l with
  | [] => Some []
  | s :: l =>
      r ← IpRange_parse overflow_checks s;
      rs ← parse_ranges l;
      Some (option_list r ++ rs)
  end.

Definition notify_server (svc : Service) : prog Os (option NotifyServer) :=
  match svc_notify_type svc with
  | Notify =>
      let* r := NotifyServer_new (svc_name svc) in
      Ret match r with Ok srv => Some srv | Err _ => None end
  | _ => Ret None
  end.

Fixpoint activation_sockets (name : string) (specs : list string)
    : prog Os (list ActivationSocket) :=
  match specs with
  | [] => Ret []
  | spec :: specs =>
      let* socket := open_listen name spec in
      let* rest := activation_sockets name specs in
      Ret match socket with Ok s => s :: rest | Err _ => rest end
  end.

(** The variables of the file, the table of the service over them, then the two
    protocols of the supervisor over both. *)
Definition start_env (svc : Service) (env_overlay : gmap string string)
    (ns : option NotifyServer) (sockets : list ActivationSocket) : gmap string string :=
  let env_overlay := env_with_table svc env_overlay in
  let env_overlay :=
    match ns with
    | Some ns => <["NOTIFY_SOCKET" := ns_socket_path ns]> env_overlay
    | None => env_overlay
    end in
  match sockets with
  | [] => env_overlay
  | _ => fold_left (λ env kv, <[kv.1 := kv.2]> env) (build_listen_env sockets) env_overlay
  end.

(** The configuration that can be invalid, in the order of [start]. *)
Definition resolve_start (svc : Service) : result string Resolved :=
  map_err (λ e, "Service '" +:+ svc_name svc +:+ "': " +:+ e)
    (let? drop := resolve_capability_numbers (svc_drop_capabilities svc) in
     let? denylist := resolve_seccomp_profile_for_service SYS svc in
     let? (cmd, args) := resolve_command_argv (svc_command svc) (svc_args svc) in
     Ok {| rs_cmd := cmd; rs_args := args; rs_drop_capabilities := drop;
           rs_denylist := denylist |}).

(** ** Once the child runs *)

Definition await_ready_socket (fuel : nat) (svc : Service) : prog Os (option unit) :=
  match svc_ready_socket svc with
  | Some ready_socket =>
      fuel* present := wait_for_path fuel ready_socket (from_secs (svc_timeout_start svc)) in
      match svc_socket_alias svc with
      | Some alias_path =>
          if (present : bool) && negb (String.eqb alias_path ready_socket) then
            create_socket_alias alias_path ready_socket;* Ret (Some tt)
          else Ret (Some tt)
      | None => Ret (Some tt)
      end
  | None => Ret (Some tt)
  end.

(** The pid file of a service that goes to the background names the process to
    track. *)
Definition await_daemon (fuel : nat) (svc : Service) : prog Os (option unit) :=
  match svc_notify_type svc, svc_pid_file svc with
  | BgProcess, Some pid_file =>
      fuel* r := wait_for_pid_file fuel pid_file (from_secs (svc_timeout_start svc)) in
      match r with
      | Ok daemon_pid =>
          trigger (StorePid (wrap_i32 daemon_pid));*
          ignore (assign_pid_to_cgroup (svc_name svc) daemon_pid);*
          trigger (RegisterService (svc_name svc) (wrap_i32 daemon_pid) true);*
          Ret (Some tt)
      | Err _ => Ret (Some tt)
      end
  | _, _ => Ret (Some tt)
  end.

Definition await_notify (fuel : nat) (svc : Service) (ns : option NotifyServer)
    : prog Os (option unit) :=
  match ns with
  | Some ns =>
      fuel* _ := wait_for_ready fuel ns (from_secs (svc_timeout_start svc)) in
      NotifyServer_drop ns;*
      Ret (Some tt)
  | None => Ret (Some tt)
  end.

(** The monitor's thread is the one whose failure is an error. *)
Definition spawn_monitor (svc : Service) : prog Os (result string unit) :=
  if bool_decide (svc_restart svc ≠ RestartPolicy_No) then
    let* r := trigger (SpawnThread (Monitor_thread svc)) in
    Ret (map_err (λ e, "Cannot spawn monitor for '" +:+ svc_name svc +:+ "': " +:+ e) r)
  else Ret (Ok tt).

Definition spawn_watchers (svc : Service) : prog Os unit :=
  (if 0 <? svc_watchdog_sec svc then
     ignore (trigger (SpawnThread (Watchdog_thread (svc_name svc) (svc_watchdog_sec svc))))
   else Ret tt);*
  when_some (svc_healthcheck svc) (λ hc,
    ignore (trigger (SpawnThread (Health_thread (svc_name svc) hc)))).

Definition exec_start_post (svc : Service) : prog Os unit :=
  for_each (λ post_cmd, ignore (trigger (Status SH ["-c"; post_cmd]))) (svc_exec_start_post svc).

Definition drop_sockets (sockets : list ActivationSocket) : prog Os unit :=
  for_each (λ s, trigger (CloseFd (as_fd s))) sockets.

Definition drop_notify (ns : option NotifyServer) : prog Os unit :=
  when_some ns NotifyServer_drop.

Definition after_fork (fuel : nat) (svc : Service) (pid : Z) (ns : option NotifyServer)
    (sockets : list ActivationSocket) : prog Os (option StartOutcome) :=
  let pid_raw := wrap_u32 pid in
  ignore (assign_pid_to_cgroup (svc_name svc) pid_raw);*
  fuel* _ := await_ready_socket fuel svc in
  trigger (StorePid pid);*
  trigger (StoreRunning true);*
  trigger (RegisterService (svc_name svc) (wrap_i32 pid_raw) true);*
  fuel* _ := await_daemon fuel svc in
  if svc_oneshot svc then
    fuel* _ := wait_for_exit fuel pid_raw in
    trigger (StoreRunning false);*
    trigger (RegisterService (svc_name svc) (wrap_i32 pid_raw) false);*
    drop_sockets sockets;*
    drop_notify ns;*
    Ret (Some (Returned (Ok tt)))
  else
    fuel* _ := await_notify fuel svc ns in
    let* monitor := spawn_monitor svc in
    match monitor with
    | Err e => drop_sockets sockets;* Ret (Some (Returned (Err e)))
    | Ok _ =>
        spawn_watchers svc;*
        exec_start_post svc;*
        drop_sockets sockets;*
        Ret (Some (Returned (Ok tt)))
    end.

(** From the logger on. *)
Definition launch_service (fuel : nat) (svc : Service) (uid gid : option Z)
    : prog Os (option StartOutcome) :=
  let* log_write_fd := log_pipe svc in
  let* env_overlay := env_from_file svc in
  let* ns := notify_server svc in
  let* sockets := activation_sockets (svc_name svc) (svc_socket_listen svc) in
  let env := start_env svc env_overlay ns sockets in
  let fails e := drop_sockets sockets;* drop_notify ns;* Ret (Some (Returned (Err e))) in
  match resolve_start svc with
  | Err e => fails e
  | Ok rs =>
      let* r := start_service_as
                  (launch SYS svc rs uid gid (Some env) log_write_fd (as_fd <$> sockets)) in
      match r with
      | Err e => fails e
      | Ok pid =>
          when_some log_write_fd (λ wfd, trigger (CloseFd wfd));*
          after_fork fuel svc pid ns sockets
      end
  end.

(** [ServiceSupervisor::start]. *)
Definition start (fuel : nat) (svc : Service) : prog Os (option StartOutcome) :=
  trigger (StoreStop false);*
  trigger (StoreRunning false);*
  let* met := conditions_met svc in
  if negb met then Ret (Some (Returned (Ok tt)))
  else
    let* pre := exec_start_pre svc in
    match pre with
    | Some e => Ret (Some (Returned (Err e)))
    | None =>
        let* creds := start_credentials svc in
        match creds with
        | Err e => Ret (Some (Returned (Err e)))
        | Ok (uid, gid) =>
            setup_cgroup svc;*
            ignore (trigger (SetupServiceDirectories svc uid gid));*
            match parse_ranges (svc_ip_address_deny svc), parse_ranges (svc_ip_address_allow svc) with
            | Some deny, Some allow =>
                ignore (apply_ip_filter (svc_name svc) deny allow);*
                launch_service fuel svc uid gid
            | _, _ => Ret (Some Panicked)
            end
        end
    end.
End start.

(** ** Descriptors *)

Definition socket_fds (sockets : list ActivationSocket) : gset Z :=
  list_to_set (as_fd <$> sockets).
Definition notify_fds (ns : option NotifyServer) : gset Z :=
  match ns with Some ns => {[ns_socket ns]} | None => ∅ end.
Definition log_fds (log_write_fd : option Z) : gset Z :=
  match log_write_fd with Some fd => {[fd]} | None => ∅ end.

(** Code that opens and closes nothing. *)
Definition fd_neutral {A} (p : prog Os A) : Prop := ∀ w, keeps leak_step (λ w', w' = w) p.

Lemma fd_neutral_op {X} (e : Os X) :
  (∀ w x w', leak_step X e w x w' → w' = w) → fd_neutral (trigger e).
Proof. intros He w. apply keeps_trigger. intros w1 x w2 -> Hs. by apply He in Hs. Qed.

Ltac fd_neutral :=
  intros ?; unfold ignore, when_some, try_bind, fuel_bind;
  repeat first [progress keeps | by apply fd_neutral_op | done].

Lemma wp_neutral_bind {A B} (p : prog Os A) (k : A → prog Os B) w Q :
  fd_neutral p → (∀ a, wp leak_step (k a) w Q) → wp leak_step (prog_bind p k) w Q.
Proof.
  intros Hp Hk. apply (wp_keeps_bind _ (λ w', w' = w)); [apply Hp|done|].
  intros w' a ->. apply Hk.
Qed.

Lemma wp_neutral {A} (p : prog Os A) w : fd_neutral p → wp leak_step p w (λ w' _, w' = w).
Proof. intros Hp. by apply Hp. Qed.

Lemma wp_neutral_fuel {A B} (p : prog Os (option A)) (k : A → prog Os (option B)) w (Q : Fds → option B → Prop) :
  fd_neutral p → Q w None → (∀ a, wp leak_step (k a) w Q) → wp leak_step (fuel_bind p k) w Q.
Proof. intros Hp HN Hk. apply wp_neutral_bind; [done|]. intros [a|]; [apply Hk|done]. Qed.

Lemma conditions_met_neutral svc : fd_neutral (conditions_met svc).
Proof.
  assert (∀ b l, fd_neutral (all_paths b l)) as H.
  { intros b l. induction l as [|p l IH]; cbn [all_paths]; [fd_neutral|].
    intros w. apply keeps_bind; [by apply fd_neutral_op|]. intros x.
    destruct (Bool.eqb x b); [apply IH|apply keeps_ret]. }
  intros w. unfold conditions_met. apply keeps_bind; [apply H|]. intros []; [apply H|apply keeps_ret].
Qed.

Lemma start_credentials_neutral svc : fd_neutral (start_credentials svc).
Proof.
  unfold start_credentials, resolve_credentials, transpose, lookup_uid, lookup_gid. fd_neutral.
Qed.

Lemma setup_cgroup_neutral quota_us svc : fd_neutral (setup_cgroup quota_us svc).
Proof.
  unfold setup_cgroup, create_service_cgroup, apply_cpu_quota, apply_tasks_max,
    apply_memory_swap_max, apply_io_device_weight, apply_io_device_latency, write_limit,
    get_device_major_minor, is_cgroup_v2.
  fd_neutral.
Qed.

Lemma env_from_file_neutral svc : fd_neutral (env_from_file svc).
Proof. unfold env_from_file, load_env_file. fd_neutral. Qed.

Lemma assign_neutral name pid : fd_neutral (assign_pid_to_cgroup name pid).
Proof. unfold assign_pid_to_cgroup, is_cgroup_v2. fd_neutral. Qed.

Lemma await_ready_socket_neutral fuel svc : fd_neutral (await_ready_socket fuel svc).
Proof.
  unfold await_ready_socket, wait_for_path, create_socket_alias. fd_neutral.
Qed.

Lemma await_daemon_neutral fuel svc : fd_neutral (await_daemon fuel svc).
Proof.
  unfold await_daemon, wait_for_pid_file, proc_exists, assign_pid_to_cgroup, is_cgroup_v2.
  fd_neutral.
Qed.

Lemma wait_for_exit_neutral fuel pid : fd_neutral (wait_for_exit fuel pid).
Proof. unfold wait_for_exit, proc_exists. fd_neutral. Qed.

Lemma wait_for_ready_neutral fuel ns t : fd_neutral (wait_for_ready fuel ns t).
Proof. unfold wait_for_ready, recv_turn. fd_neutral. Qed.

Lemma threads_neutral svc : fd_neutral (spawn_monitor svc) ∧ fd_neutral (spawn_watchers svc).
Proof. unfold spawn_monitor, spawn_watchers. split; fd_neutral. Qed.

Lemma exec_hooks_neutral svc : fd_neutral (exec_start_pre svc) ∧ fd_neutral (exec_start_post svc).
Proof. unfold exec_start_pre, exec_start_post. split; fd_neutral. Qed.

(** The read end of a log pipe, in the hands of its thread, or lost. *)
Inductive log_read_end (w w' : Fds) : gset Z → Prop :=
| No_log : fd_log w' = fd_log w → fd_lost w' = fd_lost w → log_read_end w w' ∅
| Log_owned rfd :
    rfd ∉ fd_open w → fd_log w' = {[rfd]} ∪ fd_log w → fd_lost w' = fd_lost w → log_read_end w w' {[rfd]}
| Log_lost rfd :
    rfd ∉ fd_open w → fd_log w' = fd_log w → fd_lost w' = {[rfd]} ∪ fd_lost w → log_read_end w w' {[rfd]}.

Lemma log_read_end_open w w' s rest : log_read_end w w' rest → log_read_end w (with_open w' s) rest.
Proof. destruct 1; [by apply No_log|by apply Log_owned|by apply Log_lost]. Qed.

Lemma log_read_end_disjoint w w' rest : log_read_end w w' rest → rest ## fd_open w.
Proof. destruct 1; set_solver. Qed.

Lemma log_pipe_fds svc w :
  wp leak_step (log_pipe svc) w (λ w' r, ∃ rest,
    log_read_end w w' rest ∧ fd_open w' = log_fds r ∪ (rest ∪ fd_open w) ∧ log_fds r ## rest ∪ fd_open w).
Proof.
  assert (∀ r, log_fds r = ∅ → ∃ rest, log_read_end w w rest ∧
    fd_open w = log_fds r ∪ (rest ∪ fd_open w) ∧ log_fds r ## rest ∪ fd_open w) as Hno.
  { intros r Hr. exists ∅. split; [by apply No_log|]. rewrite Hr. set_solver. }
  unfold log_pipe, create_service_logger. destruct (svc_console svc); [by apply (Hno None)|].
  apply wp_bind, wp_op. intros dir w1 ->. destruct dir as [u|]; [|by apply (Hno None)].
  apply wp_op. intros [[rfd wfd]|] w2; simpl; [|intros -> ? w3 ->; by apply (Hno None)].
  intros (Hr & Hw & Hne & ->) t w3 ->. exists {[rfd]}.
  destruct t; cbn; (split; [|set_solver]); [by apply Log_owned|by apply Log_lost].
Qed.

(** What opened the descriptors [s] that were not open. *)
Definition opens (w w' : Fds) (s : gset Z) : Prop := w' = with_open w (s ∪ fd_open w) ∧ s ## fd_open w.

Lemma opens_none w : opens w w ∅.
Proof. split; [|set_solver]. symmetry. apply with_open_same. set_solver. Qed.

Lemma notify_server_fds svc w :
  wp leak_step (notify_server svc) w (λ w' r, opens w w' (notify_fds r)).
Proof.
  pose proof (opens_none w) as H0.
  unfold notify_server, NotifyServer_new. destruct (svc_notify_type svc); [exact H0| |exact H0].
  apply wp_bind, wp_op. intros dir w1 ->. destruct dir as [u|]; [|exact H0].
  apply wp_op. intros ? w2 ->. apply wp_op. intros [fd|] w3; simpl; [|by intros ->].
  intros [Hfd ->]. split; [done|set_solver].
Qed.

Lemma activation_sockets_fds name specs w :
  wp leak_step (activation_sockets name specs) w (λ w' r, opens w w' (socket_fds r)).
Proof.
  revert w. induction specs as [|spec specs IH]; intros w; [apply opens_none|].
  cbn [activation_sockets].
  eapply (wp_bind_2 _ _ _ _ _ (λ w' r, opens w w' (match r with Ok s => {[as_fd s]} | Err _ => ∅ end))).
  { assert (∀ X (mk : Z → ActivationSocket) (e : X) (r : result string Z) w1,
      (∀ fd, as_fd (mk fd) = fd) →
      match r with Ok fd => fd ∉ fd_open w ∧ w1 = with_open w ({[fd]} ∪ fd_open w) | Err _ => w1 = w end →
      opens w w1 (match r with Ok fd => {[as_fd (mk fd)]} | Err _ => ∅ end)) as Hb.
    { intros X mk e [fd|err] w1 Hmk; [rewrite Hmk; intros [? ->]; split; [done|set_solver]|intros ->; apply opens_none]. }
    unfold open_listen, new_unix_stream, new_tcp. destruct (strip_prefix "unix:" spec).
    - apply wp_op. intros ? w1 ->. apply wp_op. intros [fd|] w2; simpl; [|intros ->; apply opens_none].
      intros [? ->]. split; [done|set_solver].
    - destruct (strip_prefix "tcp:" spec); [|apply opens_none]. apply wp_op.
      intros [fd|] w2; simpl; [|intros ->; apply opens_none]. intros [? ->]. split; [done|set_solver]. }
  intros w1 socket [-> Hs]. eapply wp_bind_2; [apply IH|]. intros w2 rest [-> Hd]. cbn [fd_open with_open wp] in *.
  destruct socket as [s|e].
  - unfold socket_fds in *. rewrite fmap_cons. split; [|set_solver].
    unfold with_open. cbn. f_equal. set_solver.
  - split; [|set_solver]. unfold with_open. cbn. f_equal. set_solver.
Qed.

Lemma drop_sockets_fds sockets w :
  wp leak_step (drop_sockets sockets) w (λ w' _, w' = with_open w (fd_open w ∖ socket_fds sockets)).
Proof.
  unfold drop_sockets. revert w. induction sockets as [|s l IH]; intros w.
  { symmetry. apply with_open_same. set_solver. }
  cbn [for_each]. apply wp_op. intros ? w1 ->. eapply wp_mono; [|apply IH].
  intros w2 _ ->. assert (socket_fds (s :: l) = {[as_fd s]} ∪ socket_fds l) as -> by done.
  unfold with_open. cbn. f_equal. set_solver.
Qed.

Lemma drop_notify_fds ns w :
  wp leak_step (drop_notify ns) w (λ w' _, w' = with_open w (fd_open w ∖ notify_fds ns)).
Proof.
  unfold drop_notify, when_some, NotifyServer_drop. destruct ns as [ns|].
  - apply wp_op. intros ? w1 ->. by intros ? w2 ->.
  - symmetry. apply with_open_same. set_solver.
Qed.

Lemma after_fork_fds fuel svc pid ns sockets w :
  wp leak_step (after_fork fuel svc pid ns sockets) w (λ w' r,
    r = None ∨ w' = with_open w (fd_open w ∖ socket_fds sockets ∖ notify_fds ns)).
Proof.
  unfold after_fork.
  apply wp_neutral_bind; [unfold ignore; intros ?; apply keeps_bind; [apply assign_neutral|intros ?; apply keeps_ret]|].
  intros _. apply wp_neutral_fuel; [apply await_ready_socket_neutral|by left|]. intros _.
  do 3 (apply wp_neutral_bind; [by apply fd_neutral_op|]; intros _).
  apply wp_neutral_fuel; [apply await_daemon_neutral|by left|]. intros _.
  destruct (svc_oneshot svc).
  - apply wp_neutral_fuel; [apply wait_for_exit_neutral|by left|]. intros _.
    do 2 (apply wp_neutral_bind; [by apply fd_neutral_op|]; intros _).
    eapply wp_bind_2; [apply drop_sockets_fds|]. intros w1 _ ->.
    eapply wp_bind_2; [apply drop_notify_fds|]. intros w2 _ ->. by right.
  - assert (Hns : wp leak_step (await_notify fuel svc ns) w (λ w' r,
      r = None ∨ w' = with_open w (fd_open w ∖ notify_fds ns))).
    { unfold await_notify. destruct ns as [ns|]; [|simpl; right; symmetry; apply with_open_same; set_solver].
      apply wp_neutral_fuel; [apply wait_for_ready_neutral|by left|]. intros _.
      eapply wp_bind_2; [apply (drop_notify_fds (Some ns))|]. intros w1 _ ->. by right. }
    unfold fuel_bind at 1. eapply wp_bind_2; [exact Hns|]. simpl.
    intros w1 [u|] [?| ->]; [done| |by left..].
    apply wp_neutral_bind; [apply threads_neutral|]. intros [u'|e].
    + apply wp_neutral_bind; [apply threads_neutral|]. intros _.
      apply wp_neutral_bind; [apply exec_hooks_neutral|]. intros _.
      eapply wp_bind_2; [apply drop_sockets_fds|]. intros w2 _ ->. right. unfold with_open. cbn. f_equal. set_solver.
    + eapply wp_bind_2; [apply drop_sockets_fds|]. intros w2 _ ->. right. unfold with_open. cbn. f_equal. set_solver.
Qed.

(** What [start] leaves open: the read end of the log pipe, and when it fails between the
    creation of the pipe and the fork, the write end too. *)
Definition start_leaves (w w' : Fds) (r : option StartOutcome) : Prop :=
  match r with
  | Some (Returned (Err _)) => ∃ rest, log_read_end w w' rest ∧
      (fd_open w' = rest ∪ fd_open w ∨
       ∃ wfd, wfd ∉ rest ∪ fd_open w ∧ fd_open w' = {[wfd]} ∪ (rest ∪ fd_open w))
  | Some _ => ∃ rest, log_read_end w w' rest ∧ fd_open w' = rest ∪ fd_open w
  | None => True
  end.

Lemma start_leaves_nothing w r : start_leaves w w r.
Proof.
  destruct r as [[[u|e]|]|]; try done; exists ∅; (split; [by apply No_log|]); [|left|]; set_solver.
Qed.

Lemma launch_service_fds SYS fuel svc uid gid w :
  wp leak_step (launch_service SYS fuel svc uid gid) w (start_leaves w).
Proof.
  unfold launch_service.
  eapply wp_bind_2; [apply log_pipe_fds|]. intros w1 log (rest & Hrest & Ho & Hl).
  apply wp_neutral_bind; [apply env_from_file_neutral|]. intros env.
  eapply wp_bind_2; [apply notify_server_fds|]. intros w2 ns [-> Hn].
  eapply wp_bind_2; [apply activation_sockets_fds|]. intros w3 socks [-> Hs]. cbn [fd_open with_open] in *.
  set (all := socket_fds socks ∪ (notify_fds ns ∪ fd_open w1)) in *.
  assert (Hfail : ∀ e, wp leak_step
    (drop_sockets socks;* drop_notify ns;* Ret (Some (Returned (Err e))))
    (with_open w1 all) (start_leaves w)).
  { intros e. eapply wp_bind_2; [apply drop_sockets_fds|]. intros w4 _ ->.
    eapply wp_bind_2; [apply drop_notify_fds|]. intros w5 _ ->. exists rest. cbn [fd_open with_open].
    split; [by repeat apply log_read_end_open|].
    assert (((all ∖ socket_fds socks) ∖ notify_fds ns) = log_fds log ∪ (rest ∪ fd_open w)) as -> by set_solver.
    destruct log as [wfd|]; simpl in *; [right; exists wfd; split; set_solver|left; set_solver]. }
  destruct (resolve_start SYS svc) as [rs|e]; [|apply Hfail].
  apply wp_neutral_bind.
  { unfold start_service_as. destruct (prepare _); [by apply fd_neutral_op|fd_neutral]. }
  intros [pid|e]; [|apply Hfail].
  assert (Hclose : wp leak_step (when_some log (λ wfd, trigger (CloseFd wfd))) (with_open w1 all)
    (λ w' _, w' = with_open w1 (socket_fds socks ∪ (notify_fds ns ∪ (rest ∪ fd_open w))))).
  { destruct log as [wfd|]; simpl in *; [intros ? w4 ->|]; unfold with_open; cbn; f_equal; set_solver. }
  eapply wp_bind_2; [exact Hclose|]. intros w4 _ ->.
  eapply wp_mono; [|apply after_fork_fds]. intros w5 r Hr.
  destruct Hr as [->| ->]; [done|].
  assert (Hw : fd_open (with_open (with_open w1 (socket_fds socks ∪ (notify_fds ns ∪ (rest ∪ fd_open w))))
    ((socket_fds socks ∪ (notify_fds ns ∪ (rest ∪ fd_open w))) ∖ socket_fds socks ∖ notify_fds ns)) = rest ∪ fd_open w)
    by (cbn; set_solver).
  destruct r as [[[u|e]|]|]; simpl; try done; (exists rest; split; [by repeat apply log_read_end_open|]); [exact Hw|left; exact Hw|exact Hw].
Qed.


(** ** What a start comes to *)

Inductive StartEvent :=
| Ran (cmd : string) (status : result string (option Z))
| Launched (cfg : ServiceLaunch) (r : result string Z).

Record StartWorld := {
  t_trace : list StartEvent;
  t_pid : Z;
  t_running : bool;
}.

Definition start_effect : ∀ X, Os X → X → StartWorld → StartWorld :=
  λ X e, match e in Os X return X → StartWorld → StartWorld with
  | Status _ ["-c"; c] => λ st w,
      {| t_trace := t_trace w ++ [Ran c st]; t_pid := t_pid w; t_running := t_running w |}
  | Fork cfg _ => λ r w,
      {| t_trace := t_trace w ++ [Launched cfg r]; t_pid := t_pid w; t_running := t_running w |}
  | StorePid pid => λ _ w,
      {| t_trace := t_trace w; t_pid := pid; t_running := t_running w |}
  | StoreRunning b => λ _ w,
      {| t_trace := t_trace w; t_pid := t_pid w; t_running := b |}
  | _ => λ _ w, w
  end.

(** The condition paths are there or not as [exists_] says; nothing else is known. *)
Definition start_answer (conds : list string) (exists_ : string → bool) : ∀ X, Os X → X → Prop :=
  λ X e, match e in Os X return X → Prop with
  | PathExists p => λ x, p ∈ conds → x = exists_ p
  | _ => λ _, True
  end.

Definition start_step (conds : list string) (exists_ : string → bool) :
    ∀ X, Os X → StartWorld → X → StartWorld → Prop :=
  λ X e w x w', start_answer conds exists_ X e x ∧ w' = start_effect X e x w.

Definition cond_paths (svc : Service) : list string :=
  svc_condition_path_exists svc ++ svc_condition_path_not_exists svc.

Section outcome.
Context (SYS : string → Z) (svc : Service) (exists_ : string → bool).

Definition conditions_hold : bool :=
  forallb exists_ (svc_condition_path_exists svc) &&
  forallb (λ p, negb (exists_ p)) (svc_condition_path_not_exists svc).

Definition ran_ok (c : string) : StartEvent := Ran c (Ok (Some 0)).
Definition ran_all (cmds : list string) (trace : list StartEvent) : Prop :=
  ∃ sts, length sts = length cmds ∧ trace = zip_with Ran cmds sts.

(** The launch is that of the definition; a configured user or group is resolved,
    never dropped; the table of the service is in the environment, the variables of
    the supervisor's own protocols apart. *)
Definition launch_of (cfg : ServiceLaunch) : Prop :=
  ∃ rs uid gid env log fds, resolve_start SYS svc = Ok rs ∧
    cfg = launch SYS svc rs uid gid (Some env) log fds ∧
    (svc_dynamic_user svc = false →
       (is_Some uid ↔ is_Some (svc_user svc)) ∧ (is_Some gid ↔ is_Some (svc_group svc))) ∧
    (∀ table k v, svc_environment svc = Some table → table !! k = Some v →
       k ∉ ["NOTIFY_SOCKET"; "LISTEN_FDS"; "LISTEN_FDNAMES"] → env !! k = Some v).

(** The abstract specification of [start]: trace, pid, running flag, result. *)
Inductive start_outcome : StartWorld → option StartOutcome → Prop :=
| Start_unmet pid :
    conditions_hold = false →
    start_outcome {| t_trace := []; t_pid := pid; t_running := false |} (Some (Returned (Ok tt)))
| Start_pre_failed pid pre c rest st e :
    conditions_hold = true → svc_exec_start_pre svc = pre ++ c :: rest → st ≠ Ok (Some 0) →
    start_outcome {| t_trace := (ran_ok <$> pre) ++ [Ran c st]; t_pid := pid; t_running := false |}
      (Some (Returned (Err e)))
| Start_refused pid r :
    conditions_hold = true → r ≠ Returned (Ok tt) →
    start_outcome {| t_trace := ran_ok <$> svc_exec_start_pre svc; t_pid := pid; t_running := false |}
      (Some r)
| Start_fork_failed pid cfg e :
    conditions_hold = true → launch_of cfg →
    start_outcome {| t_trace := (ran_ok <$> svc_exec_start_pre svc) ++ [Launched cfg (Err e)];
                     t_pid := pid; t_running := false |} (Some (Returned (Err e)))
| Start_running cfg pid w r post :
    conditions_hold = true → launch_of cfg →
    t_trace w = (ran_ok <$> svc_exec_start_pre svc) ++ Launched cfg (Ok pid) :: post →
    match r with
    | Some (Returned (Ok _)) =>
        t_running w = negb (svc_oneshot svc) ∧
        (svc_notify_type svc ≠ BgProcess → t_pid w = pid) ∧
        ran_all (if svc_oneshot svc then [] else svc_exec_start_post svc) post
    | Some (Returned (Err _)) => svc_restart svc ≠ RestartPolicy_No ∧ post = []
    | Some Panicked => False
    | None => post = []
    end →
    start_outcome w r.

Notation step := (start_step (cond_paths svc) exists_).

(** Code that does nothing that counts. *)
Definition start_neutral {A} (p : prog Os A) : Prop := ∀ w, keeps step (λ w', w' = w) p.

Lemma start_neutral_op {X} (e : Os X) :
  (∀ x w, start_effect X e x w = w) → start_neutral (trigger e).
Proof. intros He w. apply keeps_trigger. intros w1 x w2 -> [_ ->]. apply He. Qed.

Lemma wp_start_bind {A B} (p : prog Os A) (k : A → prog Os B) w Q :
  start_neutral p → (∀ a, wp step (k a) w Q) → wp step (prog_bind p k) w Q.
Proof.
  intros Hp Hk. apply (wp_keeps_bind _ (λ w', w' = w)); [apply Hp|done|].
  intros w' a ->. apply Hk.
Qed.

Lemma wp_start_fuel {A B} (p : prog Os (option A)) (k : A → prog Os (option B)) w
    (Q : StartWorld → option B → Prop) :
  start_neutral p → Q w None → (∀ a, wp step (k a) w Q) → wp step (fuel_bind p k) w Q.
Proof. intros Hp HN Hk. apply wp_start_bind; [done|]. intros [a|]; [apply Hk|done]. Qed.
End outcome.

Ltac start_neutral :=
  intros ?; unfold ignore, when_some, try_bind, fuel_bind;
  repeat first [progress keeps | by apply start_neutral_op | done].

Section outcome_steps.
Context (svc : Service) (exists_ : string → bool).
Notation step := (start_step (cond_paths svc) exists_).
Notation neutral := (start_neutral svc exists_).

Lemma all_paths_spec b l w :
  (∀ p, p ∈ l → p ∈ cond_paths svc) →
  wp step (all_paths b l) w (λ w' r, w' = w ∧ r = forallb (λ p, Bool.eqb (exists_ p) b) l).
Proof.
  induction l as [|p l IH]; intros Hl; [done|]. cbn [all_paths].
  apply wp_op. intros x w1 [Hx ->]. rewrite (Hx (Hl p ltac:(left))). simpl.
  destruct (Bool.eqb (exists_ p) b); [|done]. apply IH. intros q Hq. apply Hl. by right.
Qed.

Lemma conditions_met_spec w :
  wp step (conditions_met svc) w (λ w' r, w' = w ∧ r = conditions_hold svc exists_).
Proof.
  unfold conditions_met, conditions_hold.
  eapply wp_bind_2; [apply all_paths_spec; unfold cond_paths; set_solver|]. simpl.
  intros w1 r [-> Hr]. assert (Hr' : r = forallb exists_ (svc_condition_path_exists svc)).
  { rewrite Hr. apply forallb_ext. intros p. by destruct (exists_ p). }
  clear Hr. rewrite <- Hr'. destruct r; [|done]. simpl.
  eapply wp_mono; [|apply all_paths_spec; unfold cond_paths; set_solver].
  simpl. intros w2 r [-> ->]. split; [done|]. apply forallb_ext. intros p. by destruct (exists_ p).
Qed.

(** The commands before the start run in order, up to the first that fails. *)
Lemma exec_start_pre_spec w :
  wp step (exec_start_pre svc) w (λ w' r,
    t_pid w' = t_pid w ∧ t_running w' = t_running w ∧
    match r with
    | None => t_trace w' = t_trace w ++ (ran_ok <$> svc_exec_start_pre svc)
    | Some _ => ∃ pre c rest st, svc_exec_start_pre svc = pre ++ c :: rest ∧ st ≠ Ok (Some 0) ∧
        t_trace w' = t_trace w ++ (ran_ok <$> pre) ++ [Ran c st]
    end).
Proof.
  unfold exec_start_pre. revert w. generalize (svc_exec_start_pre svc) as cmds.
  induction cmds as [|c cmds IH]; intros w; [simpl; by rewrite app_nil_r|]. cbn [for_break].
  apply wp_bind, wp_op. intros st w1 [_ Hw1]. cbn [start_effect] in Hw1.
  destruct (decide (st = Ok (Some 0))) as [->|Hst].
  - simpl. eapply wp_mono; [|apply IH]. rewrite Hw1. simpl.
    intros w2 [e|] (Hp & Hr & Ht); (split; [done|split; [done|]]).
    + destruct Ht as (pre & c' & rest & st & -> & Hst & ->).
      exists (c :: pre), c', rest, st. split_and!; [done..|]. by rewrite <- app_assoc.
    + rewrite Ht. by rewrite <- app_assoc.
  - destruct (pre_error svc c st) as [e|] eqn:He.
    + cbn [wp]. rewrite Hw1. simpl. split_and!; [done..|]. by exists [], c, cmds, st.
    + destruct st as [[[]|]|]; naive_solver.
Qed.

Lemma exec_start_post_spec w :
  wp step (exec_start_post svc) w (λ w' _, t_pid w' = t_pid w ∧ t_running w' = t_running w ∧
    ∃ post, ran_all (svc_exec_start_post svc) post ∧ t_trace w' = t_trace w ++ post).
Proof.
  unfold exec_start_post. revert w. generalize (svc_exec_start_post svc) as cmds.
  induction cmds as [|c cmds IH]; intros w; cbn [for_each].
  { simpl. split_and!; [done..|]. exists []. split; [by exists []|by rewrite app_nil_r]. }
  unfold ignore. apply wp_bind, wp_op. intros st w1 [_ Hw1]. cbn [start_effect] in Hw1. simpl.
  eapply wp_mono; [|apply IH]. rewrite Hw1. simpl.
  intros w2 _ (? & ? & post & (sts & Hl & ->) & ->). split_and!; [done..|].
  exists (Ran c st :: zip_with Ran cmds sts). split; [|by rewrite <- app_assoc].
  exists (st :: sts). split; [by f_equal/=|done].
Qed.

Lemma setup_cgroup_start quota_us : neutral (setup_cgroup quota_us svc).
Proof.
  unfold setup_cgroup, create_service_cgroup, apply_cpu_quota, apply_tasks_max,
    apply_memory_swap_max, apply_io_device_weight, apply_io_device_latency, write_limit,
    get_device_major_minor, is_cgroup_v2.
  start_neutral.
Qed.

Lemma ip_filter_start name deny allow : neutral (apply_ip_filter name deny allow).
Proof.
  unfold apply_ip_filter, attach_bpf_ip_filter, apply_nft_ip_filter. start_neutral.
Qed.

Lemma log_pipe_start : neutral (log_pipe svc).
Proof. unfold log_pipe, create_service_logger. start_neutral. Qed.

Lemma close_log_start (log : option Z) : neutral (when_some log (λ wfd, trigger (CloseFd wfd))).
Proof. destruct log; start_neutral. Qed.

Lemma setup_dirs_start uid gid :
  neutral (ignore (trigger (SetupServiceDirectories svc uid gid))).
Proof. start_neutral. Qed.

Lemma env_from_file_start : neutral (env_from_file svc).
Proof. unfold env_from_file, load_env_file. start_neutral. Qed.

Lemma notify_server_start : neutral (notify_server svc).
Proof. unfold notify_server, NotifyServer_new. start_neutral. Qed.

Lemma activation_sockets_start name specs : neutral (activation_sockets name specs).
Proof.
  induction specs as [|spec specs IH]; [start_neutral|]. cbn [activation_sockets].
  intros w. apply keeps_bind; [|intros s; apply keeps_bind; [apply IH|intros ?; apply keeps_ret]].
  revert w. unfold open_listen, new_unix_stream, new_tcp. start_neutral.
Qed.

Lemma drops_start sockets ns : neutral (drop_sockets sockets) ∧ neutral (drop_notify ns).
Proof. unfold drop_sockets, drop_notify, NotifyServer_drop. split; start_neutral. Qed.

Lemma assign_start name pid : neutral (assign_pid_to_cgroup name pid).
Proof. unfold assign_pid_to_cgroup, is_cgroup_v2. start_neutral. Qed.

Lemma await_ready_socket_start fuel : neutral (await_ready_socket fuel svc).
Proof. unfold await_ready_socket, wait_for_path, create_socket_alias. start_neutral. Qed.

Lemma wait_for_exit_start fuel pid : neutral (wait_for_exit fuel pid).
Proof. unfold wait_for_exit, proc_exists. start_neutral. Qed.

Lemma await_notify_start fuel ns : neutral (await_notify fuel svc ns).
Proof.
  unfold await_notify, wait_for_ready, recv_turn, NotifyServer_drop. start_neutral.
Qed.

Lemma threads_start : neutral (spawn_monitor svc) ∧ neutral (spawn_watchers svc).
Proof. unfold spawn_monitor, spawn_watchers. split; start_neutral. Qed.
End outcome_steps.

(** The table of the service is in the environment. *)
Lemma start_env_table svc env ns sockets table k v :
  svc_environment svc = Some table → table !! k = Some v →
  k ∉ ["NOTIFY_SOCKET"; "LISTEN_FDS"; "LISTEN_FDNAMES"] →
  start_env svc env ns sockets !! k = Some v.
Proof.
  intros Ht Hk Hn. rewrite !not_elem_of_cons in Hn. destruct Hn as (Hn1 & Hn2 & Hn3 & _).
  unfold start_env, env_with_table, extend. rewrite Ht.
  assert (Hm : ∀ m : gmap string string, m !! k = Some v →
    match sockets with [] => m
    | _ => fold_left (λ env kv, <[kv.1 := kv.2]> env) (build_listen_env sockets) m end !! k = Some v).
  { intros m Hmk. destruct sockets; [done|]. cbn [build_listen_env fold_left fst snd].
    by rewrite !lookup_insert_ne by done. }
  apply Hm. destruct ns; [rewrite lookup_insert_ne by done|]; by apply lookup_union_Some_l.
Qed.

Section credentials.
Context (svc : Service) (exists_ : string → bool).
Notation step := (start_step (cond_paths svc) exists_).

(** What the credentials are. *)
Lemma start_credentials_spec w :
  wp step (start_credentials svc) w (λ w' r, w' = w ∧
    ∀ uid gid, r = Ok (uid, gid) → svc_dynamic_user svc = false →
      (is_Some uid ↔ is_Some (svc_user svc)) ∧ (is_Some gid ↔ is_Some (svc_group svc))).
Proof.
  unfold start_credentials. destruct (svc_dynamic_user svc).
  { apply wp_op. intros r w1 [_ ->]. by split. }
  assert (Htr : ∀ o (f : string → prog Os (result string Z)) w0,
    (∀ s, start_neutral svc exists_ (f s)) →
    wp step (transpose f o) w0 (λ w' r, w' = w0 ∧ ∀ x, r = Ok x → is_Some x ↔ is_Some o)).
  { intros [s|] f w0 Hf; simpl; [|split; [done|by intros x [= <-]]].
    unfold try_bind. apply wp_start_bind; [apply Hf|]. intros [z|e]; (split; [done|]); [|done].
    intros x [= <-]. by split; eexists. }
  unfold resolve_credentials, try_bind.
  eapply wp_bind_2; [apply Htr; unfold lookup_uid; intros s; start_neutral|].
  intros w1 [uid|e] [-> Hu]; [|by split].
  eapply wp_bind_2; [apply Htr; unfold lookup_gid; intros s; start_neutral|].
  intros w2 [gid|e] [-> Hg]; [|by split]. split; [done|].
  intros ? ? [= <- <-] _. split; [by apply Hu|by apply Hg].
Qed.
End credentials.

Section refinement.
Context (SYS : string → Z) (svc : Service) (exists_ : string → bool).
Notation step := (start_step (cond_paths svc) exists_).

Lemma await_daemon_spec fuel w :
  wp step (await_daemon fuel svc) w (λ w' _, t_trace w' = t_trace w ∧
    t_running w' = t_running w ∧ (svc_notify_type svc ≠ BgProcess → t_pid w' = t_pid w)).
Proof.
  unfold await_daemon. destruct (svc_notify_type svc); [done..|]. destruct (svc_pid_file svc); [|done].
  apply wp_start_fuel; [unfold wait_for_pid_file, proc_exists; start_neutral|done|].
  intros [daemon_pid|e]; [|done]. apply wp_op. intros ? w1 [_ ->].
  apply wp_start_bind; [unfold assign_pid_to_cgroup, is_cgroup_v2; start_neutral|].
  intros _. by intros ? w2 [_ ->].
Qed.

Lemma spawn_monitor_spec w :
  wp step (spawn_monitor svc) w (λ w' r, w' = w ∧
    ∀ e, r = Err e → svc_restart svc ≠ RestartPolicy_No).
Proof.
  unfold spawn_monitor.
  destruct (bool_decide_reflect (svc_restart svc ≠ RestartPolicy_No)); [|by split].
  apply wp_op. intros r w1 [_ ->]. by split.
Qed.

Lemma after_fork_outcome fuel pid ns sockets cfg w :
  conditions_hold svc exists_ = true → launch_of SYS svc cfg →
  t_trace w = (ran_ok <$> svc_exec_start_pre svc) ++ [Launched cfg (Ok pid)] →
  wp step (after_fork fuel svc pid ns sockets) w (start_outcome SYS svc exists_).
Proof.
  intros Hc Hl Ht. unfold after_fork.
  assert (Hnone : ∀ w', t_trace w' = t_trace w → start_outcome SYS svc exists_ w' None).
  { intros w' Hw'. eapply Start_running; [done..|by rewrite Hw', Ht|done]. }
  apply wp_start_bind.
  { unfold ignore. intros ?. apply keeps_bind; [apply assign_start|intros ?; apply keeps_ret]. }
  intros _. apply wp_start_fuel; [apply await_ready_socket_start|by apply Hnone|]. intros _.
  apply wp_op. intros ? w1 [_ ->]. apply wp_op. intros ? w2 [_ ->].
  apply wp_start_bind; [by apply start_neutral_op|]. intros _.
  unfold fuel_bind at 1. eapply wp_bind_2; [apply await_daemon_spec|]. cbn [start_effect t_trace t_running t_pid].
  intros w3 [u|] (Ht3 & Hr3 & Hp3); [|by apply Hnone].
  destruct (svc_oneshot svc) eqn:Hone.
  - apply wp_start_fuel; [apply wait_for_exit_start|by apply Hnone|]. intros _.
    apply wp_op. intros ? w4 [_ ->].
    apply wp_start_bind; [by apply start_neutral_op|]. intros _.
    apply wp_start_bind; [apply (drops_start svc exists_ sockets None)|]. intros _.
    apply wp_start_bind; [apply (drops_start svc exists_ [] ns)|]. intros _.
    eapply (Start_running _ _ _ cfg pid _ _ []); [done..|simpl; by rewrite Ht3, Ht|].
    rewrite Hone. split_and!; [done..|]. by exists [].
  - apply wp_start_fuel; [apply await_notify_start|by apply Hnone|]. intros _.
    eapply wp_bind_2; [apply spawn_monitor_spec|]. simpl. intros w4 [u'|e] [-> Hmon].
    + apply wp_start_bind; [apply (threads_start svc exists_)|]. intros _.
      eapply wp_bind_2; [apply exec_start_post_spec|]. simpl. intros w5 _ (Hp5 & Hr5 & post & Hpost & Ht5).
      apply wp_start_bind; [apply (drops_start svc exists_ sockets None)|]. intros _.
      eapply (Start_running _ _ _ cfg pid _ _ post); [done..| |].
      { rewrite Ht5, Ht3, Ht. by rewrite <- app_assoc. }
      rewrite Hone, Hr5, Hr3, Hp5. by split_and!.
    + apply wp_start_bind; [apply (drops_start svc exists_ sockets None)|]. intros _.
      eapply (Start_running _ _ _ cfg pid _ _ []); [done..|simpl; by rewrite Ht3, Ht|].
      split; [by eapply Hmon|done].
Qed.

End refinement.

Section refines.
Context (SYS : string → Z) (svc : Service) (exists_ : string → bool).
Notation step := (start_step (cond_paths svc) exists_).

Lemma launch_service_outcome fuel uid gid w :
  conditions_hold svc exists_ = true →
  t_trace w = ran_ok <$> svc_exec_start_pre svc → t_running w = false →
  (svc_dynamic_user svc = false →
     (is_Some uid ↔ is_Some (svc_user svc)) ∧ (is_Some gid ↔ is_Some (svc_group svc))) →
  wp step (launch_service SYS fuel svc uid gid) w (start_outcome SYS svc exists_).
Proof.
  intros Hc Ht Hr Hcr. unfold launch_service.
  apply wp_start_bind; [apply log_pipe_start|]. intros log.
  apply wp_start_bind; [apply env_from_file_start|]. intros env.
  apply wp_start_bind; [apply notify_server_start|]. intros ns.
  apply wp_start_bind; [apply activation_sockets_start|]. intros socks.
  destruct w as [trace pid0 running]. simpl in Ht, Hr. subst trace running.
  destruct (resolve_start SYS svc) as [rs|e] eqn:Hrs.
  2: { apply wp_start_bind; [apply (drops_start svc exists_ socks None)|]. intros _.
       apply wp_start_bind; [apply (drops_start svc exists_ [] ns)|]. intros _.
       by apply Start_refused. }
  set (cfg := launch _ _ _ _ _ _ _ _).
  assert (Hl : launch_of SYS svc cfg).
  { eexists _, _, _, _, _, _. split; [done|]. split; [reflexivity|]. split; [done|].
    intros table k v Htb Hk Hn. by eapply start_env_table. }
  unfold start_service_as. clearbody cfg. destruct (prepare cfg) as [p|e]; cbn [prog_bind].
  2: { apply wp_start_bind; [apply (drops_start svc exists_ socks None)|]. intros _.
       apply wp_start_bind; [apply (drops_start svc exists_ [] ns)|]. intros _.
       by apply Start_refused. }
  apply wp_op. intros r w1 [_ ->]. destruct r as [pid|e].
  - apply wp_start_bind; [apply close_log_start|]. intros _. by eapply after_fork_outcome.
  - apply wp_start_bind; [apply (drops_start svc exists_ socks None)|]. intros _.
    apply wp_start_bind; [apply (drops_start svc exists_ [] ns)|]. intros _.
    by apply Start_fork_failed.
Qed.
End refines.

(** ** The start ends

    The code bounds every wait of [start] but two: for the process of a oneshot service
    and for a notify service that keeps sending datagrams. *)
Definition start_is_bounded (svc : Service) : Prop :=
  svc_oneshot svc = false ∧ svc_notify_type svc ≠ Notify.

Section start_ends.
Context (SYS : string → Z) (oc : bool) (quota_us : string → option Z) (fuel : nat) (svc : Service).
Context (Hfuel : (Z.to_nat (10 * svc_timeout_start svc) < fuel)%nat).

Lemma start_timeout_fuel : ∃ n, from_secs (svc_timeout_start svc) ≤ Z.of_nat n * from_millis 100 ∧ (n < fuel)%nat.
Proof. exists (Z.to_nat (10 * svc_timeout_start svc)). unfold from_secs, from_millis. lia. Qed.

Lemma await_ready_socket_ends : ends clock_step (await_ready_socket fuel svc).
Proof.
  destruct start_timeout_fuel as (n & Hn & Hf). unfold await_ready_socket. ends.
  intros t. eapply wp_mono; [|by eapply wait_for_path_spec]. by intros t' r (b & -> & _).
Qed.

Lemma await_daemon_ends : ends clock_step (await_daemon fuel svc).
Proof.
  destruct start_timeout_fuel as (n & Hn & Hf). unfold await_daemon. ends.
  intros t. eapply wp_mono; [|by eapply wait_for_pid_file_spec]. by intros t' r (b & -> & _).
Qed.

Lemma after_fork_ends pid sockets :
  svc_oneshot svc = false → ends clock_step (after_fork fuel svc pid None sockets).
Proof.
  intros Ho. unfold after_fork. rewrite Ho. ends; [apply await_ready_socket_ends|apply await_daemon_ends|].
  apply ends_some.
Qed.

Lemma start_ends : start_is_bounded svc → ends clock_step (start SYS oc quota_us fuel svc).
Proof.
  intros [Ho Hn]. unfold start, launch_service.
  assert (notify_server svc = Ret None) as -> by (unfold notify_server; by destruct (svc_notify_type svc)).
  cbn [prog_bind]. ends. by apply after_fork_ends.
Qed.
End start_ends.

(** C2: [start] does what a start is: a service whose conditions do not hold is left
    alone, with success; otherwise its ExecStartPre commands run in order, the first
    that fails aborting the start; only when all of them succeeded is a process
    launched, once, with the configuration of the definition (a configured user or
    group is resolved, never dropped, unless the user is dynamic); only when it runs
    are the pid and the running flag set and, for a service that stays, the
    ExecStartPost commands run once, in order; on any error before that the service
    is not marked as running.  And it returns: but for a oneshot and a notify service,
    after at most ten turns of its waits for every second of the timeout. *)
Theorem start_refines SYS oc quota_us fuel svc exists_ w :
  t_trace w = [] →
  wp (start_step (cond_paths svc) exists_) (start SYS oc quota_us fuel svc) w
    (start_outcome SYS svc exists_) ∧
  (start_is_bounded svc → (Z.to_nat (10 * svc_timeout_start svc) < fuel)%nat →
     ends clock_step (start SYS oc quota_us fuel svc)).
Proof.
  intros Ht. split; [|intros Hb Hf; by apply start_ends]. unfold start. apply wp_start_bind; [by apply start_neutral_op|]. intros _.
  apply wp_op. intros ? w1 [_ ->]. cbn [start_effect]. rewrite Ht.
  eapply wp_bind_2; [apply conditions_met_spec|]. cbv beta. intros w2 met [-> ->].
  destruct (conditions_hold svc exists_) eqn:Hc; cbn [negb]; [|by apply Start_unmet].
  eapply wp_bind_2; [apply exec_start_pre_spec|]. cbn [t_trace t_pid t_running]. intros [trace pid running] pre (_ & Hr & Hpre).
  simpl in Hr, Hpre. subst running. destruct pre as [e|].
  { destruct Hpre as (pre & c & rest & st & Heq & Hst & ->). by eapply Start_pre_failed. }
  subst trace. eapply wp_bind_2; [apply start_credentials_spec|].
  cbv beta. intros w3 [[uid gid]|e] [-> Hcr]; [|by apply Start_refused].
  apply wp_start_bind; [apply setup_cgroup_start|]. intros _.
  apply wp_start_bind; [apply setup_dirs_start|]. intros _.
  destruct (parse_ranges _ _) as [deny|]; [|by apply Start_refused].
  destruct (parse_ranges _ _) as [allow|]; [|by apply Start_refused].
  apply wp_start_bind.
  { unfold ignore. intros ?. apply keeps_bind; [apply ip_filter_start|intros ?; apply keeps_ret]. }
  intros _. apply launch_service_outcome; [done..|]. by apply Hcr.
Qed.

Lemma start_refines_witness :
  let svc := (Service_minimal "web" "/bin/web") <|svc_exec_start_pre := ["mkdir -p /run/web"]|> in
  wp (start_step (cond_paths svc) (λ _, true)) (start sys_x86_64 false (λ _, None) 1000 svc)
    {| t_trace := []; t_pid := -1; t_running := false |}
    (start_outcome sys_x86_64 svc (λ _, true)) ∧
  ends clock_step (start sys_x86_64 false (λ _, None) 1000 svc).
Proof.
  intros svc. destruct (start_refines sys_x86_64 false (λ _, None) 1000 svc (λ _, true)
    {| t_trace := []; t_pid := -1; t_running := false |} eq_refl) as [Hr He].
  split; [exact Hr|]. apply He; [by split|apply Nat.ltb_lt; vm_compute; reflexivity].
Defined.
