(* ===== verification/Timer.v ===== *)
(** * Timer units

    [quantra/src/services/timer.rs]: calendar schedules and the computation of the
    next trigger, the thread of a timer with its interruptible sleeps and persistent
    catch-up, the dispatcher, the loading of the timer files, and the helpers for
    jitter, RTC alarms and clock changes.  Schedules are in UTC, as in the code. *)

From Stdlib Require Import ZArith Ascii.
From stdpp Require Import base tactics numbers list strings gmap.
From S2P Require Import Prelude RustStr Types Effects Os Parser.

Local Open Scope string_scope.
Local Open Scope list_scope.
Local Open Scope Z_scope.
Local Open Scope quantra_scope.
Local Open Scope prog_scope.

Definition TIMER_DIR : string := "/overlayer/syshub/etc/quantra-system/timers".
Definition TIMER_STATE_DIR : string := "/overlayer/syshub/var/lib/quantra-system/timers".

Record TimerSpec := {
  ts_name : string;
  ts_unit : string;
  ts_on_boot_sec : option Z;
  ts_on_calendar : option string;
  ts_on_unit_active_sec : option Z;
  ts_persistent : bool;
  ts_randomized_delay_sec : option Z;
  ts_on_active_sec : option Z;
  ts_on_startup_sec : option Z;
  ts_wake_system : bool;
  ts_accuracy_sec : Z;
  ts_fixed_random_delay : bool;
  ts_on_clock_change : bool;
  ts_on_timezone_change : bool;
}.

Definition default_accuracy_sec : Z := 60.

(** ** Calendar schedules *)

Record CalendarSpec := {
  cs_hour : option Z;
  cs_minute : Z;
  cs_second : Z;
  cs_minutely : bool;
  cs_weekday : option Z;
}.

(** The prefixes in the order in which they are tried. *)
Definition weekdays : list (string * Z) :=
  [("Mon ", 0); ("Tue ", 1); ("Wed ", 2); ("Thu ", 3); ("Fri ", 4); ("Sat ", 5); ("Sun ", 6)].

Fixpoint find_weekday (days : list (string * Z)) (s : string) : option Z * string :=
  match days with
  | [] => (None, s)
  | (prefix, wd) :: days =>
      match strip_prefix prefix s with
      | Some rest => (Some wd, trim rest)
      | None => find_weekday days s
      end
  end.

Definition parse_weekday_prefix (s : string) : option Z * string := find_weekday weekdays s.

Definition parse_u8 (what s : string) : result string Z :=
  ok_or ("Invalid " +:+ what) (parse_uint u8_max s).

Definition CalendarSpec_parse (s : string) : result string CalendarSpec :=
  match s with
  | "minutely" =>
      Ok {| cs_hour := None; cs_minute := 0; cs_second := 0; cs_minutely := true; cs_weekday := None |}
  | "hourly" =>
      Ok {| cs_hour := None; cs_minute := 0; cs_second := 0; cs_minutely := false; cs_weekday := None |}
  | "daily" =>
      Ok {| cs_hour := Some 0; cs_minute := 0; cs_second := 0; cs_minutely := false; cs_weekday := None |}
  | "weekly" =>
      Ok {| cs_hour := Some 0; cs_minute := 0; cs_second := 0; cs_minutely := false; cs_weekday := Some 0 |}
  | other =>
      let (weekday_parsed, time_part) := parse_weekday_prefix other in
      match splitn 3 ":" time_part with
      | [hh; mm; ss] =>
          let? h := parse_u8 "hour" hh in
          let? m := parse_u8 "minute" mm in
          let? s := parse_u8 "second" ss in
          Ok {| cs_hour := Some h; cs_minute := m; cs_second := s; cs_minutely := false;
                cs_weekday := weekday_parsed |}
      | [hh; mm] =>
          let? h := parse_u8 "hour" hh in
          let? m := parse_u8 "minute" mm in
          Ok {| cs_hour := Some h; cs_minute := m; cs_second := 0; cs_minutely := false;
                cs_weekday := weekday_parsed |}
      | _ => Err ("Unrecognized CalendarSpec: '" +:+ other +:+ "'")
      end
  end.

(** [time_until_next], in seconds, for a clock that shows [now_secs]; [None] is the
    overflow panic of the weekly branch. *)
Definition until_next (overflow_checks : bool) (spec : CalendarSpec) (now_secs : Z) : option Z :=
  if cs_minutely spec then Some 60
  else
    let secs_in_day := now_secs mod 86400 in
    let current_hour := wrap_u8 (secs_in_day / 3600) in
    let target_hour := default current_hour (cs_hour spec) in
    let target_in_day := target_hour * 3600 + cs_minute spec * 60 + cs_second spec in
    match cs_weekday spec with
    | Some wd =>
        let days_since_epoch := now_secs / 86400 in
        let current_wd := (days_since_epoch + 3) mod 7 in
        let days_ahead := (7 + wd - current_wd) mod 7 in
        let days_ahead :=
          if (days_ahead =? 0) && (target_in_day <=? secs_in_day) then 7 else days_ahead in
        s ← arith_u64 overflow_checks (days_ahead * 86400 - secs_in_day);
        arith_u64 overflow_checks (s + target_in_day)
    | None =>
        if secs_in_day <? target_in_day then Some (target_in_day - secs_in_day)
        else if bool_decide (cs_hour spec = None) then
          Some (3600 - secs_in_day mod 3600 + cs_minute spec * 60 + cs_second spec)
        else Some (86400 - secs_in_day + target_in_day)
    end.

(** [SystemTime::now().duration_since(UNIX_EPOCH).unwrap_or_default().as_secs()]. *)
Definition now_secs : prog Os Z :=
  let* t := trigger WallClock in Ret (Z.max 0 t / 1000000000).

Definition time_until_next (overflow_checks : bool) (spec : CalendarSpec) : prog Os (option Z) :=
  if cs_minutely spec then Ret (Some 60)
  else let* now := now_secs in Ret (until_next overflow_checks spec now).

(** [Duration + Duration] on whole seconds: [None] is its overflow panic. *)
Definition add_secs (a b : Z) : option Z := if a + b <=? u64_max then Some (a + b) else None.

(** ** The thread of a timer *)

Definition random_u64 : prog Os Z :=
  let* bytes := trigger (ReadBytes "/dev/urandom") in
  Ret (from_le_bytes 8 (default [] bytes)).

Definition state_path (name : string) : string := TIMER_STATE_DIR +:+ "/" +:+ name +:+ ".state".

Definition save_last_fired (name : string) : prog Os unit :=
  trigger (CreateDirAll TIMER_STATE_DIR);*
  let* now := now_secs in
  trigger (WriteFile (state_path name) (show_uint now));*
  Ret tt.

(** [sleep_interruptibly]: [Some true] when the whole time has passed, [Some false]
    on shutdown. *)
Definition sleep_interruptibly (fuel : nat) (duration : Z) : prog Os (option bool) :=
  let* start := trigger Now in
  let poll := from_millis 250 in
  loop fuel (λ _,
    let* shutdown := trigger LoadShutdown in
    if shutdown : bool then Ret (inr false)
    else
      let* now := trigger Now in
      let elapsed := now - start in
      if duration <=? elapsed then Ret (inr true)
      else
        let remaining := duration - elapsed in
        trigger (Sleep (Z.min poll remaining));* Ret (inl tt)) tt.

(** A closed channel is only logged. *)
Definition fire_timer (unit_ : string) : prog Os unit :=
  let* shutdown := trigger LoadShutdown in
  if shutdown : bool then Ret tt else trigger (SendActivation unit_);* Ret tt.

Section timer.
Context (overflow_checks : bool).

(** Whether a persistent timer missed a fire; [None] is a panic. *)
Definition should_catch_up (name spec_str : string) : prog Os (option bool) :=
  let* state := trigger (ReadToString (state_path name)) in
  match state with
  | Err _ => Ret (Some true)
  | Ok s =>
      match parse_uint u64_max (trim s) with
      | None => Ret (Some false)
      | Some last_fired =>
          let* now := now_secs in
          match CalendarSpec_parse spec_str with
          | Ok spec =>
              fuel* interval := time_until_next overflow_checks spec in
              Ret (Some (interval <? saturating_sub_u64 now last_fired))
          | Err _ => Ret (Some false)
          end
      end
  end.

(** The random delay on top of a wait; [None] is a panic. *)
Definition with_jitter (timer : TimerSpec) (wait : Z) : prog Os (option Z) :=
  match ts_randomized_delay_sec timer with
  | Some jitter_max =>
      if 0 <? jitter_max then
        let* r := random_u64 in Ret (add_secs wait (r mod jitter_max))
      else Ret (Some wait)
  | None => Ret (Some wait)
  end.

(** One turn of either loop of [run_timer]: sleep, fire, remember.  The outer [None]
    is out of fuel; [inr] ends the thread, by [return] or by a panic. *)
Definition timer_turn (fuel : nat) (timer : TimerSpec) (wait : prog Os (option Z))
    : prog Os (option (unit + unit)) :=
  let* wait := wait in
  match wait with
  | None => Ret (Some (inr tt))
  | Some wait =>
      let* wait := with_jitter timer wait in
      match wait with
      | None => Ret (Some (inr tt))
      | Some wait =>
          fuel* slept := sleep_interruptibly fuel (from_secs wait) in
          if negb slept then Ret (Some (inr tt))
          else
            fire_timer (ts_unit timer);*
            (if ts_persistent timer then save_last_fired (ts_name timer) else Ret tt);*
            Ret (Some (inl tt))
      end
  end.

Definition calendar_loop (turns fuel : nat) (timer : TimerSpec) (spec : CalendarSpec)
    : prog Os (option unit) :=
  loop_fuel turns (λ _, timer_turn fuel timer (time_until_next overflow_checks spec)) tt.

Definition interval_loop (turns fuel : nat) (timer : TimerSpec) (interval : Z)
    : prog Os (option unit) :=
  loop_fuel turns (λ _, timer_turn fuel timer (Ret (Some interval))) tt.

(** Persistent catch-up; [None] is a panic. *)
Definition catch_up (timer : TimerSpec) : prog Os (option unit) :=
  match ts_on_calendar timer with
  | Some spec_str =>
      if ts_persistent timer then
        fuel* missed := should_catch_up (ts_name timer) spec_str in
        if missed : bool then
          fire_timer (ts_unit timer);* save_last_fired (ts_name timer);* Ret (Some tt)
        else Ret (Some tt)
      else Ret (Some tt)
  | None => Ret (Some tt)
  end.

(** [run_timer]; [None]: the thread is still running. *)
Definition run_timer (turns fuel : nat) (timer : TimerSpec) : prog Os (option unit) :=
  let* caught_up := catch_up timer in
  match caught_up with
  | None => Ret (Some tt)
  | Some _ =>
      fuel* go_on :=
        match ts_on_boot_sec timer with
        | Some boot_sec =>
            fuel* slept := sleep_interruptibly fuel (from_secs boot_sec) in
            if negb slept then Ret (Some false)
            else fire_timer (ts_unit timer);* Ret (Some true)
        | None => Ret (Some true)
        end in
      if negb go_on then Ret (Some tt)
      else
        match ts_on_calendar timer with
        | Some spec_str =>
            match CalendarSpec_parse spec_str with
            | Ok spec => calendar_loop turns fuel timer spec
            | Err _ => Ret (Some tt)
            end
        | None =>
            match ts_on_unit_active_sec timer with
            | Some interval => interval_loop turns fuel timer interval
            | None => Ret (Some tt)
            end
        end
  end.
End timer.

(** ** The dispatcher

    What it activates is a service manager; the class is all that it needs of one:
    [start_named_service] on the state behind the lock. *)
Class Activator (M : Type) := {
  activate : M → string → prog Os (option (M * result string unit));
}.

Section dispatcher.
Context `{Activator M}.

(** One received unit: [inr] is the end of the thread. *)
Definition dispatch_turn (m : M) : prog Os (option (M + M)) :=
  let* received := trigger RecvActivation in
  match received with
  | None => Ret (Some (inr m))
  | Some unit_ =>
      let* shutdown := trigger LoadShutdown in
      if shutdown : bool then Ret (Some (inr m))
      else
        fuel* r := activate m unit_ in
        Ret (Some (inl r.1))
  end.

Definition run_activation_dispatcher (turns : nat) (m : M) : prog Os (option M) :=
  loop_fuel turns dispatch_turn m.
End dispatcher.

(** ** Loading *)

Section loader.
(** [toml::from_str::<TimerConfig>]. *)
Context (toml_timer : string → result string TimerSpec).

Definition load_timer_file (path : string) : prog Os (result string TimerSpec) :=
  let* text := trigger (ReadToString path) in
  Ret match text with
      | Err _ => Err ("Cannot read timer '" +:+ path +:+ "'")
      | Ok text =>
          map_err (λ _, "Invalid timer TOML '" +:+ path +:+ "'") (toml_timer text)
      end.

Fixpoint load_timer_entries (entries : list (result string string)) : prog Os (list TimerSpec) :=
  match entries with
  | [] => Ret []
  | Err _ :: entries => load_timer_entries entries
  | Ok path :: entries =>
      if bool_decide (extension path = Some "toml") then
        let* spec := load_timer_file path in
        let* timers := load_timer_entries entries in
        Ret match spec with Ok spec => spec :: timers | Err _ => timers end
      else load_timer_entries entries
  end.

Definition load_all_timers : prog Os (list TimerSpec) :=
  let* present := trigger (PathExists TIMER_DIR) in
  if negb present then Ret []
  else
    let* entries := trigger (ReadDir TIMER_DIR) in
    match entries with
    | Err _ => Ret []
    | Ok entries => load_timer_entries entries
    end.
End loader.

(** ** Jitter, RTC alarms, clock changes *)

Definition hash_name (timer_name : string) : Z :=
  fold_left (λ acc c, wrap_u64 (wrap_u64 (acc * 31) + Z.of_nat (nat_of_ascii c)))
    (String.list_ascii_of_string timer_name) 0.

(** On whole seconds; [None] is the overflow panic of the last sum. *)
Definition apply_accuracy_jitter (base accuracy_sec : Z) (timer_name : string) (fixed : bool)
    : prog Os (option Z) :=
  if accuracy_sec =? 0 then Ret (Some base)
  else
    let* jitter_secs :=
      if fixed then Ret (hash_name timer_name mod Z.max accuracy_sec 1)
      else
        let* t := trigger WallClock in
        Ret (if t <? 0 then 0 else (t mod 1000000000) mod Z.max accuracy_sec 1) in
    Ret (add_secs base jitter_secs).

Definition rtc_paths : list string :=
  ["/sys/class/rtc/rtc0/wakealarm"; "/sys/class/rtc/rtc1/wakealarm"].

(** The first alarm that exists is cleared, then set. *)
Definition set_rtc_wakeup (unix_ts : Z) : prog Os (result string unit) :=
  let* r := for_break (λ path,
    let* present := trigger (PathExists path) in
    if present : bool then
      let* r := (try* _ := trigger (WriteFile path "0") in
                 trigger (WriteFile path (show_uint unix_ts))) in
      Ret (Some r)
    else Ret None) rtc_paths in
  Ret (default (Ok tt) r).

Definition clear_rtc_wakeup : prog Os unit :=
  for_each (λ path,
    let* present := trigger (PathExists path) in
    if present : bool then trigger (WriteFile path "0");* Ret tt else Ret tt) rtc_paths.

(** [watch_clock_change]: the state is the last pair of readings. *)
Definition watch_turn (timer : TimerSpec) (last : Z * Z) : prog Os (Z * Z + unit) :=
  let '(last_wall, last_mono) := last in
  trigger (Sleep (from_secs 1));*
  let* shutdown := trigger LoadShutdown in
  if shutdown : bool then Ret (inr tt)
  else
    let* now_wall := trigger WallClock in
    let* now_mono := trigger Now in
    let wall_elapsed := Z.max 0 (now_wall - last_wall) in
    let mono_elapsed := Z.max 0 (now_mono - last_mono) in
    let diff := Z.abs (wall_elapsed - mono_elapsed) in
    (if from_secs 5 <? diff then trigger (SendActivation (ts_unit timer));* Ret tt else Ret tt);*
    Ret (inl (now_wall, now_mono)).

Definition watch_clock_change (turns : nat) (timer : TimerSpec) : prog Os (option unit) :=
  let* last_wall := trigger WallClock in
  let* last_mono := trigger Now in
  loop turns (watch_turn timer) (last_wall, last_mono).

(** ** The next trigger *)

(** The instants of a schedule: seconds since the epoch, day 0 being a Thursday. *)
Definition fires_at (spec : CalendarSpec) (t : Z) : Prop :=
  match cs_weekday spec with Some wd => (t / 86400 + 3) mod 7 = wd | None => True end ∧
  match cs_hour spec with Some h => (t mod 86400) / 3600 = h | None => True end ∧
  (t mod 3600) / 60 = cs_minute spec ∧ t mod 60 = cs_second spec.

#[export] Instance fires_at_dec spec t : Decision (fires_at spec t).
Proof. unfold fires_at. destruct (cs_weekday spec), (cs_hour spec); apply _. Defined.

(** The schedules that have instants: the fields in their ranges, an hour given
    whenever a weekday is. *)
Definition valid_spec (spec : CalendarSpec) : Prop :=
  0 ≤ cs_minute spec < 60 ∧ 0 ≤ cs_second spec < 60 ∧ cs_minutely spec = false ∧
  match cs_hour spec with Some h => 0 ≤ h < 24 | None => cs_weekday spec = None end ∧
  match cs_weekday spec with Some wd => 0 ≤ wd < 7 | None => True end.

#[export] Instance valid_spec_dec spec : Decision (valid_spec spec).
Proof. unfold valid_spec. destruct (cs_weekday spec), (cs_hour spec); apply _. Defined.

Definition time_of_day (h m s : Z) : Z := h * 3600 + m * 60 + s.

Lemma fires_at_day h m s t :
  0 ≤ h < 24 → 0 ≤ m < 60 → 0 ≤ s < 60 →
  (t mod 86400) / 3600 = h ∧ (t mod 3600) / 60 = m ∧ t mod 60 = s ↔
  t mod 86400 = time_of_day h m s.
Proof. unfold time_of_day. intros. Z.to_euclidean_division_equations. lia. Qed.

Lemma fires_at_hour m s t :
  0 ≤ m < 60 → 0 ≤ s < 60 →
  (t mod 3600) / 60 = m ∧ t mod 60 = s ↔ t mod 3600 = m * 60 + s.
Proof. intros. Z.to_euclidean_division_equations. lia. Qed.

(** The first of the instants [t] with [t mod p = r] after [now]. *)
Definition first_after (P : Z → Prop) (now d : Z) : Prop :=
  0 < d ∧ P (now + d) ∧ ∀ d', 0 < d' < d → ¬ P (now + d').

Lemma first_after_iff (P Q : Z → Prop) now d :
  (∀ t, P t ↔ Q t) → first_after Q now d → first_after P now d.
Proof. intros HPQ (? & ? & H). split_and!; [done|by apply HPQ|]. intros d' Hd' ?%HPQ. by eapply H. Qed.

Lemma first_after_mod p r now :
  0 ≤ r < p →
  first_after (λ t, t mod p = r) now (if now mod p <? r then r - now mod p else p - now mod p + r).
Proof.
  intros Hr. assert (Hp : 0 < p) by lia. pose proof (Z.mod_pos_bound now p Hp) as Hm.
  assert (Hnow : ∀ d, (now + d) mod p = (now mod p + d) mod p) by (intros; by rewrite Zplus_mod_idemp_l).
  unfold first_after. destruct (Z.ltb_spec (now mod p) r).
  - split_and!; [lia| |].
    + rewrite Hnow, Z.mod_small; lia.
    + intros d' Hd'. rewrite Hnow, Z.mod_small; lia.
  - split_and!; [lia| |].
    + rewrite Hnow. replace (now mod p + (p - now mod p + r)) with (r + 1 * p) by lia.
      rewrite Z.mod_add by lia. rewrite Z.mod_small; lia.
    + intros d' Hd'. rewrite Hnow. destruct (decide (now mod p + d' < p)).
      * rewrite Z.mod_small; lia.
      * replace (now mod p + d') with ((now mod p + d' - p) + 1 * p) by lia.
        rewrite Z.mod_add by lia. rewrite Z.mod_small; lia.
Qed.

(** A week is a cycle of 604800 seconds whose first day is a Thursday. *)
Lemma fires_at_week wd r t :
  0 ≤ wd < 7 → 0 ≤ r < 86400 →
  ((t / 86400 + 3) mod 7 = wd ∧ t mod 86400 = r) ↔ t mod 604800 = ((wd + 4) mod 7) * 86400 + r.
Proof. intros. Z.to_euclidean_division_equations. lia. Qed.

Lemma until_next_week wd r now :
  0 ≤ wd < 7 → 0 ≤ r < 86400 → 0 ≤ now →
  let secs := now mod 86400 in
  let days := (7 + wd - (now / 86400 + 3) mod 7) mod 7 in
  let days := if (days =? 0) && (r <=? secs) then 7 else days in
  let p := 604800 in let r' := ((wd + 4) mod 7) * 86400 + r in
  days * 86400 - secs + r = (if now mod p <? r' then r' - now mod p else p - now mod p + r').
Proof.
  intros Hwd Hr Hnow. simpl.
  destruct (Z.eqb_spec ((7 + wd - (now / 86400 + 3) mod 7) mod 7) 0); simpl;
  [destruct (Z.leb_spec r (now mod 86400))|];
  destruct (Z.ltb_spec (now mod 604800) ((wd + 4) mod 7 * 86400 + r));
  Z.to_euclidean_division_equations; lia.
Qed.

Lemma time_of_day_range h m s :
  0 ≤ h < 24 → 0 ≤ m < 60 → 0 ≤ s < 60 → 0 ≤ time_of_day h m s < 86400.
Proof. unfold time_of_day. lia. Qed.

(** Without overflow checks a difference that wraps comes back with the sum. *)
Lemma arith_u64_wraps a b :
  0 ≤ a + b ≤ u64_max →
  (s ← arith_u64 false a; arith_u64 false (s + b)) = Some (a + b).
Proof.
  intros Hab. assert (wrap_u64 (a + b) = a + b) as Hw by (by apply wrap_u64_small).
  assert (∀ z, arith_u64 false z = Some (wrap_u64 z)) as Hwrap.
  { intros z. unfold arith_u64. destruct (in_u64 z) eqn:Hz; [|done].
    apply in_u64_spec in Hz. by rewrite wrap_u64_small. }
  rewrite Hwrap. simpl. rewrite Hwrap, <- Hw at 1. unfold wrap_u64. by rewrite Zplus_mod_idemp_l.
Qed.

(** When the weekly computation overflows: on the day itself, before the time. *)
Definition weekly_overflow (spec : CalendarSpec) (now : Z) : Prop :=
  ∃ wd h, cs_weekday spec = Some wd ∧ cs_hour spec = Some h ∧ (now / 86400 + 3) mod 7 = wd ∧
    0 < now mod 86400 < time_of_day h (cs_minute spec) (cs_second spec).

Lemma until_next_daily oc spec h now :
  valid_spec spec → cs_hour spec = Some h → cs_weekday spec = None → 0 ≤ now →
  ∃ d, until_next oc spec now = Some d ∧ first_after (fires_at spec) now d.
Proof.
  intros (Hm & Hs & Hmin & Hh & _) Hhour Hwd Hnow. rewrite Hhour in Hh.
  pose proof (time_of_day_range h _ _ Hh Hm Hs) as Hr.
  eexists. split.
  - unfold until_next. rewrite Hmin, Hwd, Hhour. simpl.
    transitivity (Some (if now mod 86400 <? time_of_day h (cs_minute spec) (cs_second spec)
      then time_of_day h (cs_minute spec) (cs_second spec) - now mod 86400
      else 86400 - now mod 86400 + time_of_day h (cs_minute spec) (cs_second spec))); [|reflexivity].
    unfold time_of_day. by destruct (_ <? _).
  - apply (first_after_iff _ (λ t, t mod 86400 = time_of_day h (cs_minute spec) (cs_second spec))).
    + intros t. rewrite <- fires_at_day by done. unfold fires_at. rewrite Hwd, Hhour. naive_solver.
    + by apply first_after_mod.
Qed.

Lemma until_next_hourly oc spec now :
  valid_spec spec → cs_hour spec = None → 0 ≤ now →
  ∃ d, until_next oc spec now = Some d ∧ first_after (fires_at spec) now d.
Proof.
  intros (Hm & Hs & Hmin & Hh & _) Hhour Hnow. rewrite Hhour in Hh.
  eexists. split.
  - unfold until_next. rewrite Hmin, Hh, Hhour. simpl. unfold wrap_u8.
    transitivity (Some (if now mod 3600 <? cs_minute spec * 60 + cs_second spec
      then cs_minute spec * 60 + cs_second spec - now mod 3600
      else 3600 - now mod 3600 + (cs_minute spec * 60 + cs_second spec))); [|reflexivity].
    assert (Hd : (now mod 86400 / 3600) mod 256 = now mod 86400 / 3600)
      by (apply Z.mod_small; Z.to_euclidean_division_equations; lia). rewrite Hd.
    assert (Hq : now mod 86400 = now mod 86400 / 3600 * 3600 + now mod 3600)
      by (Z.to_euclidean_division_equations; lia).
    assert (Hq' : (now mod 86400) mod 3600 = now mod 3600) by (Z.to_euclidean_division_equations; lia).
    rewrite Hq'. set (H' := now mod 86400 / 3600) in *.
    destruct (Z.ltb_spec (now mod 86400) (H' * 3600 + cs_minute spec * 60 + cs_second spec)),
      (Z.ltb_spec (now mod 3600) (cs_minute spec * 60 + cs_second spec)); try lia; f_equal; lia.
  - apply (first_after_iff _ (λ t, t mod 3600 = cs_minute spec * 60 + cs_second spec)).
    + intros t. rewrite <- fires_at_hour by done. unfold fires_at. rewrite Hh, Hhour. naive_solver.
    + apply first_after_mod. lia.
Qed.

Lemma until_next_weekly oc spec wd h now :
  valid_spec spec → cs_hour spec = Some h → cs_weekday spec = Some wd → 0 ≤ now →
  (until_next oc spec now = None ∧ oc = true ∧ weekly_overflow spec now) ∨
  ∃ d, until_next oc spec now = Some d ∧ first_after (fires_at spec) now d ∧
    ¬ (oc = true ∧ weekly_overflow spec now).
Proof.
  intros (Hm & Hs & Hmin & Hh & Hd) Hhour Hwd Hnow. rewrite Hhour in Hh. rewrite Hwd in Hd.
  pose proof (time_of_day_range h _ _ Hh Hm Hs) as Hr.
  assert (Hf : ∀ t, fires_at spec t ↔ t mod 604800 = ((wd + 4) mod 7) * 86400
    + time_of_day h (cs_minute spec) (cs_second spec)).
  { intros t. rewrite <- fires_at_week by done. unfold fires_at. rewrite Hwd, Hhour.
    rewrite <- fires_at_day by done. done. }
  pose proof (until_next_week wd _ now Hd Hr Hnow) as Hw. simpl in Hw.
  pose proof (Z.mod_pos_bound now 86400 ltac:(lia)) as Hsec.
  unfold until_next. rewrite Hmin, Hwd, Hhour. simpl.
  change (h * 3600 + cs_minute spec * 60 + cs_second spec)
    with (time_of_day h (cs_minute spec) (cs_second spec)).
  set (T := time_of_day h _ _) in *.
  assert (Hf' := first_after_mod 604800 (((wd + 4) mod 7) * 86400 + T) now).
  rewrite <- Hw in Hf'. specialize (Hf' ltac:(Z.to_euclidean_division_equations; lia)).
  apply (first_after_iff (fires_at spec)) in Hf'; [|exact Hf].
  set (dd := (7 + wd - (now / 86400 + 3) mod 7) mod 7) in *.
  assert (Hdd : 0 ≤ dd < 7) by (apply Z.mod_pos_bound; lia).
  set (days := if (dd =? 0) && (T <=? now mod 86400) then 7 else dd) in *.
  assert (Hov : weekly_overflow spec now ↔ days = 0 ∧ 0 < now mod 86400).
  { unfold weekly_overflow. rewrite Hwd, Hhour. subst days.
    assert ((now / 86400 + 3) mod 7 = wd ↔ dd = 0) as Heq
      by (subst dd; Z.to_euclidean_division_equations; lia).
    split.
    - intros (? & ? & [= <-] & [= <-] & ->%Heq & H1). simpl. destruct (Z.leb_spec T (now mod 86400)); lia.
    - intros [Hdays Hpos]. exists wd, h. destruct (Z.eqb_spec dd 0); simpl in Hdays; [|lia].
      destruct (Z.leb_spec T (now mod 86400)); [lia|]. split_and!; [done..|by apply Heq|lia|done]. }
  assert (Hdays : 0 ≤ days ≤ 7) by (subst days; destruct (_ && _); lia).
  destruct (decide (days = 0 ∧ 0 < now mod 86400)) as [[H0 Hpos]|Hno].
  - destruct oc; [left|right].
    + unfold arith_u64, in_u64. rewrite H0. destruct (Z.leb_spec 0 (0 * 86400 - now mod 86400)); [lia|].
      simpl. split_and!; [done..|by apply Hov].
    + eexists. split; [|split; [exact Hf'|by intros [? _]]]. rewrite H0.
      apply arith_u64_wraps. unfold u64_max.
      assert (now mod 86400 < T); [|lia]. destruct (proj2 Hov (conj H0 Hpos)) as (? & ? & _ & Hh' & _ & ?).
      rewrite Hhour in Hh'. injection Hh' as <-. lia.
  - right. eexists. split; [|split; [exact Hf'|intros [_ ?%Hov]; done]].
    assert (0 ≤ days * 86400 - now mod 86400).
    { destruct (decide (days = 0)) as [H0|]; [|lia]. assert (now mod 86400 = 0) by lia. lia. }
    rewrite (arith_u64_fits oc (days * 86400 - now mod 86400)) by (unfold u64_max; lia). simpl.
    apply arith_u64_fits. unfold u64_max. lia.
Qed.

Lemma until_next_exact_core oc spec now :
  valid_spec spec → 0 ≤ now →
  match until_next oc spec now with
  | Some d => 0 < d ∧ fires_at spec (now + d) ∧ (∀ d', 0 < d' < d → ¬ fires_at spec (now + d')) ∧
      ¬ (oc = true ∧ weekly_overflow spec now)
  | None => oc = true ∧ weekly_overflow spec now
  end.
Proof.
  intros Hv Hnow. destruct (cs_hour spec) as [h|] eqn:Hh.
  - destruct (cs_weekday spec) as [wd|] eqn:Hwd.
    + destruct (until_next_weekly oc spec wd h now) as [(-> & ? & ?)|(d & -> & (? & ? & ?) & Hno)];
        [done..|by split|split_and!; done].
    + destruct (until_next_daily oc spec h now) as (d & -> & ? & ? & ?); [done..|].
      split_and!; [done..|]. intros [_ (wd & ? & Hwd' & _)]. congruence.
  - destruct (until_next_hourly oc spec now) as (d & -> & ? & ? & ?); [done..|].
    split_and!; [done..|]. intros [_ (wd & h & _ & Hh' & _)]. congruence.
Qed.

(** C19: the next trigger is the next trigger: for every schedule with fields in their
    ranges and every time of the clock, the number of seconds that
    [time_until_next] computes is positive, leads to an instant of the schedule, and
    none lies in between; the only exception is a weekly schedule on its own day
    before its time, where a build with overflow checks panics. *)
Theorem until_next_exact oc spec now :
  valid_spec spec → 0 ≤ now →
  match until_next oc spec now with
  | Some d => 0 < d ∧ fires_at spec (now + d) ∧ (∀ d', 0 < d' < d → ¬ fires_at spec (now + d')) ∧
      ¬ (oc = true ∧ weekly_overflow spec now)
  | None => oc = true ∧ weekly_overflow spec now
  end.
Proof. apply until_next_exact_core. Qed.

Lemma until_next_exact_witness :
  let spec := {| cs_hour := Some 2; cs_minute := 30; cs_second := 0; cs_minutely := false;
                 cs_weekday := Some 4 |} in
  CalendarSpec_parse "Fri 02:30" = Ok spec ∧
  until_next false spec 1700000000 = Some 188200 ∧
  match until_next false spec 1700000000 with
  | Some d => 0 < d ∧ fires_at spec (1700000000 + d) ∧
      (∀ d', 0 < d' < d → ¬ fires_at spec (1700000000 + d')) ∧
      ¬ (false = true ∧ weekly_overflow spec 1700000000)
  | None => false = true ∧ weekly_overflow spec 1700000000
  end.
Proof.
  intros spec. split; [reflexivity|]. split; [reflexivity|].
  apply (until_next_exact false spec 1700000000); [|discriminate].
  unfold valid_spec. simpl. lia.
Defined.

(** ** When a timer fires

    The world of a timer's thread: a wall clock that runs with the monotonic one
    (which is [epoch] behind it), a shutdown flag that once set stays set, and the
    activations sent so far, the last first. *)
Record TimerWorld := {
  tm_now : Z;
  tm_down : bool;
  tm_late : bool;  (* something was sent after the thread had seen the flag set *)
  tm_sent : list (string * Z);
}.

Section schedule.
Context (epoch : Z).

Definition timer_step : ∀ X, Os X → TimerWorld → X → TimerWorld → Prop :=
  λ X e w x w', clock_step X e (tm_now w) x (tm_now w') ∧
    match e in Os X return X → Prop with
    | LoadShutdown => λ b, (tm_down w = true → b = true) ∧
        w' = {| tm_now := tm_now w'; tm_down := b; tm_late := tm_late w; tm_sent := tm_sent w |}
    | SendActivation u => λ _,
        w' = {| tm_now := tm_now w'; tm_down := tm_down w; tm_late := tm_late w || tm_down w;
                tm_sent := (u, tm_now w) :: tm_sent w |}
    | WallClock => λ t, t = epoch + tm_now w' ∧
        w' = {| tm_now := tm_now w'; tm_down := tm_down w; tm_late := tm_late w; tm_sent := tm_sent w |}
    | _ => λ _,
        w' = {| tm_now := tm_now w'; tm_down := tm_down w; tm_late := tm_late w; tm_sent := tm_sent w |}
    end x.

(** Consecutive times of a list whose last element comes first, from [start] on. *)
Fixpoint chain (R : Z → Z → Prop) (start : Z) (times : list Z) : Prop :=
  match times with
  | [] => True
  | t :: rest => R (default start (head rest)) t ∧ chain R start rest
  end.

(** Some instant of the schedule lies between. *)
Definition instant_between (spec : CalendarSpec) (a b : Z) : Prop :=
  ∃ m, fires_at spec m ∧ epoch + a < m * 1000000000 ≤ epoch + b.

(** After the activations [pre], the latest first, only scheduled ones. *)
Definition fired (timer : TimerSpec) (R : Z → Z → Prop) (start : Z) (pre : list Z) (w : TimerWorld) : Prop :=
  tm_late w = false ∧ Forall (λ s, s.1 = ts_unit timer) (tm_sent w) ∧
  ∃ sched, (tm_sent w).*2 = sched ++ pre ∧ chain R (default start (head pre)) sched.

(** The same, and the present is not before the last of them. *)
Definition timer_inv (timer : TimerSpec) (R : Z → Z → Prop) (start : Z) (pre : list Z) (w : TimerWorld) : Prop :=
  fired timer R start pre w ∧ default start (head (tm_sent w).*2) ≤ tm_now w.

(** What quiet operations keep. *)
Definition same_sent (w w' : TimerWorld) : Prop :=
  tm_sent w' = tm_sent w ∧ tm_late w' = tm_late w ∧ tm_now w ≤ tm_now w'.

Lemma same_sent_inv timer R start pre w w' :
  same_sent w w' → timer_inv timer R start pre w → timer_inv timer R start pre w'.
Proof.
  intros (Hs & Hl & Hn) [(Hl' & Hu & Hc) Hh]. unfold timer_inv, fired.
  rewrite Hs, Hl. split_and!; try done. lia.
Qed.

Lemma same_sent_op {X} (e : Os X) w0 :
  (∀ w x w', timer_step X e w x w' → tm_sent w' = tm_sent w ∧ tm_late w' = tm_late w) →
  keeps timer_step (same_sent w0) (trigger e).
Proof.
  intros He. apply keeps_trigger. intros w x w' (Hs & Hl & Hn) Hst.
  destruct (He w x w' Hst) as [Hs' Hl']. destruct Hst as [Hc%clock_step_mono _].
  split_and!; [congruence..|lia].
Qed.

Ltac same_sent :=
  repeat first [progress keeps
    | apply same_sent_op; intros ? ? ? [_ Hst]; simpl in Hst;
      first [by rewrite Hst | by destruct Hst as [_ ->]]].

(** Time does not go back. *)
Lemma wp_time (P : Z → Prop) {A} (p : prog Os A) w :
  P (tm_now w) → (∀ t t', P t → t ≤ t' → P t') →
  wp timer_step p w (λ w' _, P (tm_now w')).
Proof.
  intros Hw HP. revert w Hw. induction p as [a|X e k IH]; intros w Hw; [done|].
  intros x w' [Hc%clock_step_mono _]. apply IH. by eapply HP.
Qed.

Lemma sleep_spec fuel d w :
  wp timer_step (sleep_interruptibly fuel d) w (λ w' r, same_sent w w' ∧
    (r = Some true → tm_now w + d ≤ tm_now w')).
Proof.
  unfold sleep_interruptibly. apply wp_op. intros start w1 [[Hc Hnow] Hw1]. simpl in Hw1.
  assert (H1 : same_sent w w1) by (rewrite Hw1; split_and!; simpl; [done..|lia]). clear Hw1.
  eapply wp_mono; [|apply (wp_loop_inv _ (λ _, same_sent w)
    (λ w' b, same_sent w w' ∧ (b = true → tm_now w + d ≤ tm_now w')))]; [| |done].
  - intros w' [b|]; [|by intros [_ ?]]. intros [? Hb]. split; [done|]. intros [= ->]. by apply Hb.
  - intros _ w2 H2. apply wp_op. intros down w3 Hs3.
    assert (H3 : same_sent w w3).
    { eapply (same_sent_op LoadShutdown); [|exact H2|exact Hs3].
      intros ? ? ? [_ [_ ->]]. done. }
    destruct down; [done|]. apply wp_op. intros now w4 Hs4.
    assert (H4 : same_sent w w4).
    { eapply (same_sent_op Now); [|exact H3|exact Hs4]. intros ? ? ? [_ ->]. done. }
    destruct Hs4 as [[_ Hnow4] _]. destruct (Z.leb_spec d (now - start)).
    + simpl. split; [done|]. intros _. lia.
    + intros ? w5 Hs5. eapply (same_sent_op (Sleep _)); [|exact H4|exact Hs5].
      intros ? ? ? [_ ->]. done.
Qed.

(** Firing sends at most once, and not after the flag was seen. *)
Definition fired_once (timer : TimerSpec) (w w' : TimerWorld) : Prop :=
  tm_late w' = tm_late w ∧ tm_now w ≤ tm_now w' ∧
  (tm_sent w' = tm_sent w ∨
   ∃ t, tm_now w ≤ t ≤ tm_now w' ∧ tm_sent w' = (ts_unit timer, t) :: tm_sent w).

Lemma fire_timer_once timer w :
  wp timer_step (fire_timer (ts_unit timer)) w (λ w' _, fired_once timer w w').
Proof.
  unfold fire_timer, fired_once. apply wp_op. intros b w1 [Hc1 [_ Hw1]].
  apply clock_step_mono in Hc1. destruct b.
  - simpl. rewrite Hw1. split_and!; [done|simpl; lia|by left].
  - apply wp_op. intros ? w2 [Hc2 Hw2]. apply clock_step_mono in Hc2. simpl.
    rewrite Hw1 in Hc2, Hw2. simpl in Hc2, Hw2. rewrite Hw2. simpl. split_and!; [by destruct (tm_late w)|lia|].
    right. exists (tm_now w1). split; [lia|done].
Qed.

Lemma fire_timer_spec timer (R : Z → Z → Prop) start pre w :
  timer_inv timer R start pre w → (∀ t, tm_now w ≤ t → R (default start (head (tm_sent w).*2)) t) →
  wp timer_step (fire_timer (ts_unit timer)) w (λ w' _, timer_inv timer R start pre w').
Proof.
  intros Hw HR. eapply wp_mono; [|apply fire_timer_once]. intros w' _ (Hl' & Hn & [Hs|(t & Ht & Hs)]).
  { by eapply same_sent_inv. }
  destruct Hw as [(Hl & Hu & sched & Heq & Hc) Hh]. unfold timer_inv, fired. rewrite Hl', Hs. csimpl.
  split_and!; [done|by constructor| |lia]. exists (t :: sched). rewrite Heq in *. split; [done|]. cbn [chain].
  split; [|done]. specialize (HR t ltac:(lia)). by destruct sched.
Qed.

Lemma with_jitter_spec timer wait w :
  wp timer_step (with_jitter timer wait) w (λ w' r, same_sent w w' ∧
    ∀ d, r = Some d → wait ≤ d).
Proof.
  assert (H0 : same_sent w w) by (by split_and!).
  unfold with_jitter. destruct (ts_randomized_delay_sec timer) as [j|]; [|by split; [|intros ? [= <-]]].
  destruct (Z.ltb_spec 0 j); [|by split; [|intros ? [= <-]]].
  unfold random_u64. apply wp_bind, wp_op. intros bytes w1 Hs. simpl. split.
  - eapply (same_sent_op (ReadBytes _)); [|exact H0|exact Hs]. intros ? ? ? [_ ->]. done.
  - intros d. unfold add_secs. destruct (_ <=? _); [|done]. intros [= <-].
    match goal with |- context [?r mod j] => pose proof (Z.mod_pos_bound r j ltac:(lia)) end. lia.
Qed.

Lemma save_last_fired_spec name w :
  wp timer_step (save_last_fired name) w (λ w' _, same_sent w w').
Proof.
  assert (keeps timer_step (same_sent w) (save_last_fired name)) as Hk; [|by apply Hk].
  unfold save_last_fired, now_secs. same_sent.
Qed.

(** One turn fires at most once, when the wait is over. *)
Lemma timer_turn_spec fuel timer (R : Z → Z → Prop) start pre wait w :
  timer_inv timer R start pre w →
  wp timer_step wait w (λ w' r, same_sent w w' ∧ ∀ d, r = Some d →
    ∀ t, tm_now w' + from_secs d ≤ t → R (default start (head (tm_sent w).*2)) t) →
  wp timer_step (timer_turn fuel timer wait) w (λ w' r,
    match r with Some (inl _) => timer_inv timer R start pre w' | _ => fired timer R start pre w' end).
Proof.
  intros Hw Hwait. unfold timer_turn. eapply wp_bind_2; [exact Hwait|]. cbv beta.
  intros w1 [d|] [H1 Hd]; [|by eapply same_sent_inv]. specialize (Hd d eq_refl).
  eapply wp_bind_2; [apply with_jitter_spec|]. cbv beta.
  intros w2 [d'|] [H2 Hj].
  2: { eapply same_sent_inv; [exact H2|]. by eapply same_sent_inv. }
  specialize (Hj d' eq_refl). unfold fuel_bind. eapply wp_bind_2; [apply sleep_spec|]. cbv beta.
  intros w3 r [H3 Hsl].
  assert (Hw3 : timer_inv timer R start pre w3).
  { eapply same_sent_inv; [exact H3|]. eapply same_sent_inv; [exact H2|]. by eapply same_sent_inv. }
  destruct r as [[]|]; cbn [negb]; [|by destruct Hw3..]. specialize (Hsl eq_refl).
  eapply wp_bind_2; [apply (fire_timer_spec timer R start pre w3 Hw3)|].
  - intros t Ht. destruct H1 as (Hs1 & _ & _), H2 as (Hs2 & _ & Hn2), H3 as (Hs3 & _ & _).
    rewrite Hs3, Hs2, Hs1. apply Hd. unfold from_secs in *. lia.
  - intros w4 ? H4. eapply (wp_bind_2 _ _ _ _ _ (λ w' _, timer_inv timer R start pre w')); [|done].
    destruct (ts_persistent timer); [|done]. eapply wp_mono; [|apply save_last_fired_spec].
    intros w5 ? H5. by apply (same_sent_inv _ _ _ _ w4).
Qed.

Lemma time_until_next_spec oc spec w :
  valid_spec spec → 0 ≤ epoch + tm_now w →
  wp timer_step (time_until_next oc spec) w (λ w' r, same_sent w w' ∧ ∀ d, r = Some d →
    ∀ a t, a ≤ tm_now w → tm_now w' + from_secs d ≤ t → instant_between spec a t).
Proof.
  intros Hv Hep. unfold time_until_next. pose proof Hv as (_ & _ & Hmin & _). rewrite Hmin.
  unfold now_secs. apply wp_bind, wp_op. intros t0 w1 Hs. simpl.
  assert (H1 : same_sent w w1).
  { eapply (same_sent_op WallClock); [|by split_and!|exact Hs]. intros ? ? ? [_ [_ ->]]. done. }
  split; [done|]. intros d Hd a t Ha Ht. destruct Hs as [Hc [Hwall _]].
  apply clock_step_mono in Hc. rewrite Hwall, Z.max_r in Hd by lia.
  pose proof (until_next_exact_core oc spec ((epoch + tm_now w1) / 1000000000) Hv
    ltac:(apply Z.div_pos; lia)) as Hx.
  rewrite Hd in Hx. destruct Hx as (Hpos & Hf & _).
  exists ((epoch + tm_now w1) / 1000000000 + d). split; [done|]. unfold from_secs in Ht.
  pose proof (Z.div_mod (epoch + tm_now w1) 1000000000 ltac:(lia)).
  pose proof (Z.mod_pos_bound (epoch + tm_now w1) 1000000000 ltac:(lia)). lia.
Qed.

(** The schedule of a calendar: for [minutely] a minute, else an instant. *)
Definition calendar_rel (spec : CalendarSpec) : Z → Z → Prop :=
  if cs_minutely spec then λ a b, a + from_secs 60 ≤ b else instant_between spec.

Definition sound_spec (spec : CalendarSpec) : Prop := valid_spec spec ∨ cs_minutely spec = true.

Lemma calendar_loop_spec oc turns fuel timer spec start pre w :
  sound_spec spec → 0 ≤ epoch + tm_now w → timer_inv timer (calendar_rel spec) start pre w →
  wp timer_step (calendar_loop oc turns fuel timer spec) w (λ w' _,
    fired timer (calendar_rel spec) start pre w').
Proof.
  intros Hv Hep Hi. unfold calendar_loop.
  apply (wp_loop_fuel _ (λ _ w', timer_inv timer (calendar_rel spec) start pre w' ∧
    0 ≤ epoch + tm_now w')); [by intros ? ? [[? _] _]| |done].
  intros _ w1 [H1 Hn1].
  eapply wp_mono; [|apply wp_and; [apply (timer_turn_spec fuel timer (calendar_rel spec) start pre _ w1 H1)|
    apply (wp_time (λ t, tm_now w1 ≤ t))]].
  - intros w2 [[[]|[]]|] [? ?]; [|done..]. split; [done|lia].
  - unfold calendar_rel in *. destruct H1 as [_ H1]. destruct (cs_minutely spec) eqn:Hm.
    + unfold time_until_next. rewrite Hm. split; [by split_and!|]. intros d [= <-] t Ht. lia.
    + destruct Hv as [Hv|?]; [|congruence]. eapply wp_mono; [|by apply time_until_next_spec]. cbv beta.
      intros w2 r [H2 Hd]. split; [done|]. intros d Hr t Ht. by apply (Hd d Hr).
  - done.
  - intros. lia.
Qed.

Lemma interval_loop_spec turns fuel timer interval start pre w :
  timer_inv timer (λ a b, a + from_secs interval ≤ b) start pre w →
  wp timer_step (interval_loop turns fuel timer interval) w (λ w' _,
    fired timer (λ a b, a + from_secs interval ≤ b) start pre w').
Proof.
  intros Hi. unfold interval_loop.
  apply (wp_loop_fuel _ (λ _ w', timer_inv timer (λ a b, a + from_secs interval ≤ b) start pre w'));
    [by intros ? ? [? _]| |done].
  intros _ w1 H1. apply timer_turn_spec; [done|]. simpl. split; [by split_and!|].
  intros d [= <-] t Ht. destruct H1 as [_ ?]. lia.
Qed.

(** ** The whole history of a timer *)

(** When a scheduled activation may follow one at [a]. *)
Definition scheduled (timer : TimerSpec) : Z → Z → Prop :=
  match ts_on_calendar timer with
  | Some s => match CalendarSpec_parse s with Ok spec => calendar_rel spec | Err _ => λ _ _, False end
  | None => match ts_on_unit_active_sec timer with
            | Some interval => λ a b, a + from_secs interval ≤ b
            | None => λ _ _, False
            end
  end.

(** The catch-up of a persistent calendar timer, at most once, at its start. *)
Definition caught_up (timer : TimerSpec) (caught : list Z) : Prop :=
  caught = [] ∨ ∃ t, caught = [t] ∧ ts_persistent timer = true ∧ is_Some (ts_on_calendar timer).

(** The activation at the boot, at most once, not before its delay has passed. *)
Definition booted (timer : TimerSpec) (start : Z) (boot : list Z) : Prop :=
  boot = [] ∨ ∃ t s, boot = [t] ∧ ts_on_boot_sec timer = Some s ∧ start + from_secs s ≤ t.

Definition history (timer : TimerSpec) (start : Z) (w : TimerWorld) : Prop :=
  tm_late w = false ∧ Forall (λ s, s.1 = ts_unit timer) (tm_sent w) ∧
  ∃ sched boot caught, (tm_sent w).*2 = sched ++ boot ++ caught ∧
    caught_up timer caught ∧ booted timer start boot ∧
    chain (scheduled timer) (default start (head (boot ++ caught))) sched.

(** What was sent so far, when [pre] was sent and nothing is scheduled yet. *)
Definition sent_only (timer : TimerSpec) (start : Z) (pre : list Z) (w : TimerWorld) : Prop :=
  timer_inv timer (λ _ _, False) start pre w ∧ (tm_sent w).*2 = pre.

Lemma sent_only_inv timer R start pre w : sent_only timer start pre w → timer_inv timer R start pre w.
Proof. intros [[(Hl & Hu & _) Hh] Hs]. unfold timer_inv, fired. split_and!; try done. by exists []. Qed.

Lemma sent_only_same timer start pre w w' : same_sent w w' → sent_only timer start pre w → sent_only timer start pre w'.
Proof. intros Hs [Hi Hp]. split; [by eapply same_sent_inv|]. destruct Hs as [-> _]. done. Qed.

Lemma sent_only_once timer start pre w w' :
  fired_once timer w w' → start ≤ tm_now w → sent_only timer start pre w →
  sent_only timer start pre w' ∨ ∃ t, tm_now w ≤ t ∧ sent_only timer start (t :: pre) w'.
Proof.
  intros (Hl & Hn & [Hs|(t & Ht & Hs)]) Hst Hp; [left; by eapply sent_only_same|].
  right. exists t. split; [lia|]. destruct Hp as [[(Hl' & Hu & _) _] Hp].
  split; [|rewrite Hs; csimpl; by rewrite Hp]. unfold timer_inv, fired. rewrite Hl, Hs. csimpl.
  split_and!; [done|by constructor| |lia]. exists []. by rewrite Hp.
Qed.

Lemma should_catch_up_same oc name s w :
  wp timer_step (should_catch_up oc name s) w (λ w' _, same_sent w w').
Proof.
  assert (keeps timer_step (same_sent w) (should_catch_up oc name s)) as Hk; [|by apply Hk].
  unfold should_catch_up, now_secs, time_until_next, fuel_bind. same_sent.
Qed.

Lemma catch_up_spec oc timer w :
  sent_only timer (tm_now w) [] w →
  wp timer_step (catch_up oc timer) w (λ w' _, ∃ caught, caught_up timer caught ∧
    sent_only timer (tm_now w) caught w').
Proof.
  intros Hw. assert (H0 : caught_up timer []) by by left.
  unfold catch_up. destruct (ts_on_calendar timer) as [s|] eqn:Hcal; [|by exists []].
  destruct (ts_persistent timer) eqn:Hper; [|by exists []].
  unfold fuel_bind. eapply wp_bind_2; [apply should_catch_up_same|]. cbv beta. intros w1 missed Hw1.
  assert (Hs1 : sent_only timer (tm_now w) [] w1) by by eapply sent_only_same.
  destruct missed as [[]|]; [|by exists []..].
  eapply wp_bind_2; [apply fire_timer_once|]. cbv beta. intros w2 _ Hw2.
  eapply wp_bind_2; [apply save_last_fired_spec|]. cbv beta. intros w3 _ Hw3. simpl.
  destruct Hw1 as (_ & _ & Hn1).
  destruct (sent_only_once _ _ _ _ _ Hw2 Hn1 Hs1) as [H2|(t & _ & H2)].
  - exists []. split; [done|]. by eapply sent_only_same.
  - exists [t]. split; [right; by exists t|]. by eapply sent_only_same.
Qed.

Lemma sent_only_history timer start boot caught w :
  caught_up timer caught → booted timer start boot → sent_only timer start (boot ++ caught) w →
  history timer start w.
Proof. intros Hc Hb [[(Hl & Hu & _) _] Hp]. split_and!; [done|done|]. by exists [], boot, caught. Qed.

Lemma fired_history timer start boot caught w :
  caught_up timer caught → booted timer start boot →
  fired timer (scheduled timer) start (boot ++ caught) w → history timer start w.
Proof. intros Hc Hb (Hl & Hu & sched & Hs & Hch). split_and!; [done|done|]. by exists sched, boot, caught. Qed.

(** The loops, whichever the timer has. *)
Lemma loops_spec oc turns fuel timer start boot caught w :
  (∀ s spec, ts_on_calendar timer = Some s → CalendarSpec_parse s = Ok spec → sound_spec spec) →
  0 ≤ epoch + tm_now w → caught_up timer caught → booted timer start boot →
  sent_only timer start (boot ++ caught) w →
  wp timer_step
    match ts_on_calendar timer with
    | Some spec_str =>
        match CalendarSpec_parse spec_str with
        | Ok spec => calendar_loop oc turns fuel timer spec
        | Err _ => Ret (Some tt)
        end
    | None =>
        match ts_on_unit_active_sec timer with
        | Some interval => interval_loop turns fuel timer interval
        | None => Ret (Some tt)
        end
    end w (λ w' _, history timer start w').
Proof.
  intros Hv Hep Hc Hb Hw. pose proof (sent_only_inv timer (scheduled timer) _ _ _ Hw) as Hi.
  pose proof (fun w' => fired_history timer start boot caught w' Hc Hb) as Hf.
  pose proof (sent_only_history timer start boot caught w Hc Hb Hw) as H0.
  unfold scheduled in Hi, Hf. destruct (ts_on_calendar timer) as [s|] eqn:Hcal.
  - destruct (CalendarSpec_parse s) as [spec|e] eqn:Hs; [|done].
    eapply wp_mono; [|apply (calendar_loop_spec oc turns fuel timer spec start (boot ++ caught) w);
      [by eapply Hv|done|exact Hi]]. intros w1 r. apply Hf.
  - destruct (ts_on_unit_active_sec timer) as [interval|]; [|done].
    eapply wp_mono; [|apply (interval_loop_spec turns fuel timer interval start (boot ++ caught) w Hi)].
    intros w1 r. apply Hf.
Qed.
End schedule.



(** A persistent timer catches up although nothing was missed: "the interval" of
    [should_catch_up] is the time to the next trigger, not the period, so a restart
    shortly before the trigger fires the unit although no instant has passed since it
    last fired. *)
Lemma catch_up_spurious :
  let spec := {| cs_hour := Some 2; cs_minute := 30; cs_second := 0; cs_minutely := false;
                 cs_weekday := None |} in
  let last := 1699929000 in let now := last + 86340 in
  until_next false spec now = Some 60 ∧ 60 < saturating_sub_u64 now last ∧
  fires_at spec last ∧ ∀ t, last < t ≤ now → ¬ fires_at spec t.
Proof.
  split; [reflexivity|]. split; [reflexivity|]. split; [apply (bool_decide_unpack _); vm_compute; exact I|].
  intros t Ht (_ & Hh & Hm & Hs). simpl in *. Z.to_euclidean_division_equations. lia.
Qed.
