(* ===== verification/Catalog.v ===== *)
(** * The service catalog

    The part of [quantra/src/services/manager.rs] that works on service definitions:
    the hardcoded bootstrap services, the catalog with its conditional dependencies,
    the validation of the whole set, the loading with the boot filter, and the
    startup plan. *)

From Stdlib Require Import ZArith Ascii.
From stdpp Require Import base tactics numbers list strings gmap.
From S2P Require Import Prelude RustStr Types Dependency CommandLine Seccomp Effects Os Parser Start.

Local Open Scope string_scope.
Local Open Scope list_scope.
Local Open Scope Z_scope.
Local Open Scope quantra_scope.
Local Open Scope prog_scope.

(** ** Bootstrap services *)

Definition BUILTIN_BOOTSTRAP_ORDER : list string :=
  ["quantra-netd"; "quantra-net"; "console-shell"].

(** [environment.rs]: the gaps of the resolved environment are filled. *)
Definition BOOT_FALLBACK : list (string * string) := [
  ("PATH",
   "/overlayer/syshub/bin:/overlayer/syshub/sbin:/overlayer/syshub/x86_64-zainium-linux-musl/bin:/overlayer/zexlib/union/bin");
  ("LD_LIBRARY_PATH",
   "/overlayer/syshub/lib:/overlayer/syshub/x86_64-zainium-linux-musl/lib:/overlayer/zexlib/union/lib")
].

Section catalog.
(** [oxidized_environment::resolve] of the configuration directory, and
    [toml::from_str] of a service file. *)
Context (oxienv : gmap string string) (toml_from_str : string → result string Service).
Context (SYS : string → Z).

Definition base_map : gmap string string :=
  fold_left (λ env kv, match env !! kv.1 with Some _ => env | None => <[kv.1 := kv.2]> env end)
    BOOT_FALLBACK oxienv.

Definition console_environment : gmap string string :=
  <["SHELL" := "/overlayer/syshub/bin/bash"]>
    (<["HOME" := "/root"]> (<["TERM" := "linux"]> base_map)).

(** What the three have in common; the rest is [..Default::default()]. *)
Definition builtin (name description command : string) (args : list string)
    (seccomp : SeccompMode) (seccomp_profile : option string) (oneshot console : bool)
    (ready_socket tty : option string) (environment : option (gmap string string))
    (restart : RestartPolicy) (restart_sec : Z) (after : list string) (timeout_start : Z)
    : Service := {|
  svc_name := name;
  svc_description := Some description;
  svc_command := command;
  svc_args := args;
  svc_apparmor_profile := None;
  svc_no_new_privileges := true;
  svc_non_dumpable := true;
  svc_clear_ambient_caps := false;
  svc_drop_capabilities := [];
  svc_seccomp := seccomp;
  svc_seccomp_profile := seccomp_profile;
  svc_oneshot := oneshot;
  svc_console := console;
  svc_launcher := false;
  svc_notify_type := Simple;
  svc_pid_file := None;
  svc_ready_socket := ready_socket;
  svc_socket_alias := None;
  svc_watchdog_sec := 0;
  svc_stop_command := None;
  svc_stop_args := [];
  svc_reload_signal := "SIGHUP";
  svc_reload_command := None;
  svc_chain_to := None;
  svc_chain_to_always := false;
  svc_env_file := None;
  svc_environment := environment;
  svc_user := None;
  svc_group := None;
  svc_working_dir := Some "/";
  svc_tty := tty;
  svc_rlimit := None;
  svc_restart := restart;
  svc_restart_sec := restart_sec;
  svc_max_restarts := 0;
  svc_restart_interval_sec := 60;
  svc_timeout_start := timeout_start;
  svc_timeout_stop := 5;
  svc_dependencies := [];
  svc_wants := [];
  svc_milestone := [];
  svc_after := after;
  svc_socket_listen := [];
  svc_cgroup_config := None;
  svc_healthcheck := None;
  svc_conditional_dependencies := ∅;
  svc_exec_start_pre := [];
  svc_exec_start_post := [];
  svc_condition_path_exists := [];
  svc_condition_path_not_exists := [];
  svc_private_tmp := false;
  svc_protect_system := false;
  svc_landlock_paths := [];
  svc_cpu_quota := None;
  svc_tasks_max := None;
  svc_memory_swap_max := None;
  svc_private_network := false;
  svc_private_devices := false;
  svc_private_ipc := false;
  svc_protect_hostname := false;
  svc_protect_home := ProtectHome_No;
  svc_protect_proc := ProtectProc_Default;
  svc_protect_kernel_tunables := false;
  svc_protect_kernel_modules := false;
  svc_protect_kernel_logs := false;
  svc_protect_clock := false;
  svc_protect_control_groups := false;
  svc_inaccessible_paths := [];
  svc_read_only_paths := [];
  svc_read_write_paths := [];
  svc_bind_paths := [];
  svc_bind_read_only_paths := [];
  svc_memory_deny_write_execute := false;
  svc_restrict_namespaces := false;
  svc_restrict_suid_sgid := false;
  svc_restrict_realtime := false;
  svc_lock_personality := false;
  svc_restrict_address_families := [];
  svc_syscall_filter_mode := "";
  svc_root_directory := None;
  svc_root_image := None;
  svc_runtime_directory := None;
  svc_state_directory := None;
  svc_cache_directory := None;
  svc_logs_directory := None;
  svc_io_device_weights := ∅;
  svc_io_device_latencies := ∅;
  svc_exec_stop_post := [];
  svc_dynamic_user := false;
  svc_private_users := false;
  svc_temporary_filesystems := [];
  svc_mount_api_vfs := false;
  svc_proc_subset_pid := false;
  svc_ambient_capabilities := [];
  svc_capability_bounding_set := [];
  svc_ip_address_deny := [];
  svc_ip_address_allow := [];
  svc_load_credential := [];
  svc_system_call_architectures_native := false;
  svc_socket_bind_deny := [];
  svc_socket_bind_allow := []
|}.

(** [None]: [unreachable!]. *)
Definition builtin_service (name : string) : option Service :=
  match name with
  | "quantra-net" => Some
      (builtin "quantra-net" "Hardcoded network setup client" "/overlayer/syshub/bin/quantra-net"
         ["setup"] SeccompMode_Off None true false None None None RestartPolicy_No 1
         ["quantra-netd"] 30)
  | "quantra-netd" => Some
      (builtin "quantra-netd" "Hardcoded network daemon" "/overlayer/syshub/engine/quantra-netd"
         [] SeccompMode_Profile (Some "network-daemon") false false
         (Some "/run/quantra-system/quantra-netd.sock") None None OnFailure 2 [] 90)
  | "console-shell" => Some
      (builtin "console-shell" "Interactive Zainium console shell" "/overlayer/syshub/bin/bash"
         ["-il"] SeccompMode_Off None false true None (Some "/dev/tty1")
         (Some console_environment) Always 1 ["quantra-net"] 90)
  | _ => None
  end.

Definition service_or_builtin (services : list Service) (name : string) : option Service :=
  match list_find (λ svc, svc_name svc = name) services with
  | Some (_, svc) => Some svc
  | None => builtin_service name
  end.

Definition bootstrap_services (services : list Service) : option (list Service) :=
  mapM (service_or_builtin services) BUILTIN_BOOTSTRAP_ORDER.

Definition remaining_services (services : list Service) : list Service :=
  filter (λ svc, svc_name svc ∉ BUILTIN_BOOTSTRAP_ORDER ∧ svc_launcher svc = false) services.

(** ** The catalog *)

Definition resolve_conditional_dep (dep_name condition : string) : prog Os (option string) :=
  let if_present path :=
    let* present := trigger (PathExists path) in
    Ret (if present : bool then Some dep_name else None) in
  match strip_prefix "hardware-present:" condition with
  | Some path => if_present path
  | None =>
      match strip_prefix "file-exists:" condition with
      | Some path => if_present path
      | None =>
          match strip_prefix "env-set:" condition with
          | Some var =>
              let* v := trigger (EnvVar var) in
              Ret match v with
                  | Some v => if negb (is_empty v) then Some dep_name else None
                  | None => None
                  end
          | None => Ret None
          end
      end
  end.

Fixpoint resolved_deps (conds : list (string * string)) : prog Os (list string) :=
  match conds with
  | [] => Ret []
  | (dep_name, condition) :: conds =>
      let* r := resolve_conditional_dep dep_name condition in
      let* rest := resolved_deps conds in
      Ret match r with Some dep => dep :: rest | None => rest end
  end.

Fixpoint resolve_all (entries : list (string * Service)) : prog Os (list (string * Service)) :=
  match entries with
  | [] => Ret []
  | (key, svc) :: entries =>
      let* resolved := resolved_deps (map_to_list (svc_conditional_dependencies svc)) in
      let svc := svc <|svc_dependencies := svc_dependencies svc ++ resolved|> in
      let* rest := resolve_all entries in
      Ret ((key, svc) :: rest)
  end.

(** Before the conditional dependencies: a later service of a name replaces an
    earlier one, the builtins fill the gaps. *)
Definition catalog_of (services : list Service) : gmap string Service :=
  let catalog := fold_left (λ m svc, <[svc_name svc := svc]> m) services ∅ in
  fold_left (λ m builtin,
    match m !! builtin, builtin_service builtin with
    | None, Some svc => <[builtin := svc]> m
    | _, _ => m
    end) BUILTIN_BOOTSTRAP_ORDER catalog.

Definition build_catalog (services : list Service) : prog Os (gmap string Service) :=
  let* entries := resolve_all (map_to_list (catalog_of services)) in
  Ret (list_to_map entries).

(** ** The catalog is keyed by name *)

Definition keyed (catalog : gmap string Service) : Prop :=
  map_Forall (λ key svc, svc_name svc = key) catalog.

Lemma builtin_service_name name svc : builtin_service name = Some svc → svc_name svc = name.
Proof. unfold builtin_service. intros H. repeat case_match; simplify_eq; done. Qed.

Lemma fold_left_keyed {A} (f : gmap string Service → A → gmap string Service) l m :
  (∀ m a, keyed m → keyed (f m a)) → keyed m → keyed (fold_left f l m).
Proof. intros Hf. revert m. induction l as [|a l IH]; simpl; auto. Qed.

Lemma catalog_of_keyed services : keyed (catalog_of services).
Proof.
  unfold catalog_of. apply fold_left_keyed; [|apply fold_left_keyed; [|done]].
  - intros m name Hm. destruct (m !! name); [done|].
    destruct (builtin_service name) as [svc|] eqn:E; [|done].
    apply map_Forall_insert_2; [by apply builtin_service_name|done].
  - intros m svc Hm. by apply map_Forall_insert_2.
Qed.

Lemma resolve_all_names {W} (step : ∀ X, Os X → W → X → W → Prop) entries w :
  wp step (resolve_all entries) w (λ _ es,
    (λ e, (e.1, svc_name e.2)) <$> es = (λ e, (e.1, svc_name e.2)) <$> entries).
Proof.
  revert w. induction entries as [|[key svc] entries IH]; intros w; [done|]. cbn [resolve_all].
  eapply wp_bind_2; [by apply (wp_true _ _ _ (λ _ _, True))|]. intros w1 deps _.
  eapply wp_bind_2; [apply IH|]. intros w2 es Hes. cbn [wp]. csimpl. by rewrite Hes.
Qed.

Lemma build_catalog_keyed {W} (step : ∀ X, Os X → W → X → W → Prop) services w :
  wp step (build_catalog services) w (λ _ catalog, keyed catalog).
Proof.
  unfold build_catalog. eapply wp_bind_2; [apply resolve_all_names|]. intros w1 es Hes.
  cbn [wp]. intros key svc Hl%elem_of_list_to_map_2.
  apply (list_elem_of_fmap_2 (λ e : string * Service, (e.1, svc_name e.2))) in Hl. rewrite Hes in Hl.
  apply list_elem_of_fmap in Hl as ([k s] & [= -> ->] & Hl%elem_of_map_to_list).
  by eapply catalog_of_keyed.
Qed.

(** ** Validation of the whole set *)

Definition SeccompMode_debug (m : SeccompMode) : string :=
  match m with
  | SeccompMode_Off => "Off"
  | SeccompMode_Strict => "Strict"
  | SeccompMode_Profile => "Profile"
  end.

Definition nonblank (o : option string) : option string :=
  match o with
  | Some v => if is_empty (trim v) then None else Some (trim v)
  | None => None
  end.

Definition seccomp_issues (svc : Service) : list string :=
  match svc_seccomp svc with
  | SeccompMode_Profile =>
      match nonblank (svc_seccomp_profile svc) with
      | Some profile =>
          match resolve_seccomp_profile_denylist SYS profile with
          | Ok _ => []
          | Err e => ["service '" +:+ svc_name svc +:+ "' has invalid seccomp_profile '" +:+ profile
                      +:+ "': " +:+ e +:+ " (supported: "
                      +:+ join ", " supported_seccomp_profiles +:+ ")"]
          end
      | None => ["service '" +:+ svc_name svc
                 +:+ "' sets seccomp='profile' but seccomp_profile is missing"]
      end
  | SeccompMode_Off | SeccompMode_Strict =>
      match nonblank (svc_seccomp_profile svc) with
      | Some profile =>
          ["service '" +:+ svc_name svc +:+ "' sets seccomp_profile='" +:+ profile
           +:+ "' but seccomp mode is '" +:+ SeccompMode_debug (svc_seccomp svc) +:+ "'"]
      | None => []
      end
  end.

Definition capability_issues (svc : Service) : list string :=
  omap (λ capability,
    match capability_name_to_number capability with
    | Some _ => None
    | None => Some ("service '" +:+ svc_name svc +:+ "' has unknown capability '" +:+ capability
                    +:+ "' in drop_capabilities")
    end) (svc_drop_capabilities svc).

(** A service with an empty command is not looked at further. *)
Definition service_issues (svc : Service) : list string :=
  if is_empty (trim (svc_command svc)) then
    ["service '" +:+ svc_name svc +:+ "' has an empty command"]
  else
    match resolve_command_argv (svc_command svc) (svc_args svc) with
    | Ok _ => []
    | Err e => ["service '" +:+ svc_name svc +:+ "' command invalid: " +:+ e]
    end ++
    capability_issues svc ++
    seccomp_issues svc ++
    (if negb (bool_decide (svc_seccomp svc = SeccompMode_Off)) && negb (svc_no_new_privileges svc)
     then ["service '" +:+ svc_name svc +:+ "' enables seccomp but no_new_privileges=false"]
     else []).

Fixpoint first_pass (names : gset string) (services : list Service)
    : gset string * list string :=
  match services with
  | [] => (names, [])
  | svc :: services =>
      let duplicate :=
        if bool_decide (svc_name svc ∈ names)
        then ["duplicate service name '" +:+ svc_name svc +:+ "'"] else [] in
      let (names, rest) := first_pass ({[svc_name svc]} ∪ names) services in
      (names, duplicate ++ service_issues svc ++ rest)
  end.

(** One kind of reference: to itself (when that counts), to nothing. *)
Definition reference_issues (known : gset string) (self : option string) (unknown : string → string)
    (svc : Service) (refs : list string) : list string :=
  omap (λ dep,
    match self with
    | Some text =>
        if String.eqb dep (svc_name svc) then Some text
        else if bool_decide (dep ∈ known) then None else Some (unknown dep)
    | None => if bool_decide (dep ∈ known) then None else Some (unknown dep)
    end) refs.

Definition dependency_issues (known : gset string) (svc : Service) : list string :=
  let q := "service '" +:+ svc_name svc +:+ "' " in
  reference_issues known (Some (q +:+ "depends on itself"))
    (λ dep, q +:+ "references unknown dependency '" +:+ dep +:+ "'")
    svc (svc_dependencies svc ++ svc_after svc) ++
  reference_issues known None (λ want, q +:+ "wants unknown unit '" +:+ want +:+ "'")
    svc (svc_wants svc) ++
  reference_issues known (Some (q +:+ "has itself as a milestone"))
    (λ ms, q +:+ "references unknown milestone '" +:+ ms +:+ "'") svc (svc_milestone svc).

Definition catalog_issues (services : list Service) : list string :=
  let (names, issues) := first_pass ∅ services in
  let known := names ∪ list_to_set BUILTIN_BOOTSTRAP_ORDER in
  issues ++ (services ≫= dependency_issues known).

Definition validate_service_catalog (services : list Service) (strict : bool)
    : result string unit :=
  let issues := catalog_issues services in
  match issues with
  | [] => Ok tt
  | _ =>
      let summary := "Service catalog validation found " +:+ show_nat (length issues)
                     +:+ " issue(s)" in
      if strict then Err (summary +:+ String newline "- " +:+ join (String newline "- ") issues)
      else Ok tt
  end.

(** ** Loading *)

Record InitConfig := {
  services_dir : string;
  enabled_dir : string;
  strict_service_validation : bool;
}.

Definition load_services_or_default (cfg : InitConfig) : prog Os (result string (list Service)) :=
  let* r := parse_services_with_enabled_filter toml_from_str (services_dir cfg) (enabled_dir cfg) in
  Ret match r with
      | Ok report =>
          if negb (bool_decide (pr_errors report = [])) && strict_service_validation cfg then
            Err ("Loaded " +:+ show_nat (length (pr_services report)) +:+ " service(s) from '"
                 +:+ services_dir cfg +:+ "' with " +:+ show_nat (length (pr_errors report))
                 +:+ " parse error(s)")
          else Ok (pr_services report)
      | Err _ => Ok []
      end.

(** What booting uses; the parse errors are dropped here. *)
Definition load_services_or_default_filtered (cfg : InitConfig)
    : prog Os (result string (list Service)) :=
  let* present := trigger (PathExists (services_dir cfg)) in
  if negb present then Ret (Ok [])
  else
    try* report := parse_services_with_enabled_filter toml_from_str (services_dir cfg) ENABLED_DIR in
    Ret (Ok (pr_services report)).

(** ** The startup plan

    The outer [None] is a panic, of the sort or of an unknown builtin. *)
Definition startup_plan_from_services (services : list Service) : option (list Service) :=
  bootstrap ← bootstrap_services services;
  match remaining_services services with
  | [] => Some bootstrap
  | remaining =>
      sorted ← wave_sort_services remaining;
      Some (bootstrap ++ match sorted with
                         | Ok waves => concat waves
                         | Err _ => remaining
                         end)
  end.
End catalog.

(** ** What validation accepts *)

Section valid.
Context (SYS : string → Z).

Definition seccomp_valid (svc : Service) : Prop :=
  match svc_seccomp svc with
  | SeccompMode_Profile => ∃ p l, svc_seccomp_profile svc = Some p ∧ trim p ≠ "" ∧
      resolve_seccomp_profile_denylist SYS (trim p) = Ok l
  | _ => ∀ p, svc_seccomp_profile svc = Some p → trim p = ""
  end.

Definition service_valid (svc : Service) : Prop :=
  trim (svc_command svc) ≠ "" ∧
  (∃ r, resolve_command_argv (svc_command svc) (svc_args svc) = Ok r) ∧
  Forall (λ c, is_Some (capability_name_to_number c)) (svc_drop_capabilities svc) ∧
  seccomp_valid svc ∧
  (svc_seccomp svc ≠ SeccompMode_Off → svc_no_new_privileges svc = true).

Definition references_valid (known : gset string) (svc : Service) : Prop :=
  Forall (λ d, d ≠ svc_name svc ∧ d ∈ known) (svc_dependencies svc ++ svc_after svc) ∧
  Forall (λ d, d ∈ known) (svc_wants svc) ∧
  Forall (λ d, d ≠ svc_name svc ∧ d ∈ known) (svc_milestone svc).

Definition valid_catalog (services : list Service) : Prop :=
  let known := list_to_set ((svc_name <$> services) ++ BUILTIN_BOOTSTRAP_ORDER) in
  NoDup (svc_name <$> services) ∧ Forall service_valid services ∧
  Forall (references_valid known) services.

Lemma omap_nil {A B} (f : A → option B) l : omap f l = [] ↔ Forall (λ a, f a = None) l.
Proof.
  induction l as [|a l IH]; csimpl; [done|]. rewrite Forall_cons, <- IH.
  destruct (f a); naive_solver.
Qed.

Lemma nonblank_spec o v :
  nonblank o = Some v ↔ ∃ p, o = Some p ∧ trim p ≠ "" ∧ v = trim p.
Proof.
  unfold nonblank. destruct o as [p|]; [|naive_solver]. destruct (is_empty (trim p)) eqn:E.
  - apply is_empty_spec in E. naive_solver.
  - assert (trim p ≠ "") by (intros H; by rewrite H in E). naive_solver.
Qed.

Lemma seccomp_issues_nil svc : seccomp_issues SYS svc = [] ↔ seccomp_valid svc.
Proof.
  unfold seccomp_issues, seccomp_valid. destruct (nonblank _) as [v|] eqn:E.
  - apply nonblank_spec in E as (p & -> & Hne & ->).
    assert (¬ ∀ p0, Some p = Some p0 → trim p0 = "") as Hno by (intros H; by apply Hne, H).
    destruct (svc_seccomp svc); [by split..|].
    destruct (resolve_seccomp_profile_denylist SYS (trim p)) as [l|e] eqn:Hr; split; [|done..|].
    + intros _. by exists p, l.
    + intros (p' & l & [= <-] & _ & Hl). congruence.
  - assert (∀ p, svc_seccomp_profile svc = Some p → trim p = "") as Hb.
    { intros p Hp. destruct (decide (trim p = "")) as [|Hne]; [done|]. exfalso.
      assert (nonblank (svc_seccomp_profile svc) = Some (trim p)) by (apply nonblank_spec; eauto). congruence. }
    destruct (svc_seccomp svc); [done..|]. split; [done|]. intros (p & l & Hp & Hne & _).
    by destruct Hne; apply Hb.
Qed.

Lemma service_issues_nil svc : service_issues SYS svc = [] ↔ service_valid svc.
Proof.
  unfold service_issues, service_valid. destruct (is_empty (trim _)) eqn:E.
  { apply is_empty_spec in E. naive_solver. }
  assert (trim (svc_command svc) ≠ "") by (intros H; by rewrite H in E).
  rewrite !app_nil, seccomp_issues_nil. unfold capability_issues. rewrite omap_nil.
  assert (∀ r : result string (string * list string), match r with Ok _ => [] | Err e =>
    ["service '" +:+ svc_name svc +:+ "' command invalid: " +:+ e] end = [] ↔ ∃ x, r = Ok x) as ->
    by (intros []; naive_solver).
  assert (∀ l, Forall (λ a, match capability_name_to_number a with Some _ => None
    | None => Some ("service '" +:+ svc_name svc +:+ "' has unknown capability '" +:+ a
                    +:+ "' in drop_capabilities") end = None) l
    ↔ Forall (λ c, is_Some (capability_name_to_number c)) l) as ->.
  { intros l. apply Forall_iff. intros c. destruct (capability_name_to_number c); naive_solver. }
  case_bool_decide; destruct (svc_no_new_privileges svc); simpl; naive_solver.
Qed.

Lemma first_pass_spec names services :
  (first_pass SYS names services).1 = names ∪ list_to_set (svc_name <$> services) ∧
  ((first_pass SYS names services).2 = [] ↔
   NoDup (svc_name <$> services) ∧ Forall (λ s, svc_name s ∉ names) services ∧
   Forall service_valid services).
Proof.
  revert names. induction services as [|svc services IH]; intros names.
  { simpl. split; [set_solver|]. split; [|done]. intros _. split_and!; constructor. }
  cbn [first_pass]. destruct (IH ({[svc_name svc]} ∪ names)) as [IH1 IH2].
  destruct (first_pass _ _ services) as [names' issues]. cbn [fst snd] in *. split.
  { rewrite IH1, fmap_cons. set_solver. }
  rewrite !app_nil, IH2, service_issues_nil, fmap_cons, NoDup_cons, !Forall_cons.
  assert (((if bool_decide (svc_name svc ∈ names)
    then ["duplicate service name '" +:+ svc_name svc +:+ "'"] else []) = []) ↔ svc_name svc ∉ names) as ->
    by (case_bool_decide; naive_solver).
  assert (Forall (λ s, svc_name s ∉ ({[svc_name svc]} ∪ names : gset string)) services ↔
    svc_name svc ∉ svc_name <$> services ∧ Forall (λ s, svc_name s ∉ names) services) as ->; [|tauto].
  rewrite !Forall_forall. split.
  - intros H. split; [|set_solver]. intros (s & Hs & Hin)%list_elem_of_fmap. specialize (H s Hin). set_solver.
  - intros [Hn H] s Hs [Heq%elem_of_singleton|Hin]%elem_of_union; [|by apply (H s)].
    apply Hn, list_elem_of_fmap. eauto.
Qed.
End valid.

Lemma Forall_bind_nil {A B} (f : A → list B) l : l ≫= f = [] ↔ Forall (λ a, f a = []) l.
Proof.
  induction l as [|a l IH]; csimpl; [done|]. rewrite app_nil, Forall_cons. by rewrite <- IH.
Qed.

Lemma reference_issues_nil known self unknown svc refs :
  reference_issues known self unknown svc refs = [] ↔
  Forall (λ d, (is_Some self → d ≠ svc_name svc) ∧ d ∈ known ∨ False) refs.
Proof.
  unfold reference_issues. rewrite omap_nil. apply Forall_iff. intros d.
  destruct self as [text|].
  - destruct (String.eqb_spec d (svc_name svc)); [naive_solver|]. case_bool_decide; naive_solver.
  - case_bool_decide; [|naive_solver]. split; [|done]. intros _. left. split; [by intros []|done].
Qed.

Lemma dependency_issues_nil known svc :
  dependency_issues known svc = [] ↔ references_valid known svc.
Proof.
  unfold dependency_issues, references_valid. cbv zeta. rewrite !app_nil, !reference_issues_nil.
  assert (∀ o l, Forall (λ d, (is_Some (Some o : option string) → d ≠ svc_name svc) ∧ d ∈ known ∨ False) l
    ↔ Forall (λ d, d ≠ svc_name svc ∧ d ∈ known) l) as H1.
  { intros o l. apply Forall_iff. intros d. split; [|naive_solver]. intros [[Hd ?]|[]]. split; [by apply Hd|done]. }
  rewrite !H1. assert (∀ l, Forall (λ d, (is_Some (None : option string) → d ≠ svc_name svc) ∧ d ∈ known ∨ False) l
    ↔ Forall (λ d, d ∈ known) l) as H2; [|by rewrite H2].
  intros l. apply Forall_iff. intros d. split; [naive_solver|]. intros ?. left. split; [by intros []|done].
Qed.

Lemma catalog_issues_nil SYS services : catalog_issues SYS services = [] ↔ valid_catalog SYS services.
Proof.
  unfold catalog_issues, valid_catalog. destruct (first_pass_spec SYS ∅ services) as [H1 H2].
  destruct (first_pass SYS ∅ services) as [names issues]. cbn [fst snd] in *.
  rewrite app_nil, H2, Forall_bind_nil, H1.
  assert (Forall (λ s, svc_name s ∉ (∅ : gset string)) services) as He by (apply Forall_forall; set_solver).
  assert (Forall (λ svc, dependency_issues
      (∅ ∪ list_to_set (svc_name <$> services) ∪ list_to_set BUILTIN_BOOTSTRAP_ORDER) svc = []) services ↔
    Forall (references_valid (list_to_set ((svc_name <$> services) ++ BUILTIN_BOOTSTRAP_ORDER))) services) as ->.
  { apply Forall_iff. intros svc. rewrite dependency_issues_nil, list_to_set_app_L, union_empty_l_L. done. }
  tauto.
Qed.

(** A valid service can be resolved for a launch. *)
Lemma service_valid_resolves SYS svc :
  service_valid SYS svc → ∃ rs, resolve_start SYS svc = Ok rs.
Proof.
  intros (_ & [[cmd args] Hcmd] & Hcaps & Hsec & _). unfold resolve_start.
  assert (∃ drop, resolve_capability_numbers (svc_drop_capabilities svc) = Ok drop) as [drop Hdrop].
  { revert Hcaps. generalize (svc_drop_capabilities svc). intros l Hl.
    assert (∃ ns, Forall2 (λ name n, capability_name_to_number name = Some n) l ns) as [ns Hns].
    { induction Hl as [|c l [n Hn] _ [ns Hns]]; [by exists []|]. exists (n :: ns). by constructor. }
    exists ns. by apply resolve_capability_numbers_Ok. }
  assert (∃ dl, resolve_seccomp_profile_for_service SYS svc = Ok dl) as [dl Hdl].
  { unfold resolve_seccomp_profile_for_service, seccomp_valid in *. destruct (svc_seccomp svc); [by eexists..|].
    destruct Hsec as (p & l & -> & Hne & Hl). destruct (is_empty (trim p)) eqn:E.
    - by apply is_empty_spec in E.
    - by exists l. }
  rewrite Hdrop. cbn [result_bind]. rewrite Hdl. cbn [result_bind]. rewrite Hcmd. by eexists.
Qed.

(** C26: strict validation accepts exactly the coherent catalogs: distinct names,
    commands that parse, known capabilities, seccomp settings that fit together and
    never without [no_new_privileges], and references (dependencies, orderings,
    wants, milestones) to other known services only; lenient validation accepts
    everything; and no service of an accepted catalog fails to resolve when it is
    started. *)
Theorem validate_service_catalog_spec SYS services :
  (validate_service_catalog SYS services true = Ok tt ↔ valid_catalog SYS services) ∧
  validate_service_catalog SYS services false = Ok tt ∧
  (validate_service_catalog SYS services true = Ok tt →
     ∀ svc, svc ∈ services → ∃ rs, resolve_start SYS svc = Ok rs).
Proof.
  assert (validate_service_catalog SYS services true = Ok tt ↔ valid_catalog SYS services) as Hiff.
  { rewrite <- catalog_issues_nil. unfold validate_service_catalog.
    by destruct (catalog_issues SYS services). }
  split_and!; [done| |].
  - unfold validate_service_catalog. by destruct (catalog_issues SYS services).
  - rewrite Hiff. intros (_ & Hall & _) svc Hin. rewrite Forall_forall in Hall.
    by apply service_valid_resolves, Hall.
Qed.
