(* ===== verification/Manager.v ===== *)
(** * The service manager

    [ServiceManager] of [quantra/src/services/manager.rs]: activation, stopping and
    reloading of services by name, the runtime changes of the catalog, and the boot,
    which starts the bootstrap services one after the other and then every wave of
    the dependency order in parallel threads, a thread per service.

    The cells of a supervisor ([pid], [running], [stop_requested]) are its own: an
    operation of the manager is [Own e], one that the supervisor at position [i]
    performs is [Of i e].  [Start.start], [Stop.stop] and [Stop.reload] are lifted to
    the supervisor they run on. *)

From Stdlib Require Import ZArith Ascii.
From stdpp Require Import base tactics numbers list strings gmap relations.
From S2P Require Import Prelude RustStr Types Dependency Effects Os Stop Start Timer Catalog.
From S2P Require Import Seccomp.

Local Open Scope string_scope.
Local Open Scope list_scope.
Local Open Scope nat_scope.
Local Open Scope quantra_scope.
Local Open Scope prog_scope.

Inductive MgrOp (X : Type) :=
| Own (e : Os X)
| Of (i : nat) (e : Os X).
Arguments Own {X} e.
Arguments Of {X} i e.

Fixpoint lift {E F : Type → Type} (f : ∀ X, E X → F X) {A} (p : prog E A) : prog F A :=
  match p with
  | Ret a => Ret a
  | Vis e k => Vis (f _ e) (λ x, lift f (k x))
  end.

(** A program of the supervisor at position [i]. *)
Definition on {A} (i : nat) (p : prog Os A) : prog MgrOp A := lift (λ X e, Of i e) p.

(** The supervisors in the order in which they were added, each with the number that
    stands for the identity of its cells; [next_id] is fresh. *)
Record ServiceManager := {
  supervisors : list (nat * Service);
  next_id : nat;
  mg_catalog : gmap string Service;
  started_count : nat;
  failed_count : nat;
  global_env : gmap string string;
}.

Definition with_catalog (m : ServiceManager) (c : gmap string Service) : ServiceManager :=
  {| supervisors := supervisors m; next_id := next_id m; mg_catalog := c; started_count := started_count m;
     failed_count := failed_count m; global_env := global_env m |}.

Definition push_supervisor (m : ServiceManager) (svc : Service) : ServiceManager :=
  {| supervisors := supervisors m ++ [(next_id m, svc)]; next_id := S (next_id m); mg_catalog := mg_catalog m;
     started_count := started_count m; failed_count := failed_count m;
     global_env := global_env m |}.

(** [supervisors.iter().find(|sup| sup.service.name == name)]. *)
Definition find_supervisor (m : ServiceManager) (name : string) : option (nat * Service) :=
  snd <$> list_find (λ sup, svc_name sup.2 = name) (supervisors m).

Definition set_env (m : ServiceManager) (key : string) (value : option string) : ServiceManager :=
  {| supervisors := supervisors m; next_id := next_id m; mg_catalog := mg_catalog m; started_count := started_count m;
     failed_count := failed_count m;
     global_env := match value with
                   | Some v => <[key := v]> (global_env m)
                   | None => delete key (global_env m)
                   end |}.

Section manager.
Context (SYS : string → Z) (overflow_checks : bool) (quota_us : string → option Z).

Definition sup_start (fuel : nat) (i : nat) (svc : Service) : prog MgrOp (option StartOutcome) :=
  on i (start SYS overflow_checks quota_us fuel svc).

(** [ServiceSupervisor::new] and [start] of it. *)
Definition new_supervisor (i : nat) : prog MgrOp unit :=
  trigger (Of i (StorePid (-1)));*
  trigger (Of i (StoreRunning false));*
  trigger (Of i (StoreStop false)).

Definition start_new (fuel : nat) (i : nat) (svc : Service) : prog MgrOp (option StartOutcome) :=
  new_supervisor i;* sup_start fuel i svc.

(** [start_named_service]: [None] is out of fuel or the panic of [start]. *)
Definition start_named_service (fuel : nat) (m : ServiceManager) (name : string)
    : prog MgrOp (option (ServiceManager * result string unit)) :=
  match find_supervisor m name with
  | Some (i, svc) =>
      let* running := trigger (Of i LoadRunning) in
      if running : bool then Ret (Some (m, Ok tt))
      else
        fuel* r := sup_start fuel i svc in
        Ret match r with Returned r => Some (m, r) | Panicked => None end
  | None =>
      match mg_catalog m !! name with
      | None => Ret (Some (m, Err ("Unknown service '" +:+ name +:+ "' requested")))
      | Some svc =>
          fuel* r := start_new fuel (next_id m) svc in
          Ret match r with
              | Returned (Ok _) => Some (push_supervisor m svc, Ok tt)
              | Returned (Err e) => Some (m, Err e)
              | Panicked => None
              end
      end
  end.

Definition add_and_start_transient (fuel : nat) (m : ServiceManager) (service : Service)
    : prog MgrOp (option (ServiceManager * result string unit)) :=
  fuel* r := start_new fuel (next_id m) service in
  Ret match r with
      | Returned (Ok _) => Some (push_supervisor m service, Ok tt)
      | Returned (Err e) => Some (m, Err e)
      | Panicked => None
      end.

Definition stop_named_service (fuel : nat) (m : ServiceManager) (name : string)
    : prog MgrOp (option (result string unit)) :=
  match find_supervisor m name with
  | Some (i, svc) => fuel* _ := on i (stop fuel svc) in Ret (Some (Ok tt))
  | None => Ret (Some (Err ("Unknown service '" +:+ name +:+ "' requested")))
  end.

Definition reload_named_service (m : ServiceManager) (name : string)
    : prog MgrOp (result string string) :=
  match find_supervisor m name with
  | Some (i, svc) =>
      try* _ := on i (reload svc) in
      Ret (Ok ("✓ Reloaded '" +:+ name +:+ "' via "
               +:+ default (svc_reload_signal svc) (svc_reload_command svc)))
  | None => Ret (Err ("Unknown service '" +:+ name +:+ "'"))
  end.

Definition get_service_status (m : ServiceManager) (name : string) : prog MgrOp (option (Z * bool)) :=
  match find_supervisor m name with
  | Some (i, _) =>
      let* pid := trigger (Of i LoadPid) in
      let* running := trigger (Of i LoadRunning) in
      Ret (Some (pid, running))
  | None => Ret None
  end.

Definition get_service_names (m : ServiceManager) : list string := (map_to_list (mg_catalog m)).*1.

Definition seed_dbus_registry (m : ServiceManager) : prog MgrOp unit :=
  for_each (λ ks : string * Service,
    let* status := get_service_status m (svc_name ks.2) in
    let (pid, active) := default (-1, false)%Z status in
    trigger (Own (RegisterService (svc_name ks.2) pid active))) (map_to_list (mg_catalog m)).

(** In the reverse of the order in which they were added. *)
Fixpoint stop_each (fuel : nat) (sups : list (nat * Service)) : prog MgrOp (option unit) :=
  match sups with
  | [] => Ret (Some tt)
  | (i, svc) :: sups => fuel* _ := on i (stop fuel svc) in stop_each fuel sups
  end.

Definition stop_all (fuel : nat) (m : ServiceManager) : prog MgrOp (option unit) :=
  stop_each fuel (rev (supervisors m)).

(** ** Runtime dependencies *)

Definition push_new (x : string) (l : list string) : list string :=
  if bool_decide (x ∈ l) then l else l ++ [x].

Definition retain_ne (x : string) (l : list string) : list string := filter (λ d, d ≠ x) l.

Definition add_dep (m : ServiceManager) (from to dep_type : string) : ServiceManager :=
  match mg_catalog m !! from with
  | Some svc =>
      let svc :=
        if String.eqb dep_type "need" || String.eqb dep_type "regular" then
          set_dep_lists svc (push_new to (svc_dependencies svc)) (svc_wants svc)
            (svc_milestone svc) (svc_after svc)
        else if String.eqb dep_type "milestone" then
          set_dep_lists svc (svc_dependencies svc) (svc_wants svc)
            (push_new to (svc_milestone svc)) (svc_after svc)
        else
          set_dep_lists svc (svc_dependencies svc) (svc_wants svc) (svc_milestone svc)
            (push_new to (svc_after svc)) in
      with_catalog m (<[from := svc]> (mg_catalog m))
  | None => m
  end.

Definition rm_dep (m : ServiceManager) (from to : string) : ServiceManager :=
  match mg_catalog m !! from with
  | Some svc =>
      let svc := set_dep_lists svc (retain_ne to (svc_dependencies svc))
        (retain_ne to (svc_wants svc)) (retain_ne to (svc_milestone svc))
        (retain_ne to (svc_after svc)) in
      with_catalog m (<[from := svc]> (mg_catalog m))
  | None => m
  end.
End manager.

(** ** Booting

    The bootstrap services are started in the calling thread, one after the other;
    the services of a wave are started in threads of their own, which are joined
    before the next wave.  A step is an operation of one of the threads, in any
    order, with any answer; or the join when all of them have returned; or the start
    of the next stage. *)
Inductive Stage :=
| Inline (svc : Service)
| Wave (wave : list Service).

Definition stage_services (s : Stage) : list Service :=
  match s with Inline svc => [svc] | Wave wave => wave end.

Record Thread := {
  th_id : nat;
  th_svc : Service;
  th_prog : prog MgrOp (option StartOutcome);
}.

(** [NoThread]: the thread could not be spawned. *)
Inductive BootResult := Ended (o : StartOutcome) | NoThread.

Record Boot := {
  bt_inline : bool;
  bt_running : list Thread;
  bt_todo : list Stage;
  bt_done : list (nat * Service * BootResult);
  bt_next : nat;
}.

Section boot.
Context (SYS : string → Z) (overflow_checks : bool) (quota_us : string → option Z).
Context (oxienv : gmap string string).

(** The stages of [start_all]; a failed sort leaves the bootstrap services.  [None]
    is a panic. *)
Definition boot_stages (services : list Service) : option (list Stage) :=
  bootstrap ← bootstrap_services oxienv services;
  match remaining_services services with
  | [] => Some (Inline <$> bootstrap)
  | remaining =>
      sorted ← wave_sort_services remaining;
      Some ((Inline <$> bootstrap) ++ match sorted with Ok waves => Wave <$> waves | Err _ => [] end)
  end.

Definition boot_init (stages : list Stage) : Boot :=
  {| bt_inline := true; bt_running := []; bt_todo := stages; bt_done := []; bt_next := 0 |}.

(** The threads of a stage; [None] is a spawn that failed. *)
Fixpoint spawn_stage (fuel id : nat) (wave : list Service) (spawned : list bool)
    : list Thread * list (nat * Service * BootResult) :=
  match wave, spawned with
  | svc :: wave, ok :: spawned =>
      let (ths, failed) := spawn_stage fuel (S id) wave spawned in
      if ok : bool then
        ({| th_id := id; th_svc := svc;
            th_prog := start_new SYS overflow_checks quota_us fuel id svc |} :: ths, failed)
      else (ths, (id, svc, NoThread) :: failed)
  | _, _ => ([], [])
  end.

Definition joined (th : Thread) (o : StartOutcome) : Prop := th_prog th = Ret (Some o).

(** A panic of [start] ends the boot when it is in the calling thread. *)
Definition may_join (inline_ : bool) (o : StartOutcome) : Prop :=
  match inline_, o with true, Panicked => False | _, _ => True end.

Inductive boot_step (fuel : nat) : Boot → Boot → Prop :=
| Boot_op b j th X (e : MgrOp X) k x :
    bt_running b !! j = Some th → th_prog th = Vis e k →
    boot_step fuel b
      {| bt_inline := bt_inline b;
         bt_running := <[j := {| th_id := th_id th; th_svc := th_svc th; th_prog := k x |}]> (bt_running b);
         bt_todo := bt_todo b; bt_done := bt_done b; bt_next := bt_next b |}
| Boot_join b outcomes :
    Forall2 joined (bt_running b) outcomes → Forall (may_join (bt_inline b)) outcomes →
    boot_step fuel b
      {| bt_inline := bt_inline b; bt_running := []; bt_todo := bt_todo b;
         bt_done := bt_done b ++
           zip_with (λ th o, (th_id th, th_svc th, Ended o)) (bt_running b) outcomes;
         bt_next := bt_next b |}
| Boot_inline b svc todo ths failed :
    bt_running b = [] → bt_todo b = Inline svc :: todo →
    spawn_stage fuel (bt_next b) [svc] [true] = (ths, failed) →
    boot_step fuel b
      {| bt_inline := true; bt_running := ths; bt_todo := todo; bt_done := bt_done b ++ failed;
         bt_next := S (bt_next b) |}
| Boot_wave b wave todo spawned ths failed :
    bt_running b = [] → bt_todo b = Wave wave :: todo → length spawned = length wave →
    spawn_stage fuel (bt_next b) wave spawned = (ths, failed) →
    boot_step fuel b
      {| bt_inline := false; bt_running := ths; bt_todo := todo; bt_done := bt_done b ++ failed;
         bt_next := bt_next b + length wave |}.

(** What [start_all] returns when every stage is done. *)
Definition result_ok (r : BootResult) : bool :=
  match r with Ended (Returned (Ok _)) => true | _ => false end.

(** A thread that panicked or was not spawned gives no supervisor. *)
Definition kept (d : nat * Service * BootResult) : option (nat * Service) :=
  match d.2 with Ended (Returned _) => Some d.1 | _ => None end.

Definition boot_manager (catalog : gmap string Service) (b : Boot) : ServiceManager := {|
  supervisors := omap kept (bt_done b);
  next_id := bt_next b;
  mg_catalog := catalog;
  started_count := length (filter (λ d, result_ok d.2 = true) (bt_done b));
  failed_count := length (filter (λ d, result_ok d.2 = false) (bt_done b));
  global_env := ∅
|}.

(** ** The invariant of the boot *)

Definition done_services (b : Boot) : list Service := (λ d, d.1.2) <$> bt_done b.
Definition running_services (b : Boot) : list Service := th_svc <$> bt_running b.
Definition services_of (stages : list Stage) : list Service := stages ≫= stage_services.

(** Everything before the current stage is done, and so is the part of it that has
    no thread any more. *)
Definition boot_inv (stages : list Stage) (b : Boot) : Prop :=
  ∃ pre cur part, stages = pre ++ cur ++ bt_todo b ∧ length cur ≤ 1 ∧
    done_services b ≡ₚ services_of pre ++ part ∧
    part ++ running_services b ≡ₚ services_of cur.

Lemma services_of_app a b : services_of (a ++ b) = services_of a ++ services_of b.
Proof. unfold services_of. by rewrite bind_app. Qed.

Lemma spawn_stage_services fuel id wave spawned ths failed :
  length spawned = length wave → spawn_stage fuel id wave spawned = (ths, failed) →
  ((λ d, d.1.2) <$> failed) ++ (th_svc <$> ths) ≡ₚ wave.
Proof.
  revert id spawned ths failed. induction wave as [|svc wave IH]; intros id [|ok spawned] ths failed;
    simpl; intros Hl; try done; [by intros [= <- <-]|].
  destruct (spawn_stage fuel (S id) wave spawned) as [ths' failed'] eqn:E.
  specialize (IH (S id) spawned ths' failed' ltac:(lia) E).
  destruct ok; intros [= <- <-]; csimpl.
  - rewrite <- IH. by rewrite Permutation_middle.
  - by rewrite <- IH.
Qed.

Lemma boot_init_inv stages : boot_inv stages (boot_init stages).
Proof. exists [], [], []. split_and!; [done|simpl; lia|done..]. Qed.

Lemma running_op b j th X (e : MgrOp X) k x :
  bt_running b !! j = Some th → th_prog th = Vis e k →
  th_svc <$> <[j := {| th_id := th_id th; th_svc := th_svc th; th_prog := k x |}]> (bt_running b)
  = th_svc <$> bt_running b.
Proof.
  intros Hj _. rewrite list_fmap_insert. simpl. apply list_insert_id.
  by rewrite list_lookup_fmap, Hj.
Qed.

Lemma joined_services ths outcomes :
  Forall2 joined ths outcomes →
  (λ d, d.1.2) <$> zip_with (λ th o, (th_id th, th_svc th, Ended o)) ths outcomes = th_svc <$> ths.
Proof. induction 1 as [|th o ths os _ _ IH]; csimpl; [done|]. by rewrite IH. Qed.

Lemma boot_step_inv stages fuel b b' :
  boot_inv stages b → boot_step fuel b b' → boot_inv stages b'.
Proof.
  intros (pre & cur & part & Hst & Hlen & Hdone & Hhere) Hstep.
  unfold boot_inv, done_services, running_services in *.
  destruct Hstep as [b j th X e k x Hj Hv|b outcomes Hjn _|b svc todo ths failed Hr Ht Hsp
    |b wave todo spawned ths failed Hr Ht Hl Hsp]; simpl.
  - exists pre, cur, part. by rewrite (running_op _ _ _ _ _ _ _ Hj Hv).
  - exists pre, cur, (part ++ (th_svc <$> bt_running b)). split_and!; [done..| |].
    + by rewrite fmap_app, joined_services, Hdone, app_assoc.
    + by rewrite app_nil_r.
  - exists (pre ++ cur), [Inline svc], ((λ d, d.1.2) <$> failed).
    rewrite Hr, app_nil_r in Hhere. split_and!; [|simpl; lia| |].
    + by rewrite Hst, Ht, <- !app_assoc.
    + by rewrite fmap_app, Hdone, services_of_app, Hhere.
    + apply spawn_stage_services in Hsp; [|done]. by rewrite Hsp.
  - exists (pre ++ cur), [Wave wave], ((λ d, d.1.2) <$> failed).
    rewrite Hr, app_nil_r in Hhere. split_and!; [|simpl; lia| |].
    + by rewrite Hst, Ht, <- !app_assoc.
    + by rewrite fmap_app, Hdone, services_of_app, Hhere.
    + apply spawn_stage_services in Hsp; [|done]. rewrite Hsp. unfold services_of. simpl. by rewrite app_nil_r.
Qed.

Lemma boot_reachable_inv stages fuel b :
  rtc (boot_step fuel) (boot_init stages) b → boot_inv stages b.
Proof.
  intros H. assert (∀ b0, boot_inv stages b0 → rtc (boot_step fuel) b0 b → boot_inv stages b) as Hg.
  { intros b0 H0 Hr. induction Hr; [done|]. eauto using boot_step_inv. }
  eapply Hg; [apply boot_init_inv|exact H].
Qed.

(** ** What the stages are *)

Lemma service_or_builtin_name services name svc :
  service_or_builtin oxienv services name = Some svc → svc_name svc = name.
Proof.
  unfold service_or_builtin. destruct (list_find _ services) as [[i s]|] eqn:E.
  - intros [= <-]. by apply list_find_Some in E as (_ & ? & _).
  - apply builtin_service_name.
Qed.

Lemma bootstrap_names services bootstrap :
  bootstrap_services oxienv services = Some bootstrap →
  svc_name <$> bootstrap = BUILTIN_BOOTSTRAP_ORDER.
Proof.
  unfold bootstrap_services. intros H%mapM_Some. revert H. generalize BUILTIN_BOOTSTRAP_ORDER.
  intros names H. induction H as [|n s ns ss Hn _ IH]; csimpl; [done|].
  rewrite IH. f_equal. by eapply service_or_builtin_name.
Qed.

Lemma services_of_inline bootstrap : services_of (Inline <$> bootstrap) = bootstrap.
Proof. induction bootstrap as [|s l IH]; [done|]. unfold services_of in *. csimpl. by f_equal. Qed.

Lemma services_of_waves waves : services_of (Wave <$> waves) = concat waves.
Proof. induction waves as [|w l IH]; [done|]. unfold services_of in *. csimpl. by f_equal. Qed.

(** The bootstrap services, then the waves of the others, none if they are cyclic. *)
Lemma boot_stages_shape services stages :
  boot_stages services = Some stages →
  ∃ bootstrap waves, bootstrap_services oxienv services = Some bootstrap ∧
    stages = (Inline <$> bootstrap) ++ (Wave <$> waves) ∧
    (sorts_to (remaining_services services) (Ok waves) ∨
     waves = [] ∧ ∃ e, sorts_to (remaining_services services) (Err e)).
Proof.
  unfold boot_stages. destruct (bootstrap_services oxienv services) as [bootstrap|]; [|done].
  cbn [mbind option_bind]. destruct (remaining_services services) as [|s l] eqn:Hr.
  - intros [= <-]. exists bootstrap, []. rewrite app_nil_r.
    split; [done|]. split; [done|]. left. reflexivity.
  - destruct (wave_sort_services (s :: l)) as [[waves|e]|] eqn:Hs; [| |done]; intros [= <-].
    + exists bootstrap, waves. split; [done|]. split; [done|]. left. exact Hs.
    + exists bootstrap, []. split; [done|]. split; [reflexivity|]. right.
      split; [done|]. exists e. exact Hs.
Qed.

(** A running service of a wave has the bootstrap services and all earlier waves
    behind it. *)
Lemma running_stage bootstrap waves b th :
  boot_inv ((Inline <$> bootstrap) ++ (Wave <$> waves)) b →
  th ∈ bt_running b → th_svc th ∉ bootstrap →
  ∃ k w, waves !! k = Some w ∧ th_svc th ∈ w ∧
    (bootstrap ++ concat (take k waves)) ⊆ done_services b.
Proof.
  intros (pre & cur & part & Hst & Hlen & Hdone & Hhere) Hth Hnb.
  assert (Hcur : th_svc th ∈ services_of cur).
  { rewrite <- Hhere. apply elem_of_app. right. by apply list_elem_of_fmap_2. }
  destruct cur as [|stage [|]]; [by apply not_elem_of_nil in Hcur| |simpl in Hlen; lia].
  unfold services_of in Hcur. simpl in Hcur. rewrite app_nil_r in Hcur.
  assert (Hk : ((Inline <$> bootstrap) ++ (Wave <$> waves)) !! length pre = Some stage).
  { rewrite Hst. by apply list_lookup_middle. }
  assert (Hpre : pre = take (length pre) ((Inline <$> bootstrap) ++ (Wave <$> waves))).
  { by rewrite Hst, take_app_length. }
  destruct (decide (length pre < length bootstrap)) as [Hlt|Hge].
  - rewrite lookup_app_l, list_lookup_fmap in Hk by (by rewrite length_fmap).
    destruct (bootstrap !! length pre) as [s|] eqn:Hs; simplify_eq/=.
    apply list_elem_of_singleton in Hcur. destruct Hnb. rewrite Hcur. by eapply list_elem_of_lookup_2.
  - rewrite lookup_app_r, length_fmap, list_lookup_fmap in Hk by (rewrite length_fmap; lia).
    destruct (waves !! (length pre - length bootstrap)) as [w|] eqn:Hw; simplify_eq/=.
    exists (length pre - length bootstrap), w. split_and!; [done..|].
    rewrite Hdone. intros s Hs. apply elem_of_app. left. rewrite Hpre, take_app_ge, length_fmap,
      services_of_app, services_of_inline, <- fmap_take, services_of_waves by (rewrite length_fmap; lia).
    done.
Qed.
(** What has been started when the boot is over. *)
Lemma boot_done_services services stages fuel b :
  boot_stages services = Some stages → rtc (boot_step fuel) (boot_init stages) b →
  bt_todo b = [] → bt_running b = [] →
  ∃ bootstrap, bootstrap_services oxienv services = Some bootstrap ∧
    (done_services b ≡ₚ bootstrap ++ remaining_services services ∨
     (∃ e, sorts_to (remaining_services services) (Err e)) ∧ done_services b ≡ₚ bootstrap).
Proof.
  intros Hst Hreach Ht Hr. apply boot_stages_shape in Hst as (bootstrap & waves & Hb & -> & Hw).
  apply boot_reachable_inv in Hreach as (pre & cur & part & Heq & _ & Hdone & Hhere).
  exists bootstrap. split; [done|].
  unfold running_services in Hhere. rewrite Hr, app_nil_r in Hhere. rewrite Ht, app_nil_r in Heq.
  assert (Hall : done_services b ≡ₚ bootstrap ++ concat waves).
  { rewrite Hdone, Hhere, <- services_of_app, <- Heq, services_of_app, services_of_inline, services_of_waves. done. }
  destruct Hw as [Hs|[-> He]].
  - left. rewrite Hall. f_equiv. by apply wave_sort_permutation_core.
  - right. split; [done|]. rewrite Hall. by rewrite app_nil_r.
Qed.
End boot.

(** ** One supervisor per name *)

(** The calls of the manager once the system is up. *)
Inductive ManagerCall :=
| Call_start (name : string)
| Call_transient (service : Service)
| Call_stop (name : string)
| Call_stop_all
| Call_reload (name : string)
| Call_seed_dbus
| Call_add_dep (from to dep_type : string)
| Call_rm_dep (from to : string)
| Call_set_env (key : string) (value : option string).

(** No two supervisors have a name or cells in common, and a catalog entry is
    stored under its own name. *)
Definition manager_ok (m : ServiceManager) : Prop :=
  NoDup (svc_name ∘ snd <$> supervisors m) ∧ NoDup (supervisors m).*1 ∧
  Forall (λ sup, sup.1 < next_id m) (supervisors m) ∧
  keyed (mg_catalog m).

Lemma find_supervisor_None m name :
  find_supervisor m name = None ↔ name ∉ svc_name ∘ snd <$> supervisors m.
Proof.
  unfold find_supervisor. rewrite fmap_None, list_find_None, Forall_forall. split.
  - intros H (sup & -> & Hs)%list_elem_of_fmap. by eapply H.
  - intros H sup Hs Heq. apply H. rewrite <- Heq. by apply (list_elem_of_fmap_2 (svc_name ∘ snd)).
Qed.

Lemma push_supervisor_ok m svc :
  manager_ok m → find_supervisor m (svc_name svc) = None → manager_ok (push_supervisor m svc).
Proof.
  intros (Hn & Hi & Hlt & Hc) Hf%find_supervisor_None. split_and!; simpl.
  - rewrite fmap_app. apply NoDup_app. split_and!; [done| |by apply NoDup_singleton].
    intros x Hx ->%list_elem_of_singleton. by apply Hf.
  - rewrite fmap_app. apply NoDup_app. split_and!; [done| |by apply NoDup_singleton].
    intros x ([i s] & -> & Hs)%list_elem_of_fmap Hx%list_elem_of_singleton. simpl in Hx. subst.
    eapply Forall_forall in Hlt; [|exact Hs]. simpl in Hlt. lia.
  - apply Forall_app. split; [|by constructor; [simpl; lia|]].
    eapply Forall_impl; [exact Hlt|]. simpl. lia.
  - done.
Qed.

Lemma with_catalog_ok m key svc :
  manager_ok m → svc_name svc = key → manager_ok (with_catalog m (<[key := svc]> (mg_catalog m))).
Proof.
  intros (Hn & Hi & Hlt & Hc) Hk. split_and!; simpl; try done. by apply map_Forall_insert_2.
Qed.

Lemma add_dep_ok m from to dep_type : manager_ok m → manager_ok (add_dep m from to dep_type).
Proof.
  intros Hm. unfold add_dep. destruct (mg_catalog m !! from) as [svc|] eqn:E; [|done].
  assert (svc_name svc = from) by by apply Hm. apply with_catalog_ok; [done|].
  repeat case_match; done.
Qed.

Lemma rm_dep_ok m from to : manager_ok m → manager_ok (rm_dep m from to).
Proof.
  intros Hm. unfold rm_dep. destruct (mg_catalog m !! from) as [svc|] eqn:E; [|done].
  assert (svc_name svc = from) by by apply Hm. by apply with_catalog_ok.
Qed.

(** The services of a list that have this name. *)
Definition named (n : string) (l : list Service) : nat := length (filter (λ s, svc_name s = n) l).

Lemma named_app n l l' : named n (l ++ l') = (named n l + named n l')%nat.
Proof. unfold named. by rewrite filter_app, length_app. Qed.

#[export] Instance named_proper n : Proper ((≡ₚ) ==> eq) (named n).
Proof. intros l l' H. unfold named. by rewrite H. Qed.

Lemma named_sublist n l l' : l `sublist_of` l' → (named n l ≤ named n l')%nat.
Proof.
  unfold named. induction 1 as [|s l l' _ IH|s l l' _ IH]; [done|..]; rewrite !filter_cons;
    destruct (decide (svc_name s = n)); simpl; lia.
Qed.

Lemma named_absent n l : n ∉ svc_name <$> l → named n l = 0%nat.
Proof.
  unfold named. induction l as [|s l IH]; [done|]. csimpl. intros [Hs Hl]%not_elem_of_cons.
  rewrite filter_cons, decide_False by done. by apply IH.
Qed.

Lemma named_distinct l : NoDup (svc_name <$> l) ↔ ∀ n, (named n l ≤ 1)%nat.
Proof.
  unfold named. induction l as [|s l IH].
  { split; [simpl; lia|constructor]. }
  csimpl. rewrite NoDup_cons, IH. split.
  - intros [Hs Hl] n. rewrite filter_cons. destruct (decide (svc_name s = n)) as [<-|]; [|apply Hl].
    apply named_absent in Hs. unfold named in Hs. simpl. lia.
  - intros H. split.
    + intros (s' & Heq & Hs')%list_elem_of_fmap. specialize (H (svc_name s)).
      rewrite filter_cons, decide_True in H by done. simpl in H.
      assert (s' ∈ filter (λ x, svc_name x = svc_name s) l) as Hin by by apply list_elem_of_filter.
      destruct (filter _ l); [by apply elem_of_nil in Hin|]. simpl in H. lia.
    + intros n. specialize (H n). rewrite filter_cons in H. destruct (decide _); simpl in H; lia.
Qed.

(** At most [k n] supervisors have the name [n]; the rest as in [manager_ok]. *)
Definition manager_upto (k : string → nat) (m : ServiceManager) : Prop :=
  (∀ n, (named n (supervisors m).*2 ≤ k n)%nat) ∧ NoDup (supervisors m).*1 ∧
  Forall (λ sup, sup.1 < next_id m) (supervisors m) ∧
  keyed (mg_catalog m).

Lemma manager_upto_mono k k' m : (∀ n, (k n ≤ k' n)%nat) → manager_upto k m → manager_upto k' m.
Proof. intros Hk (Hn & Hm). split; [|done]. intros n. etrans; [apply Hn|apply Hk]. Qed.

Lemma manager_upto_push k k' m svc :
  manager_upto k m → (∀ n, (k n ≤ k' n)%nat) →
  (named (svc_name svc) (supervisors m).*2 < k' (svc_name svc))%nat →
  manager_upto k' (push_supervisor m svc).
Proof.
  intros (Hn & Hi & Hlt & Hc) Hk Hs. split_and!; simpl.
  - intros n. rewrite fmap_app, named_app. unfold named at 2. csimpl. rewrite filter_cons.
    specialize (Hn n). specialize (Hk n). destruct (decide (svc_name svc = n)) as [Heq|]; [subst n|]; simpl; lia.
  - rewrite fmap_app. apply NoDup_app. split_and!; [done| |by apply NoDup_singleton].
    intros x ([i s] & -> & Hx)%list_elem_of_fmap Hx'%list_elem_of_singleton. simpl in Hx'. subst.
    eapply Forall_forall in Hlt; [|exact Hx]. simpl in Hlt. lia.
  - apply Forall_app. split; [|by constructor; [simpl; lia|]].
    eapply Forall_impl; [exact Hlt|]. simpl. lia.
  - done.
Qed.

Lemma manager_upto_catalog k m m' :
  supervisors m' = supervisors m → next_id m' = next_id m → keyed (mg_catalog m') →
  manager_upto k m → manager_upto k m'.
Proof. intros Hs Hi Hc (Hn & Hid & Hlt & _). unfold manager_upto. rewrite Hs, Hi. done. Qed.

(** How often the calls start a transient service of this name. *)
Definition transients (n : string) (cs : list ManagerCall) : nat :=
  named n (omap (λ c, match c with Call_transient svc => Some svc | _ => None end) cs).

(** Whatever the system answers. *)
Definition any_answer : ∀ X, MgrOp X → unit → X → unit → Prop := λ _ _ _ _ _, True.

Lemma wp_any_fuel {A B} (p : prog MgrOp (option A)) (k : A → prog MgrOp (option B)) w Q :
  (∀ w a, wp any_answer (k a) w Q) → (∀ w, Q w None) → wp any_answer (fuel_bind p k) w Q.
Proof.
  intros Hk HN. unfold fuel_bind. eapply wp_bind_2; [by apply (wp_true _ _ _ (λ _ _, True))|].
  intros w' [a|] _; simpl; [apply Hk|apply HN].
Qed.

Section calls.
Context (SYS : string → Z) (overflow_checks : bool) (quota_us : string → option Z).
Notation start_named := (start_named_service SYS overflow_checks quota_us).

Definition do_call (fuel : nat) (m : ServiceManager) (c : ManagerCall)
    : prog MgrOp (option ServiceManager) :=
  match c with
  | Call_start name => fuel* r := start_named fuel m name in Ret (Some r.1)
  | Call_transient service =>
      fuel* r := add_and_start_transient SYS overflow_checks quota_us fuel m service in Ret (Some r.1)
  | Call_stop name => fuel* _ := stop_named_service fuel m name in Ret (Some m)
  | Call_stop_all => fuel* _ := stop_all fuel m in Ret (Some m)
  | Call_reload name => reload_named_service m name;* Ret (Some m)
  | Call_seed_dbus => seed_dbus_registry m;* Ret (Some m)
  | Call_add_dep from to dep_type => Ret (Some (add_dep m from to dep_type))
  | Call_rm_dep from to => Ret (Some (rm_dep m from to))
  | Call_set_env key value => Ret (Some (set_env m key value))
  end.

Fixpoint do_calls (fuel : nat) (m : ServiceManager) (cs : list ManagerCall)
    : prog MgrOp (option ServiceManager) :=
  match cs with
  | [] => Ret (Some m)
  | c :: cs => fuel* m := do_call fuel m c in do_calls fuel m cs
  end.

(** What [start_named_service] makes of the manager. *)
Definition start_named_outcome (m : ServiceManager) (name : string)
    (r : option (ServiceManager * result string unit)) : Prop :=
  ∀ m' res, r = Some (m', res) →
    match find_supervisor m name, mg_catalog m !! name with
    | Some _, _ => m' = m
    | None, None => m' = m ∧ res = Err ("Unknown service '" +:+ name +:+ "' requested")
    | None, Some svc => m' = if is_ok res then push_supervisor m svc else m
    end.

Lemma start_named_service_outcome fuel m name w :
  wp any_answer (start_named fuel m name) w (λ _ r, start_named_outcome m name r).
Proof.
  unfold start_named_service, start_named_outcome. destruct (find_supervisor m name) as [[i svc]|].
  - apply wp_op. intros [] w' _; [by intros m' res [= <- <-]|].
    apply wp_any_fuel; [|done]. intros w1 [r|] m' res; by intros [= <- <-] || done.
  - destruct (mg_catalog m !! name) as [svc|]; [|by intros m' res [= <- <-]].
    apply wp_any_fuel; [|done]. intros w1 [[[]|e]|] m' res; by intros [= <- <-] || done.
Qed.

Lemma add_transient_outcome fuel m svc w :
  wp any_answer (add_and_start_transient SYS overflow_checks quota_us fuel m svc) w (λ _ r, ∀ m' res,
    r = Some (m', res) → m' = if is_ok res then push_supervisor m svc else m).
Proof.
  unfold add_and_start_transient. apply wp_any_fuel; [|done].
  intros w1 [[[]|e]|] m' res; by intros [= <- <-] || done.
Qed.

Lemma do_call_upto fuel k m c w :
  (∀ n, (1 ≤ k n)%nat) → manager_upto k m →
  wp any_answer (do_call fuel m c) w (λ _ r, ∀ m', r = Some m' →
    manager_upto (λ n, (k n + transients n [c])%nat) m' ∧ supervisors m `prefix_of` supervisors m').
Proof.
  intros Hk Hm.
  assert (manager_upto (λ n, (k n + transients n [c])%nat) m) as Hm' by (eapply manager_upto_mono; [|exact Hm]; intros n; simpl; lia).
  destruct c as [name|svc|name| |name| |from to dep_type|from to|key value]; cbn [do_call].
  - unfold fuel_bind. eapply wp_bind_2; [apply start_named_service_outcome|].
    intros w' [[m' res]|] Ho; [|done]. intros ? [= <-]. specialize (Ho _ _ eq_refl). simpl in *.
    destruct (find_supervisor m name) eqn:Hf; [by subst|].
    destruct (mg_catalog m !! name) as [svc|] eqn:Hs; [|by destruct Ho as [-> _]].
    assert (svc_name svc = name) as Hn by by apply Hm. rewrite <- Hn in Hf.
    destruct res; simpl in Ho; subst m'; [|done].
    split; [|by apply prefix_app_r]. eapply manager_upto_push; [exact Hm|intros n; simpl; lia|].
    apply find_supervisor_None in Hf. rewrite list_fmap_compose in Hf. rewrite named_absent by done.
    specialize (Hk (svc_name svc)). simpl. lia.
  - unfold fuel_bind. eapply wp_bind_2; [apply add_transient_outcome|].
    intros w' [[m' res]|] Ho; [|done]. intros ? [= <-]. specialize (Ho _ _ eq_refl). simpl in *.
    destruct (is_ok res); subst m'; [|done]. split; [|by apply prefix_app_r].
    eapply manager_upto_push; [exact Hm|intros n; simpl; lia|]. destruct Hm as [Hn _].
    specialize (Hn (svc_name svc)). unfold transients, named at 2. csimpl.
    rewrite filter_cons, decide_True by done. simpl. lia.
  - apply wp_any_fuel; [|done]. by intros w' _ ? [= <-].
  - apply wp_any_fuel; [|done]. by intros w' _ ? [= <-].
  - eapply wp_bind_2; [by apply (wp_true _ _ _ (λ _ _, True))|]. by intros w' _ _ ? [= <-].
  - eapply wp_bind_2; [by apply (wp_true _ _ _ (λ _ _, True))|]. by intros w' _ _ ? [= <-].
  - intros ? [= <-]. unfold add_dep. destruct (mg_catalog m !! from) as [svc|] eqn:Hs; [|done].
    assert (svc_name svc = from) by by apply Hm.
    split; [|done]. eapply manager_upto_catalog; [..|exact Hm']; [done|done|]. simpl.
    apply map_Forall_insert_2; [by repeat case_match|apply Hm].
  - intros ? [= <-]. unfold rm_dep. destruct (mg_catalog m !! from) as [svc|] eqn:Hs; [|done].
    assert (svc_name svc = from) by by apply Hm.
    split; [|done]. eapply manager_upto_catalog; [..|exact Hm']; [done|done|]. simpl.
    apply map_Forall_insert_2; [done|apply Hm].
  - by intros ? [= <-].
Qed.

Lemma do_calls_upto fuel k m cs w :
  (∀ n, (1 ≤ k n)%nat) → manager_upto k m →
  wp any_answer (do_calls fuel m cs) w (λ _ r, ∀ m', r = Some m' →
    manager_upto (λ n, (k n + transients n cs)%nat) m' ∧ supervisors m `prefix_of` supervisors m').
Proof.
  revert k m w. induction cs as [|c cs IH]; intros k m w Hk Hm; simpl.
  { intros ? [= <-]. split; [|done]. eapply manager_upto_mono; [|exact Hm]. intros n. simpl. lia. }
  unfold fuel_bind. eapply wp_bind_2; [by apply (do_call_upto _ k)|].
  intros w' [m1|] Hm1; [|done]. destruct (Hm1 _ eq_refl) as [Hok Hpre].
  eapply wp_mono; [|apply (IH _ _ _ (λ n, Nat.le_trans _ _ _ (Hk n) (Nat.le_add_r _ _)) Hok)].
  intros ? r Hr m' Hm'. destruct (Hr _ Hm') as [? ?]. split; [|by etrans].
  eapply manager_upto_mono; [|done]. intros n. unfold transients.
  change (c :: cs) with ([c] ++ cs). rewrite omap_app, named_app. simpl. lia.
Qed.
End calls.

(** ** The manager that the boot leaves *)

Definition done_ids (b : Boot) : list nat := (λ d, d.1.1) <$> bt_done b.

(** The identities that the boot has given out. *)
Definition boot_ids (b : Boot) : Prop :=
  NoDup (done_ids b ++ (th_id <$> bt_running b)) ∧
  Forall (λ i, i < bt_next b) (done_ids b ++ (th_id <$> bt_running b)).

Lemma spawn_stage_ids SYS oc quota_us fuel id wave spawned ths failed :
  length spawned = length wave →
  spawn_stage SYS oc quota_us fuel id wave spawned = (ths, failed) →
  ((λ d, d.1.1) <$> failed) ++ (th_id <$> ths) ≡ₚ seq id (length wave).
Proof.
  revert id spawned ths failed. induction wave as [|svc wave IH]; intros id [|ok spawned] ths failed;
    simpl; intros Hl; try done; [by intros [= <- <-]|].
  destruct (spawn_stage _ _ _ fuel (S id) wave spawned) as [ths' failed'] eqn:E.
  specialize (IH (S id) spawned ths' failed' ltac:(lia) E).
  destruct ok; intros [= <- <-]; csimpl.
  - rewrite <- IH. by rewrite Permutation_middle.
  - by rewrite <- IH.
Qed.

(** A stage takes the identities from [next] on. *)
Lemma stage_ids (l new : list nat) next n :
  NoDup l → Forall (λ i, i < next) l → new ≡ₚ seq next n →
  NoDup (l ++ new) ∧ Forall (λ i, i < next + n) (l ++ new).
Proof.
  intros Hn Hlt Hnew. rewrite Hnew. split.
  - apply NoDup_app. split_and!; [done| |apply NoDup_seq].
    intros i Hi [? _]%elem_of_seq. eapply Forall_forall in Hlt; [|exact Hi]. simpl in Hlt. lia.
  - apply Forall_app. split; [eapply Forall_impl; [exact Hlt|]; simpl; lia|].
    apply Forall_forall. intros i [_ ?]%elem_of_seq. lia.
Qed.

Lemma boot_step_ids SYS oc quota_us fuel b b' :
  boot_step SYS oc quota_us fuel b b' → boot_ids b → boot_ids b'.
Proof.
  unfold boot_ids, done_ids.
  intros Hs. destruct Hs as [b j th X e k x Hj Hp|b outs Hf Hm|b svc todo ths failed Hr Ht Hsp
    |b wave todo spawned ths failed Hr Ht Hl Hsp]; cbn [bt_done bt_running bt_next].
  - rewrite list_fmap_insert. cbn [th_id].
    rewrite list_insert_id; [done|]. by rewrite list_lookup_fmap, Hj.
  - rewrite fmap_app, app_nil_r. assert (((λ d : nat * Service * BootResult, d.1.1) <$>
      zip_with (λ th o, (th_id th, th_svc th, Ended o)) (bt_running b) outs) = th_id <$> bt_running b) as ->; [|done].
    clear Hm. induction Hf as [|th o ths os _ _ IH]; csimpl; [done|]. by f_equal.
  - rewrite Hr. simpl. rewrite app_nil_r, fmap_app, <- app_assoc. intros [Hn Hlt].
    apply spawn_stage_ids in Hsp; [|done]. rewrite <- Nat.add_1_r. by apply stage_ids.
  - rewrite Hr. simpl. rewrite app_nil_r, fmap_app, <- app_assoc. intros [Hn Hlt].
    apply spawn_stage_ids in Hsp; [|done]. by apply stage_ids.
Qed.

Lemma boot_reachable_ids SYS oc quota_us fuel stages b :
  rtc (boot_step SYS oc quota_us fuel) (boot_init stages) b → boot_ids b.
Proof.
  intros H. assert (∀ b0, boot_ids b0 → rtc (boot_step SYS oc quota_us fuel) b0 b → boot_ids b) as Hg.
  { intros b0 H0 Hr. induction Hr; [done|]. eauto using boot_step_ids. }
  eapply Hg; [|exact H]. by split; constructor.
Qed.

Lemma omap_kept_sublist {A} (f : nat * Service → A) l : f <$> omap kept l `sublist_of` f ∘ fst <$> l.
Proof.
  induction l as [|[[i svc] r] l IH]; [done|]. csimpl. unfold kept at 1. cbn [snd fst].
  destruct r as [[]|]; csimpl; by constructor.
Qed.

(** A boot leaves at most one supervisor for every definition of a name. *)
Lemma boot_manager_upto SYS oc quota_us oxienv services stages fuel b catalog :
  boot_stages oxienv services = Some stages → keyed catalog →
  rtc (boot_step SYS oc quota_us fuel) (boot_init stages) b →
  bt_todo b = [] → bt_running b = [] →
  manager_upto (λ n, Nat.max 1 (named n (remaining_services services))) (boot_manager catalog b).
Proof.
  intros Hst Hcat Hreach Ht Hr.
  destruct (boot_done_services _ _ _ _ _ _ _ _ Hst Hreach Ht Hr) as (bootstrap & Hb & Hdone).
  destruct (boot_reachable_ids _ _ _ _ _ _ Hreach) as [Hid Hlt]. rewrite Hr, app_nil_r in Hid, Hlt.
  pose proof (bootstrap_names _ _ _ Hb) as Hbn.
  assert (∀ n, (named n (done_services b) ≤ named n bootstrap + named n (remaining_services services))%nat) as Hdn.
  { intros n. destruct Hdone as [->|[_ ->]]; [by rewrite named_app|lia]. }
  split_and!; [| |apply Forall_forall; intros [i svc] Hi|done]; cbn [supervisors boot_manager next_id].
  - intros n. etrans; [apply named_sublist; apply (omap_kept_sublist snd)|].
    change (named n (done_services b) ≤ 1 `max` named n (remaining_services services)).
    etrans; [apply Hdn|]. assert (NoDup (svc_name <$> bootstrap)) as Hd.
    { rewrite Hbn. by apply (bool_decide_unpack _); vm_compute. }
    apply named_distinct with (n := n) in Hd.
    destruct (decide (n ∈ svc_name <$> bootstrap)) as [Hn|Hn]; [|rewrite (named_absent n bootstrap) by done; lia].
    rewrite (named_absent n (remaining_services services)); [lia|].
    rewrite Hbn in Hn. by intros (svc & -> & [[Hnot _] _]%list_elem_of_filter)%list_elem_of_fmap.
  - eapply sublist_NoDup; [exact Hid|]. apply omap_kept_sublist.
  - eapply Forall_forall in Hlt; [exact Hlt|]. eapply elem_of_sublist; [|apply omap_kept_sublist].
    by apply (list_elem_of_fmap_2 fst _ (i, svc)).
Qed.

(** ** A boot on a system that starts no process *)

Definition refuse : ∀ X, Os X → X :=
  λ X e, match e in Os X return X with
  | PathExists _ | SendActivation _ => true
  | LoadRunning | LoadStop | LoadShutdown | LastErrorWouldBlock => false
  | ReadToString _ | WriteFile _ _ | RemoveFile _ | RemoveDir _ | CreateDirAll _ | Symlink _ _
  | ReadDir _ | BindUnix _ | BindTcp _ | BindUdp _ | BindDatagram _ | SetReadTimeout _ _
  | Status _ _ | Spawn _ _ | TryWait _ | Kill _ _ | Fork _ _ | SpawnThread _ | AllocateDynamicUid
  | SetupServiceDirectories _ _ _ => Err "refused"
  | Recv _ => inl Timeout
  | OpenFd _ _ | Socket_netlink _ | Bind_netlink _ _ | Mkfifo _ _ | Setsockopt _ _ | Listen _ _
  | BpfProgLoad _ _ | BpfProgAttach _ _ | Accept _ | ForkInetd _ _ _ | WaitAnyNohang | LoadPid => (-1)%Z
  | Now | WallClock => 0%Z
  | Pipe | GetExitCode _ | EnvVar _ | RecvActivation | ReadBytes _ => None
  | LastOsError => "refused"
  | CloseFd _ | KillChild _ | Sleep _ | StorePid _ | StoreRunning _ | StoreStop _
  | RegisterService _ _ _ | QueueChain _ => tt
  end.

Definition refuse_mgr : ∀ X, MgrOp X → unit → X * unit :=
  λ X e w, match e with Own e | Of _ e => (refuse _ e, w) end.

Section refused.
Context (SYS : string → Z) (overflow_checks : bool) (quota_us : string → option Z) (fuel : nat).
Notation step := (boot_step SYS overflow_checks quota_us fuel).
Notation start_new := (start_new SYS overflow_checks quota_us fuel).

Lemma boot_run inline_ th todo done next p :
  rtc step
    {| bt_inline := inline_; bt_running := [{| th_id := th; th_svc := done.2; th_prog := p |}];
       bt_todo := todo; bt_done := done.1; bt_next := next |}
    {| bt_inline := inline_;
       bt_running := [{| th_id := th; th_svc := done.2; th_prog := Ret (exec refuse_mgr p tt).1 |}];
       bt_todo := todo; bt_done := done.1; bt_next := next |}.
Proof.
  destruct done as [dn svc]. cbn [fst snd]. induction p as [a|X e k IH]; [apply rtc_refl|].
  eapply rtc_l; [by eapply (Boot_op _ _ _ _ _ 0 _ X e k (refuse_mgr X e tt).1)|].
  cbn. destruct (refuse_mgr X e tt) as [x []] eqn:E. apply IH.
Qed.

Lemma boot_join_one inline_ next svc todo dn n e :
  step {| bt_inline := inline_;
          bt_running := [{| th_id := next; th_svc := svc; th_prog := Ret (Some (Returned (Err e))) |}];
          bt_todo := todo; bt_done := dn; bt_next := n |}
       {| bt_inline := inline_; bt_running := []; bt_todo := todo;
          bt_done := dn ++ [(next, svc, Ended (Returned (Err e)))]; bt_next := n |}.
Proof.
  apply (Boot_join _ _ _ _ {| bt_inline := inline_;
    bt_running := [{| th_id := next; th_svc := svc; th_prog := Ret (Some (Returned (Err e))) |}];
    bt_todo := todo; bt_done := dn; bt_next := n |} [Returned (Err e)]).
  - by constructor.
  - constructor; [by destruct inline_|done].
Qed.

(** A stage of one service whose start fails. *)
Lemma boot_refused stage svc todo dn next inline_ e :
  stage_services stage = [svc] →
  (exec refuse_mgr (start_new next svc) tt).1 = Some (Returned (Err e)) →
  rtc step
    {| bt_inline := inline_; bt_running := []; bt_todo := stage :: todo; bt_done := dn; bt_next := next |}
    {| bt_inline := match stage with Inline _ => true | Wave _ => false end; bt_running := [];
       bt_todo := todo; bt_done := dn ++ [(next, svc, Ended (Returned (Err e)))];
       bt_next := S next |}.
Proof.
  intros Hs Hex. destruct stage as [s|wave]; cbn [stage_services] in Hs; [injection Hs as ->|subst wave].
  - eapply rtc_l; [by apply (Boot_inline _ _ _ _ _ svc todo)|]. rewrite app_nil_r.
    etrans; [apply (boot_run _ next todo (dn, svc))|]. cbn [fst snd bt_next]. rewrite Hex. apply rtc_once, boot_join_one.
  - eapply rtc_l; [by apply (Boot_wave _ _ _ _ _ [svc] todo [true])|]. rewrite app_nil_r.
    etrans; [apply (boot_run _ next todo (dn, svc))|]. cbn [fst snd bt_next length].
    rewrite Hex, Nat.add_1_r. apply rtc_once, boot_join_one.
Qed.
End refused.

(** Two services, one after the other, and the built-in ones. *)
Definition example_bus : Service := Service_minimal "bus" "/bin/bus".
Definition example_db : Service :=
  set_dep_lists (Service_minimal "db" "/bin/db") [] [] [] ["bus"].
Definition example_boot : list Service := [example_db; example_bus].

Definition example_stages : list Stage :=
  (Inline ∘ default example_bus ∘ builtin_service ∅ <$> BUILTIN_BOOTSTRAP_ORDER)
  ++ [Wave [example_bus]; Wave [example_db]].

Notation example_step := (boot_step sys_x86_64 false (λ _, None) 10).

Lemma example_boot_stages : boot_stages ∅ example_boot = Some example_stages.
Proof. vm_compute. reflexivity. Qed.

Lemma example_refused stage svc todo dn next inline_ :
  stage_services stage = [svc] →
  (exec refuse_mgr (start_new sys_x86_64 false (λ _, None) 10 next svc) tt).1
    = Some (Returned (Err "refused")) →
  rtc example_step
    {| bt_inline := inline_; bt_running := []; bt_todo := stage :: todo; bt_done := dn; bt_next := next |}
    {| bt_inline := match stage with Inline _ => true | Wave _ => false end; bt_running := [];
       bt_todo := todo; bt_done := dn ++ [(next, svc, Ended (Returned (Err "refused")))];
       bt_next := S next |}.
Proof. apply boot_refused. Qed.

(** The state in which only [db] is left. *)
Lemma example_boot_db : ∃ dn n,
  rtc example_step (boot_init example_stages)
    {| bt_inline := false; bt_running := []; bt_todo := [Wave [example_db]]; bt_done := dn; bt_next := n |}.
Proof.
  do 2 eexists. unfold boot_init, example_stages.
  do 4 (etrans; [eapply example_refused; [reflexivity|vm_compute; reflexivity]|]). apply rtc_refl.
Qed.

(** C1: booting respects the dependencies: however the operations of the start
    threads interleave, whatever the system answers and whichever threads cannot be
    spawned, while a service of a wave is being started, the start of every service
    that it names in [after] or [dependencies] has returned, and so have those of
    the three bootstrap services; and when the boot is over, every bootstrap service
    and (unless the dependencies are cyclic, when only these are) every other
    service that is not a launcher's has been started exactly once. *)
Theorem boot_respects_dependencies SYS oc quota_us oxienv services stages fuel b :
  boot_stages oxienv services = Some stages →
  rtc (boot_step SYS oc quota_us fuel) (boot_init stages) b →
  (∀ th dep, th ∈ bt_running b → th_svc th ∈ remaining_services services →
     dep ∈ order_deps (th_svc th) ∧ dep ∈ svc_name <$> remaining_services services ∨
     dep ∈ BUILTIN_BOOTSTRAP_ORDER →
     ∃ id svc r, (id, svc, r) ∈ bt_done b ∧ svc_name svc = dep) ∧
  (bt_todo b = [] → bt_running b = [] →
     ∃ bootstrap, bootstrap_services oxienv services = Some bootstrap ∧
       (done_services b ≡ₚ bootstrap ++ remaining_services services ∨
        (∃ e, sorts_to (remaining_services services) (Err e)) ∧ done_services b ≡ₚ bootstrap)).
Proof.
  intros Hst Hreach. pose proof Hst as Hst0. apply boot_stages_shape in Hst as (bootstrap & waves & Hb & -> & Hw).
  apply boot_reachable_inv in Hreach as Hinv. pose proof (bootstrap_names oxienv services bootstrap Hb) as Hnames.
  assert (Hin : ∀ svc, svc ∈ done_services b → ∃ id r, (id, svc, r) ∈ bt_done b).
  { intros svc ([[id s] r] & -> & ?)%list_elem_of_fmap. by exists id, r. }
  split.
  - intros th dep Hth Hrem Hdep.
    assert (Hnb : th_svc th ∉ bootstrap).
    { intros Hbs. apply list_elem_of_filter in Hrem as [[Hn _] _]. apply Hn. rewrite <- Hnames.
      by apply list_elem_of_fmap_2. }
    destruct (running_stage bootstrap waves b th Hinv Hth Hnb) as (k & w & Hk & Hsvc & Hsub).
    assert (∃ svc, svc ∈ done_services b ∧ svc_name svc = dep) as (svc & (id & r & ?)%Hin & <-); [|by eexists _, _, _].
    destruct Hdep as [[Hd Hr]|Hbuiltin].
    + destruct Hw as [Hs|[-> _]]; [|done].
      destruct (wave_sort_order_core _ _ _ _ _ _ Hs Hk Hsvc Hd Hr) as (j & w' & svc' & Hj & Hw' & Hin' & <-).
      exists svc'. split; [|done]. apply Hsub, elem_of_app. right.
      apply list_elem_of_In, List.in_concat. exists w'. rewrite <- !list_elem_of_In. split; [|done].
      apply list_elem_of_lookup. exists j. by rewrite lookup_take_lt.
    + rewrite <- Hnames in Hbuiltin. apply list_elem_of_fmap in Hbuiltin as (svc & -> & Hs).
      exists svc. split; [|done]. apply Hsub, elem_of_app. by left.
  - by apply (boot_done_services _ _ _ _ _ _ _ _ Hst0 Hreach).
Qed.


Lemma boot_respects_dependencies_witness : ∃ b th id svc r,
  rtc example_step (boot_init example_stages) b ∧ th ∈ bt_running b ∧ th_svc th = example_db ∧
  (id, svc, r) ∈ bt_done b ∧ svc_name svc = "bus".
Proof.
  destruct example_boot_db as (dn & n & Hreach).
  set (th := {| th_id := n; th_svc := example_db;
                th_prog := start_new sys_x86_64 false (λ _, None) 10 n example_db |}).
  set (b := {| bt_inline := false; bt_running := [th]; bt_todo := []; bt_done := dn ++ []; bt_next := n + 1 |}).
  assert (rtc example_step (boot_init example_stages) b) as Hb.
  { eapply rtc_r; [exact Hreach|].
    by apply (Boot_wave _ _ _ _ {| bt_inline := false; bt_running := []; bt_todo := [Wave [example_db]];
      bt_done := dn; bt_next := n |} [example_db] [] [true]). }
  assert (th ∈ bt_running b) as Hth by left.
  assert (th_svc th ∈ remaining_services example_boot) as Hrem.
  { apply list_elem_of_In. vm_compute. by left. }
  assert ("bus" ∈ order_deps (th_svc th) ∧ "bus" ∈ svc_name <$> remaining_services example_boot ∨
    "bus" ∈ BUILTIN_BOOTSTRAP_ORDER) as Hdep.
  { left. split; apply list_elem_of_In; vm_compute; auto. }
  destruct (boot_respects_dependencies sys_x86_64 false (λ _, None) ∅ example_boot example_stages 10 b
    example_boot_stages Hb) as [H _].
  destruct (H th "bus" Hth Hrem Hdep) as (id & svc & r & ? & ?). by exists b, th, id, svc, r.
Defined.


