(* ===== verification/Signals.v ===== *)
(** * Signals, the reaper thread and the shutdown watcher

    [quantra/src/signals.rs] and [quantra/src/shutdown.rs].  The SIGCHLD handler writes
    a byte to a pipe; the reaper thread reads the pipe, collects every child that has
    ended and records its exit code.  The lifecycle handlers set flags, which the main
    thread looks at when [pause] returns.  Handlers, threads and ending children
    interleave: the two machines are step relations. *)

From Stdlib Require Import ZArith.
From stdpp Require Import base tactics numbers list gmap relations.
From S2P Require Import Prelude.

Local Open Scope Z_scope.

(** ** Exit codes *)

(** How a process ended, and the status that [waitpid] gives for it: POSIX says how
    the macros of [libc] read it. *)
Inductive Ending :=
| Exited (code : Z)
| Signaled (sig : Z).

Class WaitStatus := {
  WIFEXITED : Z → bool;
  WEXITSTATUS : Z → Z;
  WIFSIGNALED : Z → bool;
  WTERMSIG : Z → Z;
  wait_status : Ending → Z;
}.

Class WaitStatusOk `{WaitStatus} := {
  exited_ok c : 0 ≤ c ≤ 255 →
    WIFEXITED (wait_status (Exited c)) = true ∧ WEXITSTATUS (wait_status (Exited c)) = c;
  signaled_ok s : 1 ≤ s ≤ 64 →
    WIFEXITED (wait_status (Signaled s)) = false ∧ WIFSIGNALED (wait_status (Signaled s)) = true ∧
    WTERMSIG (wait_status (Signaled s)) = s;
}.

(** What a process can end with. *)
Definition ending_ok (e : Ending) : Prop :=
  match e with Exited c => 0 ≤ c ≤ 255 | Signaled s => 1 ≤ s ≤ 64 end.

Section reaper.
Context `{WaitStatus}.

Definition exit_code (status : Z) : Z :=
  if WIFEXITED status then WEXITSTATUS status
  else if WIFSIGNALED status then - WTERMSIG status
  else 0.

(** ** The reaper *)

(** Where the reaper thread is: in [read], in the loop of [waitpid], on its way to the
    lock of the exit codes with a child it has collected; or in the signal handler, which
    interrupted it there. *)
Inductive ReaperPc :=
| Reading
| Draining
| Recording (z : Z * Ending)
| Interrupted (at_ : ReaperPc).

(** The lock of the exit codes, as other threads ([get_exit_code]) hold it: one that does
    can be interrupted by the handler as well. *)
Inductive CodesLock := Unlocked | HeldByOther | HeldInHandler.

(** [chld_pending] is the pending bit of SIGCHLD; [pipe] the number of bytes in the
    pipe, at most [capacity]; [wfd] the cell [SIGCHLD_PIPE_WFD]; [handlers] the number of
    other threads that are in the handler; [zombies] the children that ended and that
    nobody waited for.  [exited], [reaped] and [taken] record the past: all the children
    that ended, those that the reaper recorded and those that other threads waited for. *)
Record SigState := {
  wfd : Z;
  chld_pending : bool;
  pipe : nat;
  handlers : nat;
  pc : ReaperPc;
  codes_lock : CodesLock;
  zombies : list (Z * Ending);
  codes : option (gmap Z Z);
  exited : list (Z * Ending);
  reaped : list (Z * Ending);
  taken : list (Z * Ending);
}.

Definition get_exit_code (s : SigState) (pid : Z) : option Z := m ← codes s; m !! pid.

(** [handle_chld]: the number of bytes in the pipe when it returns.  The pipe is made
    without [O_NONBLOCK]: [None] when it is full, where [write] blocks. *)
Definition handle_chld (capacity : nat) (fd : Z) (bytes : nat) : option nat :=
  if 0 <=? fd then if (bytes <? capacity)%nat then Some (S bytes) else None
  else Some bytes.

(** The pipe is made and the thread is started before the first [fork]. *)
Definition start_reaper_thread (write_fd : Z) : SigState :=
  {| wfd := write_fd; chld_pending := false; pipe := 0; handlers := 0; pc := Reading;
     codes_lock := Unlocked; zombies := []; codes := Some ∅; exited := []; reaped := []; taken := [] |}.

(** [map.insert(pid, code)]. *)
Definition record_code (s : SigState) (z : Z * Ending) : option (gmap Z Z) :=
  <[z.1 := exit_code (wait_status z.2)]> <$> codes s.

(** The buffer of [read]. *)
Definition BUF : nat := 256.

(** The parts of the state that change together. *)
Definition set_pending (s : SigState) (b : bool) (h : nat) (p : ReaperPc) (l : CodesLock) : SigState :=
  {| wfd := wfd s; chld_pending := b; pipe := pipe s; handlers := h; pc := p; codes_lock := l;
     zombies := zombies s; codes := codes s; exited := exited s; reaped := reaped s; taken := taken s |}.

Definition set_pipe (s : SigState) (n h : nat) (p : ReaperPc) (l : CodesLock) : SigState :=
  {| wfd := wfd s; chld_pending := chld_pending s; pipe := n; handlers := h; pc := p; codes_lock := l;
     zombies := zombies s; codes := codes s; exited := exited s; reaped := reaped s; taken := taken s |}.

Definition interrupted (p : ReaperPc) : bool := match p with Interrupted _ => true | _ => false end.

(** What the system and the other threads do: a child ends, another thread waits for
    its own child, or takes the lock of the exit codes. *)
Inductive env_step : SigState → SigState → Prop :=
| Child_ends s pid e :
    ending_ok e → pid ∉ (zombies s).*1 →
    env_step s {| wfd := wfd s; chld_pending := true; pipe := pipe s; handlers := handlers s;
                  pc := pc s; codes_lock := codes_lock s; zombies := zombies s ++ [(pid, e)];
                  codes := codes s; exited := exited s ++ [(pid, e)]; reaped := reaped s; taken := taken s |}
| Other_waits s zs z zs' :
    zombies s = zs ++ z :: zs' →
    env_step s {| wfd := wfd s; chld_pending := chld_pending s; pipe := pipe s; handlers := handlers s;
                  pc := pc s; codes_lock := codes_lock s; zombies := zs ++ zs'; codes := codes s;
                  exited := exited s; reaped := reaped s; taken := taken s ++ [z] |}
| Other_locks s :
    codes_lock s = Unlocked →
    env_step s (set_pending s (chld_pending s) (handlers s) (pc s) HeldByOther).

(** The kernel delivers the signal to some thread that is not in the handler: the reaper
    thread, the one that holds the lock, any other.  The handler ends when the byte is
    written; the holder of the lock gives it back. *)
Inductive reaper_step (capacity : nat) : SigState → SigState → Prop :=
| Deliver_reaper s :
    chld_pending s = true → interrupted (pc s) = false →
    reaper_step capacity s (set_pending s false (handlers s) (Interrupted (pc s)) (codes_lock s))
| Deliver_holder s :
    chld_pending s = true → codes_lock s = HeldByOther →
    reaper_step capacity s (set_pending s false (handlers s) (pc s) HeldInHandler)
| Deliver_other s :
    chld_pending s = true →
    reaper_step capacity s (set_pending s false (S (handlers s)) (pc s) (codes_lock s))
| Handler_reaper s p n :
    pc s = Interrupted p → handle_chld capacity (wfd s) (pipe s) = Some n →
    reaper_step capacity s (set_pipe s n (handlers s) p (codes_lock s))
| Handler_holder s n :
    codes_lock s = HeldInHandler → handle_chld capacity (wfd s) (pipe s) = Some n →
    reaper_step capacity s (set_pipe s n (handlers s) (pc s) HeldByOther)
| Handler_other s n h :
    handlers s = S h → handle_chld capacity (wfd s) (pipe s) = Some n →
    reaper_step capacity s (set_pipe s n h (pc s) (codes_lock s))
| Holder_unlocks s :
    codes_lock s = HeldByOther →
    reaper_step capacity s (set_pending s (chld_pending s) (handlers s) (pc s) Unlocked)
| Reader s :
    pc s = Reading → (0 < pipe s)%nat →
    reaper_step capacity s (set_pipe s (pipe s - BUF) (handlers s) Draining (codes_lock s))
| Reap s zs z zs' :
    pc s = Draining → zombies s = zs ++ z :: zs' →
    reaper_step capacity s
      {| wfd := wfd s; chld_pending := chld_pending s; pipe := pipe s; handlers := handlers s;
         pc := Recording z; codes_lock := codes_lock s; zombies := zs ++ zs'; codes := codes s;
         exited := exited s; reaped := reaped s; taken := taken s |}
| Record_code s z :
    pc s = Recording z → codes_lock s = Unlocked →
    reaper_step capacity s
      {| wfd := wfd s; chld_pending := chld_pending s; pipe := pipe s; handlers := handlers s;
         pc := Draining; codes_lock := Unlocked; zombies := zombies s; codes := record_code s z;
         exited := exited s; reaped := reaped s ++ [z]; taken := taken s |}
| Drained s :
    pc s = Draining → zombies s = [] →
    reaper_step capacity s (set_pending s (chld_pending s) (handlers s) Reading (codes_lock s)).

Definition sig_step (capacity : nat) (s s' : SigState) : Prop :=
  env_step s s' ∨ reaper_step capacity s s'.

(** ** Nothing is lost *)

(** The child that the thread has collected and not recorded yet. *)
Fixpoint in_hand (p : ReaperPc) : list (Z * Ending) :=
  match p with Recording z => [z] | Interrupted p => in_hand p | _ => [] end.

Fixpoint draining (p : ReaperPc) : bool :=
  match p with Reading => false | Draining | Recording _ => true | Interrupted p => draining p end.

(** How many threads are in the handler. *)
Definition in_handler (s : SigState) : nat :=
  handlers s + (if interrupted (pc s) then 1 else 0) +
  (match codes_lock s with HeldInHandler => 1 | _ => 0 end).

(** A child that waits to be collected is announced: by the signal, by a handler that
    runs, by a byte in the pipe, or by the thread that is collecting. *)
Definition announced (s : SigState) : Prop :=
  zombies s ≠ [] →
  chld_pending s = true ∨ (0 < in_handler s)%nat ∨ (0 < pipe s)%nat ∨ draining (pc s) = true.

(** The last collected child of a pid decides its exit code. *)
Definition codes_of (reaped : list (Z * Ending)) : gmap Z Z :=
  foldl (λ m z, <[z.1 := exit_code (wait_status z.2)]> m) ∅ reaped.

(** The bytes, the handlers and the pending signal stem from children that ended; the
    handler does not interrupt itself. *)
Definition sig_inv (capacity : nat) (s : SigState) : Prop :=
  0 ≤ wfd s ∧ announced s ∧ codes s = Some (codes_of (reaped s)) ∧
  exited s ≡ₚ zombies s ++ in_hand (pc s) ++ reaped s ++ taken s ∧
  Forall (ending_ok ∘ snd) (exited s) ∧
  (pipe s ≤ capacity)%nat ∧
  (pipe s + in_handler s + (if chld_pending s then 1 else 0) ≤ length (exited s))%nat ∧
  (∀ p, pc s = Interrupted p → interrupted p = false).

(** The thread that should empty the pipe waits for a handler that waits for the pipe: it
    is in the handler itself, or needs the lock of a thread that is. *)
Definition stuck (capacity : nat) (s : SigState) : Prop :=
  (capacity ≤ pipe s)%nat ∧ 0 ≤ wfd s ∧
  (interrupted (pc s) = true ∨ ∃ z, pc s = Recording z ∧ codes_lock s = HeldInHandler).

(** An upper bound of the steps that the handlers and the threads can still do. *)
Fixpoint pc_work (p : ReaperPc) : nat :=
  match p with Reading => 0 | Draining => 1 | Recording _ => 2 | Interrupted p => 3 + pc_work p end.

Definition lock_work (l : CodesLock) : nat :=
  match l with Unlocked => 0 | HeldByOther => 1 | HeldInHandler => 4 end.

Definition pending_work (s : SigState) : nat :=
  (if chld_pending s then 4 else 0) + 3 * handlers s + 2 * pipe s + 2 * length (zombies s) +
  pc_work (pc s) + lock_work (codes_lock s).

Lemma codes_of_snoc l z : codes_of (l ++ [z]) = <[z.1 := exit_code (wait_status z.2)]> (codes_of l).
Proof. unfold codes_of. by rewrite foldl_app. Qed.

Lemma handle_chld_some capacity fd n n' :
  0 ≤ fd → handle_chld capacity fd n = Some n' → n' = S n ∧ (n < capacity)%nat.
Proof.
  unfold handle_chld. intros Hw%Z.leb_le. rewrite Hw.
  destruct (Nat.ltb_spec n capacity); [|done]. intros [= <-]. done.
Qed.

Lemma handle_chld_none capacity fd n : handle_chld capacity fd n = None → 0 ≤ fd ∧ (capacity ≤ n)%nat.
Proof.
  unfold handle_chld. destruct (Z.leb_spec 0 fd); [|done].
  by destruct (Nat.ltb_spec n capacity).
Qed.

Lemma env_step_inv capacity s s' : env_step s s' → sig_inv capacity s → sig_inv capacity s'.
Proof.
  unfold sig_inv, announced, in_handler.
  intros Hs (Hw & Ha & Hc & Hp & He & Hcap & Hn & Hi).
  destruct Hs as [s pid e Hok Hnin|s zs z zs' Hz|s Hl]; cbn in *.
  - split_and!; [done|auto|done| | |done| |done].
    + rewrite Hp, (Permutation_app_comm (zombies s) [_]). cbn. by rewrite Permutation_app_comm.
    + apply Forall_app. split; [done|]. by constructor.
    + rewrite length_app. cbn. destruct (chld_pending s); lia.
  - rewrite Hz in *. split_and!; try done.
    + intros Hne. apply Ha. by destruct zs.
    + rewrite Hp. rewrite <- !app_assoc. cbn. by solve_Permutation.
  - rewrite Hl in *. by split_and!.
Qed.

Lemma reaper_step_inv capacity s s' :
  reaper_step capacity s s' → sig_inv capacity s → sig_inv capacity s'.
Proof.
  unfold sig_inv, announced, in_handler.
  intros Hs (Hw & Ha & Hc & Hp & He & Hcap & Hn & Hi).
  destruct Hs as [s Hb Hpc|s Hb Hl|s Hb|s p n Hpc Hh|s n Hl Hh|s n h Hs Hh|s Hl|s Hpc Hpipe
    |s zs z zs' Hpc Hz|s z Hpc Hl|s Hpc Hz]; cbn -[BUF] in *;
    try (apply handle_chld_some in Hh as [-> Hlt]; [|done]).
  - rewrite Hb, Hpc in *. split_and!; try done; [intros _; right; left; lia|lia|by intros ? [= <-]].
  - rewrite Hb, Hl in *. split_and!; try done; [intros _; right; left; lia|lia].
  - rewrite Hb in *. split_and!; try done; [intros _; right; left; lia|lia].
  - rewrite Hpc in *. cbn in *. pose proof (Hi p eq_refl) as Hq. rewrite Hq.
    split_and!; try done; [intros _; right; right; left; lia|lia|]. by intros q ->.
  - rewrite Hl in *. split_and!; try done; [intros _; right; right; left; lia|lia].
  - rewrite Hs in *. split_and!; try done; [intros _; right; right; left; lia|lia].
  - rewrite Hl in *. by split_and!.
  - rewrite Hpc in *. cbn in *. split_and!; try done; [tauto|lia|lia].
  - rewrite Hpc in *. rewrite Hz in *. cbn in *. split_and!; try done; try tauto.
    rewrite Hp. rewrite <- !app_assoc. cbn. by solve_Permutation.
  - rewrite Hpc in *. rewrite Hl in *. unfold record_code. rewrite Hc, codes_of_snoc. cbn in *.
    split_and!; try done; try tauto. rewrite Hp. rewrite <- !app_assoc. cbn. by solve_Permutation.
  - rewrite Hpc in *. rewrite Hz in *. by split_and!.
Qed.

Lemma reaper_step_work capacity s s' :
  0 ≤ wfd s → reaper_step capacity s s' → (pending_work s' < pending_work s)%nat.
Proof.
  unfold pending_work. intros Hw Hs.
  destruct Hs as [s Hb Hpc|s Hb Hl|s Hb|s p n Hpc Hh|s n Hl Hh|s n h Hs Hh|s Hl|s Hpc Hpipe
    |s zs z zs' Hpc Hz|s z Hpc Hl|s Hpc Hz]; cbn -[Nat.mul BUF];
    try (apply handle_chld_some in Hh as [-> Hlt]; [|done]); try rewrite Hb; try rewrite Hpc;
    try rewrite Hl; try rewrite Hs; try rewrite Hz; rewrite ?length_app; cbn -[Nat.mul BUF]; try lia.
  unfold BUF. lia.
Qed.

(** As long as there is a child to collect or to record, a handler or a thread has a step,
    unless they wait for each other. *)
Lemma reaper_progress capacity s :
  (0 < capacity)%nat → sig_inv capacity s → zombies s ≠ [] ∨ in_hand (pc s) ≠ [] →
  (∃ s', reaper_step capacity s s') ∨ stuck capacity s.
Proof.
  intros Hcap (Hw & Ha & _ & _ & _ & _ & _ & Hi) Hz. unfold stuck.
  destruct (handle_chld capacity (wfd s) (pipe s)) as [n|] eqn:Hh.
  2: { apply handle_chld_none in Hh as [_ Hfull]. destruct (pc s) as [| |z|p] eqn:Hpc; [| | |right; split_and!; [done..|by left]].
    - left. eexists. apply Reader; [done|lia].
    - left. destruct (zombies s) as [|z zs] eqn:Hzs; [by destruct Hz|]. eexists. by eapply (Reap _ _ [] z zs).
    - destruct (codes_lock s) eqn:Hl; [| |right; split_and!; [done..|right; by eexists]].
      + left. eexists. by eapply Record_code.
      + left. eexists. by apply Holder_unlocks. }
  left. destruct (pc s) as [| |z|p] eqn:Hpc; [| | |by eexists; eapply Handler_reaper].
  - destruct Hz as [Hz|Hz]; [|done]. specialize (Ha Hz). unfold in_handler in Ha. rewrite Hpc in Ha.
    cbn in Ha. destruct (pipe s) as [|m] eqn:Hpipe.
    2: { eexists. apply Reader; [done|]. rewrite Hpipe. lia. }
    rewrite <- Hpipe in Hh. destruct (chld_pending s) eqn:Hb; [by eexists; apply Deliver_other|].
    destruct (codes_lock s) eqn:Hl; [| |by eexists; eapply Handler_holder].
    all: destruct (handlers s) as [|h] eqn:Hs; [exfalso; naive_solver lia|].
    all: eexists; by eapply Handler_other.
  - destruct (zombies s) as [|z zs] eqn:Hzs; [by destruct Hz|]. eexists. by eapply (Reap _ _ [] z zs).
  - destruct (codes_lock s) eqn:Hl; [| |by eexists; eapply Handler_holder].
    + eexists. by eapply Record_code.
    + eexists. by apply Holder_unlocks.
Qed.

Lemma start_reaper_inv capacity write_fd : 0 ≤ write_fd → sig_inv capacity (start_reaper_thread write_fd).
Proof. intros Hw. split_and!; try done; [by constructor|cbn; lia]. Qed.

Lemma sig_reachable_inv capacity write_fd s :
  0 ≤ write_fd → rtc (sig_step capacity) (start_reaper_thread write_fd) s → sig_inv capacity s.
Proof.
  intros Hw Hr. pose proof (start_reaper_inv capacity _ Hw) as H0. clear Hw.
  revert H0. induction Hr as [s|s1 s2 s3 [Hs|Hs] _ IH]; intros H0; [done| |]; apply IH.
  - by eapply env_step_inv.
  - by eapply reaper_step_inv.
Qed.

(** Without new events the handlers and the threads come to rest after that many steps. *)
Lemma reaper_settles capacity s n s' :
  sig_inv capacity s → nsteps (reaper_step capacity) n s s' →
  (n + pending_work s' ≤ pending_work s)%nat ∧ sig_inv capacity s'.
Proof.
  intros Hinv Hn. induction Hn as [s|n s1 s2 s3 Hs _ IH]; [split; [lia|done]|].
  pose proof (reaper_step_work capacity s1 s2 (proj1 Hinv) Hs).
  destruct IH as [? ?]; [by eapply reaper_step_inv|]. split; [lia|done].
Qed.

(** *** The full pipe *)

Lemma stuck_children capacity s : sig_inv capacity s → stuck capacity s → (capacity < length (exited s))%nat.
Proof.
  intros (_ & _ & _ & _ & _ & _ & Hn & _) (Hfull & _ & Hs). unfold in_handler in Hn.
  destruct Hs as [Hs|(z & _ & Hl)]; [rewrite Hs in Hn|rewrite Hl in Hn]; lia.
Qed.

Lemma stuck_step capacity s s' :
  sig_step capacity s s' → stuck capacity s → stuck capacity s' ∧ codes s' = codes s.
Proof.
  unfold stuck. intros Hs (Hfull & Hw & Hc).
  destruct Hs as [Hs|Hs]; destruct Hs; cbn in *;
    try (match goal with Hh : handle_chld _ _ _ = Some _ |- _ =>
           apply handle_chld_some in Hh as [_ ?]; [lia|done] end);
    destruct Hc as [Hc|(z1 & Hc & Hl)];
    try (match goal with Hp : pc _ = _, Hq : interrupted _ = true |- _ => by rewrite Hp in Hq end);
    try congruence;
    (split; [split_and!; [done|done|]|done]); eauto.
Qed.

Lemma stuck_for_ever capacity s s' :
  rtc (sig_step capacity) s s' → stuck capacity s → stuck capacity s' ∧ codes s' = codes s.
Proof.
  induction 1 as [s|s1 s2 s3 Hs _ IH]; intros Hst; [done|].
  destruct (stuck_step _ _ _ Hs Hst) as [Hst' <-]. by apply IH.
Qed.

(** The reaper thread does not come to read again while children of other threads end:
    [n] bytes are in the pipe. *)
Definition busy (write_fd : Z) (n : nat) : SigState :=
  let past := replicate (S n) (100, Exited 0) in
  {| wfd := write_fd; chld_pending := false; pipe := n; handlers := 0; pc := Draining;
     codes_lock := Unlocked; zombies := []; codes := Some ∅; exited := past; reaped := []; taken := past |}.

Lemma busy_start capacity write_fd :
  (0 < capacity)%nat → 0 ≤ write_fd →
  rtc (sig_step capacity) (start_reaper_thread write_fd) (busy write_fd 0).
Proof.
  intros Hcap Hw. assert (handle_chld capacity write_fd 0 = Some 1%nat) as Hh.
  { unfold handle_chld. apply Z.leb_le in Hw. rewrite Hw. by apply Nat.ltb_lt in Hcap as ->. }
  eapply rtc_l; [left; apply (Child_ends _ 100 (Exited 0)); [simpl; lia|set_solver]|].
  eapply rtc_l; [right; by apply Deliver_other|].
  eapply rtc_l; [right; by eapply (Handler_other _ _ 1 0)|].
  eapply rtc_l; [right; apply Reader; cbn; [done|lia]|].
  eapply rtc_l; [left; by apply (Other_waits _ [] (100, Exited 0) [])|]. apply rtc_refl.
Qed.

Lemma busy_next capacity write_fd n :
  (n < capacity)%nat → 0 ≤ write_fd → rtc (sig_step capacity) (busy write_fd n) (busy write_fd (S n)).
Proof.
  intros Hcap Hw. assert (handle_chld capacity write_fd n = Some (S n)) as Hh.
  { unfold handle_chld. apply Z.leb_le in Hw. rewrite Hw. by apply Nat.ltb_lt in Hcap as ->. }
  unfold busy at 2. rewrite (replicate_S_end (S n)).
  eapply rtc_l; [left; apply (Child_ends _ 100 (Exited 0)); [simpl; lia|set_solver]|].
  eapply rtc_l; [right; by apply Deliver_other|].
  eapply rtc_l; [right; by eapply (Handler_other _ _ (S n) 0)|].
  eapply rtc_l; [left; by apply (Other_waits _ [] (100, Exited 0) [])|]. apply rtc_refl.
Qed.

(** When the next signal finds the reaper thread, it waits for itself. *)
Lemma pipe_fills capacity write_fd :
  (0 < capacity)%nat → 0 ≤ write_fd →
  ∃ s, rtc (sig_step capacity) (start_reaper_thread write_fd) s ∧ stuck capacity s.
Proof.
  intros Hcap Hw. assert (rtc (sig_step capacity) (busy write_fd 0) (busy write_fd capacity)) as Hb.
  { clear Hcap. remember capacity as n eqn:Hn. rewrite Hn at 1.
    assert (n ≤ capacity)%nat as Hle by lia. clear Hn. induction n as [|n IH]; [done|].
    etrans; [apply IH; lia|]. apply busy_next; [lia|done]. }
  eexists. split.
  - etrans; [by apply (busy_start capacity)|]. etrans; [exact Hb|].
    eapply rtc_l; [left; apply (Child_ends _ 101 (Exited 0)); [simpl; lia|set_solver]|].
    eapply rtc_l; [right; by apply Deliver_reaper|]. apply rtc_refl.
  - split_and!; cbn; [lia|done|by left].
Qed.

(** The exit code of an ending, as the restart monitor reads it. *)
Definition ending_code (e : Ending) : Z :=
  match e with Exited c => c | Signaled s => - s end.

Lemma exit_code_ending `{!WaitStatusOk} e : ending_ok e → exit_code (wait_status e) = ending_code e.
Proof.
  unfold exit_code. destruct e as [c|s]; simpl.
  - intros [-> ->]%exited_ok. done.
  - intros (-> & -> & ->)%signaled_ok. done.
Qed.

Lemma codes_of_lookup_None l pid : pid ∉ l.*1 → codes_of l !! pid = None.
Proof.
  induction l as [|z l IH] using rev_ind; intros Hn; [apply lookup_empty|].
  rewrite fmap_app, not_elem_of_app in Hn. destruct Hn as [Hn Hz]. rewrite codes_of_snoc.
  rewrite lookup_insert_ne; [by apply IH|]. intros <-. apply Hz. by left.
Qed.

Lemma codes_of_lookup l pid e l' :
  pid ∉ l'.*1 → codes_of (l ++ (pid, e) :: l') !! pid = Some (exit_code (wait_status e)).
Proof.
  induction l' as [|z l' IH] using rev_ind; intros Hn.
  - rewrite codes_of_snoc. apply lookup_insert_eq.
  - rewrite app_comm_cons, app_assoc, codes_of_snoc. rewrite fmap_app, not_elem_of_app in Hn.
    destruct Hn as [Hn Hz]. rewrite lookup_insert_ne; [by apply IH|]. intros <-. apply Hz. by left.
Qed.
End reaper.


(** The statuses of Linux: a signal in the low seven bits, an exit code in the next
    byte. *)
#[export] Instance linux_status : WaitStatus := {|
  WIFEXITED s := Z.land s 127 =? 0;
  WEXITSTATUS s := Z.land (Z.shiftr s 8) 255;
  WIFSIGNALED s := (1 <=? Z.land s 127) && (Z.land s 127 <=? 126);
  WTERMSIG s := Z.land s 127;
  wait_status e := match e with Exited c => Z.shiftl c 8 | Signaled n => n end;
|}.

#[export] Instance linux_status_ok : WaitStatusOk.
Proof.
  assert (∀ n, Z.land n 127 = n mod 128) as H127 by (intros; by apply (Z.land_ones n 7)).
  assert (∀ n, Z.land n 255 = n mod 256) as H255 by (intros; by apply (Z.land_ones n 8)).
  split; simpl.
  - intros c Hc. rewrite H127, H255, Z.shiftl_mul_pow2, Z.shiftr_div_pow2 by lia.
    rewrite Z.eqb_eq. split; [|rewrite Z.div_mul by lia; apply Z.mod_small; lia].
    change (2 ^ 8) with (2 * 128). rewrite Z.mul_assoc. apply Z.mod_mul. lia.
  - intros n Hn. rewrite H127, Z.mod_small by lia. split_and!; [|apply andb_true_iff; split|done].
    + apply Z.eqb_neq. lia.
    + apply Z.leb_le. lia.
    + apply Z.leb_le. lia.
Qed.

(** Two children end before the handler runs: one signal, one byte, two exit codes. *)
Lemma two_children : ∃ s,
  rtc (sig_step 16) (start_reaper_thread 4) s ∧
  exited s = [(100, Exited 3); (101, Signaled 9)] ∧ zombies s = [] ∧ taken s = [] ∧
  reaped s = [(101, Signaled 9); (100, Exited 3)].
Proof.
  eexists. split; [|split; [|split; [|split]]].
  - eapply rtc_l; [left; apply (Child_ends _ 100 (Exited 3)); [simpl; lia|set_solver]|]. cbn.
    eapply rtc_l; [left; apply (Child_ends _ 101 (Signaled 9)); [simpl; lia|set_solver]|]. cbn.
    eapply rtc_l; [right; by apply Deliver_other|]. cbn.
    eapply rtc_l; [right; by eapply (Handler_other _ _ 1 0)|]. cbn.
    eapply rtc_l; [right; apply Reader; cbn; [done|lia]|]. cbn.
    eapply rtc_l; [right; by eapply (Reap _ _ [(100, Exited 3)] (101, Signaled 9) [])|]. cbn.
    eapply rtc_l; [right; by eapply Record_code|]. cbn.
    eapply rtc_l; [right; by eapply (Reap _ _ [] (100, Exited 3) [])|]. cbn.
    eapply rtc_l; [right; by eapply Record_code|]. cbn.
    eapply rtc_l; [right; by apply Drained|]. apply rtc_refl.
  - done.
  - done.
  - done.
  - done.
Qed.


(** ** The shutdown watcher *)

Inductive ShutdownAction := PowerOff | Reboot.

(** The signals that have a handler. *)
Inductive Lifecycle := SigTerm | SigInt | SigPwr | SigUsr1 | SigChld.

(** The main thread in [wait_for_shutdown_signal]: about to call [pause], asleep in it,
    about to look at the flags, returned. *)
Inductive WatchPc := BeforePause | Paused | Checking | Returned (a : ShutdownAction).

Record Watch := {
  shutdown_requested : bool;
  reboot_requested : bool;
  watch_pc : WatchPc;
}.

Definition watch_init (w : Watch) : Prop := watch_pc w = BeforePause.

(** [handle_shutdown], [handle_reboot], [handle_chld] on the flags. *)
Definition handle_lifecycle (sig : Lifecycle) (w : Watch) : Watch :=
  let (sd, rb) :=
    match sig with
    | SigTerm | SigInt | SigPwr => (true, reboot_requested w)
    | SigUsr1 => (shutdown_requested w, true)
    | SigChld => (shutdown_requested w, reboot_requested w)
    end in
  {| shutdown_requested := sd; reboot_requested := rb;
     watch_pc := match watch_pc w with Paused => Checking | p => p end |}.

(** The [Shutdown] command of the control socket. *)
Definition control_shutdown (reboot : bool) (w : Watch) : Watch :=
  {| shutdown_requested := if reboot then shutdown_requested w else true;
     reboot_requested := if reboot then true else reboot_requested w;
     watch_pc := watch_pc w |}.

(** What follows [pause]. *)
Definition check_flags (w : Watch) : WatchPc :=
  if reboot_requested w then Returned Reboot
  else if shutdown_requested w then Returned PowerOff
  else BeforePause.

Definition goto_pc (w : Watch) (p : WatchPc) : Watch :=
  {| shutdown_requested := shutdown_requested w; reboot_requested := reboot_requested w; watch_pc := p |}.

Inductive main_step : Watch → Watch → Prop :=
| Main_pause w : watch_pc w = BeforePause → main_step w (goto_pc w Paused)
| Main_check w : watch_pc w = Checking → main_step w (goto_pc w (check_flags w)).

Inductive watch_step : Watch → Watch → Prop :=
| Watch_main w w' : main_step w w' → watch_step w w'
| Watch_signal w sig : watch_step w (handle_lifecycle sig w)
| Watch_control w reboot : watch_step w (control_shutdown reboot w).

(** A returned action has its flag. *)
Definition watch_inv (w : Watch) : Prop :=
  match watch_pc w with
  | Returned Reboot => reboot_requested w = true
  | Returned PowerOff => shutdown_requested w = true
  | _ => True
  end.

Lemma watch_step_inv w w' : watch_step w w' → watch_inv w → watch_inv w'.
Proof.
  unfold watch_inv. intros [w1 w2 [w0 Hp|w0 Hp]|w1 sig|w1 reboot]; simpl.
  - done.
  - unfold check_flags. destruct (reboot_requested w0) eqn:?, (shutdown_requested w0) eqn:?; done.
  - destruct w1 as [sd rb p]. simpl. intros Hi. destruct p as [| | |[]], sig; simpl in *; done.
  - destruct w1 as [sd rb p]. simpl. intros Hi. destruct p as [| | |[]], reboot; simpl in *; done.
Qed.

(** C38: [wait_for_shutdown_signal] only returns what was asked for, and reboots when both
    were; a lifecycle signal that finds the main thread asleep makes it return at its
    next step; but a signal that comes between the check and [pause], and a [Shutdown]
    command of the control socket at any time, set the flag without waking the thread:
    it is asleep, with no step of its own, until another signal comes. *)
Theorem shutdown_watcher w0 w :
  watch_init w0 → rtc watch_step w0 w →
  watch_inv w ∧
  (∀ sig w', watch_pc w = Paused → sig ≠ SigChld → main_step (handle_lifecycle sig w) w' →
     watch_pc w' = Returned (if reboot_requested (handle_lifecycle sig w) then Reboot else PowerOff)) ∧
  (∀ w1, watch_pc w = BeforePause ∧ w1 = goto_pc (handle_lifecycle SigTerm w) Paused ∨
         watch_pc w = Paused ∧ w1 = control_shutdown false w →
     rtc watch_step w w1 ∧ shutdown_requested w1 = true ∧ ∀ w2, ¬ main_step w1 w2).
Proof.
  intros H0 Hr. split_and!.
  - assert (watch_inv w0) as Hi by (unfold watch_inv; by rewrite H0).
    clear H0. induction Hr; [done|]. eauto using watch_step_inv.
  - intros sig w' Hp Hs Hm. inversion Hm as [? Hq|? Hq]; subst; simpl in Hq;
      unfold handle_lifecycle in *; rewrite Hp in *; [by destruct sig|].
    simpl. unfold check_flags. destruct w as [sd rb p], sig, rb; simpl in *; done.
  - intros w1 [[Hp ->]|[Hp ->]]; (split; [|split; [done|intros w2 Hm; inversion Hm as [? Hq|? Hq]; subst;
      simpl in Hq; congruence]]).
    + eapply rtc_l; [apply (Watch_signal _ SigTerm)|]. apply rtc_once, Watch_main, Main_pause.
      simpl. by rewrite Hp.
    + apply rtc_once, Watch_control.
Qed.

Lemma shutdown_watcher_witness :
  let w0 := {| shutdown_requested := false; reboot_requested := false; watch_pc := BeforePause |} in
  ∃ w1, rtc watch_step w0 w1 ∧ shutdown_requested w1 = true ∧ ∀ w2, ¬ main_step w1 w2.
Proof.
  intros w0. eexists.
  by apply (shutdown_watcher w0 w0 eq_refl (rtc_refl _ _)); left.
Defined.
