(* ===== verification/Control.v ===== *)
(** * The control socket

    [quantra/src/control.rs]: the framing, the authorization of a client, and what
    every command does.  The service manager is behind a mutex: [LockManager] gives its
    contents ([None] when it is poisoned) and [UnlockManager] puts them back; a panic
    or an operation that never returns keeps the lock.  JSON texts are read and written
    by [serde_json], which is a parameter. *)

From Stdlib Require Import ZArith Ascii.
From stdpp Require Import base tactics numbers list strings gmap.
From S2P Require Import Prelude RustStr Types Effects Os Cgroup Start Timer Catalog Manager.

Local Open Scope string_scope.
Local Open Scope list_scope.
Local Open Scope Z_scope.
Local Open Scope quantra_scope.
Local Open Scope prog_scope.

(** Shadowed by the parser's constant of the same text. *)
Definition CONTROL_ENABLED_DIR : string := "/overlayer/syshub/etc/quantra-system/enabled".

Inductive ControlCommand :=
| Cmd_Start (service : string)
| Cmd_Stop (service : string)
| Cmd_Restart (service : string)
| Cmd_Reload (service : string)
| Cmd_Kill (service : string)
| Cmd_Enable (service : string)
| Cmd_Disable (service : string)
| Cmd_Status (service : string)
| Cmd_Assay (service : string)
| Cmd_Tree
| Cmd_List
| Cmd_Metrics
| Cmd_Isolate (service : string) (exit_isolation : bool)
| Cmd_Shutdown (reboot : bool)
| Cmd_Signal (service signal : string)
| Cmd_IsStarted (service : string)
| Cmd_IsFailed (service : string)
| Cmd_Setenv (name : string) (value : option string)
| Cmd_AddDep (from to dep_type : string)
| Cmd_RmDep (from to : string).

(** [serde_json::Value], as the [json!] macro builds it; the order of the keys of an
    object is the serializer's affair. *)
Inductive Json :=
| JBool (b : bool)
| JNum (z : Z)
| JStr (s : string)
| JArr (l : list Json)
| JObj (fields : list (string * Json)).

Record CtlResponse := {
  ok : bool;
  message : string;
  data : option Json;
}.

Definition CtlResponse_ok (msg : string) : CtlResponse := {| ok := true; message := msg; data := None |}.
Definition CtlResponse_ok_data (msg : string) (d : Json) : CtlResponse :=
  {| ok := true; message := msg; data := Some d |}.
Definition CtlResponse_err (msg : string) : CtlResponse := {| ok := false; message := msg; data := None |}.

(** The operations of a client thread.  [ReadExact] and [WriteAll] are on its
    connection, [PeerUid] is the uid of [SO_PEERCRED]. *)
Inductive CtlOp : Type → Type :=
| LockManager : CtlOp (option ServiceManager)
| UnlockManager (m : ServiceManager) : CtlOp unit
| Mgr {X} (e : MgrOp X) : CtlOp X
| PeerUid : CtlOp (result string Z)
| ReadExact (n : Z) : CtlOp (result string (list Z))
| WriteAll (bytes : list Z) : CtlOp (result string unit)
| RequestShutdown (reboot : bool) : CtlOp unit
| Sysconf (name : string) : CtlOp Z
| RecordControlCommand : CtlOp unit.

Definition mgr {A} (p : prog MgrOp A) : prog CtlOp A := lift (λ X e, Mgr e) p.
Definition os {A} (p : prog Os A) : prog CtlOp A := lift (λ X e, Mgr (Own e)) p.

(** ** Framing *)

Definition MAX_FRAME : Z := 4 * 1024 * 1024.

Definition send_frame (payload : list Z) : prog CtlOp (result string unit) :=
  let len := wrap_u32 (Z.of_nat (length payload)) in
  try* _ := trigger (WriteAll (to_le_bytes len)) in
  trigger (WriteAll payload).

Definition recv_frame : prog CtlOp (result string (list Z)) :=
  try* len_buf := trigger (ReadExact 4) in
  let len := from_le_bytes 4 len_buf in
  if MAX_FRAME <? len then
    Ret (Err ("Frame too large: " +:+ show_uint len +:+ " bytes"))
  else trigger (ReadExact len).

(** ** What is read of a process *)

Definition proc_path (pid : Z) (field : string) : string :=
  "/proc/" +:+ show_uint pid +:+ "/" +:+ field.

Definition read_proc_file (pid : Z) (field : string) : prog CtlOp (option string) :=
  let* r := os (trigger (ReadToString (proc_path pid field))) in
  Ret match r with Ok s => Some s | Err _ => None end.

(** The [nth] word of a text as a [u64], zero when it is missing. *)
Definition nth_u64 (n : nat) (s : string) : Z :=
  default 0 (split_whitespace s !! n ≫= parse_uint u64_max).

Definition rss_kb (statm : string) (page_size : Z) : Z :=
  saturating_mul_u64 (nth_u64 1 statm) (wrap_u64 page_size) / 1024.

Definition read_proc_rss_kb (pid : Z) : prog CtlOp Z :=
  let* content := read_proc_file pid "statm" in
  let* page_size := trigger (Sysconf "_SC_PAGESIZE") in
  Ret (rss_kb (default "" content) page_size).

Definition read_proc_apparmor (pid : Z) : prog CtlOp string :=
  let* r := os (trigger (ReadToString (proc_path pid "attr/current"))) in
  Ret match r with Ok s => trim s | Err _ => "unknown" end.

Definition log_path (service : string) : string :=
  "/overlayer/syshub/var/log/quantra-system/" +:+ service +:+ ".log".

Definition read_log (service : string) : prog CtlOp string :=
  let* r := os (trigger (ReadToString (log_path service))) in
  Ret match r with Ok s => s | Err _ => "" end.

Definition log_tail (n : nat) (content : string) : list string := rev (take n (rev (lines content))).

Definition read_log_tail (service : string) (n : nat) : prog CtlOp (list string) :=
  let* content := read_log service in Ret (log_tail n content).

Definition log_errors (content : string) : nat :=
  length (filter (λ l, contains "ERROR" l || contains "error" l = true) (lines content)).

Definition count_log_errors (service : string) : prog CtlOp nat :=
  let* content := read_log service in Ret (log_errors content).

Definition parse_signal_str (name : string) : option Signal :=
  match to_ascii_uppercase (trim_start_matches "SIG" name) with
  | "HUP" | "1" => Some SIGHUP
  | "INT" | "2" => Some SIGINT
  | "QUIT" | "3" => Some SIGQUIT
  | "KILL" | "9" => Some SIGKILL
  | "TERM" | "15" => Some SIGTERM
  | "USR1" | "10" => Some SIGUSR1
  | "USR2" | "12" => Some SIGUSR2
  | "CONT" | "18" => Some SIGCONT
  | "STOP" | "19" => Some SIGSTOP
  | "ALRM" | "14" => Some SIGALRM
  | "PIPE" | "13" => Some SIGPIPE
  | "CHLD" | "17" => Some SIGCHLD
  | _ => None
  end.

Section dispatch.
Context (SYS : string → Z) (overflow_checks : bool) (quota_us : string → option Z).
(** The floating-point part of [read_proc_uptime_sec]: the uptime as it is written and
    the start time in ticks. *)
Context (uptime_since : option string → Z → Z).

Definition read_proc_uptime_sec (pid : Z) : prog CtlOp Z :=
  let* uptime_str := os (trigger (ReadToString "/proc/uptime")) in
  let* stat := read_proc_file pid "stat" in
  let word := split_whitespace match uptime_str with Ok s => s | Err _ => "" end !! 0%nat in
  Ret (uptime_since word (nth_u64 21 (default "" stat))).

(** ** The commands *)

(** A command under the lock; [None] is a panic or an operation without end. *)
Definition with_manager (k : ServiceManager → prog CtlOp (option (ServiceManager * CtlResponse)))
    : prog CtlOp (option CtlResponse) :=
  let* guard := trigger LockManager in
  match guard with
  | None => Ret (Some (CtlResponse_err "Service manager lock poisoned"))
  | Some m =>
      fuel* r := k m in
      trigger (UnlockManager r.1);* Ret (Some r.2)
  end.

(** A command that only reads the manager. *)
Definition with_status (service : string) (k : option (Z * bool) → prog CtlOp CtlResponse)
    : prog CtlOp (option CtlResponse) :=
  with_manager (λ m,
    let* status := mgr (get_service_status m service) in
    let* r := k status in
    Ret (Some (m, r))).

Definition on_start (fuel : nat) (service : string) : prog CtlOp (option CtlResponse) :=
  with_manager (λ m,
    fuel* r := mgr (start_named_service SYS overflow_checks quota_us fuel m service) in
    Ret (Some (r.1, match r.2 with
      | Ok _ => CtlResponse_ok ("✓ Started " +:+ service)
      | Err e => CtlResponse_err ("Failed to start " +:+ service +:+ ": " +:+ e)
      end))).

Definition on_stop (fuel : nat) (service : string) : prog CtlOp (option CtlResponse) :=
  with_manager (λ m,
    fuel* r := mgr (stop_named_service fuel m service) in
    Ret (Some (m, match r with
      | Ok _ => CtlResponse_ok ("✓ Stopped " +:+ service)
      | Err e => CtlResponse_err ("Failed to stop " +:+ service +:+ ": " +:+ e)
      end))).

Definition on_restart (fuel : nat) (service : string) : prog CtlOp (option CtlResponse) :=
  with_manager (λ m,
    fuel* _ := mgr (stop_named_service fuel m service) in
    fuel* r := mgr (start_named_service SYS overflow_checks quota_us fuel m service) in
    Ret (Some (r.1, match r.2 with
      | Ok _ => CtlResponse_ok ("✓ Restarted " +:+ service)
      | Err e => CtlResponse_err ("Failed to restart " +:+ service +:+ ": " +:+ e)
      end))).

Definition on_reload (service : string) : prog CtlOp (option CtlResponse) :=
  with_manager (λ m,
    let* r := mgr (reload_named_service m service) in
    Ret (Some (m, match r with
      | Ok msg => CtlResponse_ok msg
      | Err e => CtlResponse_err ("Reload failed for " +:+ service +:+ ": " +:+ e)
      end))).

Definition on_kill (service : string) : prog CtlOp (option CtlResponse) :=
  let missing := CtlResponse_err ("Service '" +:+ service +:+ "' not found or not running") in
  with_status service (λ status,
    match status with
    | Some (pid, _) =>
        if 0 <? pid then
          os (kill_service_cgroup service);*
          os (trigger (Kill pid SIGKILL));*
          Ret (CtlResponse_ok ("✓ Killed " +:+ service +:+ " (PID " +:+ show_int pid +:+ ")"))
        else Ret missing
    | None => Ret missing
    end).

Definition marker (service : string) : string := path_join CONTROL_ENABLED_DIR service.

Definition on_enable (service : string) : prog CtlOp CtlResponse :=
  let* r := os (trigger (CreateDirAll CONTROL_ENABLED_DIR)) in
  match r with
  | Err e => Ret (CtlResponse_err ("Cannot create enabled dir: " +:+ e))
  | Ok _ =>
      let* r := os (trigger (WriteFile (marker service) "")) in
      Ret match r with
          | Ok _ => CtlResponse_ok ("✓ " +:+ service +:+ " enabled (will auto-start on next boot)")
          | Err e => CtlResponse_err ("Failed to enable " +:+ service +:+ ": " +:+ e)
          end
  end.

Definition on_disable (service : string) : prog CtlOp CtlResponse :=
  let* present := os (trigger (PathExists (marker service))) in
  if present : bool then
    let* r := os (trigger (RemoveFile (marker service))) in
    Ret match r with
        | Ok _ => CtlResponse_ok ("✓ " +:+ service +:+ " disabled (will not auto-start on next boot)")
        | Err e => CtlResponse_err ("Failed to disable " +:+ service +:+ ": " +:+ e)
        end
  else Ret (CtlResponse_ok ("'" +:+ service +:+ "' was not enabled")).

(** [pid as u32]. *)
Definition status_data (service : string) (pid : Z) (running : bool) : prog CtlOp CtlResponse :=
  let state := if running then "running" else "stopped" in
  let up := running && (0 <? pid) in
  let* rss := if up then read_proc_rss_kb (wrap_u32 pid) else Ret 0 in
  let* uptime := if up then read_proc_uptime_sec (wrap_u32 pid) else Ret 0 in
  let* apparmor := if 0 <? pid then read_proc_apparmor (wrap_u32 pid) else Ret "unconfined" in
  let* enabled := os (trigger (PathExists (marker service))) in
  let* tail := read_log_tail service 10 in
  Ret (CtlResponse_ok_data (service +:+ " is " +:+ state) (JObj [
    ("name", JStr service); ("state", JStr state); ("pid", JNum pid);
    ("rss_kb", JNum rss); ("uptime_seconds", JNum uptime);
    ("apparmor_profile", JStr apparmor);
    ("cgroup_path", JStr ("/sys/fs/cgroup/quantra-system/" +:+ service));
    ("enabled", JBool enabled); ("log_tail", JArr (JStr <$> tail))])).

Definition on_status (service : string) : prog CtlOp (option CtlResponse) :=
  with_status service (λ status,
    match status with
    | Some (pid, running) => status_data service pid running
    | None => Ret (CtlResponse_err ("Service '" +:+ service +:+ "' not found"))
    end).

Definition check (name : string) (c : bool) (detail : string) : string * Json :=
  (name, JObj [("ok", JBool c); ("detail", JStr detail)]).

(** The checks on a registered service, and whether those that count are met. *)
Definition assay_process (pid : Z) (running : bool) : prog CtlOp (list (string * Json) * bool) :=
  let* proc_exists :=
    if 0 <? pid then os (trigger (PathExists ("/proc/" +:+ show_int pid))) else Ret false in
  let* oom := read_proc_file (wrap_u32 pid) "oom_score" in
  let oom_val := default 0 (parse_i32 (trim (default "" oom))) in
  let oom_ok := oom_val <? 500 in
  let* aa := read_proc_apparmor (wrap_u32 pid) in
  let* rss := read_proc_rss_kb (wrap_u32 pid) in
  let rss_ok := rss <? 512000 in
  Ret ([check "process_alive" (proc_exists && running)
          (if proc_exists : bool then "PID " +:+ show_int pid +:+ " alive in /proc"
           else "PID " +:+ show_int pid +:+ " not found in /proc");
        check "oom_score" oom_ok ("oom_score = " +:+ show_int oom_val);
        check "apparmor_confined" (negb (contains "unconfined" aa)) ("profile: " +:+ aa);
        check "rss_within_limit" rss_ok (show_uint rss +:+ " KB used, limit 512000 KB")],
       proc_exists && running && oom_ok && rss_ok).

(** The lock is given back before the checks. *)
Definition on_assay (service : string) : prog CtlOp (option CtlResponse) :=
  let* guard := trigger LockManager in
  match guard with
  | None => Ret (Some (CtlResponse_err "Service manager lock poisoned"))
  | Some m =>
      let* status := mgr (get_service_status m service) in
      trigger (UnlockManager m);*
      let* (checks, overall_ok) :=
        match status with
        | Some (pid, running) => assay_process pid running
        | None => Ret ([check "process_alive" false "Service not registered"], false)
        end in
      let* error_count := count_log_errors service in
      let* enabled := os (trigger (PathExists (marker service))) in
      let checks := checks ++ [
        check "log_errors_recent" (error_count =? 0)%nat
          (show_nat error_count +:+ " ERROR lines in log");
        check "enabled" true (if enabled : bool then "auto-start enabled" else "manual-start only")] in
      let overall := if overall_ok : bool then "HEALTHY" else "WARN" in
      Ret (Some (CtlResponse_ok_data ("Assay for " +:+ service +:+ " — " +:+ overall) (JObj [
        ("service", JStr service); ("checks", JObj checks); ("overall", JStr overall)])))
  end.

Definition ESC : string := String (ascii_of_nat 27) "".

(** The [i]-th of [n] services. *)
Definition tree_line (n i : nat) (name : string) (status : option (Z * bool)) : string :=
  (if (i =? n - 1)%nat then "└── " else "├── ") +:+ name +:+
  match status with
  | Some (pid, true) => " " +:+ ESC +:+ "[32m[running]" +:+ ESC +:+ "[0m PID " +:+ show_int pid
  | Some (_, false) => " " +:+ ESC +:+ "[90m[stopped]" +:+ ESC +:+ "[0m"
  | None => ""
  end.

(** The statuses of all services, in the order of the names. *)
Fixpoint statuses (m : ServiceManager) (names : list string)
    : prog CtlOp (list (string * option (Z * bool))) :=
  match names with
  | [] => Ret []
  | name :: names =>
      let* status := mgr (get_service_status m name) in
      let* rest := statuses m names in
      Ret ((name, status) :: rest)
  end.

Definition on_tree : prog CtlOp (option CtlResponse) :=
  with_manager (λ m,
    let* entries := statuses m (get_service_names m) in
    let n := length entries in
    let text := ("quantra (PID 1) — " +:+ show_nat n +:+ " services")
      :: imap (λ i e, tree_line n i e.1 e.2) entries in
    Ret (Some (m, CtlResponse_ok_data "Dependency tree"
      (JObj [("tree", JStr (join (String newline "") text))])))).

Definition on_list : prog CtlOp (option CtlResponse) :=
  with_manager (λ m,
    let* entries := statuses m (get_service_names m) in
    let services := (λ e : string * option (Z * bool),
      let (pid, running) := default (-1, false) e.2 in
      JObj [("name", JStr e.1); ("pid", JNum pid); ("running", JBool running)]) <$> entries in
    Ret (Some (m, CtlResponse_ok_data (show_nat (length services) +:+ " services")
      (JObj [("services", JArr services)])))).

Definition on_metrics : prog CtlOp CtlResponse :=
  let* r := os (trigger (ReadToString "/run/quantra/metrics")) in
  Ret match r with
      | Ok content => CtlResponse_ok_data "Prometheus metrics" (JObj [("prometheus", JStr content)])
      | Err e => CtlResponse_err ("Cannot read metrics: " +:+ e)
      end.

Definition on_isolate (service : string) (exit_isolation : bool) : prog CtlOp CtlResponse :=
  if exit_isolation then
    os (trigger (RemoveFile "/run/quantra/isolated"));*
    Ret (CtlResponse_ok "✓ Isolation mode cleared — normal operation resumed")
  else
    let* r := os (trigger (WriteFile "/run/quantra/isolated" service)) in
    Ret match r with
        | Ok _ => CtlResponse_ok ("✓ Isolated to '" +:+ service +:+ "' — all other services stopped."
            +:+ String newline "  Reboot or `quantra-ctl isolate --exit` to restore.")
        | Err e => CtlResponse_err ("Failed to write isolation marker: " +:+ e)
        end.

Definition on_shutdown (reboot : bool) : prog CtlOp CtlResponse :=
  trigger (RequestShutdown reboot);*
  Ret (CtlResponse_ok (if reboot then "✓ Reboot initiated" else "✓ Shutdown initiated")).

Definition on_signal (service sig_name : string) : prog CtlOp (option CtlResponse) :=
  let missing := CtlResponse_err ("Service '" +:+ service +:+ "' not running") in
  with_status service (λ status,
    match status with
    | Some (pid, _) =>
        if 0 <? pid then
          match parse_signal_str sig_name with
          | Some s =>
              let* r := os (trigger (Kill pid s)) in
              Ret match r with
                  | Ok _ => CtlResponse_ok ("✓ Sent " +:+ sig_name +:+ " to '" +:+ service
                              +:+ "' (PID " +:+ show_int pid +:+ ")")
                  | Err e => CtlResponse_err ("kill failed: " +:+ e)
                  end
          | None => Ret (CtlResponse_err ("Unknown signal: '" +:+ sig_name +:+ "'"))
          end
        else Ret missing
    | None => Ret missing
    end).

Definition on_is_started (service : string) : prog CtlOp (option CtlResponse) :=
  with_status service (λ status, Ret
    match status with
    | Some (_, true) => CtlResponse_ok_data ("'" +:+ service +:+ "' is running")
        (JObj [("running", JBool true); ("exit_code", JNum 0)])
    | Some (_, false) => CtlResponse_ok_data ("'" +:+ service +:+ "' is stopped")
        (JObj [("running", JBool false); ("exit_code", JNum 1)])
    | None => CtlResponse_err ("Service '" +:+ service +:+ "' not found")
    end).

Definition on_is_failed (service : string) : prog CtlOp (option CtlResponse) :=
  with_status service (λ status, Ret
    match status with
    | Some (_, true) => CtlResponse_ok_data ("'" +:+ service +:+ "' is running (not failed)")
        (JObj [("failed", JBool false); ("exit_code", JNum 1)])
    | Some (_, false) => CtlResponse_ok_data ("'" +:+ service +:+ "' is stopped/failed")
        (JObj [("failed", JBool true); ("exit_code", JNum 0)])
    | None => CtlResponse_err ("Service '" +:+ service +:+ "' not found")
    end).

Definition on_setenv (name : string) (value : option string) : prog CtlOp (option CtlResponse) :=
  with_manager (λ m,
    let msg := match value with
               | Some v => "✓ Set " +:+ name +:+ "=" +:+ v +:+ " (applies to next service spawn)"
               | None => "✓ Unset " +:+ name +:+ " (applies to next service spawn)"
               end in
    Ret (Some (set_env m name value, CtlResponse_ok msg))).

Definition on_add_dep (from to dep_type : string) : prog CtlOp (option CtlResponse) :=
  with_manager (λ m, Ret (Some (add_dep m from to dep_type,
    CtlResponse_ok ("✓ Dependency " +:+ from +:+ " --[" +:+ dep_type +:+ "]--> " +:+ to
                    +:+ " added (applies to next start)")))).

Definition on_rm_dep (from to : string) : prog CtlOp (option CtlResponse) :=
  with_manager (λ m, Ret (Some (rm_dep m from to,
    CtlResponse_ok ("✓ Dependency " +:+ from +:+ " --> " +:+ to +:+ " removed")))).

Definition returned {A} (p : prog CtlOp A) : prog CtlOp (option A) := let* a := p in Ret (Some a).

Definition dispatch (fuel : nat) (cmd : ControlCommand) : prog CtlOp (option CtlResponse) :=
  match cmd with
  | Cmd_Start service => on_start fuel service
  | Cmd_Stop service => on_stop fuel service
  | Cmd_Restart service => on_restart fuel service
  | Cmd_Reload service => on_reload service
  | Cmd_Kill service => on_kill service
  | Cmd_Enable service => returned (on_enable service)
  | Cmd_Disable service => returned (on_disable service)
  | Cmd_Status service => on_status service
  | Cmd_Assay service => on_assay service
  | Cmd_Tree => on_tree
  | Cmd_List => on_list
  | Cmd_Metrics => returned on_metrics
  | Cmd_Isolate service exit_isolation => returned (on_isolate service exit_isolation)
  | Cmd_Shutdown reboot => returned (on_shutdown reboot)
  | Cmd_Signal service signal => on_signal service signal
  | Cmd_IsStarted service => on_is_started service
  | Cmd_IsFailed service => on_is_failed service
  | Cmd_Setenv name value => on_setenv name value
  | Cmd_AddDep from to dep_type => on_add_dep from to dep_type
  | Cmd_RmDep from to => on_rm_dep from to
  end.

(** ** A client *)

Context (from_slice : list Z → result string ControlCommand) (to_vec : CtlResponse → result string (list Z)).

Definition DENIED : CtlResponse :=
  CtlResponse_err "Permission denied: only root may use the control socket".

Definition handle_client (fuel : nat) : prog CtlOp (option (result string unit)) :=
  let* cred := trigger PeerUid in
  match cred with
  | Err e => Ret (Some (Err e))
  | Ok uid =>
      if negb (uid =? 0) then
        match to_vec DENIED with
        | Ok bytes => send_frame bytes;* Ret (Some (Ok tt))
        | Err e => Ret (Some (Err e))
        end
      else
        let* frame := recv_frame in
        match frame with
        | Err e => Ret (Some (Err e))
        | Ok frame =>
            match from_slice frame with
            | Err e => Ret (Some (Err ("Bad command JSON: " +:+ e)))
            | Ok command =>
                trigger RecordControlCommand;*
                fuel* response := dispatch fuel command in
                match to_vec response with
                | Ok bytes => returned (send_frame bytes)
                | Err e => Ret (Some (Err e))
                end
            end
        end
  end.
End dispatch.

(** ** Worlds *)

Lemma wp_lift {E F W A} (step : ∀ X, F X → W → X → W → Prop) (f : ∀ X, E X → F X)
    (p : prog E A) w Q :
  wp step (lift f p) w Q ↔ wp (λ X e, step X (f X e)) p w Q.
Proof. revert w. induction p as [|X e k IH]; intros w; simpl; [done|]. naive_solver. Qed.

(** Code whose operations leave the world alone, whatever they answer. *)
Lemma wp_still {W A} (step : ∀ X, MgrOp X → W → X → W → Prop) (p : prog MgrOp A) w u R :
  (∀ X (e : MgrOp X) w x w', step X e w x w' → w' = w) →
  wp any_answer p u (λ _ a, R a) → wp step p w (λ w' a, w' = w ∧ R a).
Proof.
  intros Hs. revert w u. induction p as [a|X e k IH]; intros w u; simpl; [done|].
  intros H x w' Hx. rewrite (Hs _ _ _ _ _ Hx). apply (IH x w u), (H x u). done.
Qed.

(** *** A connection *)

Record Stream := {
  inbox : list Z;
  outbox : list Z;
}.

Definition stream_step : ∀ X, CtlOp X → Stream → X → Stream → Prop :=
  λ X e, match e in CtlOp X return Stream → X → Stream → Prop with
  | ReadExact n => λ w x w',
      if (Z.to_nat n <=? length (inbox w))%nat then
        x = Ok (take (Z.to_nat n) (inbox w)) ∧
        w' = {| inbox := drop (Z.to_nat n) (inbox w); outbox := outbox w |}
      else ∃ e, x = Err e
  | WriteAll bytes => λ w x w',
      x = Ok tt ∧ w' = {| inbox := inbox w; outbox := outbox w ++ bytes |}
  | _ => λ w _ w', w' = w
  end.

Definition frame (payload : list Z) : list Z := to_le_bytes (Z.of_nat (length payload)) ++ payload.

Lemma send_frame_spec payload w :
  Z.of_nat (length payload) < 4294967296 →
  wp stream_step (send_frame payload) w (λ w' r,
    r = Ok tt ∧ w' = {| inbox := inbox w; outbox := outbox w ++ frame payload |}).
Proof.
  intros Hl. unfold send_frame. apply wp_try, wp_trigger. intros x w1 [-> ->].
  apply wp_trigger. intros x w2 [-> ->]. split; [done|]. simpl. unfold frame, wrap_u32.
  rewrite Z.mod_small by lia. by rewrite <- app_assoc.
Qed.

Lemma recv_frame_spec payload rest out :
  Z.of_nat (length payload) < 4294967296 →
  wp stream_step recv_frame {| inbox := frame payload ++ rest; outbox := out |} (λ w r,
    if Z.of_nat (length payload) <=? MAX_FRAME
    then r = Ok payload ∧ inbox w = rest
    else r = Err ("Frame too large: " +:+ show_uint (Z.of_nat (length payload)) +:+ " bytes") ∧
         inbox w = payload ++ rest).
Proof.
  intros Hl. unfold recv_frame. apply wp_try, wp_trigger. intros x w1.
  cbn [stream_step inbox outbox frame]. change (Z.to_nat 4) with 4%nat. unfold frame, to_le_bytes.
  cbn [app length Nat.leb take drop]. intros [-> ->]. rewrite take_0, drop_0.
  pose proof (to_le_bytes_from (Z.of_nat (length payload)) ltac:(lia)) as Hle. unfold to_le_bytes in Hle.
  rewrite Hle. destruct (Z.ltb_spec MAX_FRAME (Z.of_nat (length payload))).
  - destruct (Z.leb_spec (Z.of_nat (length payload)) MAX_FRAME); [lia|]. done.
  - destruct (Z.leb_spec (Z.of_nat (length payload)) MAX_FRAME); [|lia].
    apply wp_trigger. intros x w2. cbn [stream_step inbox]. rewrite Nat2Z.id, length_app.
    destruct (Nat.leb_spec (length payload) (length payload + length rest)); [|lia].
    intros [-> ->]. by rewrite take_app_length, drop_app_length.
Qed.

(** Framing round trip: what [send_frame] writes, followed by anything, [recv_frame]
    reads back exactly and leaves the rest of the stream, for every payload up to 4 MiB;
    a longer one is refused with its length, before any of it is read. *)
Theorem frame_roundtrip payload rest :
  Z.of_nat (length payload) < 4294967296 →
  wp stream_step (send_frame payload) {| inbox := []; outbox := [] |} (λ w r, r = Ok tt ∧
    wp stream_step recv_frame {| inbox := outbox w ++ rest; outbox := [] |} (λ w' r',
      if Z.of_nat (length payload) <=? MAX_FRAME
      then r' = Ok payload ∧ inbox w' = rest
      else r' = Err ("Frame too large: " +:+ show_uint (Z.of_nat (length payload)) +:+ " bytes") ∧
           inbox w' = payload ++ rest)).
Proof.
  intros Hl. eapply wp_mono; [|by apply send_frame_spec]. intros w r [-> ->]. split; [done|].
  by apply recv_frame_spec.
Qed.

Lemma frame_roundtrip_witness :
  wp stream_step (send_frame [123; 125]) {| inbox := []; outbox := [] |} (λ w r, r = Ok tt ∧
    wp stream_step recv_frame {| inbox := outbox w ++ [7]; outbox := [] |} (λ w' r',
      r' = Ok [123; 125] ∧ inbox w' = [7])).
Proof. apply (frame_roundtrip [123; 125] [7]). simpl. lia. Defined.

(** *** The clients that are not root *)

(** What a client has been sent, and whether anything was done for it. *)
Record ClientWorld := {
  cl_out : list Z;
  cl_acted : bool;
}.

Definition client_step (uid : Z) : ∀ X, CtlOp X → ClientWorld → X → ClientWorld → Prop :=
  λ X e, match e in CtlOp X return ClientWorld → X → ClientWorld → Prop with
  | PeerUid => λ w x w', x = Ok uid ∧ w' = w
  | WriteAll bytes => λ w x w', ∃ k, (x = Ok tt → length bytes ≤ k)%nat ∧
      w' = {| cl_out := cl_out w ++ take k bytes; cl_acted := cl_acted w |}
  | _ => λ w _ w', cl_acted w' = true
  end.

(** A write that succeeds is whole, one that fails is cut: what is sent of a frame is a
    prefix of it. *)
Lemma send_frame_client uid payload w :
  Z.of_nat (length payload) < 4294967296 →
  wp (client_step uid) (send_frame payload) w (λ w' _,
    cl_acted w' = cl_acted w ∧ ∃ k, cl_out w' = cl_out w ++ take k (frame payload)).
Proof.
  intros Hl. unfold send_frame, frame, wrap_u32. rewrite Z.mod_small by lia.
  generalize (to_le_bytes (Z.of_nat (length payload))) as len. intros len.
  apply wp_try, wp_trigger. intros x w1 (k & Hk & ->). destruct x as [[]|e]; simpl.
  - intros x w2 (k' & _ & ->). simpl. split; [done|]. exists (length len + k')%nat.
    by rewrite take_app_add, (take_ge len k), <- app_assoc by auto.
  - split; [done|]. exists (k `min` length len)%nat. f_equal.
    rewrite take_app_le by lia. destruct (Nat.le_ge_cases k (length len)).
    + by rewrite Nat.min_l.
    + by rewrite Nat.min_r, !take_ge.
Qed.

(** C8: only root may use the control socket: for a client whose uid is not 0, nothing
    is read of its request, the manager is not touched, no signal is sent, no file
    written and no shutdown requested, whatever the client sends; all it can receive is
    (a prefix of) the frame of the refusal. *)
Theorem control_only_root SYS oc quota_us uptime from_slice to_vec fuel uid w :
  uid ≠ 0 → (∀ bytes, to_vec DENIED = Ok bytes → Z.of_nat (length bytes) < 4294967296) →
  wp (client_step uid) (handle_client SYS oc quota_us uptime from_slice to_vec fuel) w (λ w' _,
    cl_acted w' = cl_acted w ∧
    (cl_out w' = cl_out w ∨ ∃ bytes k, to_vec DENIED = Ok bytes ∧ cl_out w' = cl_out w ++ take k (frame bytes))).
Proof.
  intros Hu Hlen. unfold handle_client. apply wp_op. intros x w1 [-> ->].
  apply Z.eqb_neq in Hu. rewrite Hu. cbn [negb]. destruct (to_vec DENIED) as [bytes|e] eqn:Hv.
  - eapply wp_bind_2; [by apply send_frame_client, Hlen|]. intros w2 r [Ha (k & Hk)]. simpl.
    split; [done|]. right. by exists bytes, k.
  - simpl. auto.
Qed.

Lemma control_only_root_witness :
  let to_vec (r : CtlResponse) := Ok (if ok r then [1] else [0]) in
  wp (client_step 1000)
    (handle_client (λ _, 0) true (λ _, None) (λ _ _, 0) (λ _, Ok (Cmd_Shutdown true)) to_vec 10)
    {| cl_out := []; cl_acted := false |} (λ w' _, cl_acted w' = false ∧
      (cl_out w' = [] ∨ ∃ bytes k, to_vec DENIED = Ok bytes ∧ cl_out w' = [] ++ take k (frame bytes))).
Proof.
  intros to_vec.
  apply (control_only_root (λ _, 0) true (λ _, None) (λ _ _, 0) (λ _, Ok (Cmd_Shutdown true)) to_vec 10 1000
    {| cl_out := []; cl_acted := false |}); [lia|].
  intros bytes [= <-]. simpl. lia.
Defined.

(** *** The manager behind its lock *)

(** What a command may make of the manager: a manager in order stays in order, and no
    supervisor is lost. *)
Definition evolves (m m' : ServiceManager) : Prop :=
  (manager_ok m → manager_ok m') ∧ supervisors m `prefix_of` supervisors m'.

Lemma evolves_refl m : evolves m m.
Proof. done. Qed.

Lemma evolves_trans m1 m2 m3 : evolves m1 m2 → evolves m2 m3 → evolves m1 m3.
Proof. intros [H1 P1] [H2 P2]. split; [auto|by etrans]. Qed.

#[export] Instance evolves_preorder : PreOrder evolves.
Proof. split; [exact evolves_refl|exact evolves_trans]. Qed.

(** Until the lock is taken, other clients may have their commands carried out. *)
Definition shared_step : ∀ X, CtlOp X → ServiceManager → X → ServiceManager → Prop :=
  λ X e, match e in CtlOp X return ServiceManager → X → ServiceManager → Prop with
  | LockManager => λ w x w', evolves w w' ∧ (x = None ∨ x = Some w')
  | UnlockManager m => λ w x w', w' = m
  | _ => λ w _ w', w' = w
  end.

Lemma wp_mgr {A} (p : prog MgrOp A) m R :
  wp any_answer p tt (λ _ a, R a) → wp shared_step (mgr p) m (λ w a, w = m ∧ R a).
Proof. intros H. apply wp_lift. by eapply wp_still; [|exact H]. Qed.

(** Code that does not touch the lock. *)
Definition lock_free {A} (p : prog CtlOp A) : Prop := ∀ m, keeps shared_step (λ w, w = m) p.

Lemma mgr_lock_free {A} (p : prog MgrOp A) : lock_free (mgr p).
Proof.
  intros m w ->. eapply wp_mono; [|apply (wp_mgr p m (λ _, True)); by apply wp_true]. by intros w a [-> _].
Qed.

Lemma os_lock_free {A} (p : prog Os A) : lock_free (os p).
Proof.
  intros m w ->. apply wp_lift. revert m. induction p as [a|X e k IH]; intros m; simpl; [done|].
  intros x w' ->. apply IH.
Qed.

Lemma sysconf_lock_free n : lock_free (trigger (Sysconf n)).
Proof. intros m w ->. by intros x w' ->. Qed.

Lemma bind_lock_free {A B} (p : prog CtlOp A) (k : A → prog CtlOp B) :
  lock_free p → (∀ a, lock_free (k a)) → lock_free (prog_bind p k).
Proof. intros Hp Hk m. apply keeps_bind; [apply Hp|intros a; apply Hk]. Qed.

Lemma ret_lock_free {A} (a : A) : lock_free (Ret a).
Proof. intros m. apply keeps_ret. Qed.

Create HintDb lock_free.
#[local] Hint Resolve mgr_lock_free os_lock_free sysconf_lock_free ret_lock_free : lock_free.

Ltac lock_free :=
  repeat first [ progress (eauto with lock_free; fail) | apply bind_lock_free; [|intros ?] | case_match ];
  eauto with lock_free.

Lemma read_proc_file_lock_free pid field : lock_free (read_proc_file pid field).
Proof. unfold read_proc_file. lock_free. Qed.
Lemma read_proc_apparmor_lock_free pid : lock_free (read_proc_apparmor pid).
Proof. unfold read_proc_apparmor. lock_free. Qed.
Lemma read_log_lock_free service : lock_free (read_log service).
Proof. unfold read_log. lock_free. Qed.
#[local] Hint Resolve read_proc_file_lock_free read_proc_apparmor_lock_free read_log_lock_free : lock_free.

Lemma read_proc_rss_lock_free pid : lock_free (read_proc_rss_kb pid).
Proof. unfold read_proc_rss_kb. lock_free. Qed.
Lemma read_proc_uptime_lock_free uptime pid : lock_free (read_proc_uptime_sec uptime pid).
Proof. unfold read_proc_uptime_sec. lock_free. Qed.
Lemma statuses_lock_free m names : lock_free (statuses m names).
Proof. induction names; simpl; lock_free. Qed.
#[local] Hint Resolve read_proc_rss_lock_free read_proc_uptime_lock_free statuses_lock_free : lock_free.

Lemma status_data_lock_free uptime service pid running : lock_free (status_data uptime service pid running).
Proof. unfold status_data, read_log_tail. lock_free. Qed.
Lemma assay_process_lock_free pid running : lock_free (assay_process pid running).
Proof. unfold assay_process. lock_free. Qed.
#[local] Hint Resolve status_data_lock_free assay_process_lock_free : lock_free.

(** A command under the lock gives back an evolution of what it took. *)
Lemma with_manager_evolves k w :
  (∀ m, wp shared_step (k m) m (λ w r, w = m ∧ ∀ m' res, r = Some (m', res) → evolves m m')) →
  wp shared_step (with_manager k) w (λ w' _, evolves w w').
Proof.
  intros Hk. unfold with_manager. apply wp_op. intros guard w1 [Hw [-> | ->]]; [done|].
  unfold fuel_bind. eapply wp_bind_2; [apply Hk|]. intros w2 [[m' res]|] [-> Hm']; [|done].
  apply wp_op. intros [] w3 ->. simpl. transitivity w1; [done|]. by eapply Hm'.
Qed.

Lemma lock_free_evolves {A} (p : prog CtlOp A) w :
  lock_free p → wp shared_step p w (λ w' _, evolves w w').
Proof. intros Hp. eapply wp_mono; [|by apply (Hp w)]. by intros w' a ->. Qed.

Lemma with_status_evolves service k w :
  (∀ status, lock_free (k status)) → wp shared_step (with_status service k) w (λ w' _, evolves w w').
Proof.
  intros Hk. apply with_manager_evolves. intros m. eapply wp_bind_2; [by apply mgr_lock_free|].
  intros w1 status ->. eapply wp_bind_2; [by apply Hk|]. intros w2 r ->. simpl. split; [done|].
  by intros m' res [= <- <-].
Qed.

Lemma pure_evolves f w :
  (∀ m, evolves m (f m).1) →
  wp shared_step (with_manager (λ m, Ret (Some (f m)))) w (λ w' _, evolves w w').
Proof.
  intros Hf. apply with_manager_evolves. intros m. simpl. split; [done|]. intros m' res [= Hm].
  pose proof (Hf m) as He. by rewrite Hm in He.
Qed.

Section evolution.
Context (SYS : string → Z) (oc : bool) (quota_us : string → option Z) (uptime : option string → Z → Z).

Lemma start_named_evolves fuel m name :
  wp any_answer (start_named_service SYS oc quota_us fuel m name) tt
    (λ _ r, ∀ m' res, r = Some (m', res) → evolves m m').
Proof.
  eapply wp_mono; [|apply start_named_service_outcome]. intros w r Ho m' res Hr. specialize (Ho m' res Hr).
  destruct (find_supervisor m name) as [|] eqn:Hf; [by subst|].
  destruct (mg_catalog m !! name) as [svc|] eqn:Hs; [|by destruct Ho as [-> _]].
  destruct res; simpl in Ho; subst m'; [|done]. split; [|by apply prefix_app_r].
  intros Hm. apply push_supervisor_ok; [done|]. replace (svc_name svc) with name; [done|].
  symmetry. by apply Hm.
Qed.

Lemma add_dep_evolves m from to dep_type : evolves m (add_dep m from to dep_type).
Proof. split; [apply add_dep_ok|]. unfold add_dep. by destruct (_ !! _). Qed.

Lemma rm_dep_evolves m from to : evolves m (rm_dep m from to).
Proof. split; [apply rm_dep_ok|]. unfold rm_dep. by destruct (_ !! _). Qed.

Lemma on_start_evolves fuel service w :
  wp shared_step (on_start SYS oc quota_us fuel service) w (λ w' _, evolves w w').
Proof.
  apply with_manager_evolves. intros m. unfold fuel_bind.
  eapply wp_bind_2; [apply wp_mgr, start_named_evolves|].
  intros w1 [[m1 res1]|] [-> He]; simpl; (split; [done|]); [|done].
  intros m' res [= <- _]. by eapply He.
Qed.

Lemma on_restart_evolves fuel service w :
  wp shared_step (on_restart SYS oc quota_us fuel service) w (λ w' _, evolves w w').
Proof.
  apply with_manager_evolves. intros m. unfold fuel_bind.
  eapply wp_bind_2; [by apply mgr_lock_free|]. intros w1 [r|] ->; simpl; [|done].
  eapply wp_bind_2; [apply wp_mgr, start_named_evolves|].
  intros w1 [[m1 res1]|] [-> He]; simpl; (split; [done|]); [|done].
  intros m' res [= <- _]. by eapply He.
Qed.

(** A command that keeps the manager it took. *)
Lemma reading_evolves {A} (p : ServiceManager → prog CtlOp (option A)) (f : ServiceManager → A → CtlResponse) w :
  (∀ m, lock_free (p m)) →
  wp shared_step (with_manager (λ m, fuel* a := p m in Ret (Some (m, f m a)))) w (λ w' _, evolves w w').
Proof.
  intros Hp. apply with_manager_evolves. intros m. unfold fuel_bind.
  eapply wp_bind_2; [by apply Hp|]. intros w1 [a|] ->; simpl; (split; [done|]); [|done].
  by intros m' res [= <- _].
Qed.

Lemma reading_evolves' {A} (p : ServiceManager → prog CtlOp A) (f : ServiceManager → A → CtlResponse) w :
  (∀ m, lock_free (p m)) →
  wp shared_step (with_manager (λ m, let* a := p m in Ret (Some (m, f m a)))) w (λ w' _, evolves w w').
Proof.
  intros Hp. apply with_manager_evolves. intros m.
  eapply wp_bind_2; [by apply Hp|]. intros w1 a ->; simpl; (split; [done|]).
  by intros m' res [= <- _].
Qed.

Lemma on_assay_evolves service w : wp shared_step (on_assay service) w (λ w' _, evolves w w').
Proof.
  unfold on_assay. apply wp_op. intros guard w1 [Hw [-> | ->]]; [done|].
  eapply wp_bind_2; [by apply mgr_lock_free|]. intros w2 status ->.
  apply wp_op. intros [] w3 ->. eapply wp_mono; [|apply lock_free_evolves].
  - intros w4 r He. by transitivity w1.
  - unfold count_log_errors. lock_free.
Qed.

(** C22: the control socket keeps the manager in order: whatever command is carried out,
    whatever the system answers, and whatever other clients did while this one waited
    for the lock, the manager that is put back is in order (one supervisor for a name,
    cells of its own, a keyed catalog) if it was before, and still has every supervisor
    in its place. *)
Theorem control_keeps_manager fuel cmd w :
  wp shared_step (dispatch SYS oc quota_us uptime fuel cmd) w (λ w' _, evolves w w').
Proof.
  destruct cmd; cbn [dispatch]; unfold returned;
    try (by apply lock_free_evolves; unfold on_enable, on_disable, on_metrics, on_isolate; lock_free).
  - apply on_start_evolves.
  - apply (reading_evolves (λ m, mgr (stop_named_service fuel m service))). intros. apply mgr_lock_free.
  - apply on_restart_evolves.
  - apply (reading_evolves' (λ m, mgr (reload_named_service m service))). intros. apply mgr_lock_free.
  - apply with_status_evolves. intros. lock_free.
  - apply with_status_evolves. intros. lock_free.
  - apply on_assay_evolves.
  - apply (reading_evolves' (λ m, statuses m (get_service_names m))). intros. lock_free.
  - apply (reading_evolves' (λ m, statuses m (get_service_names m))). intros. lock_free.
  - unfold on_shutdown. intros [] w1 ->. simpl. done.
  - apply with_status_evolves. intros. lock_free.
  - apply with_status_evolves. intros. lock_free.
  - apply with_status_evolves. intros. lock_free.
  - apply pure_evolves. intros m. by destruct value.
  - apply pure_evolves. intros m. apply add_dep_evolves.
  - apply pure_evolves. intros m. apply rm_dep_evolves.
Qed.
End evolution.
