(* ===== verification/KillSafety.v ===== *)
(** * Who is signalled

    PID 1 may signal every process: [kill(-1, ..)] and [kill(0, ..)] would take the
    system down.  No command of the control socket does it: every [kill] of starting,
    stopping and reloading a service and of the commands themselves is sent to a
    positive pid, whatever the pid cells, the pid files and the other files hold,
    except for the [cgroup.procs] files of the kernel, which list pids. *)

From Stdlib Require Import ZArith Ascii.
From stdpp Require Import base tactics numbers list strings gmap.
From S2P Require Import Prelude RustStr Types Effects Os IpFilter Cgroup Notify SocketActivation Helpers.
From S2P Require Import Stop Spawn Start Timer Catalog Manager Control.

Local Open Scope string_scope.
Local Open Scope list_scope.
Local Open Scope Z_scope.
Local Open Scope prog_scope.

(** The pids of a [cgroup.procs] file. *)
Definition pids_of (content : string) : list Z := omap (λ line, parse_i32 (trim line)) (lines content).

(** The world is the pids that were signalled. *)
Definition kill_step : ∀ X, Os X → list Z → X → list Z → Prop :=
  λ X e, match e in Os X return list Z → X → list Z → Prop with
  | Kill pid _ => λ w _ w', w' = w ++ [pid]
  | ReadToString path => λ w x w', w' = w ∧
      ((∃ dir, path = dir +:+ "/cgroup.procs") → 
         ∀ content, x = Ok content → Forall (λ pid, 0 < pid) (pids_of content))
  | _ => λ w _ w', w' = w
  end.

Definition only_processes (w : list Z) : Prop := Forall (λ pid, 0 < pid) w.
Notation harmless := (keeps kill_step only_processes).

Lemma harmless_op {X} (e : Os X) : match e with Kill _ _ => False | _ => True end → harmless (trigger e).
Proof. intros He. apply keeps_trigger. intros w x w' Hw. destruct e; simpl; try done; naive_solver. Qed.

Create HintDb harmless.

(** Goes through a program; what it calls is in the hints. *)
Ltac harmless := cbv zeta; repeat first
  [ solve [eauto with harmless] | apply keeps_ret | apply keeps_bind; [|intros ?]
  | apply keeps_for_each; intros ? | apply keeps_for_break; intros ?
  | apply keeps_loop; intros ? | apply keeps_loop_fuel; intros ?
  | case_match | apply harmless_op; exact I ].

(** ** Starting *)

Lemma all_paths_harmless b l : harmless (all_paths b l).
Proof. induction l; cbn [all_paths]; harmless. Qed.

Lemma resolve_credentials_harmless svc : harmless (resolve_credentials svc).
Proof. unfold resolve_credentials, transpose, lookup_uid, lookup_gid, try_bind. harmless. Qed.

Lemma assign_harmless n p : harmless (assign_pid_to_cgroup n p).
Proof. unfold assign_pid_to_cgroup, is_cgroup_v2. harmless. Qed.

Lemma ip_filter_harmless n d a : harmless (apply_ip_filter n d a).
Proof. unfold apply_ip_filter, attach_bpf_ip_filter, try_bind. harmless. Qed.

Lemma log_pipe_harmless svc : harmless (log_pipe svc).
Proof. unfold log_pipe, create_service_logger, try_bind. harmless. Qed.

Lemma env_from_file_harmless svc : harmless (env_from_file svc).
Proof. unfold env_from_file, load_env_file, try_bind. harmless. Qed.

Lemma notify_server_harmless svc : harmless (notify_server svc).
Proof. unfold notify_server, NotifyServer_new, try_bind. harmless. Qed.

Lemma open_listen_harmless n s : harmless (open_listen n s).
Proof. unfold open_listen, new_unix_stream, new_tcp, try_bind. harmless. Qed.

Lemma drop_sockets_harmless l : harmless (drop_sockets l).
Proof. unfold drop_sockets. harmless. Qed.

Lemma drop_notify_harmless ns : harmless (drop_notify ns).
Proof. unfold drop_notify, when_some, NotifyServer_drop. harmless. Qed.

Lemma fork_harmless cfg : harmless (start_service_as cfg).
Proof. unfold start_service_as. harmless. Qed.

Lemma wait_for_exit_harmless f pid : harmless (wait_for_exit f pid).
Proof. unfold wait_for_exit, proc_exists. harmless. Qed.

#[export] Hint Resolve all_paths_harmless resolve_credentials_harmless assign_harmless ip_filter_harmless
  log_pipe_harmless env_from_file_harmless notify_server_harmless open_listen_harmless
  drop_sockets_harmless drop_notify_harmless fork_harmless wait_for_exit_harmless : harmless.

Lemma activation_sockets_harmless n l : harmless (activation_sockets n l).
Proof. induction l; cbn [activation_sockets]; harmless. Qed.

Lemma setup_cgroup_harmless q svc : harmless (setup_cgroup q svc).
Proof.
  unfold setup_cgroup, when_some, ignore, create_service_cgroup, apply_cpu_quota, apply_tasks_max,
    apply_memory_swap_max, apply_io_device_weight, apply_io_device_latency, write_limit,
    get_device_major_minor, try_bind, is_cgroup_v2. harmless.
Qed.

Lemma await_ready_socket_harmless f svc : harmless (await_ready_socket f svc).
Proof.
  unfold await_ready_socket, wait_for_path, create_socket_alias, fuel_bind, try_bind. harmless.
Qed.

Lemma await_daemon_harmless f svc : harmless (await_daemon f svc).
Proof. unfold await_daemon, wait_for_pid_file, fuel_bind, ignore. harmless. Qed.

Lemma await_notify_harmless f svc ns : harmless (await_notify f svc ns).
Proof. unfold await_notify, wait_for_ready, recv_turn, fuel_bind, NotifyServer_drop. harmless. Qed.

#[export] Hint Resolve activation_sockets_harmless setup_cgroup_harmless await_ready_socket_harmless
  await_daemon_harmless await_notify_harmless : harmless.

Lemma after_fork_harmless f svc p ns sockets : harmless (after_fork f svc p ns sockets).
Proof.
  unfold after_fork, spawn_monitor, spawn_watchers, exec_start_post, when_some, ignore, fuel_bind.
  harmless.
Qed.
#[export] Hint Resolve after_fork_harmless : harmless.

Lemma launch_service_harmless SYS f svc u g : harmless (launch_service SYS f svc u g).
Proof. unfold launch_service, when_some. harmless. Qed.
#[export] Hint Resolve launch_service_harmless : harmless.

Lemma start_harmless SYS oc q f svc : harmless (start SYS oc q f svc).
Proof. unfold start, conditions_met, exec_start_pre, start_credentials, ignore. harmless. Qed.

(** ** Stopping and reloading *)

Lemma kill_harmless pid sig : 0 < pid → harmless (trigger (Kill pid sig)).
Proof.
  intros Hp. apply keeps_trigger. intros w x w' Hw ->. apply Forall_app. split; [done|]. by constructor.
Qed.

Lemma run_with_timeout_harmless f cmd args t : harmless (run_with_timeout f cmd args t).
Proof. unfold run_with_timeout. harmless. Qed.

Lemma poll_exit_harmless f p d pid : harmless (poll_exit f p d pid).
Proof. unfold poll_exit, proc_exists. harmless. Qed.

Lemma run_exec_stop_post_harmless svc : harmless (run_exec_stop_post svc).
Proof. unfold run_exec_stop_post. harmless. Qed.

Lemma await_kill_harmless k pid : harmless (await_kill k pid).
Proof. induction k; cbn [await_kill]; unfold proc_exists; harmless. Qed.

#[export] Hint Resolve kill_harmless run_with_timeout_harmless poll_exit_harmless
  run_exec_stop_post_harmless await_kill_harmless : harmless.

Lemma kill_cgroup_procs_harmless svc sig : harmless (kill_cgroup_procs svc sig).
Proof.
  unfold kill_cgroup_procs. intros w Hw. apply wp_op. intros x w1 [-> Hx].
  destruct x as [content|e]; [|done]. specialize (λ H, Hx H content eq_refl) as Hp.
  assert (Forall (λ pid, 0 < pid) (pids_of content)) as Hpids.
  { apply Hp. exists ("/sys/fs/cgroup/quantra-system/" +:+ svc_name svc). by rewrite string_app_assoc. }
  apply wp_for_each_inv; [|done]. intros line w2 Hl Hw2.
  destruct (parse_i32 (trim line)) as [pid|] eqn:Hq; [|done].
  eapply wp_keeps_bind; [apply kill_harmless|done|done].
  eapply Forall_forall in Hpids; [exact Hpids|]. apply list_elem_of_omap. by exists line.
Qed.
#[export] Hint Resolve kill_cgroup_procs_harmless : harmless.

Lemma kill_service_cgroup_harmless name : harmless (kill_service_cgroup name).
Proof. unfold kill_service_cgroup, is_cgroup_v2. harmless. Qed.

Lemma stop_watchdog_harmless f svc pid : 0 < pid → harmless (stop_watchdog f svc pid).
Proof. intros. unfold stop_watchdog. harmless. Qed.

Lemma stop_command_harmless f svc pid : harmless (stop_command f svc pid).
Proof. unfold stop_command, fuel_bind, proc_exists. harmless. Qed.

#[export] Hint Resolve kill_service_cgroup_harmless stop_watchdog_harmless stop_command_harmless : harmless.

Lemma stop_by_force_harmless svc pid : 0 < pid → harmless (stop_by_force svc pid).
Proof. intros. unfold stop_by_force, remove_service_cgroup, is_cgroup_v2. harmless. Qed.
#[export] Hint Resolve stop_by_force_harmless : harmless.

Lemma stop_harmless f svc : harmless (stop f svc).
Proof.
  unfold stop, stopped, fuel_bind. do 2 (apply keeps_bind; [by apply harmless_op|intros ?]).
  case_match eqn:Hp; [harmless|]. apply Z.leb_gt in Hp. harmless.
Qed.

Lemma reload_harmless svc : harmless (reload svc).
Proof.
  unfold reload. apply keeps_bind; [by apply harmless_op|]. intros pid.
  destruct (Z.leb_spec pid 0); harmless.
Qed.
#[export] Hint Resolve start_harmless stop_harmless reload_harmless : harmless.

(** ** The manager and the control socket *)

Definition mgr_kill_step : ∀ X, MgrOp X → list Z → X → list Z → Prop :=
  λ X e, match e with Own e | Of _ e => kill_step X e end.

Definition ctl_kill_step : ∀ X, CtlOp X → list Z → X → list Z → Prop :=
  λ X e, match e in CtlOp X return list Z → X → list Z → Prop with
  | Mgr e => mgr_kill_step _ e
  | _ => λ w _ w', w' = w
  end.

Notation mgr_harmless := (keeps mgr_kill_step only_processes).
Notation ctl_harmless := (keeps ctl_kill_step only_processes).

Lemma on_harmless {A} i (p : prog Os A) : harmless p → mgr_harmless (on i p).
Proof. intros Hp w Hw. apply wp_lift. by apply Hp. Qed.

Lemma mgr_ctl_harmless {A} (p : prog MgrOp A) : mgr_harmless p → ctl_harmless (mgr p).
Proof. intros Hp w Hw. apply wp_lift. by apply Hp. Qed.

Lemma os_harmless {A} (p : prog Os A) : harmless p → ctl_harmless (os p).
Proof. intros Hp w Hw. apply wp_lift. by apply Hp. Qed.

Lemma own_op_harmless {X} (e : Os X) :
  match e with Kill _ _ => False | _ => True end →
  mgr_harmless (trigger (Own e)) ∧ ∀ i, mgr_harmless (trigger (Of i e)).
Proof. intros He. split; [|intros i]; exact (harmless_op e He). Qed.

Ltac mgr_harmless := cbv zeta; repeat first
  [ apply keeps_ret | apply keeps_bind; [|intros ?] | apply on_harmless; solve [eauto with harmless]
  | case_match | apply own_op_harmless; exact I ].

Section commands.
Context (SYS : string → Z) (oc : bool) (quota_us : string → option Z) (uptime : option string → Z → Z).

Lemma start_named_harmless fuel m name : mgr_harmless (start_named_service SYS oc quota_us fuel m name).
Proof. unfold start_named_service, start_new, new_supervisor, sup_start, fuel_bind. mgr_harmless. Qed.

Lemma stop_named_harmless fuel m name : mgr_harmless (stop_named_service fuel m name).
Proof. unfold stop_named_service, fuel_bind. mgr_harmless. Qed.

Lemma reload_named_harmless m name : mgr_harmless (reload_named_service m name).
Proof. unfold reload_named_service, try_bind. mgr_harmless. Qed.

Lemma get_service_status_harmless m name : mgr_harmless (get_service_status m name).
Proof. unfold get_service_status. mgr_harmless. Qed.
End commands.

#[export] Hint Resolve mgr_ctl_harmless os_harmless start_named_harmless stop_named_harmless
  reload_named_harmless get_service_status_harmless harmless_op : harmless.

Lemma ctl_op_harmless {X} (e : CtlOp X) :
  match e with Mgr _ => False | _ => True end → ctl_harmless (trigger e).
Proof. intros He. apply keeps_trigger. intros w x w' Hw. destruct e; try done; simpl; by intros ->. Qed.

Ltac ctl_harmless := cbv zeta; repeat first
  [ apply keeps_ret | apply keeps_bind; [|intros ?]
  | solve [eauto with harmless] | case_match | apply ctl_op_harmless; exact I
  | apply os_harmless, harmless_op; exact I ].

Lemma with_manager_harmless k :
  (∀ m, ctl_harmless (k m)) → ctl_harmless (with_manager k).
Proof. intros Hk. unfold with_manager, fuel_bind. ctl_harmless; apply Hk. Qed.

Lemma with_status_harmless service k :
  (∀ status, ctl_harmless (k status)) → ctl_harmless (with_status service k).
Proof. intros Hk. apply with_manager_harmless. intros m. ctl_harmless. Qed.

Lemma statuses_harmless m names : ctl_harmless (statuses m names).
Proof. induction names; cbn [statuses]; ctl_harmless. Qed.
#[export] Hint Resolve statuses_harmless : harmless.

Lemma returned_harmless {A} (p : prog CtlOp A) : ctl_harmless p → ctl_harmless (returned p).
Proof. intros. unfold returned. ctl_harmless. Qed.

Section theorem.
Context (SYS : string → Z) (oc : bool) (quota_us : string → option Z) (uptime : option string → Z → Z).

Lemma status_data_harmless service pid running : ctl_harmless (status_data uptime service pid running).
Proof.
  unfold status_data, read_log_tail, read_log, read_proc_rss_kb, read_proc_uptime_sec,
    read_proc_apparmor, read_proc_file. ctl_harmless.
Qed.

Lemma on_assay_harmless service : ctl_harmless (on_assay service).
Proof.
  unfold on_assay, assay_process, count_log_errors, read_log, read_proc_rss_kb, read_proc_apparmor,
    read_proc_file. ctl_harmless.
Qed.

Lemma on_kill_harmless service : ctl_harmless (on_kill service).
Proof.
  apply with_status_harmless. intros [[pid running]|]; [|apply keeps_ret].
  destruct (Z.ltb_spec 0 pid); [|apply keeps_ret]. ctl_harmless.
Qed.

Lemma on_signal_harmless service sig : ctl_harmless (on_signal service sig).
Proof.
  apply with_status_harmless. intros [[pid running]|]; [|apply keeps_ret].
  destruct (Z.ltb_spec 0 pid); [|apply keeps_ret]. ctl_harmless.
Qed.

#[local] Hint Resolve status_data_harmless on_assay_harmless on_kill_harmless on_signal_harmless : harmless.

(** C7: no command signals more than a process: whatever command a client sends and
    whatever the system answers (cells, pid files and other files included, with
    [cgroup.procs] listing processes), every pid that is signalled while it is carried
    out is positive; in particular never [kill(0, ..)] or [kill(-1, ..)]. *)
Theorem commands_signal_processes fuel cmd w :
  Forall (λ pid, 0 < pid) w →
  wp ctl_kill_step (dispatch SYS oc quota_us uptime fuel cmd) w (λ w' _, Forall (λ pid, 0 < pid) w').
Proof.
  revert w. change (ctl_harmless (dispatch SYS oc quota_us uptime fuel cmd)).
  destruct cmd; cbn [dispatch]; try (solve [eauto with harmless]); try (apply returned_harmless);
    unfold on_start, on_stop, on_restart, on_reload, on_enable, on_disable, on_status, on_tree, on_list,
      on_metrics, on_isolate, on_shutdown, on_is_started, on_is_failed, on_setenv, on_add_dep, on_rm_dep,
      fuel_bind;
    repeat first [ apply with_status_harmless; intros ? | apply with_manager_harmless; intros ? ];
    ctl_harmless.
Qed.

End theorem.

Lemma commands_signal_processes_witness :
  wp ctl_kill_step (dispatch (λ _, 0) true (λ _, None) (λ _ _, 0) 10 (Cmd_Kill "web")) []
    (λ w' _, Forall (λ pid, 0 < pid) w').
Proof.
  apply (commands_signal_processes (λ _, 0) true (λ _, None) (λ _ _, 0) 10 (Cmd_Kill "web") []). constructor.
Defined.
