(* ===== verification/Dhcp.v ===== *)
(** * The DHCP client

    [quantra-net/quantra-netd/src/dhcp.rs]: the packets, the parser of replies, the
    handshake DISCOVER, OFFER, REQUEST, ACK, the stored leases, renewal and release.
    The socket, the clock, the link and route operations of the kernel, the stored
    leases and the spawning of the renewal task are operations. *)

From Stdlib Require Import ZArith Ascii.
From stdpp Require Import base tactics numbers list strings gmap.
From S2P Require Import Prelude RustStr Effects.

Local Open Scope string_scope.
Local Open Scope list_scope.
Local Open Scope Z_scope.
Local Open Scope quantra_scope.
Local Open Scope prog_scope.

(** ** Protocol constants *)

Definition DHCP_SERVER_PORT : Z := 67.
Definition OP_REQUEST : Z := 1.
Definition OP_REPLY : Z := 2.
Definition HTYPE_ETHERNET : Z := 1.
Definition HLEN_ETHERNET : Z := 6.
Definition FLAGS_BROADCAST : Z := 32768.

Definition OPT_SUBNET_MASK : Z := 1.
Definition OPT_ROUTER : Z := 3.
Definition OPT_DNS : Z := 6.
Definition OPT_REQUESTED_IP : Z := 50.
Definition OPT_LEASE_TIME : Z := 51.
Definition OPT_MSG_TYPE : Z := 53.
Definition OPT_SERVER_ID : Z := 54.
Definition OPT_PARAM_LIST : Z := 55.
Definition OPT_CLIENT_ID : Z := 61.
Definition OPT_END : Z := 255.
Definition OPT_PAD : Z := 0.

Definition MSG_DISCOVER : Z := 1.
Definition MSG_OFFER : Z := 2.
Definition MSG_REQUEST : Z := 3.
Definition MSG_ACK : Z := 5.
Definition MSG_NAK : Z := 6.
Definition MSG_RELEASE : Z := 7.

Definition MAGIC_COOKIE : list Z := [99; 130; 83; 99].

(** In seconds. *)
Definition DISCOVER_TIMEOUT : Z := 10.
Definition REQUEST_TIMEOUT : Z := 10.
Definition RENEW_TIMEOUT : Z := 30.
Definition MAX_RETRIES : nat := 3.

(** ** Addresses and numbers *)

(** [Ipv4Addr]: four octets. *)
Record Ipv4Addr := Ip { oct1 : Z; oct2 : Z; oct3 : Z; oct4 : Z }.

#[export] Instance Ipv4Addr_eq_dec : EqDecision Ipv4Addr.
Proof. solve_decision. Defined.

Definition octets (ip : Ipv4Addr) : list Z := [oct1 ip; oct2 ip; oct3 ip; oct4 ip].

Definition show_ip (ip : Ipv4Addr) : string := join "." (show_uint <$> octets ip).

Definition BROADCAST : Ipv4Addr := Ip 255 255 255 255.

(** [to_be_bytes] and [from_be_bytes] of a [u32]. *)
Definition be_bytes (v : Z) : list Z :=
  [v / 16777216 mod 256; v / 65536 mod 256; v / 256 mod 256; v mod 256].

Definition from_be (a b c d : Z) : Z := a * 16777216 + b * 65536 + c * 256 + d.

Definition count_ones (v : Z) : Z :=
  Z.of_nat (length (filter (λ i, Z.testbit v (Z.of_nat i) = true) (seq 0 32))).

(** ** Packets *)

Record DhcpPacket := {
  buf : list Z;
  xid : Z;
}.

Definition set_buf (p : DhcpPacket) (b : list Z) : DhcpPacket := {| buf := b; xid := xid p |}.

Definition DhcpPacket_new (xid : Z) : DhcpPacket :=
  {| buf := replicate 236 0 ++ MAGIC_COOKIE; xid := xid |}.

(** [buf[i..].copy_from_slice(bytes)]: the headers are inside the 240 bytes. *)
Definition set_header (op : Z) (mac : list Z) (p : DhcpPacket) : DhcpPacket :=
  let b := <[0%nat := op]> (buf p) in
  let b := <[1%nat := HTYPE_ETHERNET]> b in
  let b := <[2%nat := HLEN_ETHERNET]> b in
  let b := <[3%nat := 0]> b in
  let b := list_inserts 4 (be_bytes (xid p)) b in
  let b := list_inserts 10 [FLAGS_BROADCAST / 256; FLAGS_BROADCAST mod 256] b in
  set_buf p (list_inserts 28 mac b).

Definition set_ciaddr (ip : Ipv4Addr) (p : DhcpPacket) : DhcpPacket :=
  set_buf p (list_inserts 12 (octets ip) (buf p)).

Definition push_opt (code : Z) (data : list Z) (p : DhcpPacket) : DhcpPacket :=
  set_buf p (buf p ++ code :: wrap_u8 (Z.of_nat (length data)) :: data).

Definition push_opt_byte (code val : Z) : DhcpPacket → DhcpPacket := push_opt code [val].
Definition push_opt_ip (code : Z) (ip : Ipv4Addr) : DhcpPacket → DhcpPacket := push_opt code (octets ip).

(** The end mark, and zeros up to 300 bytes. *)
Definition finish (p : DhcpPacket) : DhcpPacket :=
  let b := buf p ++ [OPT_END] in
  set_buf p (b ++ replicate (300 - length b) OPT_PAD).

Definition param_list : list Z := [OPT_SUBNET_MASK; OPT_ROUTER; OPT_DNS; OPT_LEASE_TIME].

Definition discover (xid : Z) (mac : list Z) : DhcpPacket :=
  let p := set_header OP_REQUEST mac (DhcpPacket_new xid) in
  let p := push_opt_byte OPT_MSG_TYPE MSG_DISCOVER p in
  let p := push_opt OPT_CLIENT_ID (HTYPE_ETHERNET :: mac) p in
  let p := push_opt OPT_PARAM_LIST param_list p in
  finish p.

Definition request (xid : Z) (mac : list Z) (requested_ip server_id : Ipv4Addr) (is_renewal : bool)
    : DhcpPacket :=
  let p := set_header OP_REQUEST mac (DhcpPacket_new xid) in
  let p := if is_renewal then set_ciaddr requested_ip p else p in
  let p := push_opt_byte OPT_MSG_TYPE MSG_REQUEST p in
  let p := if is_renewal then p
           else push_opt_ip OPT_SERVER_ID server_id (push_opt_ip OPT_REQUESTED_IP requested_ip p) in
  let p := push_opt OPT_CLIENT_ID (HTYPE_ETHERNET :: mac) p in
  let p := push_opt OPT_PARAM_LIST param_list p in
  finish p.

Definition release (xid : Z) (mac : list Z) (client_ip server_id : Ipv4Addr) : DhcpPacket :=
  let p := set_header OP_REQUEST mac (DhcpPacket_new xid) in
  let p := set_ciaddr client_ip p in
  let p := push_opt_byte OPT_MSG_TYPE MSG_RELEASE p in
  let p := push_opt_ip OPT_SERVER_ID server_id p in
  finish p.

(** ** Replies *)

Record DhcpReply := {
  msg_type : Z;
  your_ip : Ipv4Addr;
  server_ip : Ipv4Addr;
  server_id : Ipv4Addr;
  subnet_mask : Ipv4Addr;
  gateway : option Ipv4Addr;
  dns : list Ipv4Addr;
  lease_secs : Z;
  reply_xid : Z;
}.

(** The address at an offset; [None] is the panic of an index out of range. *)
Definition ip_at (b : list Z) (i : nat) : option Ipv4Addr :=
  a1 ← b !! i; a2 ← b !! (i + 1)%nat; a3 ← b !! (i + 2)%nat; a4 ← b !! (i + 3)%nat;
  Some (Ip a1 a2 a3 a4).

(** [while j + 4 <= len]: the addresses of the DNS option. *)
Fixpoint dns_loop (fuel : nat) (data : list Z) (j : nat) (acc : list Ipv4Addr)
    : option (list Ipv4Addr) :=
  match fuel with
  | O => Some acc
  | S fuel =>
      if (j + 4 <=? length data)%nat then
        ip ← ip_at data j; dns_loop fuel data (j + 4) (acc ++ [ip])
      else Some acc
  end.

(** [match code]: the options that count, when they are long enough. *)
Definition apply_option (code : Z) (data : list Z) (r : DhcpReply) : option DhcpReply :=
  let len := length data in
  let with_ip k := ip ← ip_at data 0; Some (k ip) in
  if (code =? OPT_MSG_TYPE) && (1 <=? len)%nat then
    t ← data !! 0%nat;
    Some {| msg_type := t; your_ip := your_ip r; server_ip := server_ip r; server_id := server_id r;
            subnet_mask := subnet_mask r; gateway := gateway r; dns := dns r;
            lease_secs := lease_secs r; reply_xid := reply_xid r |}
  else if (code =? OPT_SUBNET_MASK) && (4 <=? len)%nat then
    with_ip (λ ip, {| msg_type := msg_type r; your_ip := your_ip r; server_ip := server_ip r;
      server_id := server_id r; subnet_mask := ip; gateway := gateway r; dns := dns r;
      lease_secs := lease_secs r; reply_xid := reply_xid r |})
  else if (code =? OPT_ROUTER) && (4 <=? len)%nat then
    with_ip (λ ip, {| msg_type := msg_type r; your_ip := your_ip r; server_ip := server_ip r;
      server_id := server_id r; subnet_mask := subnet_mask r; gateway := Some ip; dns := dns r;
      lease_secs := lease_secs r; reply_xid := reply_xid r |})
  else if code =? OPT_DNS then
    servers ← dns_loop len data 0 (dns r);
    Some {| msg_type := msg_type r; your_ip := your_ip r; server_ip := server_ip r;
      server_id := server_id r; subnet_mask := subnet_mask r; gateway := gateway r; dns := servers;
      lease_secs := lease_secs r; reply_xid := reply_xid r |}
  else if (code =? OPT_LEASE_TIME) && (4 <=? len)%nat then
    with_ip (λ ip, {| msg_type := msg_type r; your_ip := your_ip r; server_ip := server_ip r;
      server_id := server_id r; subnet_mask := subnet_mask r; gateway := gateway r; dns := dns r;
      lease_secs := from_be (oct1 ip) (oct2 ip) (oct3 ip) (oct4 ip); reply_xid := reply_xid r |})
  else if (code =? OPT_SERVER_ID) && (4 <=? len)%nat then
    with_ip (λ ip, {| msg_type := msg_type r; your_ip := your_ip r; server_ip := server_ip r;
      server_id := ip; subnet_mask := subnet_mask r; gateway := gateway r; dns := dns r;
      lease_secs := lease_secs r; reply_xid := reply_xid r |})
  else Some r.

(** The option loop from offset [i] on; every turn moves on, so that the length of the
    buffer is enough fuel. *)
Fixpoint parse_options (fuel : nat) (b : list Z) (i : nat) (r : DhcpReply) : option DhcpReply :=
  match fuel with
  | O => Some r
  | S fuel =>
      if (i <? length b)%nat then
        code ← b !! i;
        let i := S i in
        if code =? OPT_END then Some r
        else if code =? OPT_PAD then parse_options fuel b i r
        else if (length b <=? i)%nat then Some r
        else
          len ← b !! i;
          let i := S i in
          let len := Z.to_nat len in
          if (length b <? i + len)%nat then Some r
          else
            r ← apply_option code (take len (drop i b)) r;
            parse_options fuel b (i + len) r
      else Some r
  end.

(** The outer [None] is a panic. *)
Definition parse_reply (b : list Z) : option (option DhcpReply) :=
  if (length b <? 240)%nat then Some None
  else
    op ← b !! 0%nat;
    if negb (op =? OP_REPLY) then Some None
    else if negb (bool_decide (take 4 (drop 236 b) = MAGIC_COOKIE)) then Some None
    else
      x ← ip_at b 4; yiaddr ← ip_at b 16; siaddr ← ip_at b 20;
      r ← parse_options (length b) b 240
        {| msg_type := 0; your_ip := yiaddr; server_ip := siaddr; server_id := siaddr;
           subnet_mask := Ip 255 255 255 0; gateway := None; dns := []; lease_secs := 86400;
           reply_xid := from_be (oct1 x) (oct2 x) (oct3 x) (oct4 x) |};
      Some (if msg_type r =? 0 then None else Some r).

(** ** The parser *)

Lemma ip_at_Some (b : list Z) i : (i + 4 <= length b)%nat → is_Some (ip_at b i).
Proof.
  intros Hl. unfold ip_at.
  destruct (lookup_lt_is_Some_2 b i) as [a1 ->]; [lia|].
  destruct (lookup_lt_is_Some_2 b (i + 1)) as [a2 ->]; [lia|].
  destruct (lookup_lt_is_Some_2 b (i + 2)) as [a3 ->]; [lia|].
  destruct (lookup_lt_is_Some_2 b (i + 3)) as [a4 ->]; [lia|]. by eexists.
Qed.

Lemma dns_loop_Some fuel (data : list Z) j acc : is_Some (dns_loop fuel data j acc).
Proof.
  revert j acc. induction fuel as [|fuel IH]; intros j acc; simpl; [by eexists|].
  destruct (Nat.leb_spec (j + 4) (length data)); [|by eexists].
  destruct (ip_at_Some data j) as [ip ->]; [lia|]. apply IH.
Qed.

Lemma apply_option_Some code (data : list Z) r : is_Some (apply_option code data r).
Proof.
  unfold apply_option. destruct (data) as [|a1 l1] eqn:Hd.
  { simpl. rewrite !andb_false_r. case_match; by eexists. }
  rewrite <- Hd. assert (∀ c, (c && (4 <=? length data)%nat) = true → is_Some (ip_at data 0)) as Hip.
  { intros c [_ H%Nat.leb_le]%andb_true_iff. apply ip_at_Some. lia. }
  destruct (dns_loop_Some (length data) data 0 (dns r)) as [servers Hs]. rewrite Hs. clear Hs.
  repeat match goal with
  | |- context [if ?c then _ else _] => destruct c eqn:?
  end; try (by eexists).
  all: try (match goal with H : _ && (4 <=? _)%nat = true |- _ => destruct (Hip _ H) as [ip ->]; by eexists end).
  subst data. by eexists.
Qed.

(** The value of [apply_option]. *)
Definition reply_with (code : Z) (data : list Z) (r : DhcpReply) : DhcpReply :=
  default r (apply_option code data r).

Lemma apply_option_eq code data r : apply_option code data r = Some (reply_with code data r).
Proof. unfold reply_with. by destruct (apply_option_Some code data r) as [r' ->]. Qed.

Lemma parse_options_Some fuel b i r : is_Some (parse_options fuel b i r).
Proof.
  revert i r. induction fuel as [|fuel IH]; intros i r; [by eexists|]. cbn [parse_options].
  destruct (Nat.ltb_spec i (length b)); [|by eexists].
  destruct (lookup_lt_is_Some_2 b i) as [code ->]; [lia|]. cbn [mbind option_bind].
  destruct (code =? OPT_END); [by eexists|]. destruct (code =? OPT_PAD); [apply IH|].
  destruct (Nat.leb_spec (length b) (S i)); [by eexists|].
  destruct (lookup_lt_is_Some_2 b (S i)) as [len ->]; [lia|]. cbn [mbind option_bind].
  destruct (_ <? _)%nat; [by eexists|]. rewrite apply_option_eq. apply IH.
Qed.

Lemma parse_reply_Some b : is_Some (parse_reply b).
Proof.
  unfold parse_reply. destruct (Nat.ltb_spec (length b) 240); [by eexists|].
  destruct (lookup_lt_is_Some_2 b 0) as [op ->]; [lia|]. cbn [mbind option_bind].
  destruct (negb _); [by eexists|]. destruct (negb _); [by eexists|].
  destruct (ip_at_Some b 4) as [x ->]; [lia|]. destruct (ip_at_Some b 16) as [y ->]; [lia|].
  destruct (ip_at_Some b 20) as [s ->]; [lia|]. cbn [mbind option_bind].
  destruct (parse_options_Some (length b) b 240 {| msg_type := 0; your_ip := y; server_ip := s;
    server_id := s; subnet_mask := Ip 255 255 255 0; gateway := None; dns := []; lease_secs := 86400;
    reply_xid := from_be (oct1 x) (oct2 x) (oct3 x) (oct4 x) |}) as [r ->]. by eexists.
Qed.

(** Pads and options, as bytes. *)
Inductive Tlv := Pad | Opt (code : Z) (data : list Z).

Definition tlv_ok (t : Tlv) : Prop :=
  match t with
  | Pad => True
  | Opt code data => code ≠ OPT_END ∧ code ≠ OPT_PAD ∧ (length data <= 255)%nat
  end.

Definition tlv_bytes (t : Tlv) : list Z :=
  match t with
  | Pad => [OPT_PAD]
  | Opt code data => code :: Z.of_nat (length data) :: data
  end.

Definition tlv_effect (r : DhcpReply) (t : Tlv) : DhcpReply :=
  match t with Pad => r | Opt code data => reply_with code data r end.

(** What may follow the options: nothing, or the end mark and anything. *)
Definition tail_ok (tail : list Z) : Prop := tail = [] ∨ ∃ rest, tail = OPT_END :: rest.

Lemma parse_options_tlvs fuel pre ts tail r :
  Forall tlv_ok ts → tail_ok tail → (length (ts ≫= tlv_bytes) + length tail <= fuel)%nat →
  parse_options fuel (pre ++ (ts ≫= tlv_bytes) ++ tail) (length pre) r = Some (foldl tlv_effect r ts).
Proof.
  intros Hts Htail. revert pre r fuel. induction Hts as [|t ts Ht Hts IH]; intros pre r fuel Hf.
  - csimpl. destruct fuel as [|fuel]; [done|]. cbn [parse_options].
    destruct Htail as [->|[rest ->]].
    + by rewrite app_nil_r, Nat.ltb_irrefl.
    + rewrite length_app. cbn [length]. destruct (Nat.ltb_spec (length pre) (length pre + S (length rest))); [|lia].
      assert ((pre ++ OPT_END :: rest) !! length pre = Some OPT_END) as -> by by apply list_lookup_middle.
      done.
  - rewrite bind_cons in Hf. rewrite bind_cons, <- app_assoc, (app_assoc pre).
    destruct fuel as [|fuel]; [destruct t; simpl in Hf; lia|].
    destruct t as [|code data]; cbn [tlv_bytes] in *.
    + rewrite <- app_assoc. cbn [app]. set (b := pre ++ OPT_PAD :: _). cbn [parse_options].
      assert (b !! length pre = Some OPT_PAD) as Hb by by apply list_lookup_middle.
      destruct (Nat.ltb_spec (length pre) (length b)) as [_|H];
        [|apply lookup_ge_None_2 in H; congruence].
      rewrite Hb. cbn [mbind option_bind].
      change (OPT_PAD =? OPT_END) with false. change (OPT_PAD =? OPT_PAD) with true.
      cbn [foldl tlv_effect].
      specialize (IH (pre ++ [OPT_PAD]) r fuel). rewrite <- app_assoc, length_app, Nat.add_1_r in IH.
      apply IH. simpl in Hf. lia.
    + destruct Ht as (He & Hp & Hlen). set (head := code :: _ :: data) in *.
      set (b := (pre ++ head) ++ _). cbn [parse_options].
      assert (b !! length pre = Some code) as Hb.
      { unfold b. rewrite <- app_assoc. by apply list_lookup_middle. }
      assert (b !! S (length pre) = Some (Z.of_nat (length data))) as Hb1.
      { unfold b, head. rewrite <- app_assoc. cbn [app]. rewrite lookup_app_r by lia.
        by replace (S (length pre) - length pre)%nat with 1%nat by lia. }
      assert (length b = length pre + 2 + length data + length ((ts ≫= tlv_bytes) ++ tail))%nat as Hl.
      { unfold b, head. rewrite !length_app. cbn [length]. lia. }
      destruct (Nat.ltb_spec (length pre) (length b)); [|lia]. rewrite Hb. cbn [mbind option_bind].
      apply Z.eqb_neq in He, Hp. rewrite He, Hp.
      destruct (Nat.leb_spec (length b) (S (length pre))); [lia|]. rewrite Hb1. cbn [mbind option_bind].
      rewrite Nat2Z.id. destruct (Nat.ltb_spec (length b) (S (S (length pre)) + length data)); [lia|].
      assert (take (length data) (drop (S (S (length pre))) b) = data) as ->.
      { replace b with ((pre ++ [code; Z.of_nat (length data)]) ++ data ++ (ts ≫= tlv_bytes) ++ tail)
          by (unfold b, head; by rewrite <- !app_assoc).
        rewrite drop_app_length' by (rewrite length_app; simpl; lia). apply take_app_length. }
      rewrite apply_option_eq. cbn [mbind option_bind foldl tlv_effect].
      specialize (IH (pre ++ head) (reply_with code data r) fuel).
      rewrite length_app in IH. replace (S (S (length pre)) + length data)%nat with (length pre + length head)%nat.
      * apply IH. rewrite length_app in Hf. unfold head in Hf. simpl in Hf. lia.
      * unfold head. cbn [length]. lia.
Qed.

(** ** Headers *)

(** The fixed part of a packet, field by field. *)
Definition header (op x : Z) (ciaddr yiaddr siaddr mac : list Z) : list Z :=
  [op; HTYPE_ETHERNET; HLEN_ETHERNET; 0] ++ be_bytes x ++ [0; 0; 128; 0] ++ ciaddr ++ yiaddr ++ siaddr
  ++ [0; 0; 0; 0] ++ mac ++ replicate 202 0 ++ MAGIC_COOKIE.

Definition no_ip : list Z := [0; 0; 0; 0].

Ltac six mac := destruct mac as [|m1 [|m2 [|m3 [|m4 [|m5 [|m6 [|]]]]]]]; try done.

Lemma set_header_buf op mac x :
  length mac = 6%nat → buf (set_header op mac (DhcpPacket_new x)) = header op x no_ip no_ip no_ip mac.
Proof.
  intros Hm. unfold set_header, header, DhcpPacket_new, set_buf. cbn [buf xid].
  unfold be_bytes. generalize (x / 16777216 mod 256) (x / 65536 mod 256) (x / 256 mod 256) (x mod 256).
  intros x1 x2 x3 x4. six mac.
Qed.

Lemma header_length op x c y s mac :
  length c = 4%nat → length y = 4%nat → length s = 4%nat → length mac = 6%nat →
  length (header op x c y s mac) = 240%nat.
Proof. intros Hc Hy Hs Hm. unfold header. rewrite !length_app, Hc, Hy, Hs, Hm. reflexivity. Qed.

Lemma set_ciaddr_header op x mac ip y s :
  length mac = 6%nat → length y = 4%nat → length s = 4%nat →
  list_inserts 12 (octets ip) (header op x no_ip y s mac) = header op x (octets ip) y s mac.
Proof.
  unfold header, be_bytes. generalize (x / 16777216 mod 256) (x / 65536 mod 256) (x / 256 mod 256) (x mod 256).
  intros x1 x2 x3 x4 Hm Hy Hs. destruct ip, y as [|? [|? [|? [|? []]]]]; try done. 
Qed.

Lemma header_fields op x ciaddr yiaddr siaddr mac rest :
  length mac = 6%nat →
  let b := header op x (octets ciaddr) (octets yiaddr) (octets siaddr) mac ++ rest in
  b !! 0%nat = Some op ∧ take 4 (drop 236 b) = MAGIC_COOKIE ∧
  ip_at b 4 = Some (Ip (x / 16777216 mod 256) (x / 65536 mod 256) (x / 256 mod 256) (x mod 256)) ∧
  ip_at b 16 = Some yiaddr ∧ ip_at b 20 = Some siaddr.
Proof.
  unfold header, be_bytes. generalize (x / 16777216 mod 256) (x / 65536 mod 256) (x / 256 mod 256) (x mod 256).
  intros x1 x2 x3 x4 Hm. destruct ciaddr, yiaddr, siaddr. six mac.
Qed.

Lemma from_be_bytes x :
  0 ≤ x ≤ u32_max → from_be (x / 16777216 mod 256) (x / 65536 mod 256) (x / 256 mod 256) (x mod 256) = x.
Proof.
  unfold u32_max, from_be. intros Hx. change 65536 with (256 * 256). change 16777216 with (256 * 256 * 256).
  rewrite <- !Z.div_div by lia. rewrite (Z.mod_small (x / 256 / 256 / 256)).
  - pose proof (Z.div_mod x 256). pose proof (Z.div_mod (x / 256) 256).
    pose proof (Z.div_mod (x / 256 / 256) 256). lia.
  - rewrite !Z.div_div by lia. split; [apply Z.div_pos; lia|apply Z.div_lt_upper_bound; lia].
Qed.

(** What the parser makes of the header and the options of any packet. *)
Lemma parse_reply_packet x ciaddr yiaddr siaddr mac ts tail :
  length mac = 6%nat → 0 ≤ x ≤ u32_max → Forall tlv_ok ts → tail_ok tail →
  parse_reply (header OP_REPLY x (octets ciaddr) (octets yiaddr) (octets siaddr) mac
               ++ (ts ≫= tlv_bytes) ++ tail) =
  let r := foldl tlv_effect
    {| msg_type := 0; your_ip := yiaddr; server_ip := siaddr; server_id := siaddr;
       subnet_mask := Ip 255 255 255 0; gateway := None; dns := []; lease_secs := 86400;
       reply_xid := x |} ts in
  Some (if msg_type r =? 0 then None else Some r).
Proof.
  intros Hm Hx Hts Htail. pose proof (header_fields OP_REPLY x ciaddr yiaddr siaddr mac
    ((ts ≫= tlv_bytes) ++ tail) Hm) as (H0 & Hc & H4 & H16 & H20). cbv zeta in *.
  assert (length (header OP_REPLY x (octets ciaddr) (octets yiaddr) (octets siaddr) mac) = 240%nat)
    as Hl by by apply header_length.
  generalize dependent (header OP_REPLY x (octets ciaddr) (octets yiaddr) (octets siaddr) mac).
  intros h H0 Hc H4 H16 H20 Hl. unfold parse_reply.
  assert (length (h ++ (ts ≫= tlv_bytes) ++ tail) <? 240 = false)%nat as ->.
  { apply Nat.ltb_ge. rewrite length_app, Hl. apply Nat.le_add_r. }
  rewrite H0. cbn [mbind option_bind]. rewrite Z.eqb_refl. cbn [negb].
  rewrite (bool_decide_eq_true_2 _ Hc). cbn [negb]. rewrite H4, H16, H20. cbn [mbind option_bind].
  cbn [oct1 oct2 oct3 oct4]. rewrite (from_be_bytes x Hx), <- Hl.
  rewrite (parse_options_tlvs _ h ts tail _ Hts Htail); [reflexivity|].
  rewrite (length_app h), length_app. apply Nat.le_add_l.
Qed.

(** ** Packets on the wire *)

(** What a server sends: the builder of the client with the fields of a reply. *)
Definition reply_options (r : DhcpReply) : list Tlv :=
  Opt OPT_MSG_TYPE [msg_type r] :: Opt OPT_SERVER_ID (octets (server_id r))
  :: Opt OPT_SUBNET_MASK (octets (subnet_mask r))
  :: (option_list (gateway r) ≫= λ gw, [Opt OPT_ROUTER (octets gw)])
  ++ [Opt OPT_DNS (dns r ≫= octets); Opt OPT_LEASE_TIME (be_bytes (lease_secs r))].

Definition server_packet (mac : list Z) (r : DhcpReply) (tail : list Z) : list Z :=
  header OP_REPLY (reply_xid r) no_ip (octets (your_ip r)) (octets (server_ip r)) mac
  ++ (reply_options r ≫= tlv_bytes) ++ tail.

Definition reply_ok (r : DhcpReply) : Prop :=
  msg_type r ≠ 0 ∧ 0 ≤ reply_xid r ≤ u32_max ∧ 0 ≤ lease_secs r ≤ u32_max ∧ (length (dns r) <= 63)%nat.

Lemma dns_loop_octets servers fuel pre acc :
  (length servers <= fuel)%nat →
  dns_loop fuel (pre ++ (servers ≫= octets)) (length pre) acc = Some (acc ++ servers).
Proof.
  revert fuel pre acc. induction servers as [|ip servers IH]; intros fuel pre acc Hf.
  - csimpl. rewrite !app_nil_r. destruct fuel; [done|]. cbn [dns_loop].
    destruct (Nat.leb_spec (length pre + 4) (length pre)); [lia|done].
  - destruct fuel as [|fuel]; [simpl in Hf; lia|]. cbn [dns_loop]. rewrite bind_cons.
    rewrite !length_app. cbn [octets length].
    destruct (Nat.leb_spec (length pre + 4) (length pre + (4 + length (servers ≫= octets)))); [|lia].
    assert (ip_at (pre ++ octets ip ++ (servers ≫= octets)) (length pre) = Some ip) as ->.
    { assert (∀ k, (pre ++ octets ip ++ (servers ≫= octets)) !! (length pre + k)%nat
              = (octets ip ++ (servers ≫= octets)) !! k) as Hk.
      { intros k. rewrite lookup_app_r by lia. f_equal. lia. }
      unfold ip_at. pose proof (Hk 0%nat) as H0. rewrite Nat.add_0_r in H0.
      rewrite H0, (Hk 1%nat), (Hk 2%nat), (Hk 3%nat). by destruct ip. }
    cbn [mbind option_bind]. specialize (IH fuel (pre ++ octets ip) (acc ++ [ip])).
    rewrite length_app, <- !app_assoc in IH. apply IH. simpl in Hf. lia.
Qed.

Lemma length_bind_octets servers : length (servers ≫= octets) = (4 * length servers)%nat.
Proof. induction servers as [|ip l IH]; [done|]. rewrite bind_cons, length_app, IH. simpl. lia. Qed.

Lemma dns_loop_all servers : dns_loop (length (servers ≫= octets)) (servers ≫= octets) 0 [] = Some servers.
Proof.
  apply (dns_loop_octets servers _ [] []). rewrite length_bind_octets. lia.
Qed.

Lemma reply_options_ok r : (length (dns r) <= 63)%nat → Forall tlv_ok (reply_options r).
Proof.
  intros Hd. unfold reply_options.
  do 3 (apply Forall_cons_2; [split_and!; [done|done|simpl; lia]|]). apply Forall_app. split.
  - destruct (gateway r); csimpl; [|constructor].
    apply Forall_cons_2; [split_and!; [done|done|simpl; lia]|constructor].
  - apply Forall_cons_2; [split_and!; [done|done|rewrite length_bind_octets; lia]|].
    apply Forall_cons_2; [split_and!; [done|done|simpl; lia]|constructor].
Qed.

(** The options in order set every field of a reply. *)
Lemma reply_options_effect r r0 :
  0 ≤ lease_secs r ≤ u32_max → your_ip r0 = your_ip r → server_ip r0 = server_ip r →
  gateway r0 = None → dns r0 = [] → reply_xid r0 = reply_xid r →
  foldl tlv_effect r0 (reply_options r) = r.
Proof.
  destruct r as [t yi si sid mask gw servers lease x], r0 as [t0 yi0 si0 sid0 mask0 gw0 dns0 lease0 x0].
  cbn [lease_secs your_ip server_ip gateway dns reply_xid]. intros Hl -> -> -> -> ->.
  unfold reply_options. cbn [server_id subnet_mask gateway dns lease_secs msg_type].
  cbn [foldl app]. rewrite foldl_app. cbn [foldl tlv_effect].
  destruct sid, mask. cbn [octets oct1 oct2 oct3 oct4].
  assert (∀ R, dns R = [] → reply_with OPT_DNS (servers ≫= octets) R =
    {| msg_type := msg_type R; your_ip := your_ip R; server_ip := server_ip R; server_id := server_id R;
       subnet_mask := subnet_mask R; gateway := gateway R; dns := servers; lease_secs := lease_secs R;
       reply_xid := reply_xid R |}) as Hdns.
  { intros R HR. unfold reply_with, apply_option.
    change (OPT_DNS =? OPT_MSG_TYPE) with false. change (OPT_DNS =? OPT_SUBNET_MASK) with false.
    change (OPT_DNS =? OPT_ROUTER) with false. change (OPT_DNS =? OPT_DNS) with true.
    cbn [andb]. by rewrite HR, dns_loop_all. }
  rewrite Hdns by (by destruct gw as [[]|]).
  unfold be_bytes. pose proof (from_be_bytes lease Hl) as Hb. revert Hb.
  generalize (lease / 16777216 mod 256) (lease / 65536 mod 256) (lease / 256 mod 256) (lease mod 256).
  intros l1 l2 l3 l4 Hb. rewrite <- Hb. by destruct gw as [[]|].
Qed.

(** C25: replies: [parse_reply] returns on every buffer whatever its length and contents
    (no index is out of range), and what a server sends for a reply, its options between
    the header and the end mark or the end of the datagram, is read back field by field. *)
Theorem parse_reply_roundtrip mac r tail b :
  length mac = 6%nat → reply_ok r → tail_ok tail →
  parse_reply b ≠ None ∧ parse_reply (server_packet mac r tail) = Some (Some r).
Proof.
  intros Hm (Ht & Hx & Hl & Hd) Htail. split; [by destruct (parse_reply_Some b) as [? ->]|].
  unfold server_packet. change no_ip with (octets (Ip 0 0 0 0)).
  rewrite (parse_reply_packet (reply_xid r) _ (your_ip r) (server_ip r) mac (reply_options r) tail Hm Hx
    (reply_options_ok r Hd) Htail).
  rewrite (reply_options_effect r) by done. cbv zeta. apply Z.eqb_neq in Ht. by rewrite Ht.
Qed.

Definition example_reply : DhcpReply :=
  {| msg_type := MSG_ACK; your_ip := Ip 192 168 1 100; server_ip := Ip 0 0 0 0;
     server_id := Ip 192 168 1 1; subnet_mask := Ip 255 255 255 0; gateway := Some (Ip 192 168 1 1);
     dns := [Ip 8 8 8 8; Ip 1 1 1 1]; lease_secs := 3600; reply_xid := 305419896 |}.

Lemma parse_reply_roundtrip_witness :
  parse_reply [2; 1] ≠ None ∧
  parse_reply (server_packet [1; 2; 3; 4; 5; 6] example_reply [OPT_END; 0; 0]) = Some (Some example_reply).
Proof.
  apply (parse_reply_roundtrip [1; 2; 3; 4; 5; 6] example_reply [OPT_END; 0; 0] [2; 1]); [done| |].
  - unfold reply_ok, u32_max. simpl. split_and!; done || lia.
  - right. by exists [0; 0].
Defined.

(** The packets of the client: the header of RFC 2131, the options, the end mark and
    zeros, at least 300 bytes. *)
Definition client_id (mac : list Z) : Tlv := Opt OPT_CLIENT_ID (HTYPE_ETHERNET :: mac).

Definition padded (ts : list Tlv) : list Z :=
  let n := (240 + length (ts ≫= tlv_bytes) + 1)%nat in
  (ts ≫= tlv_bytes) ++ [OPT_END] ++ replicate (300 - n) OPT_PAD.

Lemma finish_padded h ts p :
  length h = 240%nat → buf p = h ++ (ts ≫= tlv_bytes) → buf (finish p) = h ++ padded ts.
Proof.
  intros Hh Hp. unfold finish, padded. cbn [buf set_buf]. rewrite Hp, !length_app, Hh, <- !app_assoc. done.
Qed.

Lemma push_opt_tlv h ts code data p :
  (length data <= 255)%nat → buf p = h ++ (ts ≫= tlv_bytes) →
  buf (push_opt code data p) = h ++ ((ts ++ [Opt code data]) ≫= tlv_bytes).
Proof.
  intros Hl Hp. unfold push_opt, wrap_u8. cbn [buf set_buf]. rewrite Hp, bind_app, <- app_assoc. f_equal. f_equal.
  rewrite Z.mod_small by lia. csimpl. by rewrite app_nil_r.
Qed.

Lemma no_tlvs h : h = h ++ ([] ≫= tlv_bytes).
Proof. csimpl. by rewrite app_nil_r. Qed.

(** The options pushed one after the other, then the end. *)
Ltac push Hp code data := apply (push_opt_tlv _ _ code data) in Hp; [|simpl; lia].
Ltac finished Hp := apply finish_padded in Hp; [exact Hp|by apply header_length].

Lemma set_header_start op mac x :
  length mac = 6%nat →
  buf (set_header op mac (DhcpPacket_new x)) = header op x no_ip no_ip no_ip mac ++ ([] ≫= tlv_bytes).
Proof. intros Hm. rewrite <- no_tlvs. by apply set_header_buf. Qed.

Lemma set_ciaddr_start op mac x ip :
  length mac = 6%nat →
  buf (set_ciaddr ip (set_header op mac (DhcpPacket_new x)))
    = header op x (octets ip) no_ip no_ip mac ++ ([] ≫= tlv_bytes).
Proof.
  intros Hm. rewrite <- no_tlvs. unfold set_ciaddr. cbn [buf set_buf]. rewrite set_header_buf by done.
  by apply set_ciaddr_header.
Qed.

Lemma padded_length ts : (300 <= 240 + length (padded ts))%nat.
Proof. unfold padded. rewrite !length_app, length_replicate. cbn [length]. lia. Qed.

(** The client's packets: for every transaction, MAC and addresses, a DISCOVER, a
    REQUEST of an offer, a REQUEST of a renewal and a RELEASE have the header of RFC 2131
    with [ciaddr] set only in the last two, and exactly the options that their state
    asks for (requested address and server only when selecting, the server when
    releasing), closed by the end mark and padded to at least 300 bytes. *)
Theorem client_packets x mac ip sid :
  length mac = 6%nat →
  let params := Opt OPT_PARAM_LIST [1; 3; 6; 51] in
  let cid := Opt OPT_CLIENT_ID (1 :: mac) in
  buf (discover x mac) = header 1 x no_ip no_ip no_ip mac
    ++ padded [Opt OPT_MSG_TYPE [1]; cid; params] ∧
  buf (request x mac ip sid false) = header 1 x no_ip no_ip no_ip mac
    ++ padded [Opt OPT_MSG_TYPE [3]; Opt OPT_REQUESTED_IP (octets ip); Opt OPT_SERVER_ID (octets sid);
               cid; params] ∧
  buf (request x mac ip sid true) = header 1 x (octets ip) no_ip no_ip mac
    ++ padded [Opt OPT_MSG_TYPE [3]; cid; params] ∧
  buf (release x mac ip sid) = header 1 x (octets ip) no_ip no_ip mac
    ++ padded [Opt OPT_MSG_TYPE [7]; Opt OPT_SERVER_ID (octets sid)] ∧
  ∀ ts, (300 <= 240 + length (padded ts))%nat.
Proof.
  intros Hm params cid. pose proof (set_header_start 1 mac x Hm) as H0.
  pose proof (set_ciaddr_start 1 mac x ip Hm) as Hc. split_and!.
  - push H0 OPT_MSG_TYPE [MSG_DISCOVER]. push H0 OPT_CLIENT_ID (HTYPE_ETHERNET :: mac).
    push H0 OPT_PARAM_LIST param_list. finished H0.
  - push H0 OPT_MSG_TYPE [MSG_REQUEST]. push H0 OPT_REQUESTED_IP (octets ip).
    push H0 OPT_SERVER_ID (octets sid). push H0 OPT_CLIENT_ID (HTYPE_ETHERNET :: mac).
    push H0 OPT_PARAM_LIST param_list. finished H0.
  - push Hc OPT_MSG_TYPE [MSG_REQUEST]. push Hc OPT_CLIENT_ID (HTYPE_ETHERNET :: mac).
    push Hc OPT_PARAM_LIST param_list. finished Hc.
  - push Hc OPT_MSG_TYPE [MSG_RELEASE]. push Hc OPT_SERVER_ID (octets sid). finished Hc.
  - apply padded_length.
Qed.

Lemma client_packets_witness :
  buf (release 1 [2; 3; 4; 5; 6; 7] (Ip 10 0 0 5) (Ip 10 0 0 1))
  = header 1 1 [10; 0; 0; 5] no_ip no_ip [2; 3; 4; 5; 6; 7]
    ++ padded [Opt OPT_MSG_TYPE [7]; Opt OPT_SERVER_ID [10; 0; 0; 1]].
Proof. by apply (client_packets 1 [2; 3; 4; 5; 6; 7] (Ip 10 0 0 5) (Ip 10 0 0 1)). Defined.
