(* ===== verification/DhcpClient.v ===== *)
(** * The DHCP client's exchanges

    The effectful half of [quantra-net/quantra-netd/src/dhcp.rs]: the handshake, the
    application of a lease, acquisition, renewal, release and the renewal task.  The
    netlink and routing calls that [rtnetlink] carries out are operations. *)

From Stdlib Require Import ZArith Ascii.
From stdpp Require Import base tactics numbers list strings gmap.
From S2P Require Import Prelude RustStr Effects Dhcp.

Local Open Scope string_scope.
Local Open Scope list_scope.
Local Open Scope Z_scope.
Local Open Scope quantra_scope.
Local Open Scope prog_scope.

(** [RecvUntil] is [recv_from] under a [timeout]. *)
Inductive Received := Datagram (bytes : list Z) | RecvErr (e : string) | Elapsed.

Record ActiveLease := {
  lease_ip : Ipv4Addr;
  lease_server : Ipv4Addr;
  lease_time : Z;
  lease_mac : list Z;
}.

Record DhcpLeaseInfo := {
  li_interface : string;
  li_ip_cidr : option string;
  li_gateway : option string;
  li_dns_servers : list string;
}.

Inductive NetOp : Type → Type :=
| NetNow : NetOp Z
| SubsecNanos : NetOp (option Z)
| OpenDhcpSocket (iface : string) : NetOp (result string unit)
| SendTo (pkt : list Z) (dst : Ipv4Addr) : NetOp (result string unit)
| RecvUntil (deadline : Z) : NetOp Received
| ReadSysfs (path : string) : NetOp (result string string)
| WriteConf (path contents : string) : NetOp (result string unit)
| SetLinkUp (iface : string) : NetOp (result string unit)
| FindLinkIndex (iface : string) : NetOp (result string (option Z))
| GetInterfaceAddresses (idx : Z) : NetOp (result string (list string))
| RemoveIpAddress (iface addr : string) : NetOp (result string unit)
| AddIpAddress (iface cidr : string) : NetOp (result string unit)
| DeleteRoute (dst : string) : NetOp (result string unit)
| AddRoute (dst gw iface : string) : NetOp (result string unit)
| GetLease (iface : string) : NetOp (option ActiveLease)
| StoreLease (iface : string) (l : ActiveLease) : NetOp unit
| RemoveLease (iface : string) : NetOp unit
| SpawnRenewal (iface : string) (lease_secs : Z) : NetOp unit
| NetSleep (seconds : Z) : NetOp unit.

(** [with_context]: the error that is shown. *)
Definition context {A} (msg : string) (p : prog NetOp (result string A)) : prog NetOp (result string A) :=
  let* r := p in Ret (map_err (λ _, msg) r).

(** ** Identities *)

Definition hex_value (c : ascii) : option Z :=
  if is_ascii_digit c then digit_value c
  else if (97 <=? nat_of_ascii c)%nat && (nat_of_ascii c <=? 102)%nat then Some (Z.of_nat (nat_of_ascii c) - 87)
  else if (65 <=? nat_of_ascii c)%nat && (nat_of_ascii c <=? 70)%nat then Some (Z.of_nat (nat_of_ascii c) - 55)
  else None.

Fixpoint hex_digits (acc : Z) (s : string) : option Z :=
  match s with
  | EmptyString => Some acc
  | String c s =>
      d ← hex_value c;
      let acc := acc * 16 + d in
      if acc <=? u8_max then hex_digits acc s else None
  end.

(** [u8::from_str_radix(s, 16)]. *)
Definition parse_hex_u8 (s : string) : option Z :=
  match s with
  | EmptyString | String "+" EmptyString => None
  | String "+" s => hex_digits 0 s
  | _ => hex_digits 0 s
  end.

(** The parts that are not bytes are dropped; six must be left. *)
Definition parse_mac (iface content : string) : result string (list Z) :=
  let parts := omap parse_hex_u8 (split ":" (trim content)) in
  if (length parts =? 6)%nat then Ok parts
  else Err ("invalid MAC address for '" +:+ iface +:+ "': " +:+ trim content).

Definition mac_path (iface : string) : string := "/sys/class/net/" +:+ iface +:+ "/address".

Definition get_mac (iface : string) : prog NetOp (result string (list Z)) :=
  try* content := context ("read MAC from '" +:+ mac_path iface +:+ "'")
                    (trigger (ReadSysfs (mac_path iface))) in
  Ret (parse_mac iface content).

Definition mac_hash (mac : list Z) : Z :=
  foldl (λ acc b, wrap_u32 (wrap_u32 (acc * 31) + b)) 0 mac.

Definition make_xid (mac : list Z) : prog NetOp Z :=
  let* t := trigger SubsecNanos in
  Ret (Z.lxor (default 305419896 t) (mac_hash mac)).

(** ** Waiting for a reply *)

Inductive Waited := Got (r : DhcpReply) | WaitErr (e : string) | TimedOut.

(** A datagram that is a reply to the transaction of one of the expected types. *)
Definition matching (x : Z) (expected : list Z) (bytes : list Z) : option DhcpReply :=
  match parse_reply (take 1500 bytes) with
  | Some (Some r) =>
      if negb (reply_xid r =? x) then None
      else if bool_decide (msg_type r ∈ expected) then Some r else None
  | _ => None
  end.

(** [recv_matching] and [recv_matching_multi] under a [timeout] of so many seconds. *)
Definition recv_matching (fuel : nat) (seconds x : Z) (expected : list Z) : prog NetOp (option Waited) :=
  let* now := trigger NetNow in
  loop fuel (λ _,
    let* d := trigger (RecvUntil (now + seconds * 1000000000)) in
    Ret match d with
        | Elapsed => inr TimedOut
        | RecvErr e => inr (WaitErr e)
        | Datagram bytes =>
            match matching x expected bytes with
            | Some r => inr (Got r)
            | None => inl tt
            end
        end) tt.

(** ** The handshake *)

Section client.
Context (overflow_checks : bool) (from_utf8 : list Z → option string) (fuel : nat).

(** One attempt: [inl] is [continue]. *)
Definition attempt (mac : list Z) : prog NetOp (option (unit + result string DhcpReply)) :=
  let* x := make_xid mac in
  let* sent := trigger (SendTo (buf (discover x mac)) BROADCAST) in
  match sent with
  | Err _ => Ret (Some (inr (Err "send DHCPDISCOVER")))
  | Ok _ =>
      fuel* offer := recv_matching fuel DISCOVER_TIMEOUT x [MSG_OFFER] in
      match offer with
      | WaitErr _ | TimedOut => Ret (Some (inl tt))
      | Got offer =>
          let* sent := trigger (SendTo (buf (request x mac (your_ip offer) (server_id offer) false)) BROADCAST) in
          match sent with
          | Err _ => Ret (Some (inr (Err "send DHCPREQUEST")))
          | Ok _ =>
              fuel* ack := recv_matching fuel REQUEST_TIMEOUT x [MSG_ACK; MSG_NAK] in
              Ret match ack with
                  | Got r => if msg_type r =? MSG_ACK then Some (inr (Ok r)) else Some (inl tt)
                  | WaitErr _ | TimedOut => Some (inl tt)
                  end
          end
      end
  end.

Fixpoint attempts (n : nat) (mac : list Z) : prog NetOp (option (result string DhcpReply)) :=
  match n with
  | O => Ret (Some (Err ("DHCP failed after " +:+ show_nat MAX_RETRIES +:+ " attempts on '"
                         +:+ default "?" (from_utf8 mac) +:+ "'")))
  | S n =>
      fuel* r := attempt mac in
      match r with
      | inl _ => attempts n mac
      | inr r => Ret (Some r)
      end
  end.

Definition do_discover_request (mac : list Z) : prog NetOp (option (result string DhcpReply)) :=
  attempts MAX_RETRIES mac.

(** ** A lease and the kernel *)

Definition mask_to_prefix (mask : Ipv4Addr) : Z :=
  count_ones (from_be (oct1 mask) (oct2 mask) (oct3 mask) (oct4 mask)).

Definition lease_cidr (ack : DhcpReply) : string :=
  show_ip (your_ip ack) +:+ "/" +:+ show_uint (mask_to_prefix (subnet_mask ack)).

Definition RESOLV_CONF : string := "/overlayer/syshub/etc/resolv.conf".

Definition resolv_conf (servers : list Ipv4Addr) : string :=
  let nl := String newline "" in
  "# Generated by quantra-netd — do not edit manually" +:+ nl
  +:+ "# This file is overwritten on each DHCP lease renewal" +:+ nl
  +:+ join "" ((λ srv, "nameserver " +:+ show_ip srv +:+ nl) <$> servers)
  +:+ match servers with
      | [] => "nameserver 1.1.1.1" +:+ nl +:+ "nameserver 8.8.8.8" +:+ nl
      | _ => ""
      end.

Definition write_resolv_conf (servers : list Ipv4Addr) : prog NetOp (result string unit) :=
  context ("write " +:+ RESOLV_CONF) (trigger (WriteConf RESOLV_CONF (resolv_conf servers))).

Definition apply_lease (iface : string) (ack : DhcpReply) : prog NetOp (result string unit) :=
  try* idx := trigger (FindLinkIndex iface) in
  match idx with
  | None => Ret (Err ("interface '" +:+ iface +:+ "' not found"))
  | Some idx =>
      try* existing := trigger (GetInterfaceAddresses idx) in
      for_each (λ addr, trigger (RemoveIpAddress iface addr);* Ret tt)
        (filter (λ a, contains "." a = true) existing);*
      try* _ := context ("add IP " +:+ lease_cidr ack +:+ " to " +:+ iface)
                  (trigger (AddIpAddress iface (lease_cidr ack))) in
      try* _ := match gateway ack with
                | Some gw =>
                    trigger (DeleteRoute "default");*
                    context ("add default route via " +:+ show_ip gw)
                      (trigger (AddRoute "default" (show_ip gw) iface))
                | None => Ret (Ok tt)
                end in
      match dns ack with
      | [] => Ret (Ok tt)
      | servers => write_resolv_conf servers
      end
  end.

Definition build_lease_info (iface : string) (ack : DhcpReply) : DhcpLeaseInfo := {|
  li_interface := iface;
  li_ip_cidr := Some (lease_cidr ack);
  li_gateway := show_ip <$> gateway ack;
  li_dns_servers := show_ip <$> dns ack
|}.

Definition lease_of (ack : DhcpReply) (mac : list Z) : ActiveLease := {|
  lease_ip := your_ip ack; lease_server := server_id ack; lease_time := lease_secs ack; lease_mac := mac
|}.

(** ** Acquisition, renewal, release *)

(** A fallible step that can also be out of fuel. *)
Definition fuel_try {A B} (p : prog NetOp (option (result string A))) (k : A → prog NetOp (option (result string B)))
    : prog NetOp (option (result string B)) :=
  fuel* r := p in
  match r with
  | Ok a => k a
  | Err e => Ret (Some (Err e))
  end.

Definition returning {A} (p : prog NetOp A) : prog NetOp (option A) := let* a := p in Ret (Some a).

Definition context_fuel {A} (msg : string) (p : prog NetOp (option (result string A)))
    : prog NetOp (option (result string A)) :=
  let* r := p in Ret (map_err (λ _, msg) <$> r).

Definition dhcp_acquire (iface : string) : prog NetOp (option (result string DhcpLeaseInfo)) :=
  trigger (SetLinkUp iface);*
  fuel_try (returning (context ("read MAC for '" +:+ iface +:+ "'") (get_mac iface))) (λ mac,
  fuel_try (returning (context ("open DHCP socket on '" +:+ iface +:+ "'") (trigger (OpenDhcpSocket iface)))) (λ _,
  fuel_try (context_fuel ("DHCP handshake on '" +:+ iface +:+ "'") (do_discover_request mac)) (λ ack,
  fuel_try (returning (context ("apply DHCP lease on '" +:+ iface +:+ "'") (apply_lease iface ack))) (λ _,
    trigger (StoreLease iface (lease_of ack mac));*
    trigger (SpawnRenewal iface (lease_secs ack));*
    Ret (Some (Ok (build_lease_info iface ack))))))).

(** The discovery that renewal and rebinding fall back to. *)
Definition rediscover (iface : string) : prog NetOp (option (result string DhcpReply)) :=
  fuel_try (returning (get_mac iface)) (λ mac,
  fuel_try (returning (trigger (OpenDhcpSocket iface))) (λ _,
  fuel_try (do_discover_request mac) (λ ack,
  fuel_try (returning (apply_lease iface ack)) (λ _,
    trigger (StoreLease iface (lease_of ack mac));* Ret (Some (Ok ack)))))).

Definition dhcp_renew (iface : string) : prog NetOp (option (result string DhcpLeaseInfo)) :=
  let* stored := trigger (GetLease iface) in
  match stored with
  | None => dhcp_acquire iface
  | Some stored =>
      fuel_try (returning (context ("open DHCP socket for renewal on '" +:+ iface +:+ "'")
                             (trigger (OpenDhcpSocket iface)))) (λ _,
      let* x := make_xid (lease_mac stored) in
      let pkt := buf (request x (lease_mac stored) (lease_ip stored) (lease_server stored) true) in
      fuel_try (returning (context "send DHCPREQUEST renewal" (trigger (SendTo pkt (lease_server stored))))) (λ _,
      fuel* r := recv_matching fuel RENEW_TIMEOUT x [MSG_ACK] in
      match r with
      | Got ack =>
          trigger (StoreLease iface (lease_of ack (lease_mac stored)));*
          Ret (Some (Ok (build_lease_info iface ack)))
      | WaitErr _ => Ret (Some (Err "DHCP renewal ACK parse"))
      | TimedOut =>
          fuel_try (rediscover iface) (λ ack, Ret (Some (Ok (build_lease_info iface ack))))
      end))
  end.

Definition dhcp_release (iface : string) : prog NetOp (result string unit) :=
  let* stored := trigger (GetLease iface) in
  match stored with
  | None => Ret (Ok tt)
  | Some stored =>
      try* _ := context ("open DHCP socket for release on '" +:+ iface +:+ "'")
                  (trigger (OpenDhcpSocket iface)) in
      let* x := make_xid (lease_mac stored) in
      let pkt := buf (release x (lease_mac stored) (lease_ip stored) (lease_server stored)) in
      try* _ := context "send DHCPRELEASE" (trigger (SendTo pkt (lease_server stored))) in
      trigger (RemoveLease iface);* Ret (Ok tt)
  end.

(** T1 and T2 in seconds; [None] is the overflow panic of [lease_secs * 7]. *)
Definition renewal_times (lease_secs : Z) : option (Z * Z) :=
  t2 ← arith_u32 overflow_checks (lease_secs * 7);
  Some (Z.max (lease_secs / 2) 30, Z.max (t2 / 8) 60).

(** [renewal_loop]; a panic ends the task. *)
Definition renewal_loop (iface : string) (lease_secs : Z) : prog NetOp (option unit) :=
  match renewal_times lease_secs with
  | None => Ret (Some tt)
  | Some (t1, t2) =>
      trigger (NetSleep t1);*
      fuel* r := dhcp_renew iface in
      match r with
      | Ok _ => Ret (Some tt)
      | Err _ =>
          trigger (NetSleep (saturating_sub_u64 t2 t1));*
          fuel* rebind := rediscover iface in
          match rebind with
          | Ok _ => Ret (Some tt)
          | Err _ => trigger (RemoveLease iface);* Ret (Some tt)
          end
      end
  end.
End client.

(** ** [resolv.conf] read back *)

Definition dns_line (line : string) : option string :=
  let t := trim line in
  if starts_with "#" t then None
  else
    s ← strip_prefix "nameserver " t;
    if is_empty (trim s) then None else Some (trim s).

Definition parse_dns_from_content (content : string) : list string := omap dns_line (lines content).

Definition read_dns_servers : prog NetOp (result string (list string)) :=
  try* content := context ("read " +:+ RESOLV_CONF) (trigger (ReadSysfs RESOLV_CONF)) in
  Ret (Ok (parse_dns_from_content content)).

(** ** The exchanges end

    All that is said of the network: a datagram takes [gap] nanoseconds, and none is taken
    more than [slack] after the deadline of the wait (the timer of [timeout] is looked at
    after the socket). *)
Definition net_clock (gap slack : Z) : ∀ X, NetOp X → Z → X → Z → Prop :=
  λ X e, match e in NetOp X return Z → X → Z → Prop with
  | NetNow => λ t x t', t ≤ x ∧ x = t'
  | RecvUntil deadline => λ t r t',
      match r with Datagram _ => t ≤ deadline + slack ∧ t + gap ≤ t' | _ => t ≤ t' end
  | NetSleep s => λ t _ t', t + s * 1000000000 ≤ t'
  | _ => λ t _ t', t ≤ t'
  end.

Definition LONGEST_WAIT : Z := Z.max (Z.max DISCOVER_TIMEOUT REQUEST_TIMEOUT) RENEW_TIMEOUT.

(** A turn for every datagram that fits into the longest wait, and two more. *)
Definition enough_fuel (gap slack : Z) (fuel : nat) : Prop :=
  0 < gap ∧ 0 ≤ slack ∧ (LONGEST_WAIT * 1000000000 + slack) / gap + 1 < Z.of_nat fuel.

Section net_ends.
Context (gap slack : Z) (oc : bool) (from_utf8 : list Z → option string) (fuel : nat).
Context (Hfuel : enough_fuel gap slack fuel).
Notation ends := (ends (net_clock gap slack)).

Lemma recv_matching_ends seconds x expected :
  0 ≤ seconds ≤ LONGEST_WAIT → ends (recv_matching fuel seconds x expected).
Proof.
  destruct Hfuel as (Hg & Hsl & Hf). intros Hs t. unfold recv_matching. apply wp_op. intros now t1 [_ ->].
  set (d := t1 + seconds * 1000000000). set (n := Z.to_nat ((LONGEST_WAIT * 1000000000 + slack) / gap + 1)).
  assert (0 ≤ (LONGEST_WAIT * 1000000000 + slack) / gap) by (apply Z.div_pos; lia).
  eapply wp_mono; [|apply (wp_loop _ _ (λ _ t n, d + slack - t < Z.of_nat n * gap) (λ _ _, True) _ _ _ n)].
  - by intros t' r (b & -> & _).
  - intros [] t2 m Hm. apply wp_op. intros r t3 Hr. cbn [wp net_clock] in *.
    destruct r as [bytes|e|]; [|done..]. destruct (matching x expected bytes); [done|].
    exists (Nat.pred m). destruct m; [nia|]. cbn. nia.
  - unfold d, n. pose proof (Z.mod_pos_bound (LONGEST_WAIT * 1000000000 + slack) gap Hg).
    pose proof (Z.div_mod (LONGEST_WAIT * 1000000000 + slack) gap ltac:(lia)). nia.
  - lia.
Qed.

Lemma attempt_ends mac : ends (attempt fuel mac).
Proof. unfold attempt, make_xid. ends; by apply recv_matching_ends. Qed.

Lemma do_discover_request_ends mac : ends (do_discover_request from_utf8 fuel mac).
Proof.
  unfold do_discover_request. generalize MAX_RETRIES. intros n. induction n as [|n IH]; cbn [attempts]; [done|].
  ends; [apply attempt_ends|exact IH].
Qed.

Lemma rediscover_ends iface : ends (rediscover from_utf8 fuel iface).
Proof. unfold rediscover, fuel_try, returning. ends. apply do_discover_request_ends. Qed.

Lemma dhcp_acquire_ends iface : ends (dhcp_acquire from_utf8 fuel iface).
Proof.
  unfold dhcp_acquire, fuel_try, returning. ends. unfold context_fuel. intros t.
  eapply wp_bind_2; [apply do_discover_request_ends|]. by intros t' [r|] Hr.
Qed.

Lemma dhcp_renew_ends iface : ends (dhcp_renew from_utf8 fuel iface).
Proof.
  unfold dhcp_renew, fuel_try, returning. ends;
    first [by apply recv_matching_ends | apply rediscover_ends | apply dhcp_acquire_ends].
Qed.

Lemma renewal_loop_ends iface secs : ends (renewal_loop oc from_utf8 fuel iface secs).
Proof. unfold renewal_loop. ends; [apply dhcp_renew_ends|apply rediscover_ends]. Qed.
End net_ends.

(** ** The handshake on the wire

    What is sent and what comes in, in order. *)
Inductive Ev := Sent (pkt : list Z) (dst : Ipv4Addr) | Rcvd (bytes : list Z).

Definition wire_step : ∀ X, NetOp X → list Ev → X → list Ev → Prop :=
  λ X e, match e in NetOp X return list Ev → X → list Ev → Prop with
  | SendTo pkt dst => λ w r w', w' = match r with Ok _ => w ++ [Sent pkt dst] | Err _ => w end
  | RecvUntil _ => λ w r w', w' = match r with Datagram b => w ++ [Rcvd b] | _ => w end
  | _ => λ w _ w', w' = w
  end.

(** The datagram [d] is the well-formed reply [r], it carries the transaction id [x], and
    its type is one of the expected ones. *)
Definition answers (x : Z) (expected : list Z) (d : list Z) (r : DhcpReply) : Prop :=
  parse_reply (take 1500 d) = Some (Some r) ∧ reply_xid r = x ∧ msg_type r ∈ expected.

Lemma matching_answers x expected d r : matching x expected d = Some r ↔ answers x expected d r.
Proof.
  unfold matching, answers. destruct (parse_reply _) as [[r'|]|]; [|naive_solver..].
  destruct (Z.eqb_spec (reply_xid r') x) as [Hx|Hx]; cbn [negb]; [|naive_solver].
  case_bool_decide; naive_solver.
Qed.

(** Datagrams that are not what is waited for: damaged ones, those of other
    transactions, and those of other types. *)
Definition others (x : Z) (expected : list Z) (ds : list (list Z)) : Prop :=
  Forall (λ d, ∀ r, ¬ answers x expected d r) ds.

Lemma matching_others x expected d : matching x expected d = None → ∀ r, ¬ answers x expected d r.
Proof. intros Hm r Ha%matching_answers. congruence. Qed.

(** One attempt with the transaction id [x]: [Some] ack when it succeeded. *)
Inductive attempt_trace (mac : list Z) (x : Z) : list Ev → option DhcpReply → Prop :=
| No_offer ds :
    others x [MSG_OFFER] ds →
    attempt_trace mac x (Sent (buf (discover x mac)) BROADCAST :: (Rcvd <$> ds)) None
| No_ack ds d offer ds' :
    others x [MSG_OFFER] ds → answers x [MSG_OFFER] d offer → others x [MSG_ACK; MSG_NAK] ds' →
    attempt_trace mac x (Sent (buf (discover x mac)) BROADCAST :: (Rcvd <$> ds ++ [d])
      ++ Sent (buf (request x mac (your_ip offer) (server_id offer) false)) BROADCAST
      :: (Rcvd <$> ds')) None
| Answered ds d offer ds' d' r :
    others x [MSG_OFFER] ds → answers x [MSG_OFFER] d offer → others x [MSG_ACK; MSG_NAK] ds' →
    answers x [MSG_ACK; MSG_NAK] d' r →
    attempt_trace mac x (Sent (buf (discover x mac)) BROADCAST :: (Rcvd <$> ds ++ [d])
      ++ Sent (buf (request x mac (your_ip offer) (server_id offer) false)) BROADCAST
      :: (Rcvd <$> ds' ++ [d'])) (if msg_type r =? MSG_ACK then Some r else None).

Lemma recv_matching_wire fuel seconds x expected w :
  wp wire_step (recv_matching fuel seconds x expected) w (λ w' r, ∃ ds, others x expected ds ∧
    match r with
    | Some (Got r) => ∃ d, answers x expected d r ∧ w' = w ++ (Rcvd <$> ds ++ [d])
    | _ => w' = w ++ (Rcvd <$> ds)
    end).
Proof.
  unfold recv_matching. apply wp_op. intros now w1 ->.
  eapply wp_mono; [|apply (wp_loop_inv wire_step (λ (_ : unit) w', ∃ ds, others x expected ds ∧ w' = w ++ (Rcvd <$> ds))
    (λ w' b, ∃ ds, others x expected ds ∧ match b with
       | Got r => ∃ d, answers x expected d r ∧ w' = w ++ (Rcvd <$> ds ++ [d])
       | _ => w' = w ++ (Rcvd <$> ds) end))].
  - cbv beta. intros w' [b|]; [|intros [[] (ds & ? & ->)]; by exists ds].
    intros (ds & Hds & Hb). exists ds. by destruct b.
  - intros [] w' (ds & Hds & ->). apply wp_op. intros d w2 Hw2. cbn [wp].
    destruct d as [bytes|e|]; cbn [wire_step] in Hw2; subst w2; [|by exists ds..].
    destruct (matching x expected bytes) as [r|] eqn:Hm.
    + exists ds. split; [done|]. exists bytes. split; [by apply matching_answers|]. by rewrite fmap_app, app_assoc.
    + exists (ds ++ [bytes]). split; [|by rewrite fmap_app, app_assoc].
      apply Forall_app. split; [done|]. constructor; [by apply matching_others|constructor].
  - exists []. split; [constructor|]. by rewrite app_nil_r.
Qed.

Definition SEND_ERRORS : list string := ["send DHCPDISCOVER"; "send DHCPREQUEST"].

Section wire.
Context (oc : bool) (from_utf8 : list Z → option string) (fuel : nat).

Lemma attempt_wire mac w :
  wp wire_step (attempt fuel mac) w (λ w' r,
    match r with
    | Some (inl _) => ∃ x tr, w' = w ++ tr ∧ attempt_trace mac x tr None
    | Some (inr (Ok ack)) => ∃ x tr, w' = w ++ tr ∧ reply_xid ack = x ∧ msg_type ack = MSG_ACK ∧ attempt_trace mac x tr (Some ack)
    | Some (inr (Err e)) => e ∈ SEND_ERRORS
    | None => True
    end).
Proof.
  unfold attempt, make_xid. eapply wp_bind_2 with (R := λ w' _, w' = w); [by intros t w1 ->|].
  intros w1 x ->. apply wp_op. intros sent w1 Hw1. cbn [wire_step] in Hw1.
  destruct sent as [[]|e]; [|subst w1; by left]. subst w1.
  unfold fuel_bind at 1. eapply wp_bind_2; [apply recv_matching_wire|].
  intros w1 [offer|] (ds & Hds & Hw1); [|done].
  destruct offer as [offer|e|]; cycle 1.
  { subst w1. exists x. eexists. split; [by rewrite <- app_assoc|]. exact (No_offer mac x ds Hds). }
  { subst w1. exists x. eexists. split; [by rewrite <- app_assoc|]. exact (No_offer mac x ds Hds). }
  destruct Hw1 as (d & Hd & ->). apply wp_op. intros sent w2 Hw2. cbn [wire_step] in Hw2.
  destruct sent as [[]|e]; [|subst w2; by right; left]. subst w2.
  unfold fuel_bind. eapply wp_bind_2; [apply recv_matching_wire|].
  intros w2 [ack|] (ds' & Hds' & Hw2); [|done].
  destruct ack as [r|e|]; cycle 1.
  { subst w2. exists x. eexists. split; [by rewrite <- !app_assoc|]. exact (No_ack mac x ds d offer ds' Hds Hd Hds'). }
  { subst w2. exists x. eexists. split; [by rewrite <- !app_assoc|]. exact (No_ack mac x ds d offer ds' Hds Hd Hds'). }
  destruct Hw2 as (d' & Hd' & ->). pose proof (Answered mac x ds d offer ds' d' r Hds Hd Hds' Hd') as Ha.
  destruct Hd' as (_ & Hx & _). destruct (Z.eqb_spec (msg_type r) MSG_ACK).
  - exists x. eexists. split; [by rewrite <- !app_assoc|done].
  - exists x. eexists. split; [by rewrite <- !app_assoc|done].
Qed.

Lemma attempts_wire n mac w :
  wp wire_step (attempts from_utf8 fuel n mac) w (λ w' r, ∃ failed,
    Forall (λ tr, ∃ x, attempt_trace mac x tr None) failed ∧
    match r with
    | Some (Ok ack) => ∃ x tr, (length failed < n)%nat ∧ w' = w ++ concat failed ++ tr ∧
        reply_xid ack = x ∧ msg_type ack = MSG_ACK ∧ attempt_trace mac x tr (Some ack)
    | Some (Err e) => e ∈ SEND_ERRORS ∨ length failed = n ∧ w' = w ++ concat failed
    | None => True
    end).
Proof.
  revert w. induction n as [|n IH]; intros w; cbn [attempts].
  { exists []. split; [constructor|]. right. by rewrite app_nil_r. }
  unfold fuel_bind. eapply wp_bind_2; [apply attempt_wire|]. intros w1 [[[]|[ack|e]]|].
  - intros (x & tr & -> & Htr). eapply wp_mono; [|apply IH]. intros w2 r (failed & Hf & Hr).
    exists (tr :: failed). split; [constructor; [by exists x|done]|]. destruct r as [[ack|e]|]; [| |done].
    + destruct Hr as (x' & tr' & Hl & -> & Hr). exists x', tr'. cbn. split; [lia|]. by rewrite <- !app_assoc.
    + destruct Hr as [Hr|[Hl ->]]; [by left|]. right. cbn. split; [lia|]. by rewrite <- app_assoc.
  - intros (x & tr & -> & Htr). exists []. split; [constructor|]. exists x, tr. split; [simpl; lia|]. done.
  - intros He. exists []. split; [constructor|]. by left.
  - intros _. by exists [].
Qed.

(** C9: the handshake: whatever datagrams arrive, in whatever order, from whatever
    server, [do_discover_request] makes at most three attempts.  Each picks a transaction
    id [x] and sends a DISCOVER with it; datagrams that are damaged, carry another
    transaction id or are no OFFER are passed over; only after an OFFER with the id [x]
    it sends a REQUEST, with the id [x], for exactly the address and the server of that
    OFFER; then it passes over what is not an ACK or NAK with the id [x].  What is
    returned is a well-formed ACK with the transaction id of the last attempt, which came
    after the REQUEST of that attempt.  The client gives up only after three attempts or when
    the socket refuses to send.  It returns: with fuel for the datagrams that can arrive
    within the longest wait. *)
Theorem handshake_follows_protocol gap slack mac t :
  enough_fuel gap slack fuel →
  wp (both wire_step (net_clock gap slack)) (do_discover_request from_utf8 fuel mac) ([], t) (λ w r, ∃ failed,
    Forall (λ tr, ∃ x, attempt_trace mac x tr None) failed ∧
    match r with
    | Some (Ok ack) => (length failed < 3)%nat ∧ ∃ x tr, w.1 = concat failed ++ tr ∧
        reply_xid ack = x ∧ msg_type ack = MSG_ACK ∧ attempt_trace mac x tr (Some ack)
    | Some (Err e) => e ∈ SEND_ERRORS ∨ length failed = 3%nat ∧ w.1 = concat failed
    | None => False
    end).
Proof.
  intros Hfuel. eapply wp_mono;
    [|apply wp_both; [apply (attempts_wire MAX_RETRIES)|by apply (do_discover_request_ends gap slack)]].
  intros [w t'] r [(failed & Hf & Hr) Hn]. exists failed. split; [done|]. simpl in *.
  destruct r as [[ack|e]|]; [|done..]. destruct Hr as (x & tr & Hl & -> & Hr). split; [done|]. by exists x, tr.
Qed.
End wire.

Lemma handshake_follows_protocol_witness :
  let mac := [1; 2; 3; 4; 5; 6] in
  wp (both wire_step (net_clock 10000000 1000000)) (do_discover_request (λ _, None) 4000 mac) ([], 0) (λ w r, ∃ failed,
    Forall (λ tr, ∃ x, attempt_trace mac x tr None) failed ∧
    match r with
    | Some (Ok ack) => (length failed < 3)%nat ∧ ∃ x tr, w.1 = concat failed ++ tr ∧
        reply_xid ack = x ∧ msg_type ack = MSG_ACK ∧ attempt_trace mac x tr (Some ack)
    | Some (Err e) => e ∈ SEND_ERRORS ∨ length failed = 3%nat ∧ w.1 = concat failed
    | None => False
    end).
Proof.
  intros mac. apply (handshake_follows_protocol (λ _, None) 4000 10000000 1000000 mac 0).
  split; [reflexivity|]. split; [discriminate|]. apply Z.ltb_lt. vm_compute. reflexivity.
Defined.

Lemma handshake_follows_protocol_example : matching 305419896 [MSG_OFFER; MSG_ACK]
  (server_packet [1; 2; 3; 4; 5; 6] example_reply [OPT_END]) = Some example_reply.
Proof. vm_compute. reflexivity. Qed.

(** ** The renewal task *)

(** The stored lease of the interface, whether it was there when the task looked, how
    often the task stored one, how many renewal tasks were started, how long the task has
    slept. *)
Record RenewWorld := {
  rw_lease : option ActiveLease;
  rw_found : bool;
  rw_stored : nat;
  rw_spawned : nat;
  rw_slept : Z;
}.

(** While the task sleeps the lease may be released, or another one stored. *)
Definition renew_step : ∀ X, NetOp X → RenewWorld → X → RenewWorld → Prop :=
  λ X e, match e in NetOp X return RenewWorld → X → RenewWorld → Prop with
  | GetLease _ => λ w x w', x = rw_lease w ∧
      w' = {| rw_lease := rw_lease w; rw_found := bool_decide (is_Some (rw_lease w));
              rw_stored := rw_stored w; rw_spawned := rw_spawned w; rw_slept := rw_slept w |}
  | StoreLease _ l => λ w _ w', w' = {| rw_lease := Some l; rw_found := rw_found w;
      rw_stored := S (rw_stored w); rw_spawned := rw_spawned w; rw_slept := rw_slept w |}
  | RemoveLease _ => λ w _ w', w' = {| rw_lease := None; rw_found := rw_found w;
      rw_stored := rw_stored w; rw_spawned := rw_spawned w; rw_slept := rw_slept w |}
  | SpawnRenewal _ _ => λ w _ w', w' = {| rw_lease := rw_lease w; rw_found := rw_found w;
      rw_stored := rw_stored w; rw_spawned := S (rw_spawned w); rw_slept := rw_slept w |}
  | NetSleep s => λ w _ w', ∃ l, w' = {| rw_lease := l; rw_found := rw_found w;
      rw_stored := rw_stored w; rw_spawned := rw_spawned w; rw_slept := rw_slept w + s |}
  | _ => λ w _ w', w' = w
  end.

(** A lease is stored at [at_], and [spawned] successors were started. *)
Definition stored_at (at_ : Z) (spawned : nat) (w w' : RenewWorld) : Prop :=
  is_Some (rw_lease w') ∧ rw_stored w' = S (rw_stored w) ∧
  rw_spawned w' = (spawned + rw_spawned w)%nat ∧ rw_slept w' = rw_slept w + at_.

(** The outcomes of a task that tries at [t1] and at [t2]: the lease is renewed at [t1];
    one that was gone by then is acquired anew, with a successor; a new one is asked for
    at [t2]; or it is removed then. *)
Definition task_outcome (t1 t2 : Z) (w w' : RenewWorld) : Prop :=
  (rw_found w' = true ∧ stored_at t1 0 w w') ∨
  (rw_found w' = false ∧ stored_at t1 1 w w') ∨
  stored_at t2 0 w w' ∨
  (rw_lease w' = None ∧ rw_stored w' = rw_stored w ∧ rw_spawned w' = rw_spawned w ∧
   rw_slept w' = rw_slept w + t2).

(** Code that only talks. *)
Definition talk {A} (p : prog NetOp A) : Prop := ∀ w, keeps renew_step (λ w', w' = w) p.

Lemma talk_op {X} (e : NetOp X) :
  match e with
  | GetLease _ | StoreLease _ _ | RemoveLease _ | SpawnRenewal _ _ | NetSleep _ => False
  | _ => True
  end →
  talk (trigger e).
Proof. intros He w. apply keeps_trigger. intros w1 x w2 ->. destruct e; try done; simpl; naive_solver. Qed.

Lemma talk_bind {A B} (p : prog NetOp A) (k : A → prog NetOp B) :
  talk p → (∀ a, talk (k a)) → talk (prog_bind p k).
Proof. intros Hp Hk w. apply keeps_bind; [apply Hp|intros a; apply Hk]. Qed.

Lemma talk_ret {A} (a : A) : talk (Ret a).
Proof. intros w. apply keeps_ret. Qed.

Lemma talk_for_each {A} (f : A → prog NetOp unit) l : (∀ a, talk (f a)) → talk (for_each f l).
Proof. intros Hf w. apply keeps_for_each. intros a. apply Hf. Qed.

Lemma talk_recv f seconds x expected : talk (recv_matching f seconds x expected).
Proof.
  unfold recv_matching. apply talk_bind; [by apply talk_op|]. intros now w. apply keeps_loop. intros s.
  apply (talk_bind (trigger (RecvUntil _))); [by apply talk_op|]. intros d. apply talk_ret.
Qed.

Ltac talk := repeat first
  [ apply talk_ret | apply talk_recv | apply talk_for_each; intros ? | apply talk_bind; [|intros ?]
  | case_match | apply talk_op; exact I ].

Section renewal.
Context (oc : bool) (from_utf8 : list Z → option string) (fuel : nat).

Lemma talk_discover mac : talk (do_discover_request from_utf8 fuel mac).
Proof.
  unfold do_discover_request. generalize MAX_RETRIES. intros n. induction n as [|n IH]; cbn [attempts]; [apply talk_ret|].
  unfold fuel_bind, attempt, make_xid, fuel_bind. talk. exact IH.
Qed.

Lemma talk_apply iface ack : talk (apply_lease iface ack).
Proof. unfold apply_lease, write_resolv_conf, context, try_bind. talk. Qed.

Lemma talk_get_mac iface : talk (get_mac iface).
Proof. unfold get_mac, context, try_bind. talk. Qed.

(** A fallible step that only talks. *)
Lemma wp_talk_try {A B} (p : prog NetOp (option (result string A))) (k : A → prog NetOp (option (result string B))) w Q :
  talk p → (∀ a, wp renew_step (k a) w Q) → (∀ e, Q w (Some (Err e))) → Q w None →
  wp renew_step (fuel_try p k) w Q.
Proof.
  intros Hp Hk He HN. unfold fuel_try, fuel_bind. eapply wp_bind_2; [by apply Hp|].
  intros w' [[a|e]|] ->; [apply Hk|apply He|done].
Qed.

(** A lease was stored or nothing changed. *)
Definition stored_lease (w w' : RenewWorld) (spawned : nat) : Prop :=
  ∃ l, w' = {| rw_lease := Some l; rw_found := rw_found w; rw_stored := S (rw_stored w);
               rw_spawned := spawned + rw_spawned w; rw_slept := rw_slept w |}.

Lemma rediscover_spec iface w :
  wp renew_step (rediscover from_utf8 fuel iface) w (λ w' r,
    match r with Some (Ok ack) => stored_lease w w' 0 | _ => w' = w end).
Proof.
  unfold rediscover, returning.
  apply wp_talk_try; [|intros mac|done..]. { apply talk_bind; [apply talk_get_mac|intros; apply talk_ret]. }
  apply wp_talk_try; [|intros _|done..]. { talk. }
  apply wp_talk_try; [|intros ack|done..]. { apply talk_discover. }
  apply wp_talk_try; [|intros _|done..]. { apply talk_bind; [apply talk_apply|intros; apply talk_ret]. }
  apply wp_op. intros [] w1 ->. by eexists.
Qed.

Lemma dhcp_acquire_spec iface w :
  wp renew_step (dhcp_acquire from_utf8 fuel iface) w (λ w' r,
    match r with Some (Ok _) => stored_lease w w' 1 | _ => w' = w end).
Proof.
  unfold dhcp_acquire, returning, context. apply wp_op. intros r0 w1 ->.
  apply wp_talk_try; [|intros mac|done..].
  { apply talk_bind; [|intros; apply talk_ret]. apply talk_bind; [apply talk_get_mac|intros; apply talk_ret]. }
  apply wp_talk_try; [talk|intros _|done..].
  apply wp_talk_try; [|intros ack|done..].
  { unfold context_fuel. apply talk_bind; [apply talk_discover|intros; apply talk_ret]. }
  apply wp_talk_try; [|intros _|done..].
  { apply talk_bind; [|intros; apply talk_ret]. apply talk_bind; [apply talk_apply|intros; apply talk_ret]. }
  apply wp_op. intros [] w1 ->. apply wp_op. intros [] w2 ->. by eexists.
Qed.

(** What the task finds decides whether it renews or acquires. *)
Definition looked (w : RenewWorld) : RenewWorld :=
  {| rw_lease := rw_lease w; rw_found := bool_decide (is_Some (rw_lease w));
     rw_stored := rw_stored w; rw_spawned := rw_spawned w; rw_slept := rw_slept w |}.

Lemma dhcp_renew_spec iface w :
  wp renew_step (dhcp_renew from_utf8 fuel iface) w (λ w' r,
    match r with
    | Some (Ok _) => stored_lease (looked w) w' (if rw_found (looked w) then 0 else 1)
    | _ => w' = looked w
    end).
Proof.
  unfold dhcp_renew. apply wp_op. intros stored w1 [-> ->]. fold (looked w).
  destruct (rw_lease w) as [stored|] eqn:Hl.
  2: { assert (rw_found (looked w) = false) as ->; [|apply dhcp_acquire_spec].
       unfold looked. cbn. by rewrite Hl. }
  assert (rw_found (looked w) = true) as -> by (unfold looked; cbn; by rewrite Hl).
  unfold returning, context. apply wp_talk_try; [talk|intros _|done..].
  eapply wp_bind_2 with (R := λ w' _, w' = looked w); [by intros t w1 ->|]. intros w1 x ->.
  apply wp_talk_try; [talk|intros _|done..].
  unfold fuel_bind. eapply wp_bind_2; [by apply talk_recv|]. intros w1 [[ack|e|]|] ->; [| |..|done].
  - apply wp_op. intros [] w1 ->. by eexists.
  - done.
  - unfold fuel_try, fuel_bind. eapply wp_bind_2; [apply rediscover_spec|]. by intros w1 [[ack|e]|] Hr.
Qed.

Lemma renewal_loop_spec (b : bool) iface secs t1 t2 w :
  renewal_times b secs = Some (t1, t2) →
  wp renew_step (renewal_loop b from_utf8 fuel iface secs) w (λ w' r, r = Some tt → task_outcome t1 (Z.max t1 t2) w w').
Proof.
  intros Ht. unfold renewal_loop, task_outcome, stored_at. rewrite Ht. apply wp_op. intros [] w1 [l1 ->].
  unfold fuel_bind at 1. eapply wp_bind_2; [apply dhcp_renew_spec|]. unfold looked, stored_lease.
  cbn [rw_lease rw_found rw_stored rw_spawned rw_slept].
  intros w1 [[info|e]|] Hr; [| |done].
  - destruct Hr as [l ->]. intros _. cbn. case_bool_decide; [left|right; left]; by split_and!.
  - subst w1. apply wp_op. intros [] w1 [l2 ->]. cbn [rw_lease rw_found rw_stored rw_spawned rw_slept].
    unfold saturating_sub_u64. replace (rw_slept w + t1 + Z.max (t2 - t1) 0) with (rw_slept w + Z.max t1 t2) by lia.
    unfold fuel_bind. eapply wp_bind_2; [apply rediscover_spec|]. unfold stored_lease.
    cbn [rw_lease rw_found rw_stored rw_spawned rw_slept]. intros w1 [[ack|e']|] Hr; [| |done].
    + destruct Hr as [l ->]. intros _. right. right. left. by split_and!.
    + subst w1. apply wp_op. intros [] w1 ->. intros _. right. right. right. by split_and!.
Qed.

(** Panic or not, and the times: [u32] multiplication overflows from 613566757 seconds on. *)
Lemma renewal_times_spec secs :
  0 ≤ secs ≤ u32_max →
  let t1 := Z.max (secs / 2) 30 in
  if decide (secs ≤ 613566756) then
    t1 ≤ Z.max (secs * 7 / 8) 60 ∧ renewal_times oc secs = Some (t1, Z.max (secs * 7 / 8) 60)
  else if oc then renewal_times oc secs = None
  else ∃ t2, renewal_times oc secs = Some (t1, t2) ∧ t2 < t1.
Proof.
  intros Hs t1. unfold renewal_times, arith_u32, in_u32, u32_max in *. destruct (decide (secs ≤ 613566756)) as [Hle|Hgt].
  - rewrite (proj2 (Z.leb_le 0 (secs * 7))), (proj2 (Z.leb_le (secs * 7) 4294967295)) by lia. split; [|done].
    unfold t1. assert (secs / 2 ≤ secs * 7 / 8); [|lia].
    apply Z.div_le_lower_bound; [lia|]. pose proof (Z.mul_div_le secs 2 ltac:(lia)). lia.
  - rewrite (proj2 (Z.leb_gt (secs * 7) 4294967295)) by lia. rewrite andb_false_r. destruct oc; [done|].
    eexists. split; [reflexivity|]. unfold t1, wrap_u32.
    pose proof (Z.div_mod (secs * 7) 4294967296 ltac:(lia)).
    pose proof (Z.mod_pos_bound (secs * 7) 4294967296 ltac:(lia)).
    pose proof (Z.div_mod secs 2 ltac:(lia)). pose proof (Z.mod_pos_bound secs 2 ltac:(lia)).
    change (2 ^ 32) with 4294967296. set (m := (secs * 7) mod 4294967296) in *.
    pose proof (Z.div_mod m 8 ltac:(lia)). pose proof (Z.mod_pos_bound m 8 ltac:(lia)). 
    assert (1 ≤ secs * 7 / 4294967296) by (apply Z.div_le_lower_bound; lia). nia.
Qed.

End renewal.


(** ** The prefix length of a mask *)

Definition mask_of (p : Z) : Ipv4Addr :=
  let v := Z.shiftl 4294967295 (32 - p) mod 4294967296 in
  match be_bytes v with [a; b; c; d] => Ip a b c d | _ => Ip 0 0 0 0 end.

Lemma mask_to_prefix_of p : 0 ≤ p ≤ 32 → mask_to_prefix (mask_of p) = p.
Proof.
  intros Hp. assert (Forall (λ n, mask_to_prefix (mask_of (Z.of_nat n)) = Z.of_nat n) (seq 0 33)) as H.
  { apply Forall_forall. intros n Hn. revert n Hn. apply Forall_forall.
    apply (bool_decide_unpack _). vm_compute. exact I. }
  rewrite Forall_forall in H. specialize (H (Z.to_nat p)). rewrite Z2Nat.id in H by lia.
  apply H, elem_of_seq. lia.
Qed.
