(* ===== verification/Dhcp6.v ===== *)
(** * DHCPv6 messages

    The pure half of [quantra-net/quantra-netd/src/ipv6.rs]: the messages that the client
    sends, the parser of the replies, addresses and their text, the address that the kernel
    configured itself, and the nameserver lines. *)

From Stdlib Require Import ZArith Ascii.
From stdpp Require Import base tactics numbers list strings.
From S2P Require Import Prelude RustStr Effects DhcpClient.

Local Open Scope string_scope.
Local Open Scope list_scope.
Local Open Scope Z_scope.
Local Open Scope quantra_scope.

(** ** Protocol constants (RFC 8415) *)

Definition DHCP6_CLIENT_PORT : Z := 546.
Definition DHCP6_SERVER_PORT : Z := 547.

Definition MSG_SOLICIT : Z := 1.
Definition MSG_ADVERTISE : Z := 2.
Definition MSG_REQUEST : Z := 3.
Definition MSG_REPLY : Z := 7.
Definition MSG_RELEASE : Z := 8.

Definition OPT_CLIENTID : Z := 1.
Definition OPT_SERVERID : Z := 2.
Definition OPT_IA_NA : Z := 3.
Definition OPT_IA_ADDR : Z := 5.
Definition OPT_ORO : Z := 6.
Definition OPT_ELAPSED : Z := 8.
Definition OPT_STATUS : Z := 13.
Definition OPT_DNS : Z := 23.
Definition OPT_DOMAIN : Z := 24.

Definition STATUS_SUCCESS : Z := 0.

(** In seconds. *)
Definition SOLICIT_TIMEOUT : Z := 10.
Definition REPLY_TIMEOUT : Z := 10.
Definition MAX_RETRIES : nat := 3.

(** ** Addresses *)

(** [Ipv6Addr]: sixteen octets. *)
Definition Ipv6Addr := list Z.

(** [ff02::1:2], all DHCP relay agents and servers. *)
Definition DHCP6_MULTICAST : Ipv6Addr := [255; 2; 0; 0; 0; 0; 0; 0; 0; 0; 0; 0; 0; 1; 0; 2].

Definition hex_digit (z : Z) : string :=
  String (ascii_of_nat (Z.to_nat (if z <? 10 then 48 + z else 87 + z))) EmptyString.

(** [{:x}] of a 16 bit number: no leading zeros. *)
Definition show_hex16 (z : Z) : string :=
  (if z <? 4096 then "" else hex_digit (z / 4096)) +:+
  (if z <? 256 then "" else hex_digit (z / 256 mod 16)) +:+
  (if z <? 16 then "" else hex_digit (z / 16 mod 16)) +:+
  hex_digit (z mod 16).

Fixpoint segments (a : list Z) : list Z :=
  match a with
  | h :: l :: a => h * 256 + l :: segments a
  | _ => []
  end.

(** The first of the longest runs of zeros, as start and length. *)
Fixpoint longest_zeros (i : nat) (segs : list Z) (current longest : nat * nat) : nat * nat :=
  match segs with
  | [] => longest
  | seg :: segs =>
      if seg =? 0 then
        let current := ((if (current.2 =? 0)%nat then i else current.1), S current.2) in
        longest_zeros (S i) segs current (if (longest.2 <? current.2)%nat then current else longest)
      else longest_zeros (S i) segs (0%nat, 0%nat) longest
  end.

(** [Display] of an [Ipv6Addr]. *)
Definition show_ip6 (a : Ipv6Addr) : string :=
  let segs := segments a in
  let fmt l := join ":" (show_hex16 <$> l) in
  if bool_decide (take 6 segs = [0; 0; 0; 0; 0; 65535]) then
    "::ffff:" +:+ join "." (show_uint <$> drop 12 a)
  else
    let '(start, len) := longest_zeros 0 segs (0%nat, 0%nat) (0%nat, 0%nat) in
    if (1 <? len)%nat then fmt (take start segs) +:+ "::" +:+ fmt (drop (start + len) segs)
    else fmt segs.

(** ** Numbers in network order *)

Definition be16 (v : Z) : list Z := [v / 256 mod 256; v mod 256].

Definition be32 (v : Z) : list Z :=
  [v / 16777216 mod 256; v / 65536 mod 256; v / 256 mod 256; v mod 256].

(** Reading at an offset; [None] is the panic of an index out of range. *)
Definition u16_at (b : list Z) (i : nat) : option Z :=
  h ← b !! i; l ← b !! (i + 1)%nat; Some (h * 256 + l).

Definition u32_at (b : list Z) (i : nat) : option Z :=
  h ← u16_at b i; l ← u16_at b (i + 2); Some (h * 65536 + l).

Definition slice (b : list Z) (i len : nat) : option (list Z) :=
  if (i + len <=? length b)%nat then Some (take len (drop i b)) else None.

(** ** Messages *)

(** DUID-LL, type 3, of an Ethernet address. *)
Definition make_duid_ll (mac : list Z) : list Z := be16 3 ++ be16 1 ++ mac.

(** The last four octets of the address: [None] when it is not six octets long, which
    the type [[u8; 6]] excludes. *)
Definition iaid_from_mac (mac : list Z) : option Z := u32_at mac 2.

Definition make_xid6 (nanos : option Z) : list Z :=
  let t := default 1193046 nanos in
  [Z.land (Z.shiftr t 16) 255; Z.land (Z.shiftr t 8) 255; Z.land t 255].

(** The length is cast to [u16]. *)
Definition opt (code : Z) (data : list Z) : list Z :=
  be16 code ++ be16 (wrap_u16 (Z.of_nat (length data))) ++ data.

Definition header6 (msg_type : Z) (xid : list Z) : list Z := msg_type :: xid.

(** The options of an IA_NA: its identifier, T1, T2 and what follows. *)
Definition ia_na (iaid t1 t2 : Z) (options : list Z) : list Z := be32 iaid ++ be32 t1 ++ be32 t2 ++ options.

Definition ia_addr (addr : Ipv6Addr) (preferred valid : Z) : list Z := addr ++ be32 preferred ++ be32 valid.

Definition solicit (mac xid : list Z) (iaid : Z) : list Z :=
  header6 MSG_SOLICIT xid ++ opt OPT_CLIENTID (make_duid_ll mac) ++ opt OPT_IA_NA (ia_na iaid 0 0 []) ++
  opt OPT_ELAPSED (be16 0) ++ opt OPT_ORO (be16 OPT_DNS ++ be16 OPT_DOMAIN).

Definition request6 (mac xid server_duid : list Z) (iaid : Z) (requested : option Ipv6Addr) : list Z :=
  header6 MSG_REQUEST xid ++ opt OPT_CLIENTID (make_duid_ll mac) ++ opt OPT_SERVERID server_duid ++
  opt OPT_IA_NA (ia_na iaid 0 0
    match requested with
    | Some addr => opt OPT_IA_ADDR (ia_addr addr 3600 7200)
    | None => []
    end) ++
  opt OPT_ORO (be16 OPT_DNS) ++ opt OPT_ELAPSED (be16 0).

Definition release6 (mac xid server_duid : list Z) (iaid : Z) (addr : Ipv6Addr) : list Z :=
  header6 MSG_RELEASE xid ++ opt OPT_CLIENTID (make_duid_ll mac) ++ opt OPT_SERVERID server_duid ++
  opt OPT_IA_NA (ia_na iaid 0 0 (opt OPT_IA_ADDR (ia_addr addr 0 0))).

(** ** Replies *)

Record Dhcp6Reply := {
  d6_msg_type : Z;
  d6_xid : list Z;
  d6_server_duid : list Z;
  d6_ia_address : option Ipv6Addr;
  d6_prefix_len : Z;
  d6_preferred : Z;
  d6_valid : Z;
  d6_t1 : Z;
  d6_t2 : Z;
  d6_dns : list Ipv6Addr;
  d6_status_code : Z;
}.

Definition reply0 (msg_type : Z) (xid : list Z) : Dhcp6Reply := {|
  d6_msg_type := msg_type; d6_xid := xid; d6_server_duid := []; d6_ia_address := None;
  d6_prefix_len := 128; d6_preferred := 3600; d6_valid := 7200; d6_t1 := 1800; d6_t2 := 2880;
  d6_dns := []; d6_status_code := STATUS_SUCCESS |}.

(** The loop over options, which the source writes out for the message and for an IA_NA:
    from offset [i] on, an option that does not fit ends it.  Every turn moves on by four,
    so that the length of the buffer is enough fuel. *)
Fixpoint options_loop {R} (apply : Z → list Z → R → option R) (fuel : nat) (b : list Z) (i : nat) (r : R)
    : option R :=
  match fuel with
  | O => Some r
  | S fuel =>
      if (i + 4 <=? length b)%nat then
        code ← u16_at b i;
        len ← Z.to_nat <$> u16_at b (i + 2);
        let i := (i + 4)%nat in
        if (length b <? i + len)%nat then Some r
        else
          data ← slice b i len;
          r ← apply code data r;
          options_loop apply fuel b (i + len) r
      else Some r
  end.

(** An option inside an IA_NA. *)
Definition apply_ia_option (code : Z) (data : list Z) (r : Dhcp6Reply) : option Dhcp6Reply :=
  if (code =? OPT_IA_ADDR) && (24 <=? length data)%nat then
    addr ← slice data 0 16; preferred ← u32_at data 16; valid ← u32_at data 20;
    Some {| d6_msg_type := d6_msg_type r; d6_xid := d6_xid r; d6_server_duid := d6_server_duid r;
            d6_ia_address := Some addr; d6_prefix_len := d6_prefix_len r; d6_preferred := preferred;
            d6_valid := valid; d6_t1 := d6_t1 r; d6_t2 := d6_t2 r; d6_dns := d6_dns r;
            d6_status_code := d6_status_code r |}
  else Some r.

(** [while j + 16 <= len]. *)
Fixpoint dns6_loop (fuel : nat) (data : list Z) (j : nat) (acc : list Ipv6Addr) : option (list Ipv6Addr) :=
  match fuel with
  | O => Some acc
  | S fuel =>
      if (j + 16 <=? length data)%nat then
        a ← slice data j 16; dns6_loop fuel data (j + 16) (acc ++ [a])
      else Some acc
  end.

(** [match code]. *)
Definition apply_option6 (code : Z) (data : list Z) (r : Dhcp6Reply) : option Dhcp6Reply :=
  let len := length data in
  if code =? OPT_SERVERID then
    Some {| d6_msg_type := d6_msg_type r; d6_xid := d6_xid r; d6_server_duid := data;
            d6_ia_address := d6_ia_address r; d6_prefix_len := d6_prefix_len r;
            d6_preferred := d6_preferred r; d6_valid := d6_valid r; d6_t1 := d6_t1 r; d6_t2 := d6_t2 r;
            d6_dns := d6_dns r; d6_status_code := d6_status_code r |}
  else if (code =? OPT_IA_NA) && (12 <=? len)%nat then
    t1 ← u32_at data 4; t2 ← u32_at data 8;
    options_loop apply_ia_option len data 12
      {| d6_msg_type := d6_msg_type r; d6_xid := d6_xid r; d6_server_duid := d6_server_duid r;
         d6_ia_address := d6_ia_address r; d6_prefix_len := d6_prefix_len r;
         d6_preferred := d6_preferred r; d6_valid := d6_valid r; d6_t1 := t1; d6_t2 := t2;
         d6_dns := d6_dns r; d6_status_code := d6_status_code r |}
  else if code =? OPT_DNS then
    dns ← dns6_loop len data 0 (d6_dns r);
    Some {| d6_msg_type := d6_msg_type r; d6_xid := d6_xid r; d6_server_duid := d6_server_duid r;
            d6_ia_address := d6_ia_address r; d6_prefix_len := d6_prefix_len r;
            d6_preferred := d6_preferred r; d6_valid := d6_valid r; d6_t1 := d6_t1 r; d6_t2 := d6_t2 r;
            d6_dns := dns; d6_status_code := d6_status_code r |}
  else if (code =? OPT_STATUS) && (2 <=? len)%nat then
    status ← u16_at data 0;
    Some {| d6_msg_type := d6_msg_type r; d6_xid := d6_xid r; d6_server_duid := d6_server_duid r;
            d6_ia_address := d6_ia_address r; d6_prefix_len := d6_prefix_len r;
            d6_preferred := d6_preferred r; d6_valid := d6_valid r; d6_t1 := d6_t1 r; d6_t2 := d6_t2 r;
            d6_dns := d6_dns r; d6_status_code := status |}
  else Some r.

(** The outer [None] is a panic. *)
Definition parse_dhcp6_reply (b : list Z) : option (option Dhcp6Reply) :=
  if (length b <? 4)%nat then Some None
  else
    msg_type ← b !! 0%nat; x0 ← b !! 1%nat; x1 ← b !! 2%nat; x2 ← b !! 3%nat;
    r ← options_loop apply_option6 (length b) b 4 (reply0 msg_type [x0; x1; x2]);
    Some (Some r).

(** ** The address that the kernel configured *)

(** [chunks(4)] of the text. *)
Fixpoint groups_of_four (s : string) : list string :=
  match s with
  | String a (String b (String c (String d s))) =>
      String a (String b (String c (String d EmptyString))) :: groups_of_four s
  | EmptyString => []
  | s => [s]
  end.

(** One line of [/proc/net/if_inet6]: [None] is [continue]. *)
Definition if_inet6_line (iface line : string) : option string :=
  match split_whitespace line with
  | hex :: _ :: prefix :: scope :: _ :: name :: _ =>
      if negb (String.eqb name iface) then None
      else if negb (default 255 (parse_hex_u8 scope) =? 0) then None
      else if negb (String.length hex =? 32)%nat then None
      else Some (join ":" (groups_of_four hex) +:+ "/" +:+ show_uint (default 128 (parse_hex_u8 prefix)))
  | _ => None
  end.

Fixpoint first_some {A B} (f : A → option B) (l : list A) : option B :=
  match l with
  | [] => None
  | a :: l => match f a with Some b => Some b | None => first_some f l end
  end.

(** [read_global_ipv6], given what the file contains. *)
Definition global_ipv6 (iface content : string) : option string :=
  first_some (if_inet6_line iface) (lines content).

(** ** Nameservers *)

Definition nameserver_entry (srv : Ipv6Addr) : string :=
  "nameserver " +:+ show_ip6 srv +:+ String newline EmptyString.

Definition push_nameserver (content : string) (srv : Ipv6Addr) : string :=
  let entry := nameserver_entry srv in
  if contains entry content then content else content +:+ entry.

Definition with_nameservers (existing : string) (servers : list Ipv6Addr) : string :=
  foldl push_nameserver existing servers.

(** ** The parser *)

Lemma u16_at_Some (b : list Z) i : (i + 2 <= length b)%nat → is_Some (u16_at b i).
Proof.
  intros Hl. unfold u16_at. destruct (lookup_lt_is_Some_2 b i) as [h ->]; [lia|].
  destruct (lookup_lt_is_Some_2 b (i + 1)) as [l ->]; [lia|]. by eexists.
Qed.

Lemma u32_at_Some (b : list Z) i : (i + 4 <= length b)%nat → is_Some (u32_at b i).
Proof.
  intros Hl. unfold u32_at. destruct (u16_at_Some b i) as [h ->]; [lia|].
  destruct (u16_at_Some b (i + 2)) as [l ->]; [lia|]. by eexists.
Qed.

Lemma slice_Some (b : list Z) i len : (i + len <= length b)%nat → slice b i len = Some (take len (drop i b)).
Proof. intros Hl. unfold slice. by destruct (Nat.leb_spec (i + len) (length b)); [|lia]. Qed.

(** No index is out of range. *)
Lemma options_loop_Some {R} (apply : Z → list Z → R → option R) fuel b i r :
  (∀ code data r, is_Some (apply code data r)) → is_Some (options_loop apply fuel b i r).
Proof.
  intros Happ. revert i r. induction fuel as [|fuel IH]; intros i r; [by eexists|]. cbn [options_loop].
  destruct (Nat.leb_spec (i + 4) (length b)); [|by eexists].
  destruct (u16_at_Some b i) as [code ->]; [lia|]. destruct (u16_at_Some b (i + 2)) as [len ->]; [lia|].
  cbn [mbind option_bind fmap option_fmap option_map].
  destruct (Nat.ltb_spec (length b) (i + 4 + Z.to_nat len)); [by eexists|].
  rewrite slice_Some by lia. cbn [mbind option_bind].
  destruct (Happ code (take (Z.to_nat len) (drop (i + 4) b)) r) as [r' ->]. apply IH.
Qed.

Lemma apply_ia_option_Some code data r : is_Some (apply_ia_option code data r).
Proof.
  unfold apply_ia_option. destruct (_ && _) eqn:Hc; [|by eexists].
  apply andb_true_iff in Hc as [_ Hl%Nat.leb_le]. rewrite slice_Some by lia.
  destruct (u32_at_Some data 16) as [p ->]; [lia|]. destruct (u32_at_Some data 20) as [v ->]; [lia|]. by eexists.
Qed.

Lemma dns6_loop_Some fuel data j acc : is_Some (dns6_loop fuel data j acc).
Proof.
  revert j acc. induction fuel as [|fuel IH]; intros j acc; [by eexists|]. cbn [dns6_loop].
  destruct (Nat.leb_spec (j + 16) (length data)); [|by eexists]. rewrite slice_Some by lia. apply IH.
Qed.

Lemma apply_option6_Some code data r : is_Some (apply_option6 code data r).
Proof.
  unfold apply_option6. destruct (code =? OPT_SERVERID); [by eexists|].
  destruct ((code =? OPT_IA_NA) && _) eqn:Hia.
  { apply andb_true_iff in Hia as [_ Hl%Nat.leb_le].
    destruct (u32_at_Some data 4) as [p ->]; [lia|]. destruct (u32_at_Some data 8) as [v ->]; [lia|].
    apply options_loop_Some, apply_ia_option_Some. }
  destruct (code =? OPT_DNS).
  { destruct (dns6_loop_Some (length data) data 0 (d6_dns r)) as [l ->]. by eexists. }
  destruct ((code =? OPT_STATUS) && _) eqn:Hst; [|by eexists].
  apply andb_true_iff in Hst as [_ Hl%Nat.leb_le]. destruct (u16_at_Some data 0) as [s ->]; [lia|]. by eexists.
Qed.

Lemma parse_dhcp6_reply_Some b : is_Some (parse_dhcp6_reply b).
Proof.
  unfold parse_dhcp6_reply. destruct (Nat.ltb_spec (length b) 4); [by eexists|].
  destruct (lookup_lt_is_Some_2 b 0) as [m ->]; [lia|]. destruct (lookup_lt_is_Some_2 b 1) as [x0 ->]; [lia|].
  destruct (lookup_lt_is_Some_2 b 2) as [x1 ->]; [lia|]. destruct (lookup_lt_is_Some_2 b 3) as [x2 ->]; [lia|].
  cbn [mbind option_bind].
  destruct (options_loop_Some apply_option6 (length b) b 4 (reply0 m [x0; x1; x2]) apply_option6_Some) as [r ->].
  by eexists.
Qed.

(** ** Reading back what a server sends *)

Definition in_u16 (z : Z) : Prop := 0 ≤ z ≤ u16_max.

Lemma u16_at_be16 pre z rest : in_u16 z → u16_at (pre ++ be16 z ++ rest) (length pre) = Some z.
Proof.
  unfold in_u16, u16_max. intros Hz. unfold u16_at, be16.
  rewrite (lookup_app_r pre _ (length pre)), (lookup_app_r pre _ (length pre + 1)) by lia.
  rewrite Nat.sub_diag. replace (length pre + 1 - length pre)%nat with 1%nat by lia. simpl. f_equal.
  rewrite (Z.mod_small (z / 256)); [pose proof (Z.div_mod z 256); lia|].
  split; [apply Z.div_pos; lia|apply Z.div_lt_upper_bound; lia].
Qed.

Lemma u32_at_be32 pre z rest : 0 ≤ z ≤ u32_max → u32_at (pre ++ be32 z ++ rest) (length pre) = Some z.
Proof.
  unfold u32_max. intros Hz. unfold u32_at.
  assert (be32 z = be16 (z / 65536) ++ be16 (z mod 65536)) as ->.
  { unfold be32, be16. cbn [app].
    assert (z mod 65536 = z / 256 mod 256 * 256 + z mod 256) as ->.
    { change 65536 with (256 * 256). rewrite Z.rem_mul_r by lia. lia. }
    rewrite Z.div_div by lia. change (65536 * 256) with 16777216.
    rewrite Z.div_add_l, (Z.div_small (z mod 256)), Z.add_0_r, Z.mod_mod by (try apply Z.mod_pos_bound; lia).
    by rewrite (Z.add_comm (_ * 256)), Z.mod_add, Z.mod_mod by lia. }
  assert (in_u16 (z / 65536)) by (unfold in_u16, u16_max; split; [apply Z.div_pos; lia|];
    assert (z / 65536 < 65536) by (apply Z.div_lt_upper_bound; lia); lia).
  assert (in_u16 (z mod 65536)) by (unfold in_u16, u16_max; pose proof (Z.mod_pos_bound z 65536); lia).
  rewrite <- app_assoc, u16_at_be16 by done. cbn [mbind option_bind].
  rewrite app_assoc. replace (length pre + 2)%nat with (length (pre ++ be16 (z / 65536)))
    by (rewrite length_app; done).
  rewrite u16_at_be16 by done. cbn [mbind option_bind]. f_equal. pose proof (Z.div_mod z 65536). lia.
Qed.

Lemma slice_app (pre data rest : list Z) : slice (pre ++ data ++ rest) (length pre) (length data) = Some data.
Proof.
  rewrite slice_Some by (rewrite !length_app; lia). by rewrite drop_app_length, take_app_length.
Qed.

(** An option as a server writes it. *)
Definition tlv6_ok (t : Z * list Z) : Prop := in_u16 t.1 ∧ Z.of_nat (length t.2) ≤ u16_max.

(** What may follow the options: too little for another one. *)
Definition tail6_ok (tail : list Z) : Prop := (length tail < 4)%nat.

Lemma length_opt code data : length (opt code data) = (4 + length data)%nat.
Proof. unfold opt. by rewrite !length_app. Qed.

Lemma options_loop_tlvs {R} (apply : Z → list Z → R → option R) (effect : R → Z * list Z → R) fuel pre ts tail r :
  Forall (λ t, tlv6_ok t ∧ ∀ r, apply t.1 t.2 r = Some (effect r t)) ts → tail6_ok tail →
  (length (ts ≫= λ t, opt t.1 t.2) + length tail <= fuel)%nat →
  options_loop apply fuel (pre ++ (ts ≫= λ t, opt t.1 t.2) ++ tail) (length pre) r = Some (foldl effect r ts).
Proof.
  intros Hts Htail. revert pre r fuel. induction Hts as [|[code data] ts [[Hc Hd] Ht] Hts IH]; intros pre r fuel Hf.
  - csimpl. destruct fuel as [|fuel]; [done|]. cbn [options_loop]. rewrite length_app.
    unfold tail6_ok in Htail. by destruct (Nat.leb_spec (length pre + 4) (length pre + length tail)); [lia|].
  - rewrite bind_cons in Hf |- *. cbn [fst snd foldl] in *. rewrite !length_app, length_opt in Hf.
    destruct fuel as [|fuel]; [lia|]. rewrite <- app_assoc.
    assert (length ((ts ≫= λ t, opt t.1 t.2) ++ tail) + 4 + length data <= S fuel)%nat as Hr by (rewrite length_app; lia).
    set (rest := (ts ≫= λ t, opt t.1 t.2) ++ tail) in *.
    assert (wrap_u16 (Z.of_nat (length data)) = Z.of_nat (length data)) as Hw.
    { unfold wrap_u16. apply Z.mod_small. unfold u16_max in Hd. lia. }
    cbn [options_loop]. set (b := pre ++ opt code data ++ rest).
    assert (length b = length pre + 4 + length data + length rest)%nat as Hl.
    { unfold b. rewrite !length_app, length_opt. lia. }
    destruct (Nat.leb_spec (length pre + 4) (length b)); [|lia].
    assert (b = pre ++ be16 code ++ be16 (Z.of_nat (length data)) ++ data ++ rest) as Hb.
    { unfold b, opt. rewrite Hw. by rewrite <- !app_assoc. }
    clearbody b.
    assert (u16_at b (length pre) = Some code) as -> by (rewrite Hb; by apply u16_at_be16). cbn [mbind option_bind].
    assert (u16_at b (length pre + 2) = Some (Z.of_nat (length data))) as ->.
    { rewrite Hb, app_assoc. replace (length pre + 2)%nat with (length (pre ++ be16 code)) by (rewrite length_app; done).
      apply u16_at_be16. unfold in_u16. lia. }
    cbn [mbind option_bind fmap option_fmap option_map]. rewrite Nat2Z.id.
    destruct (Nat.ltb_spec (length b) (length pre + 4 + length data)); [lia|].
    set (head := pre ++ be16 code ++ be16 (Z.of_nat (length data))).
    assert (length pre + 4 = length head)%nat as Hh by (unfold head; rewrite !length_app; simpl; lia).
    assert (b = head ++ data ++ rest) as Hb2 by (rewrite Hb; unfold head; by rewrite <- !app_assoc).
    rewrite Hh. assert (slice b (length head) (length data) = Some data) as -> by (rewrite Hb2; apply slice_app). cbn [mbind option_bind]. rewrite Ht. cbn [mbind option_bind].
    rewrite Hb2, app_assoc, <- length_app. apply IH. lia.
Qed.

(** What a server writes into a message, and into an IA_NA. *)
Inductive IaOption :=
| IaAddress (addr : Ipv6Addr) (preferred valid : Z) (more : list Z)
| OtherIa (code : Z) (data : list Z).

Inductive Option6 :=
| ServerId (duid : list Z)
| IaNa (iaid t1 t2 : Z) (options : list IaOption) (tail : list Z)
| DnsServers (servers : list Ipv6Addr) (tail : list Z)
| StatusCode (status : Z) (text : list Z)
| OtherOption (code : Z) (data : list Z).

Definition ia_tlv (o : IaOption) : Z * list Z :=
  match o with
  | IaAddress addr preferred valid more => (OPT_IA_ADDR, ia_addr addr preferred valid ++ more)
  | OtherIa code data => (code, data)
  end.

Definition ia_options (l : list IaOption) : list Z := (ia_tlv <$> l) ≫= λ t, opt t.1 t.2.

Definition tlv6 (o : Option6) : Z * list Z :=
  match o with
  | ServerId duid => (OPT_SERVERID, duid)
  | IaNa iaid t1 t2 options tail => (OPT_IA_NA, ia_na iaid t1 t2 (ia_options options ++ tail))
  | DnsServers servers tail => (OPT_DNS, concat servers ++ tail)
  | StatusCode status text => (OPT_STATUS, be16 status ++ text)
  | OtherOption code data => (code, data)
  end.

Definition message6 (msg_type : Z) (xid : list Z) (options : list Option6) (tail : list Z) : list Z :=
  header6 msg_type xid ++ ((tlv6 <$> options) ≫= λ t, opt t.1 t.2) ++ tail.

Definition in_u32_ (z : Z) : Prop := 0 ≤ z ≤ u32_max.

Definition ia_ok (o : IaOption) : Prop :=
  tlv6_ok (ia_tlv o) ∧
  match o with
  | IaAddress addr preferred valid _ => length addr = 16%nat ∧ in_u32_ preferred ∧ in_u32_ valid
  | OtherIa code _ => code ≠ OPT_IA_ADDR
  end.

Definition option6_ok (o : Option6) : Prop :=
  tlv6_ok (tlv6 o) ∧
  match o with
  | ServerId _ => True
  | IaNa iaid t1 t2 options tail =>
      in_u32_ iaid ∧ in_u32_ t1 ∧ in_u32_ t2 ∧ Forall ia_ok options ∧ tail6_ok tail
  | DnsServers servers tail => Forall (λ a : Ipv6Addr, length a = 16%nat) servers ∧ (length tail < 16)%nat
  | StatusCode status _ => in_u16 status
  | OtherOption code _ => code ∉ [OPT_SERVERID; OPT_IA_NA; OPT_DNS; OPT_STATUS]
  end.

(** What it means: the last server identifier, T1, T2, address and status count, and the
    nameservers of all options. *)
Definition ia_meaning (r : Dhcp6Reply) (o : IaOption) : Dhcp6Reply :=
  match o with
  | IaAddress addr preferred valid _ =>
      {| d6_msg_type := d6_msg_type r; d6_xid := d6_xid r; d6_server_duid := d6_server_duid r;
         d6_ia_address := Some addr; d6_prefix_len := d6_prefix_len r; d6_preferred := preferred;
         d6_valid := valid; d6_t1 := d6_t1 r; d6_t2 := d6_t2 r; d6_dns := d6_dns r;
         d6_status_code := d6_status_code r |}
  | OtherIa _ _ => r
  end.

Definition meaning (r : Dhcp6Reply) (o : Option6) : Dhcp6Reply :=
  let update duid t1 t2 dns status :=
    {| d6_msg_type := d6_msg_type r; d6_xid := d6_xid r; d6_server_duid := duid;
       d6_ia_address := d6_ia_address r; d6_prefix_len := d6_prefix_len r;
       d6_preferred := d6_preferred r; d6_valid := d6_valid r; d6_t1 := t1; d6_t2 := t2;
       d6_dns := dns; d6_status_code := status |} in
  match o with
  | ServerId duid => update duid (d6_t1 r) (d6_t2 r) (d6_dns r) (d6_status_code r)
  | IaNa _ t1 t2 options _ =>
      foldl ia_meaning (update (d6_server_duid r) t1 t2 (d6_dns r) (d6_status_code r)) options
  | DnsServers servers _ => update (d6_server_duid r) (d6_t1 r) (d6_t2 r) (d6_dns r ++ servers) (d6_status_code r)
  | StatusCode status _ => update (d6_server_duid r) (d6_t1 r) (d6_t2 r) (d6_dns r) status
  | OtherOption _ _ => r
  end.

Lemma foldl_fmap_ok {A R T} (tlv : A → T) (h : R → T → R) (g : R → A → R) l r :
  Forall (λ a, ∀ r, h r (tlv a) = g r a) l → foldl h r (tlv <$> l) = foldl g r l.
Proof. intros Hl. revert r. induction Hl as [|a l Ha _ IH]; intros r; csimpl; [done|]. by rewrite Ha, IH. Qed.

Lemma apply_ia_option_ok o r : ia_ok o → apply_ia_option (ia_tlv o).1 (ia_tlv o).2 r = Some (ia_meaning r o).
Proof.
  intros [_ Ho]. destruct o as [addr p v more|code data]; cbn [ia_tlv fst snd ia_meaning].
  - destruct Ho as (Ha & Hp & Hv). unfold apply_ia_option, ia_addr. rewrite <- !app_assoc.
    change (OPT_IA_ADDR =? OPT_IA_ADDR) with true. rewrite !length_app, Ha.
    destruct (Nat.leb_spec 24 (16 + (length (be32 p) + (length (be32 v) + length more)))) as [_|H];
      [|simpl in H; lia]. cbn [andb].
    pose proof (slice_app [] addr (be32 p ++ be32 v ++ more)) as Hs. rewrite Ha in Hs. cbn [app length] in Hs. rewrite Hs.
    pose proof (u32_at_be32 addr p (be32 v ++ more) Hp) as H1. rewrite Ha in H1. rewrite H1.
    pose proof (u32_at_be32 (addr ++ be32 p) v more Hv) as H2. rewrite <- app_assoc, length_app, Ha in H2.
    change (16 + length (be32 p))%nat with 20%nat in H2. rewrite H2. done.
  - unfold apply_ia_option. by rewrite (proj2 (Z.eqb_neq _ _) Ho).
Qed.

Lemma dns6_loop_servers fuel pre servers tail acc :
  Forall (λ a : Ipv6Addr, length a = 16%nat) servers → (length tail < 16)%nat →
  (length servers <= fuel)%nat →
  dns6_loop fuel (pre ++ concat servers ++ tail) (length pre) acc = Some (acc ++ servers).
Proof.
  intros Hs Ht. revert pre acc fuel. induction Hs as [|a servers Ha Hs IH]; intros pre acc fuel Hf.
  - rewrite app_nil_r. destruct fuel as [|fuel]; [done|]. cbn [dns6_loop concat]. rewrite !length_app. cbn [length].
    by destruct (Nat.leb_spec (length pre + 16) (length pre + (0 + length tail))); [lia|].
  - destruct fuel as [|fuel]; [simpl in Hf; lia|]. cbn [dns6_loop concat]. rewrite <- app_assoc.
    destruct (Nat.leb_spec (length pre + 16) (length (pre ++ a ++ concat servers ++ tail))) as [_|H];
      [|rewrite !length_app in H; lia].
    pose proof (slice_app pre a (concat servers ++ tail)) as Hsl. rewrite Ha in Hsl. rewrite Hsl. cbn [mbind option_bind].
    rewrite app_assoc. replace (length pre + 16)%nat with (length (pre ++ a)) by (rewrite length_app; lia).
    rewrite IH by (simpl in Hf; lia). by rewrite <- app_assoc.
Qed.

Lemma concat_length_le (servers : list Ipv6Addr) :
  Forall (λ a : Ipv6Addr, length a = 16%nat) servers → (length servers <= length (concat servers))%nat.
Proof. induction 1 as [|a l Ha _ IH]; [done|]. cbn [concat]. rewrite length_app. simpl. lia. Qed.

Lemma apply_ia_na iaid t1 t2 options tail r :
  in_u32_ iaid → in_u32_ t1 → in_u32_ t2 → Forall ia_ok options → tail6_ok tail →
  apply_option6 OPT_IA_NA (ia_na iaid t1 t2 (ia_options options ++ tail)) r
  = Some (meaning r (IaNa iaid t1 t2 options tail)).
Proof.
  intros Hi H1 H2 Ho Ht. unfold apply_option6. set (data := ia_na _ _ _ _).
  change (OPT_IA_NA =? OPT_SERVERID) with false. change (OPT_IA_NA =? OPT_IA_NA) with true. cbv iota.
  assert (length data = 12 + length (ia_options options ++ tail))%nat as Hl.
  { unfold data, ia_na. by rewrite !length_app. }
  destruct (Nat.leb_spec 12 (length data)) as [_|H]; [|lia]. cbn [andb].
  assert (u32_at data 4 = Some t1) as ->.
  { unfold data, ia_na. by apply (u32_at_be32 (be32 iaid)). }
  assert (u32_at data 8 = Some t2) as ->.
  { unfold data, ia_na. rewrite app_assoc. by apply (u32_at_be32 (be32 iaid ++ be32 t1)). }
  cbn [mbind option_bind].
  assert (data = (be32 iaid ++ be32 t1 ++ be32 t2) ++ ((ia_tlv <$> options) ≫= λ t, opt t.1 t.2) ++ tail) as Hd.
  { unfold data, ia_na. by rewrite <- !app_assoc. }
  set (r1 := {| d6_msg_type := _ |}). rewrite Hd at 2. change 12%nat with (length (be32 iaid ++ be32 t1 ++ be32 t2)).
  rewrite (options_loop_tlvs _ (λ r t, default r (apply_ia_option t.1 t.2 r))).
  - f_equal. apply foldl_fmap_ok. eapply Forall_impl; [exact Ho|]. intros o Hok r2.
    by rewrite apply_ia_option_ok.
  - apply Forall_fmap. eapply Forall_impl; [exact Ho|]. intros o Hok. split; [by destruct Hok|]. intros r2.
    simpl. by destruct (apply_ia_option_Some (ia_tlv o).1 (ia_tlv o).2 r2) as [r3 ->].
  - done.
  - rewrite Hl. unfold ia_options. rewrite length_app. lia.
Qed.

Lemma apply_option6_ok o r : option6_ok o → apply_option6 (tlv6 o).1 (tlv6 o).2 r = Some (meaning r o).
Proof.
  intros [_ Ho]. destruct o as [duid|iaid t1 t2 options tail|servers tail|status text|code data]; cbn [tlv6 fst snd].
  - done.
  - destruct Ho as (? & ? & ? & ? & ?). by apply apply_ia_na.
  - destruct Ho as [Hs Ht]. unfold apply_option6.
    change (OPT_DNS =? OPT_SERVERID) with false. change (OPT_DNS =? OPT_IA_NA) with false. cbn [andb].
    change (OPT_DNS =? OPT_DNS) with true. cbv iota.
    pose proof (dns6_loop_servers (length (concat servers ++ tail)) [] servers tail (d6_dns r) Hs Ht) as Hd.
    cbn [app length] in Hd. rewrite Hd; [done|]. pose proof (concat_length_le servers Hs). rewrite length_app. lia.
  - unfold apply_option6. change (OPT_STATUS =? OPT_SERVERID) with false. change (OPT_STATUS =? OPT_IA_NA) with false.
    cbn [andb]. change (OPT_STATUS =? OPT_DNS) with false. change (OPT_STATUS =? OPT_STATUS) with true. cbv iota.
    destruct (Nat.leb_spec 2 (length (be16 status ++ text))) as [_|H]; [|rewrite length_app in H; simpl in H; lia].
    assert (u16_at (be16 status ++ text) 0 = Some status) as Hs by by apply (u16_at_be16 []).
    cbn [andb]. by rewrite Hs.
  - unfold apply_option6. rewrite !not_elem_of_cons in Ho. destruct Ho as (H1 & H2 & H3 & H4 & _).
    by rewrite (proj2 (Z.eqb_neq _ _) H1), (proj2 (Z.eqb_neq _ _) H2), (proj2 (Z.eqb_neq _ _) H3), (proj2 (Z.eqb_neq _ _) H4).
Qed.

(** The parser reads back what a server sends, option by option, and no message, however
    malformed, makes it panic. *)
Lemma parse_dhcp6_roundtrip msg_type xid options tail :
  length xid = 3%nat → Forall option6_ok options → tail6_ok tail →
  parse_dhcp6_reply (message6 msg_type xid options tail)
  = Some (Some (foldl meaning (reply0 msg_type xid) options)).
Proof.
  intros Hx Ho Ht. destruct xid as [|x0 [|x1 [|x2 [|]]]]; try done. unfold parse_dhcp6_reply, message6.
  set (b := header6 msg_type _ ++ _). destruct (Nat.ltb_spec (length b) 4) as [H|_].
  { unfold b in H. rewrite length_app in H. simpl in H. lia. }
  assert (options_loop apply_option6 (length b) b (length (header6 msg_type [x0; x1; x2]))
    (reply0 msg_type [x0; x1; x2]) = Some (foldl meaning (reply0 msg_type [x0; x1; x2]) options)) as Hl.
  { unfold b at 2. rewrite (options_loop_tlvs _ (λ r t, default r (apply_option6 t.1 t.2 r))).
    - f_equal. apply foldl_fmap_ok. eapply Forall_impl; [exact Ho|]. intros o Hok r. by rewrite apply_option6_ok.
    - apply Forall_fmap. eapply Forall_impl; [exact Ho|]. intros o Hok. split; [by destruct Hok|]. intros r.
      simpl. by destruct (apply_option6_Some (tlv6 o).1 (tlv6 o).2 r) as [r3 ->].
    - done.
    - unfold b. rewrite !length_app. lia. }
  change (length (header6 msg_type [x0; x1; x2])) with 4%nat in Hl.
  assert (b !! 0%nat = Some msg_type ∧ b !! 1%nat = Some x0 ∧ b !! 2%nat = Some x1 ∧ b !! 3%nat = Some x2)
    as (-> & -> & -> & ->) by done.
  cbn [mbind option_bind]. by rewrite Hl.
Qed.
