(* ===== verification/Dhcp6Client.v ===== *)
(** * The DHCPv6 client and SLAAC

    The effectful half of [quantra-net/quantra-netd/src/ipv6.rs]: the handshake SOLICIT,
    ADVERTISE, REQUEST, REPLY, the application of a lease, renewal and release, and the
    address that the kernel configures from router advertisements.  What the two clients
    share are the operations of [DhcpClient]; the rest are operations of [Net6]. *)

From Stdlib Require Import ZArith Ascii.
From stdpp Require Import base tactics numbers list strings.
From S2P Require Import Prelude RustStr Effects Launch DhcpClient Dhcp6.

Local Open Scope string_scope.
Local Open Scope list_scope.
Local Open Scope Z_scope.
Local Open Scope quantra_scope.
Local Open Scope prog_scope.

Record Dhcp6Lease := {
  l6_interface : string;
  l6_address : Ipv6Addr;
  l6_prefix_len : Z;
  l6_preferred : Z;
  l6_valid : Z;
  l6_dns : list Ipv6Addr;
  l6_server_duid : list Z;
  l6_t1 : Z;
  l6_t2 : Z;
}.

(** [Net] is an operation of the other client: the clock, the files below /sys and /proc,
    the link.  A text file is read with [ReadSysfs] and written with [WriteConf]. *)
Inductive Net6 : Type → Type :=
| Net {X : Type} (e : NetOp X) : Net6 X
| BindUdp6 : Net6 (result string unit)
| BindToDevice (iface : string) : Net6 Z
| LastOsError : Net6 string
| SendTo6 (pkt : list Z) (dst : Ipv6Addr) (port : Z) : Net6 (result string unit)
| AddAddress6 (idx : Z) (addr : Ipv6Addr) (prefix_len : Z) : Net6 (result string unit)
| OpenRtnetlink : Net6 (result string unit)
| StoreLease6 (iface : string) (l : Dhcp6Lease) : Net6 unit
| TakeLease6 (iface : string) : Net6 (option Dhcp6Lease)
| SpawnRenewal6 (iface : string) (t1 : Z) : Net6 unit
| SleepNanos (nanos : Z) : Net6 unit.

Fixpoint lift {A} (p : prog NetOp A) : prog Net6 A :=
  match p with
  | Ret a => Ret a
  | Vis e k => Vis (Net e) (λ x, lift (k x))
  end.

Definition net {X} (e : NetOp X) : prog Net6 X := trigger (Net e).

Definition context6 {A} (msg : string) (p : prog Net6 (result string A)) : prog Net6 (result string A) :=
  let* r := p in Ret (map_err (λ _, msg) r).

Definition lease_to_info (lease : Dhcp6Lease) : DhcpLeaseInfo := {|
  li_interface := l6_interface lease;
  li_ip_cidr := Some (show_ip6 (l6_address lease) +:+ "/" +:+ show_uint (l6_prefix_len lease));
  li_gateway := None;
  li_dns_servers := show_ip6 <$> l6_dns lease |}.

Definition xid6 : prog Net6 (list Z) := let* t := net SubsecNanos in Ret (make_xid6 t).

Definition open_dhcp6_socket (iface : string) : prog Net6 (result string unit) :=
  try* _ := context6 ("bind UDP6 port " +:+ show_uint DHCP6_CLIENT_PORT) (trigger BindUdp6) in
  match CString iface with
  | Err _ => Ret (Err "interface name CString")
  | Ok _ =>
      let* ret := trigger (BindToDevice iface) in
      if negb (ret =? 0) then
        let* e := trigger LastOsError in
        Ret (Err ("SO_BINDTODEVICE '" +:+ iface +:+ "': " +:+ e))
      else Ret (Ok tt)
  end.

(** ** The handshake *)

Inductive Waited6 := Got6 (r : Dhcp6Reply) | WaitErr6 (e : string) | TimedOut6.

(** A datagram of the transaction and of the expected type. *)
Definition matching6 (xid : list Z) (expected : Z) (bytes : list Z) : option Dhcp6Reply :=
  match parse_dhcp6_reply (take 1500 bytes) with
  | Some (Some r) =>
      if negb (bool_decide (d6_xid r = xid)) then None
      else if d6_msg_type r =? expected then Some r else None
  | _ => None
  end.

(** [recv_dhcp6_matching] under a [timeout] of so many seconds. *)
Definition recv_dhcp6_matching (fuel : nat) (seconds : Z) (xid : list Z) (expected : Z)
    : prog Net6 (option Waited6) :=
  let* now := net NetNow in
  loop fuel (λ _,
    let* d := net (RecvUntil (now + seconds * 1000000000)) in
    Ret match d with
        | Elapsed => inr TimedOut6
        | RecvErr _ => inr (WaitErr6 "recv DHCPv6")
        | Datagram bytes =>
            match matching6 xid expected bytes with
            | Some r => inr (Got6 r)
            | None => inl tt
            end
        end) tt.

Definition send6 (pkt : list Z) : prog Net6 (result string unit) :=
  trigger (SendTo6 pkt DHCP6_MULTICAST DHCP6_SERVER_PORT).

Section client6.
Context (overflow_checks : bool) (fuel : nat).

(** One attempt: [inl] is another turn. *)
Definition attempt6 (mac : list Z) (iaid : Z) : prog Net6 (option (unit + result string Dhcp6Reply)) :=
  let* xid := xid6 in
  let* sent := send6 (solicit mac xid iaid) in
  match sent with
  | Err _ => Ret (Some (inr (Err "send DHCPv6 SOLICIT")))
  | Ok _ =>
      fuel* advertise := recv_dhcp6_matching fuel SOLICIT_TIMEOUT xid MSG_ADVERTISE in
      match advertise with
      | WaitErr6 _ | TimedOut6 => Ret (Some (inl tt))
      | Got6 advertise =>
          if negb (d6_status_code advertise =? STATUS_SUCCESS) then Ret (Some (inl tt))
          else
            let* req_xid := xid6 in
            let* sent := send6 (request6 mac req_xid (d6_server_duid advertise) iaid (d6_ia_address advertise)) in
            match sent with
            | Err _ => Ret (Some (inr (Err "send DHCPv6 REQUEST")))
            | Ok _ =>
                fuel* reply := recv_dhcp6_matching fuel REPLY_TIMEOUT req_xid MSG_REPLY in
                Ret match reply with
                    | Got6 r => if d6_status_code r =? STATUS_SUCCESS then Some (inr (Ok r)) else Some (inl tt)
                    | WaitErr6 _ | TimedOut6 => Some (inl tt)
                    end
            end
      end
  end.

Fixpoint attempts6 (n : nat) (mac : list Z) (iaid : Z) : prog Net6 (option (result string Dhcp6Reply)) :=
  match n with
  | O => Ret (Some (Err ("DHCPv6 failed after " +:+ show_nat MAX_RETRIES +:+ " attempts")))
  | S n =>
      fuel* r := attempt6 mac iaid in
      match r with
      | inl _ => attempts6 n mac iaid
      | inr r => Ret (Some r)
      end
  end.

(** The address of the interface has six octets. *)
Definition do_dhcp6_handshake (mac : list Z) : prog Net6 (option (result string Dhcp6Reply)) :=
  attempts6 MAX_RETRIES mac (default 0 (iaid_from_mac mac)).

(** ** Applying a lease *)

(** [unwrap_or_default] on the read. *)
Definition append_ipv6_dns (servers : list Ipv6Addr) : prog Net6 (result string unit) :=
  let* existing := net (ReadSysfs RESOLV_CONF) in
  let content := match existing with Ok c => c | Err _ => "" end in
  context6 ("write " +:+ RESOLV_CONF +:+ " (IPv6 DNS)")
    (net (WriteConf RESOLV_CONF (with_nameservers content servers))).

Definition apply_dhcp6_lease (iface : string) (reply : Dhcp6Reply) : prog Net6 (result string unit) :=
  match d6_ia_address reply with
  | None => Ret (Err "DHCPv6 REPLY has no IA_NA address")
  | Some addr =>
      try* idx := net (FindLinkIndex iface) in
      match idx with
      | None => Ret (Err ("interface '" +:+ iface +:+ "' not found"))
      | Some idx =>
          try* _ := context6 ("add IPv6 " +:+ show_ip6 addr +:+ "/" +:+ show_uint (d6_prefix_len reply)
                              +:+ " to " +:+ iface)
                      (trigger (AddAddress6 idx addr (d6_prefix_len reply))) in
          match d6_dns reply with
          | [] => Ret (Ok tt)
          | servers => append_ipv6_dns servers
          end
      end
  end.

(** T1 and T2, or defaults of the preferred lifetime; [None] is the overflow panic of
    [preferred * 4]. *)
Definition lease_times (reply : Dhcp6Reply) : option (Z * Z) :=
  let t1 := if 0 <? d6_t1 reply then d6_t1 reply else d6_preferred reply / 2 in
  if 0 <? d6_t2 reply then Some (t1, d6_t2 reply)
  else t ← arith_u32 overflow_checks (d6_preferred reply * 4); Some (t1, t / 5).

Definition lease6_of (iface : string) (addr : Ipv6Addr) (reply : Dhcp6Reply) (t1 t2 : Z) : Dhcp6Lease := {|
  l6_interface := iface; l6_address := addr; l6_prefix_len := d6_prefix_len reply;
  l6_preferred := d6_preferred reply; l6_valid := d6_valid reply; l6_dns := d6_dns reply;
  l6_server_duid := d6_server_duid reply; l6_t1 := t1; l6_t2 := t2 |}.

Inductive Acquired := Acquired_ (r : result string DhcpLeaseInfo) | AcquirePanic.

(** A fallible step that can also be out of fuel. *)
Definition acquire_try {A} (p : prog Net6 (option (result string A))) (k : A → prog Net6 (option Acquired))
    : prog Net6 (option Acquired) :=
  fuel* r := p in
  match r with
  | Ok a => k a
  | Err e => Ret (Some (Acquired_ (Err e)))
  end.

Definition returning6 {A} (p : prog Net6 A) : prog Net6 (option A) := let* a := p in Ret (Some a).

Definition context_fuel6 {A} (msg : string) (p : prog Net6 (option (result string A)))
    : prog Net6 (option (result string A)) :=
  let* r := p in Ret (map_err (λ _, msg) <$> r).

Definition dhcp6_acquire (iface : string) : prog Net6 (option Acquired) :=
  acquire_try (returning6 (context6 ("read MAC for '" +:+ iface +:+ "'") (lift (get_mac iface)))) (λ mac,
  acquire_try (returning6 (context6 ("open DHCPv6 socket on '" +:+ iface +:+ "'") (open_dhcp6_socket iface))) (λ _,
  acquire_try (context_fuel6 ("DHCPv6 handshake on '" +:+ iface +:+ "'") (do_dhcp6_handshake mac)) (λ reply,
  acquire_try (returning6 (apply_dhcp6_lease iface reply)) (λ _,
    match d6_ia_address reply with
    | None => Ret (Some (Acquired_ (Err "DHCPv6 reply missing address")))
    | Some addr =>
        match lease_times reply with
        | None => Ret (Some AcquirePanic)
        | Some (t1, t2) =>
            let lease := lease6_of iface addr reply t1 t2 in
            trigger (StoreLease6 iface lease);*
            trigger (SpawnRenewal6 iface t1);*
            Ret (Some (Acquired_ (Ok (lease_to_info lease))))
        end
    end)))).

(** The renewal task; a panic ends it. *)
Definition dhcp6_renewal_loop (iface : string) (t1 : Z) : prog Net6 (option unit) :=
  net (NetSleep (Z.max t1 30));*
  fuel* r := dhcp6_acquire iface in
  match r with
  | Acquired_ (Err _) => trigger (TakeLease6 iface);* Ret (Some tt)
  | _ => Ret (Some tt)
  end.

Definition dhcp6_release (iface : string) : prog Net6 (result string unit) :=
  let* lease := trigger (TakeLease6 iface) in
  match lease with
  | None => Ret (Ok tt)
  | Some lease =>
      try* mac := lift (get_mac iface) in
      try* _ := open_dhcp6_socket iface in
      let* xid := xid6 in
      context6 "send DHCPv6 RELEASE"
        (send6 (release6 mac xid (l6_server_duid lease) (default 0 (iaid_from_mac mac)) (l6_address lease)))
  end.

(** ** SLAAC *)

Definition slaac_params : list (string * string) :=
  [("accept_ra", "2"); ("autoconf", "1"); ("use_tempaddr", "2"); ("forwarding", "0")].

Definition write_sysctl (iface : string) (p : string * string) : prog Net6 (result string unit) :=
  let path := "/proc/sys/net/ipv6/conf/" +:+ iface +:+ "/" +:+ p.1 in
  context6 ("sysctl " +:+ path +:+ ": " +:+ p.2) (net (WriteConf path p.2)).

Definition enable_slaac (iface : string) : prog Net6 (result string unit) :=
  try* _ := for_try (write_sysctl iface) slaac_params in
  try* _ := context6 "open rtnetlink for SLAAC" (trigger OpenRtnetlink) in
  net (SetLinkUp iface);* Ret (Ok tt).

Definition read_global_ipv6 (iface : string) : prog Net6 (option string) :=
  let* content := net (ReadSysfs "/proc/net/if_inet6") in
  Ret match content with Ok content => global_ipv6 iface content | Err _ => None end.

(** The outer [None] is out of fuel. *)
Definition wait_for_slaac_address (iface : string) (wait : Z) : prog Net6 (option (option string)) :=
  let* now := net NetNow in
  let deadline := now + wait in
  loop fuel (λ _,
    let* now := net NetNow in
    if deadline <=? now then Ret (inr None)
    else
      let* addr := read_global_ipv6 iface in
      match addr with
      | Some addr => Ret (inr (Some addr))
      | None => trigger (SleepNanos 500000000);* Ret (inl tt)
      end) tt.

Definition slaac_enable (iface : string) : prog Net6 (option (result string DhcpLeaseInfo)) :=
  let* r := enable_slaac iface in
  match r with
  | Err e => Ret (Some (Err e))
  | Ok _ =>
      fuel* addr := wait_for_slaac_address iface 15000000000 in
      let addr := default "" addr in
      Ret (Some (Ok {| li_interface := iface;
                       li_ip_cidr := if is_empty addr then None else Some addr;
                       li_gateway := None; li_dns_servers := [] |}))
  end.
End client6.

(** ** The exchanges end

    What [DhcpClient.net_clock] says of the network and of the clock. *)
Definition net6_clock (gap slack : Z) : ∀ X, Net6 X → Z → X → Z → Prop :=
  λ X e, match e in Net6 X return Z → X → Z → Prop with
  | Net e => net_clock gap slack _ e
  | SleepNanos d => λ t _ t', t + d ≤ t'
  | _ => λ t _ t', t ≤ t'
  end.

Section ends6.
Context (gap slack : Z) (oc : bool) (fuel : nat).
Context (Hfuel : enough_fuel gap slack fuel).
Notation ends := (ends (net6_clock gap slack)).

Lemma recv6_ends seconds xid expected :
  0 ≤ seconds ≤ LONGEST_WAIT → ends (recv_dhcp6_matching fuel seconds xid expected).
Proof.
  destruct Hfuel as (Hg & Hsl & Hf). intros Hs t. unfold recv_dhcp6_matching. apply wp_op. intros now t1 [_ ->].
  set (d := t1 + seconds * 1000000000). set (n := Z.to_nat ((LONGEST_WAIT * 1000000000 + slack) / gap + 1)).
  assert (0 ≤ (LONGEST_WAIT * 1000000000 + slack) / gap) by (apply Z.div_pos; lia).
  eapply wp_mono; [|apply (wp_loop _ _ (λ _ t n, d + slack - t < Z.of_nat n * gap) (λ _ _, True) _ _ _ n)].
  - by intros t' r (b & -> & _).
  - intros [] t2 m Hm. apply wp_op. intros r t3 Hr. cbn [wp net6_clock net_clock] in *.
    destruct r as [bytes|e|]; [|done..]. destruct (matching6 xid expected bytes); [done|].
    exists (Nat.pred m). destruct m; [nia|]. cbn. nia.
  - unfold d, n. pose proof (Z.mod_pos_bound (LONGEST_WAIT * 1000000000 + slack) gap Hg).
    pose proof (Z.div_mod (LONGEST_WAIT * 1000000000 + slack) gap ltac:(lia)). nia.
  - lia.
Qed.

Lemma handshake6_ends mac : ends (do_dhcp6_handshake fuel mac).
Proof.
  unfold do_dhcp6_handshake. generalize MAX_RETRIES. intros n. induction n as [|n IH]; cbn [attempts6]; [done|].
  unfold attempt6, xid6. ends; first [exact IH | by apply recv6_ends].
Qed.

Lemma acquire6_ends iface : ends (dhcp6_acquire oc fuel iface).
Proof.
  unfold dhcp6_acquire, acquire_try, returning6. ends. unfold context_fuel6. intros t.
  eapply wp_bind_2; [apply handshake6_ends|]. by intros t' [r|] Hr.
Qed.

Lemma renewal6_ends iface t1 : ends (dhcp6_renewal_loop oc fuel iface t1).
Proof. unfold dhcp6_renewal_loop. ends; apply acquire6_ends. Qed.
End ends6.

(** The wait for an address ends too, after a turn for every half second. *)
Lemma slaac_wait_ends gap slack fuel iface wait :
  0 ≤ wait → wait / 500000000 + 1 < Z.of_nat fuel →
  ends (net6_clock gap slack) (wait_for_slaac_address fuel iface wait).
Proof.
  intros Hw Hf t. unfold wait_for_slaac_address. apply wp_op. intros now t1 [_ ->].
  set (n := Z.to_nat (wait / 500000000 + 1)). assert (0 ≤ wait / 500000000) by (apply Z.div_pos; lia).
  eapply wp_mono; [|apply (wp_loop _ _ (λ _ t n, t1 + wait - t < Z.of_nat n * 500000000) (λ _ _, True) _ _ _ n)].
  - by intros t' r (b & -> & _).
  - intros [] t2 m Hm. apply wp_op. intros now t3 [Ht ->]. destruct (Z.leb_spec (t1 + wait) t3); [done|].
    apply wp_bind. unfold read_global_ipv6. apply wp_op. intros c t4 Ht4. cbn [wp net6_clock net_clock] in *.
    assert (∀ t5, t4 + 500000000 ≤ t5 → ∃ n', (n' < m)%nat ∧ t1 + wait - t5 < Z.of_nat n' * 500000000) as Hn.
    { intros t5 Ht5. exists (Nat.pred m). destruct m; simpl in *; lia. }
    destruct c as [c|e]; [destruct (global_ipv6 iface c); [done|]|]; apply wp_op; intros u t5 Ht5; by apply Hn.
  - unfold n. pose proof (Z.mod_pos_bound wait 500000000 ltac:(lia)).
    pose proof (Z.div_mod wait 500000000 ltac:(lia)). lia.
  - unfold n. lia.
Qed.

(** ** The handshake on the wire *)

Inductive Ev6 := Sent6 (pkt : list Z) | Rcvd6 (bytes : list Z).

Definition wire6_step : ∀ X, Net6 X → list Ev6 → X → list Ev6 → Prop :=
  λ X e, match e in Net6 X return list Ev6 → X → list Ev6 → Prop with
  | SendTo6 pkt _ _ => λ w r w', w' = match r with Ok _ => w ++ [Sent6 pkt] | Err _ => w end
  | Net e => match e in NetOp X return list Ev6 → X → list Ev6 → Prop with
             | RecvUntil _ => λ w r w', w' = match r with Datagram b => w ++ [Rcvd6 b] | _ => w end
             | _ => λ w _ w', w' = w
             end
  | _ => λ w _ w', w' = w
  end.

(** The datagram [d] is the well-formed message [r], of the transaction [xid] and of the
    expected type. *)
Definition answers6 (xid : list Z) (expected : Z) (d : list Z) (r : Dhcp6Reply) : Prop :=
  parse_dhcp6_reply (take 1500 d) = Some (Some r) ∧ d6_xid r = xid ∧ d6_msg_type r = expected.

Lemma matching6_answers xid expected d r : matching6 xid expected d = Some r ↔ answers6 xid expected d r.
Proof.
  unfold matching6, answers6. destruct (parse_dhcp6_reply _) as [[r'|]|]; [|naive_solver..].
  case_bool_decide as Hx; cbn [negb]; [|naive_solver].
  destruct (Z.eqb_spec (d6_msg_type r') expected); naive_solver.
Qed.

(** Datagrams that are not what is waited for: damaged ones, those of other
    transactions, and those of other types. *)
Definition others6 (xid : list Z) (expected : Z) (ds : list (list Z)) : Prop :=
  Forall (λ d, ∀ r, ¬ answers6 xid expected d r) ds.

Lemma matching6_others xid expected d : matching6 xid expected d = None → ∀ r, ¬ answers6 xid expected d r.
Proof. intros Hm r Ha%matching6_answers. congruence. Qed.

(** One attempt, its SOLICIT with the transaction id [x], its REQUEST, if it comes to one,
    with [x']: [Some] reply when it succeeded. *)
Inductive attempt6_trace (mac : list Z) (iaid : Z) (x x' : list Z) : list Ev6 → option Dhcp6Reply → Prop :=
| No_advertise ds :
    others6 x MSG_ADVERTISE ds →
    attempt6_trace mac iaid x x' (Sent6 (solicit mac x iaid) :: (Rcvd6 <$> ds)) None
| Bad_advertise ds d adv :
    others6 x MSG_ADVERTISE ds → answers6 x MSG_ADVERTISE d adv → d6_status_code adv ≠ STATUS_SUCCESS →
    attempt6_trace mac iaid x x' (Sent6 (solicit mac x iaid) :: (Rcvd6 <$> ds ++ [d])) None
| No_reply ds d adv ds' :
    others6 x MSG_ADVERTISE ds → answers6 x MSG_ADVERTISE d adv → d6_status_code adv = STATUS_SUCCESS →
    others6 x' MSG_REPLY ds' →
    attempt6_trace mac iaid x x' (Sent6 (solicit mac x iaid) :: (Rcvd6 <$> ds ++ [d])
      ++ Sent6 (request6 mac x' (d6_server_duid adv) iaid (d6_ia_address adv)) :: (Rcvd6 <$> ds')) None
| Replied ds d adv ds' d' r :
    others6 x MSG_ADVERTISE ds → answers6 x MSG_ADVERTISE d adv → d6_status_code adv = STATUS_SUCCESS →
    others6 x' MSG_REPLY ds' → answers6 x' MSG_REPLY d' r →
    attempt6_trace mac iaid x x' (Sent6 (solicit mac x iaid) :: (Rcvd6 <$> ds ++ [d])
      ++ Sent6 (request6 mac x' (d6_server_duid adv) iaid (d6_ia_address adv)) :: (Rcvd6 <$> ds' ++ [d']))
      (if d6_status_code r =? STATUS_SUCCESS then Some r else None).

Lemma recv6_wire fuel seconds xid expected w :
  wp wire6_step (recv_dhcp6_matching fuel seconds xid expected) w (λ w' r, ∃ ds, others6 xid expected ds ∧
    match r with
    | Some (Got6 r) => ∃ d, answers6 xid expected d r ∧ w' = w ++ (Rcvd6 <$> ds ++ [d])
    | _ => w' = w ++ (Rcvd6 <$> ds)
    end).
Proof.
  unfold recv_dhcp6_matching. apply wp_op. intros now w1 ->.
  eapply wp_mono; [|apply (wp_loop_inv wire6_step
    (λ (_ : unit) w', ∃ ds, others6 xid expected ds ∧ w' = w ++ (Rcvd6 <$> ds))
    (λ w' b, ∃ ds, others6 xid expected ds ∧ match b with
       | Got6 r => ∃ d, answers6 xid expected d r ∧ w' = w ++ (Rcvd6 <$> ds ++ [d])
       | _ => w' = w ++ (Rcvd6 <$> ds) end))].
  - cbv beta. intros w' [b|]; [|intros [[] (ds & ? & ->)]; by exists ds].
    intros (ds & Hds & Hb). exists ds. by destruct b.
  - intros [] w' (ds & Hds & ->). apply wp_op. intros d w2 Hw2. cbn [wp].
    destruct d as [bytes|e|]; cbn [wire6_step] in Hw2; subst w2; [|by exists ds..].
    destruct (matching6 xid expected bytes) as [r|] eqn:Hm.
    + exists ds. split; [done|]. exists bytes. split; [by apply matching6_answers|]. by rewrite fmap_app, app_assoc.
    + exists (ds ++ [bytes]). split; [|by rewrite fmap_app, app_assoc].
      apply Forall_app. split; [done|]. constructor; [by apply matching6_others|constructor].
  - exists []. split; [constructor|]. by rewrite app_nil_r.
Qed.

Definition SEND6_ERRORS : list string := ["send DHCPv6 SOLICIT"; "send DHCPv6 REQUEST"].

(** A successful REPLY of the transaction. *)
Definition reply_to (xid : list Z) (r : Dhcp6Reply) : Prop :=
  d6_xid r = xid ∧ d6_msg_type r = MSG_REPLY ∧ d6_status_code r = STATUS_SUCCESS.

Section wire6.
Context (fuel : nat) (mac : list Z) (iaid : Z).

Lemma xid6_wire w : wp wire6_step xid6 w (λ w' _, w' = w).
Proof. by intros t w1 ->. Qed.

Lemma attempt6_wire w :
  wp wire6_step (attempt6 fuel mac iaid) w (λ w' r,
    match r with
    | Some (inl _) => ∃ x x' tr, w' = w ++ tr ∧ attempt6_trace mac iaid x x' tr None
    | Some (inr (Ok reply)) => ∃ x x' tr, w' = w ++ tr ∧ reply_to x' reply ∧ attempt6_trace mac iaid x x' tr (Some reply)
    | Some (inr (Err e)) => e ∈ SEND6_ERRORS
    | None => True
    end).
Proof.
  unfold attempt6. eapply wp_bind_2; [apply xid6_wire|]. intros w1 x ->.
  apply wp_op. intros sent w1 Hw1. cbn [wire6_step] in Hw1.
  destruct sent as [[]|e]; [|subst w1; by left]. subst w1.
  unfold fuel_bind at 1. eapply wp_bind_2; [apply recv6_wire|].
  intros w1 [[adv|e|]|] (ds & Hds & Hw1); [|subst w1; exists x, []; eexists; (split; [by rewrite <- app_assoc|]); by apply No_advertise..|done].
  destruct Hw1 as (d & Hd & ->). destruct (Z.eqb_spec (d6_status_code adv) STATUS_SUCCESS) as [Hst|Hst]; cbn [negb].
  2:{ exists x, []. eexists. split; [by rewrite <- app_assoc|]. by apply (Bad_advertise mac iaid x [] ds d adv). }
  eapply wp_bind_2; [apply xid6_wire|]. intros w2 x' ->.
  apply wp_op. intros sent w2 Hw2. cbn [wire6_step] in Hw2.
  destruct sent as [[]|e]; [|subst w2; by right; left]. subst w2.
  unfold fuel_bind. eapply wp_bind_2; [apply recv6_wire|].
  intros w2 [[r|e|]|] (ds' & Hds' & Hw2);
    [|subst w2; exists x, x'; eexists; (split; [by rewrite <- !app_assoc|]); by apply (No_reply mac iaid x x' ds d adv ds')..|done].
  destruct Hw2 as (d' & Hd' & ->). pose proof (Replied mac iaid x x' ds d adv ds' d' r Hds Hd Hst Hds' Hd') as Ha.
  cbn [wp]. destruct Hd' as (_ & Hx & Hty). destruct (Z.eqb_spec (d6_status_code r) STATUS_SUCCESS);
    exists x, x'; eexists; (split; [by rewrite <- !app_assoc|done]).
Qed.

Lemma attempts6_wire n w :
  wp wire6_step (attempts6 fuel n mac iaid) w (λ w' r, ∃ failed,
    Forall (λ tr, ∃ x x', attempt6_trace mac iaid x x' tr None) failed ∧
    match r with
    | Some (Ok reply) => ∃ x x' tr, (length failed < n)%nat ∧ w' = w ++ concat failed ++ tr ∧
        reply_to x' reply ∧ attempt6_trace mac iaid x x' tr (Some reply)
    | Some (Err e) => e ∈ SEND6_ERRORS ∨ length failed = n ∧ w' = w ++ concat failed
    | None => True
    end).
Proof.
  revert w. induction n as [|n IH]; intros w; cbn [attempts6].
  { exists []. split; [constructor|]. right. by rewrite app_nil_r. }
  unfold fuel_bind. eapply wp_bind_2; [apply attempt6_wire|]. intros w1 [[[]|[reply|e]]|].
  - intros (x & x' & tr & -> & Htr). eapply wp_mono; [|apply IH]. intros w2 r (failed & Hf & Hr).
    exists (tr :: failed). split; [constructor; [by exists x, x'|done]|]. destruct r as [[reply|e]|]; [| |done].
    + destruct Hr as (y & y' & tr' & Hl & -> & Hr). exists y, y', tr'. cbn. split; [lia|]. by rewrite <- !app_assoc.
    + destruct Hr as [Hr|[Hl ->]]; [by left|]. right. cbn. split; [lia|]. by rewrite <- app_assoc.
  - intros (x & x' & tr & -> & Htr). exists []. split; [constructor|]. exists x, x', tr. split; [simpl; lia|]. done.
  - intros He. exists []. split; [constructor|]. by left.
  - intros _. by exists [].
Qed.
End wire6.

(** The options do not touch the header. *)
Definition same_header (r r' : Dhcp6Reply) : Prop := d6_xid r' = d6_xid r ∧ d6_msg_type r' = d6_msg_type r.

Lemma foldl_header {A} (f : Dhcp6Reply → A → Dhcp6Reply) l r :
  (∀ r a, same_header r (f r a)) → same_header r (foldl f r l).
Proof.
  intros Hf. revert r. induction l as [|a l IH]; intros r; [done|]. cbn [foldl].
  destruct (Hf r a) as [H1 H2], (IH (f r a)) as [H3 H4]. split; congruence.
Qed.

Lemma meaning_header r o : same_header r (meaning r o).
Proof.
  destruct o as [|iaid t1 t2 options tail| | |]; try done. cbn [meaning]. set (r0 := {| d6_msg_type := _ |}).
  change (same_header r0 (foldl ia_meaning r0 options)). apply foldl_header. by intros r1 [].
Qed.

(** A message of a server is understood. *)
Lemma answers6_message xid msg_type options tail :
  length xid = 3%nat → Forall option6_ok options → tail6_ok tail →
  (length (message6 msg_type xid options tail) <= 1500)%nat →
  answers6 xid msg_type (message6 msg_type xid options tail) (foldl meaning (reply0 msg_type xid) options).
Proof.
  intros Hx Ho Ht Hl. unfold answers6. rewrite take_ge, parse_dhcp6_roundtrip by done. split; [done|].
  by destruct (foldl_header meaning options (reply0 msg_type xid) meaning_header) as [-> ->].
Qed.

(** C39: the DHCPv6 handshake: whatever datagrams arrive, [do_dhcp6_handshake] makes at most
    three attempts, each a SOLICIT with a transaction id [x], then, only after a successful
    ADVERTISE that carries [x], a REQUEST with a transaction id [x'], for the address and to
    the server of that ADVERTISE; datagrams that are damaged, carry another transaction id or
    are of another type are passed over.  It returns only a successful REPLY that carries the
    id [x'] of the REQUEST of the last attempt and came after it, and it
    gives up only after three attempts or when the socket refuses to send.  It returns, with
    fuel for the datagrams that can arrive within the longest wait.  And what it waits for
    it understands: a message that a server builds from any well-formed options, nested
    ones included, is read back option by option. *)
Theorem handshake6_follows_protocol fuel gap slack mac t :
  enough_fuel gap slack fuel →
  wp (both wire6_step (net6_clock gap slack)) (do_dhcp6_handshake fuel mac) ([], t) (λ w r, ∃ failed,
    let iaid := default 0 (iaid_from_mac mac) in
    Forall (λ tr, ∃ x x', attempt6_trace mac iaid x x' tr None) failed ∧
    match r with
    | Some (Ok reply) => (length failed < 3)%nat ∧ ∃ x x' tr, w.1 = concat failed ++ tr ∧
        d6_xid reply = x' ∧ d6_msg_type reply = MSG_REPLY ∧ d6_status_code reply = STATUS_SUCCESS ∧
        attempt6_trace mac iaid x x' tr (Some reply)
    | Some (Err e) => e ∈ SEND6_ERRORS ∨ length failed = 3%nat ∧ w.1 = concat failed
    | None => False
    end) ∧
  ∀ xid msg_type options tail,
    length xid = 3%nat → Forall option6_ok options → tail6_ok tail →
    (length (message6 msg_type xid options tail) <= 1500)%nat →
    answers6 xid msg_type (message6 msg_type xid options tail) (foldl meaning (reply0 msg_type xid) options).
Proof.
  intros Hfuel. split; [|by intros; apply answers6_message]. eapply wp_mono;
    [|apply wp_both; [apply (attempts6_wire fuel mac _ MAX_RETRIES)|by apply (handshake6_ends gap slack)]].
  intros [w t'] r [(failed & Hf & Hr) Hn]. exists failed. split; [done|]. simpl in *.
  destruct r as [[reply|e]|]; [|done..]. destruct Hr as (x & x' & tr & Hl & -> & (H1 & H2 & H3) & Htr).
  split; [done|]. by exists x, x', tr.
Qed.

(** A REPLY with an address and a nameserver, 2001:db8::5 and 2001:db8::1. *)
Definition example_address (last : Z) : Ipv6Addr := [32; 1; 13; 184; 0; 0; 0; 0; 0; 0; 0; 0; 0; 0; 0; last].

Definition example_options : list Option6 :=
  [OtherOption OPT_CLIENTID (make_duid_ll [1; 2; 3; 4; 5; 6]); ServerId [0; 1; 0; 1];
   IaNa 50595078 0 0 [IaAddress (example_address 5) 4294967295 4294967295 []] [];
   DnsServers [example_address 1] []].

Lemma handshake6_follows_protocol_witness :
  let mac := [1; 2; 3; 4; 5; 6] in let iaid := default 0 (iaid_from_mac mac) in
  wp (both wire6_step (net6_clock 10000000 1000000)) (do_dhcp6_handshake 4000 mac) ([], 0) (λ w r, ∃ failed,
    Forall (λ tr, ∃ x x', attempt6_trace mac iaid x x' tr None) failed ∧
    match r with
    | Some (Ok reply) => (length failed < 3)%nat ∧ ∃ x x' tr, w.1 = concat failed ++ tr ∧
        d6_xid reply = x' ∧ d6_msg_type reply = MSG_REPLY ∧ d6_status_code reply = STATUS_SUCCESS ∧
        attempt6_trace mac iaid x x' tr (Some reply)
    | Some (Err e) => e ∈ SEND6_ERRORS ∨ length failed = 3%nat ∧ w.1 = concat failed
    | None => False
    end) ∧
  answers6 [7; 8; 9] MSG_REPLY (message6 MSG_REPLY [7; 8; 9] example_options [])
    (foldl meaning (reply0 MSG_REPLY [7; 8; 9]) example_options).
Proof.
  intros mac iaid. pose proof (handshake6_follows_protocol 4000 10000000 1000000 mac 0) as H.
  destruct H as [Hw Hm].
  { split; [reflexivity|]. split; [discriminate|]. apply Z.ltb_lt. vm_compute. reflexivity. }
  split; [exact Hw|]. apply Hm; [reflexivity| |unfold tail6_ok; simpl; lia|apply Nat.leb_le; vm_compute; reflexivity].
  assert (∀ o, tlv6_ok (tlv6 o) ↔ bool_decide (0 ≤ (tlv6 o).1 ∧ (tlv6 o).1 ≤ u16_max ∧
    Z.of_nat (length (tlv6 o).2) ≤ u16_max) = true) as Htlv.
  { intros o. rewrite bool_decide_eq_true. unfold tlv6_ok, in_u16. naive_solver. }
  repeat (apply Forall_cons; split); [..|apply Forall_nil; exact I]; split; try (apply Htlv; vm_compute; reflexivity).
  - apply (bool_decide_unpack _). vm_compute. exact I.
  - exact I.
  - unfold in_u32_, u32_max, tail6_ok. split_and!; try lia; [|simpl; lia].
    apply Forall_singleton. split; [split; [by split|vm_compute; discriminate]|].
    unfold in_u32_, u32_max. split_and!; [reflexivity|lia..].
  - split; [by apply Forall_singleton|simpl; lia].
Defined.

(** ... which reads as 2001:db8::5.  With its infinite preferred lifetime, and T2 left to the
    client, [preferred * 4] overflows: a panic, or a T2 that is too early. *)
Lemma example_reply6 :
  let r := foldl meaning (reply0 MSG_REPLY [7; 8; 9]) example_options in
  show_ip6 <$> d6_ia_address r = Some "2001:db8::5" ∧ d6_dns r = [example_address 1] ∧
  d6_server_duid r = [0; 1; 0; 1] ∧
  lease_times true r = None ∧ lease_times false r = Some (2147483647, 858993458).
Proof. vm_compute. done. Qed.

(** ** Acquisition *)

(** The overflow is the only panic. *)
Lemma lease_times_spec oc r :
  0 ≤ d6_preferred r ≤ u32_max →
  match lease_times oc r with
  | Some (t1, t2) => t1 = (if 0 <? d6_t1 r then d6_t1 r else d6_preferred r / 2) ∧
      (0 < d6_t2 r → t2 = d6_t2 r) ∧
      (d6_t2 r ≤ 0 → d6_preferred r * 4 ≤ u32_max → t2 = d6_preferred r * 4 / 5)
  | None => oc = true ∧ d6_t2 r ≤ 0 ∧ u32_max < d6_preferred r * 4
  end.
Proof.
  intros Hp. unfold lease_times. destruct (Z.ltb_spec 0 (d6_t2 r)).
  { split_and!; [done|done|lia]. }
  unfold arith_u32. destruct (in_u32 (d6_preferred r * 4)) eqn:Hin.
  - cbn. split_and!; [done|lia|done].
  - assert (u32_max < d6_preferred r * 4).
    { unfold in_u32 in Hin. apply andb_false_iff in Hin as [Hin|Hin]; apply Z.leb_gt in Hin; lia. }
    destruct oc; cbn; split_and!; try done; lia.
Qed.
