(* ===== verification/Login.v ===== *)
(** * The login daemon: its state and managers

    [quantra-logind/src/types.rs], [session.rs], [seat.rs], [user.rs] and [inhibitor.rs]:
    the tables of sessions, seats, users and inhibitors, each behind a mutex of its own,
    and the operations on them.  A mutex is never poisoned: the release profile aborts
    the daemon on a panic ([None] below). *)

From Stdlib Require Import ZArith Ascii.
From stdpp Require Import base tactics numbers list strings gmap.
From S2P Require Import Prelude RustStr Types Effects Os.

Local Open Scope string_scope.
Local Open Scope list_scope.
Local Open Scope Z_scope.
Local Open Scope quantra_scope.
Local Open Scope prog_scope.

(** ** Data ([types.rs]) *)

Inductive SessionType := Type_Tty | Type_X11 | Type_Wayland | Type_Mir | Type_Remote | Type_Unspecified.
Inductive SessionClass := Class_User | Class_Greeter | Class_LockScreen | Class_Background.
Inductive SessionState := Session_Opening | Session_Active | Session_Online | Session_Closing.

#[export] Instance SessionState_eq_dec : EqDecision SessionState.
Proof. solve_decision. Defined.

Record Session := {
  se_id : Z;
  se_uid : Z;
  se_username : string;
  se_seat : option string;
  se_vt_number : option Z;
  se_tty : option string;
  se_display : option string;
  se_type : SessionType;
  se_class : SessionClass;
  se_state : SessionState;
  se_leader_pid : Z;
  se_audit_id : option Z;
  se_service : option string;
  se_scope : string;
  se_created_at : Z;
  se_remote : bool;
  se_remote_host : option string;
  se_remote_user : option string;
  se_runtime_dir : string;
  se_idle_hint : bool;
  se_idle_since : option Z;
  se_locked_hint : bool;
}.

Definition run_user (uid : Z) : string := "/run/user/" +:+ show_uint uid.

Definition Session_new (now id uid : Z) (username : string) (leader_pid : Z)
    (session_type : SessionType) (session_class : SessionClass) : Session := {|
  se_id := id; se_uid := uid; se_username := username; se_leader_pid := leader_pid;
  se_type := session_type; se_class := session_class;
  se_seat := None; se_vt_number := None; se_tty := None; se_display := None;
  se_remote_host := None; se_remote_user := None; se_remote := false;
  se_audit_id := None; se_service := None; se_state := Session_Online;
  se_scope := "session-" +:+ show_uint id +:+ ".scope";
  se_runtime_dir := run_user uid; se_created_at := now;
  se_idle_hint := false; se_idle_since := None; se_locked_hint := false
|}.

Inductive UserState := User_Offline | User_Lingering | User_Online | User_Active | User_Closing.

Record UserRecord := {
  ur_uid : Z;
  ur_username : string;
  ur_session_ids : list Z;
  ur_linger : bool;
  ur_runtime_dir : string;
  ur_runtime_dir_size : Z;
  ur_state : UserState;
  ur_first_login : Z;
  ur_last_login : Z;
  ur_slice : string;
  ur_display_session : option Z;
}.

Definition UserRecord_new (now uid : Z) (username : string) : UserRecord := {|
  ur_uid := uid; ur_username := username; ur_session_ids := []; ur_linger := false;
  ur_runtime_dir := run_user uid; ur_runtime_dir_size := 500 * 1024 * 1024;
  ur_state := User_Offline; ur_first_login := now; ur_last_login := now;
  ur_slice := "user-" +:+ show_uint uid +:+ ".slice"; ur_display_session := None
|}.

Inductive DeviceKind := Drm | Evdev | Sound | Other_device.

#[export] Instance DeviceKind_eq_dec : EqDecision DeviceKind.
Proof. solve_decision. Defined.

Record SeatDevice := {
  sd_path : string;
  sd_kind : DeviceKind;
  sd_fd : option Z;
  sd_paused : bool;
}.

Record Seat := {
  st_id : string;
  st_active_session : option Z;
  st_sessions : list Z;
  st_devices : list SeatDevice;
  st_can_graphical : bool;
  st_can_tty : bool;
  st_idle_hint : bool;
}.

Definition Seat_new (id : string) : Seat := {|
  st_id := id; st_active_session := None; st_sessions := []; st_devices := [];
  st_can_graphical := false; st_can_tty := true; st_idle_hint := false
|}.

Inductive InhibitWhat :=
| Inhibit_Shutdown | Inhibit_Sleep | Inhibit_Idle | Inhibit_HandlePowerKey | Inhibit_HandleSuspendKey
| Inhibit_HandleHibernateKey | Inhibit_HandleLidSwitch | Inhibit_HandleRebootKey.

#[export] Instance InhibitWhat_eq_dec : EqDecision InhibitWhat.
Proof. solve_decision. Defined.

Inductive InhibitMode := Mode_Block | Mode_Delay.

#[export] Instance InhibitMode_eq_dec : EqDecision InhibitMode.
Proof. solve_decision. Defined.

Record Inhibitor := {
  ih_id : Z;
  ih_what : list InhibitWhat;
  ih_who : string;
  ih_why : string;
  ih_mode : InhibitMode;
  ih_uid : Z;
  ih_pid : Z;
  ih_created : Z;
}.

Inductive PowerAction :=
| Act_PowerOff | Act_Reboot | Act_RebootToBootloaderMenu | Act_RebootToBootloaderEntry
| Act_RebootToFirmwareSetup | Act_Halt | Act_Kexec | Act_Suspend | Act_Hibernate | Act_HybridSleep
| Act_SuspendThenHibernate | Act_Ignore | Act_Lock.

Inductive CanDo := CanDo_Yes | CanDo_No | CanDo_Challenge | CanDo_Na.

(** The settings that the daemon reads. *)
Record LogindConfig := {
  lc_kill_user_processes : bool;
  lc_kill_only_users : list string;
  lc_kill_exclude_users : list string;
  lc_idle_action : PowerAction;
  lc_idle_action_sec : Z;
  lc_inhibit_delay_max_sec : Z;
  lc_user_stop_delay_sec : Z;
  lc_handle_power_key : PowerAction;
  lc_handle_suspend_key : PowerAction;
  lc_handle_lid_switch : PowerAction;
  lc_suspend_key_ignore_inhibited : bool;
  lc_hibernate_key_ignore_inhibited : bool;
  lc_runtime_directory_size : option string;
  lc_remove_ipc : bool;
}.

Definition LogindConfig_default : LogindConfig := {|
  lc_kill_user_processes := false; lc_kill_only_users := []; lc_kill_exclude_users := ["root"];
  lc_idle_action := Act_Ignore; lc_idle_action_sec := 1800; lc_inhibit_delay_max_sec := 5;
  lc_user_stop_delay_sec := 10; lc_handle_power_key := Act_PowerOff;
  lc_handle_suspend_key := Act_Suspend; lc_handle_lid_switch := Act_Suspend;
  lc_suspend_key_ignore_inhibited := false; lc_hibernate_key_ignore_inhibited := false;
  lc_runtime_directory_size := Some "10%"; lc_remove_ipc := true
|}.

Inductive LogindEvent :=
| Ev_SessionNew (session_id uid : Z) (username : string)
| Ev_SessionRemoved (session_id uid : Z)
| Ev_SessionLocked (session_id : Z)
| Ev_SessionUnlocked (session_id : Z)
| Ev_UserNew (uid : Z) (username : string)
| Ev_VtSwitched (vt_number : Z)
| Ev_BrightnessChanged (name : string) (value : Z)
| Ev_ShutdownScheduled (action : string) (time_usec : Z).

(** ** The managers and their locks *)

Record SessionManager := { sessions : gmap Z Session; next_session : Z }.
Record SeatManager := { seats : gmap string Seat }.
Record UserManager := { users : gmap Z UserRecord }.
Record InhibitorManager := { inhibitors : gmap Z Inhibitor; next_inhibitor : Z }.

Definition SessionManager_new : SessionManager := {| sessions := ∅; next_session := 1 |}.
Definition SeatManager_new : SeatManager := {| seats := ∅ |}.
Definition UserManager_new : UserManager := {| users := ∅ |}.
Definition InhibitorManager_new : InhibitorManager := {| inhibitors := ∅; next_inhibitor := 1 |}.

Record PowerManager := {
  can_suspend : bool;
  can_hibernate : bool;
  can_hybrid_sleep : bool;
  can_suspend_then_hibernate : bool;
  scheduled_shutdown : option (string * Z);
  pw_config : LogindConfig;
}.

(** The mutexes; [EventBus] holds the subscribers: descriptor and uid. *)
Inductive LockName := SessionsL | UsersL | SeatsL | InhibitorsL | PowerL | EventBusL.

#[export] Instance LockName_eq_dec : EqDecision LockName.
Proof. solve_decision. Defined.

Definition lock_data (l : LockName) : Type :=
  match l with
  | SessionsL => SessionManager
  | UsersL => UserManager
  | SeatsL => SeatManager
  | InhibitorsL => InhibitorManager
  | PowerL => PowerManager
  | EventBusL => list (Z * Z)
  end.

(** [thread::spawn] of the clean-up after the last logout. *)
Record Cleanup := { cu_uid : Z; cu_username : string; cu_config : LogindConfig }.

Inductive LogOp : Type → Type :=
| Lock (l : LockName) : LogOp (lock_data l)
| Unlock (l : LockName) (d : lock_data l) : LogOp unit
| Sys {X} (e : Os X) : LogOp X
| IsDir (path : string) : LogOp bool
| RemoveDirAll (path : string) : LogOp (result string unit)
| MountTmpfs (path opts : string) : LogOp Z
| Umount2 (path : string) : LogOp unit
| SetMode (path : string) (mode : Z) : LogOp (result string unit)
| Chown (path : string) (uid gid : Z) : LogOp unit
| StatFile (path : string) : LogOp (option (Z * Z * Z))
| Ioctl (fd request arg : Z) : LogOp Z
| SignalPid (pid : Z) (sig : string) : LogOp unit
| GetPid : LogOp Z
| SpawnCleanup (c : Cleanup) : LogOp unit
| SyncDisks : LogOp unit
| Reboot (cmd : string) : LogOp unit
| WriteTty (path text : string) : LogOp unit
| SendEvent (sink : Z) (e : LogindEvent) : LogOp bool
| AppendFile (path : string) (bytes : list Z) : LogOp unit
| WriteBytes (path : string) (bytes : list Z) : LogOp (result string unit)
| TryClone : LogOp (result string Z)
| SockRead (n : Z) : LogOp (result string (option (list Z)))
| SockWrite (bytes : list Z) : LogOp (result string unit).

Definition sys {X} (e : Os X) : prog LogOp X := trigger (Sys e).

(** [let mut guard = m.lock().unwrap(); ...]: the guard is dropped after the body. *)
Definition locked {A} (l : LockName) (body : lock_data l → prog LogOp (option (lock_data l * A)))
    : prog LogOp (option A) :=
  let* d := trigger (Lock l) in
  fuel* r := body d in
  trigger (Unlock l r.1);*
  Ret (Some r.2).

(** ... and one that only looks. *)
Definition reading {A} (l : LockName) (f : lock_data l → A) : prog LogOp A :=
  let* d := trigger (Lock l) in trigger (Unlock l d);* Ret (f d).

(** [now_unix]. *)
Definition now_unix : prog LogOp Z := let* ns := sys WallClock in Ret (ns / 1000000000).

(** [fs::read_dir], without the entries that could not be read. *)
Definition dir_entries (path : string) : prog LogOp (list string) :=
  let* r := sys (ReadDir path) in
  Ret match r with
      | Ok l => omap (λ e, match e with Ok p => Some p | Err _ => None end) l
      | Err _ => []
      end.

(** ** Sessions ([session.rs]) *)

(** The arguments of [open]; also the fields of the request. *)
Record NewSession := {
  no_uid : Z;
  no_username : string;
  no_leader_pid : Z;
  no_type : SessionType;
  no_class : SessionClass;
  no_tty : option string;
  no_display : option string;
  no_remote_host : option string;
  no_remote_user : option string;
  no_service : option string;
  no_vt : option Z;
}.

Definition extract_vt_number (tty : string) : option Z :=
  n ← match strip_prefix "/dev/tty" tty with
      | Some n => Some n
      | None => strip_prefix "tty" tty
      end;
  parse_uint u32_max n.

Definition USER_SLICES : string := "/sys/fs/cgroup/user.slice".

Definition user_slice (uid : Z) : string := USER_SLICES +:+ "/user-" +:+ show_uint uid +:+ ".slice".

Definition session_scope (uid id : Z) : string :=
  user_slice uid +:+ "/session-" +:+ show_uint id +:+ ".scope".

(** Every failure is only logged. *)
Definition create_session_scope (id uid leader_pid : Z) : prog LogOp unit :=
  let* r := sys (CreateDirAll (session_scope uid id)) in
  match r with
  | Err _ => Ret tt
  | Ok _ => sys (WriteFile (session_scope uid id +:+ "/cgroup.procs") (show_uint leader_pid));* Ret tt
  end.

Definition glob_dirs (parent : string) : prog LogOp (list string) :=
  let* entries := dir_entries parent in
  foldr (λ p rest, let* is_dir := trigger (IsDir p) in
                   let* l := rest in
                   Ret (if is_dir : bool then p :: l else l)) (Ret []) entries.

Definition remove_session_scope (id : Z) : prog LogOp unit :=
  let* uid_dirs := glob_dirs USER_SLICES in
  for_each (λ uid_dir,
    let scope := uid_dir +:+ "/session-" +:+ show_uint id +:+ ".scope" in
    let* present := sys (PathExists scope) in
    if present : bool then
      sys (WriteFile (scope +:+ "/cgroup.kill") "1");* sys (RemoveDir scope);* Ret tt
    else Ret tt) uid_dirs.

(** SIGTERM to the processes that a [cgroup.procs] file lists. *)
Definition term_cgroup_procs (path : string) : prog LogOp unit :=
  let* procs := sys (ReadToString path) in
  match procs with
  | Err _ => Ret tt
  | Ok procs =>
      for_each (λ line, match parse_i32 (trim line) with
                        | Some pid => trigger (SignalPid pid "SIGTERM")
                        | None => Ret tt
                        end) (lines procs)
  end.

Definition kill_session_cgroup (id uid : Z) : prog LogOp unit :=
  let* r := sys (WriteFile (session_scope uid id +:+ "/cgroup.kill") "1") in
  match r with
  | Ok _ => Ret tt
  | Err _ => term_cgroup_procs (session_scope uid id +:+ "/cgroup.procs")
  end.

Definition session_missing (id : Z) : string := "session " +:+ show_uint id +:+ " not found".

Section session.
Context (overflow_checks : bool).

Definition session_of (a : NewSession) (id now : Z) : Session :=
  let s := Session_new now id (no_uid a) (no_username a) (no_leader_pid a) (no_type a) (no_class a) in
  s <|se_tty := no_tty a|> <|se_display := no_display a|>
    <|se_remote_host := no_remote_host a|> <|se_remote_user := no_remote_user a|>
    <|se_remote := bool_decide (no_remote_host a ≠ None)|> <|se_service := no_service a|>
    <|se_vt_number := match no_vt a with Some vt => Some vt | None => no_tty a ≫= extract_vt_number end|>.

Definition session_open (a : NewSession) (sm : SessionManager)
    : prog LogOp (option (SessionManager * result string Z)) :=
  let id := next_session sm in
  match arith_u64 overflow_checks (id + 1) with
  | None => Ret None
  | Some next =>
      let* now := now_unix in
      create_session_scope id (no_uid a) (no_leader_pid a);*
      Ret (Some ({| sessions := <[id := session_of a id now]> (sessions sm); next_session := next |}, Ok id))
  end.

(** The state [Closing] is not seen: the session is removed under the same lock. *)
Definition session_close (id : Z) (sm : SessionManager) : prog LogOp (SessionManager * result string unit) :=
  match sessions sm !! id with
  | None => Ret (sm, Err (session_missing id))
  | Some _ =>
      remove_session_scope id;*
      Ret ({| sessions := delete id (sessions sm); next_session := next_session sm |}, Ok tt)
  end.

Definition deactivate (seat : option string) (id : Z) (s : Session) : Session :=
  if bool_decide (se_state s = Session_Active) && bool_decide (se_seat s = seat) && negb (se_id s =? id)
  then s <|se_state := Session_Online|> else s.

Definition session_activate (id : Z) (sm : SessionManager) : SessionManager * result string unit :=
  match sessions sm !! id with
  | None => (sm, Err (session_missing id))
  | Some s =>
      let others := deactivate (se_seat s) id <$> sessions sm in
      ({| sessions := alter (λ s, s <|se_state := Session_Active|>) id others; next_session := next_session sm |}, Ok tt)
  end.

(** An update of one session. *)
Definition session_update (id : Z) (f : Session → Session) (sm : SessionManager)
    : SessionManager * result string unit :=
  match sessions sm !! id with
  | None => (sm, Err (session_missing id))
  | Some s => ({| sessions := <[id := f s]> (sessions sm); next_session := next_session sm |}, Ok tt)
  end.

(** The leader is signalled with its pid cast to [i32]. *)
Definition session_lock (id : Z) (sm : SessionManager) : prog LogOp (SessionManager * result string unit) :=
  match sessions sm !! id with
  | None => Ret (sm, Err (session_missing id))
  | Some s =>
      trigger (SignalPid (wrap_i32 (se_leader_pid s)) "SIGUSR2");*
      Ret (session_update id (λ s, s <|se_locked_hint := true|>) sm)
  end.

Definition session_unlock (id : Z) : SessionManager → SessionManager * result string unit :=
  session_update id (λ s, s <|se_locked_hint := false|>).

Fixpoint lock_each (ids : list Z) (sm : SessionManager) : prog LogOp SessionManager :=
  match ids with
  | [] => Ret sm
  | id :: ids => let* r := session_lock id sm in lock_each ids r.1
  end.

Definition session_ids (sm : SessionManager) : list Z := (map_to_list (sessions sm)).*1.

Definition session_lock_all (sm : SessionManager) : prog LogOp SessionManager := lock_each (session_ids sm) sm.

Definition session_unlock_all (sm : SessionManager) : SessionManager :=
  foldl (λ sm id, (session_unlock id sm).1) sm (session_ids sm).

Definition session_set_idle_hint (id : Z) (idle : bool) (sm : SessionManager)
    : prog LogOp (SessionManager * result string unit) :=
  match sessions sm !! id with
  | None => Ret (sm, Err (session_missing id))
  | Some _ =>
      let* since := if idle then let* now := now_unix in Ret (Some now) else Ret None in
      Ret (session_update id (λ s, s <|se_idle_hint := idle|> <|se_idle_since := since|>) sm)
  end.

Definition session_set_locked_hint (id : Z) (locked_ : bool) : SessionManager → SessionManager * result string unit :=
  session_update id (λ s, s <|se_locked_hint := locked_|>).

Definition session_assign_seat (id : Z) (seat : string) (sm : SessionManager) : SessionManager :=
  (session_update id (λ s, s <|se_seat := Some seat|>) sm).1.

Definition session_uid_of (id : Z) (sm : SessionManager) : option Z := se_uid <$> sessions sm !! id.
Definition session_seat_of (id : Z) (sm : SessionManager) : option string := sessions sm !! id ≫= se_seat.
Definition session_vt_of (id : Z) (sm : SessionManager) : option Z := sessions sm !! id ≫= se_vt_number.

(** [all]: by id. *)
Definition session_values (sm : SessionManager) : list Session := (map_to_list (sessions sm)).*2.

Definition get_ppid (pid : Z) : prog LogOp (option Z) :=
  let* stat := sys (ReadToString ("/proc/" +:+ show_uint pid +:+ "/status")) in
  Ret match stat with
      | Err _ => None
      | Ok stat =>
          line ← head (omap (strip_prefix ("PPid:" +:+ String (ascii_of_nat 9) "")) (lines stat));
          parse_uint u32_max (trim line)
      end.

(** [None] is out of fuel: the chain of parents is followed as far as it goes. *)
Fixpoint session_by_pid (fuel : nat) (pid : Z) (sm : SessionManager) : prog LogOp (option (option Session)) :=
  match fuel with
  | O => Ret None
  | S fuel =>
      match find (λ s, se_leader_pid s =? pid) (session_values sm) with
      | Some s => Ret (Some (Some s))
      | None =>
          let* cgroup := sys (ReadToString ("/proc/" +:+ show_uint pid +:+ "/cgroup")) in
          match find (λ s, match cgroup with Ok c => contains (se_scope s) c | Err _ => false end)
                  (session_values sm) with
          | Some s => Ret (Some (Some s))
          | None =>
              let* ppid := get_ppid pid in
              match ppid with
              | Some ppid => if negb (ppid =? pid) && (1 <? ppid) then session_by_pid fuel ppid sm
                             else Ret (Some None)
              | None => Ret (Some None)
              end
          end
      end
  end.

Definition session_terminate (id : Z) (sm : SessionManager) : prog LogOp (SessionManager * result string unit) :=
  match sessions sm !! id with
  | None => Ret (sm, Err (session_missing id))
  | Some s => kill_session_cgroup id (se_uid s);* session_close id sm
  end.
End session.

(** ** Seats ([seat.rs]) *)

Definition SEAT0 : string := "seat0".

Definition O_RDONLY_CLOEXEC : Z := 524288.
Definition O_RDWR_CLOEXEC_NOCTTY : Z := 2 + 524288 + 256.

Definition device (path : string) (kind : DeviceKind) : SeatDevice :=
  {| sd_path := path; sd_kind := kind; sd_fd := None; sd_paused := false |}.

(** The names in a directory that are devices of a class, where their node exists. *)
Fixpoint class_devices (dev_dir : string) (kind : DeviceKind) (is_dev : string → bool) (paths : list string)
    : prog LogOp (list SeatDevice) :=
  match paths with
  | [] => Ret []
  | p :: paths =>
      let name := default "" (file_name p) in
      let* here :=
        if is_dev name then
          let dev := dev_dir +:+ "/" +:+ name in
          let* present := sys (PathExists dev) in
          Ret (if present : bool then [device dev kind] else [])
        else Ret [] in
      let* rest := class_devices dev_dir kind is_dev paths in
      Ret (here ++ rest)
  end.

Definition seat_detect (m : SeatManager) : prog LogOp SeatManager :=
  let* drm := dir_entries "/sys/class/drm" in
  let* cards := class_devices "/dev/dri" Drm (λ n, starts_with "card" n && negb (contains "-" n)) drm in
  let* input := dir_entries "/sys/class/input" in
  let* events := class_devices "/dev/input" Evdev (starts_with "event") input in
  let* snd := dir_entries "/dev/snd" in
  let* tty0 := sys (PathExists "/dev/tty0") in
  let seat0 := (Seat_new SEAT0)
    <|st_devices := cards ++ events ++ ((λ p, device p Sound) <$> snd)|>
    <|st_can_graphical := bool_decide (cards ≠ [])|> <|st_can_tty := tty0|> in
  Ret {| seats := <[SEAT0 := seat0]> (seats m) |}.

Definition seat_add (sid : Z) (seat : Seat) : Seat :=
  seat <|st_sessions := if bool_decide (sid ∈ st_sessions seat) then st_sessions seat else st_sessions seat ++ [sid]|>
       <|st_active_session := match st_active_session seat with Some s => Some s | None => Some sid end|>.

Definition seat_add_session (seat_id : string) (sid : Z) (m : SeatManager) : SeatManager :=
  {| seats := alter (seat_add sid) seat_id (seats m) |}.

Definition seat_remove (sid : Z) (seat : Seat) : Seat :=
  let rest := filter (λ s, s ≠ sid) (st_sessions seat) in
  seat <|st_sessions := rest|>
       <|st_active_session := if bool_decide (st_active_session seat = Some sid) then head rest
                              else st_active_session seat|>.

Definition seat_remove_session (seat_id : string) (sid : Z) (m : SeatManager) : SeatManager :=
  {| seats := alter (seat_remove sid) seat_id (seats m) |}.

Definition seat_missing (seat_id : string) : string := "seat " +:+ seat_id +:+ " not found".

Definition seat_activate (seat_id : string) (sid : Z) (m : SeatManager) : SeatManager * result string unit :=
  match seats m !! seat_id with
  | None => (m, Err (seat_missing seat_id))
  | Some seat =>
      if bool_decide (sid ∈ st_sessions seat) then
        ({| seats := <[seat_id := seat <|st_active_session := Some sid|>]> (seats m) |}, Ok tt)
      else (m, Err ("session " +:+ show_uint sid +:+ " not on seat " +:+ seat_id))
  end.

Definition VT_ACTIVATE : Z := 22022.
Definition VT_WAITACTIVE : Z := 22023.

Definition switch_to_vt (vt : Z) : prog LogOp (result string unit) :=
  if (vt =? 0) || (63 <? vt) then Ret (Err ("invalid VT number: " +:+ show_uint vt))
  else
    let* fd := sys (OpenFd "/dev/tty0" O_RDWR_CLOEXEC_NOCTTY) in
    if fd <? 0 then let* e := sys LastOsError in Ret (Err ("/dev/tty0: " +:+ e))
    else
      let* ret := trigger (Ioctl fd VT_ACTIVATE vt) in
      if negb (ret =? 0) then
        sys (CloseFd fd);*
        let* e := sys LastOsError in
        Ret (Err ("VT_ACTIVATE " +:+ show_uint vt +:+ ": " +:+ e))
      else
        trigger (Ioctl fd VT_WAITACTIVE vt);*
        sys (CloseFd fd);*
        Ret (Ok tt).

(** The first device with this path. *)
Definition find_device (devpath : string) (seat : Seat) : option (nat * SeatDevice) :=
  list_find (λ d, sd_path d = devpath) (st_devices seat).

Definition set_device (i : nat) (d : SeatDevice) (seat : Seat) : Seat :=
  seat <|st_devices := <[i := d]> (st_devices seat)|>.

Definition device_flags (k : DeviceKind) : Z :=
  match k with
  | Drm | Evdev => O_RDWR_CLOEXEC_NOCTTY
  | _ => O_RDONLY_CLOEXEC
  end.

Definition has_nul (s : string) : bool := str_exists (Ascii.eqb (ascii_of_nat 0)) s.

Definition take_device (seat_id devpath : string) (m : SeatManager) : prog LogOp (SeatManager * result string Z) :=
  match seats m !! seat_id with
  | None => Ret (m, Err (seat_missing seat_id))
  | Some seat =>
      match find_device devpath seat with
      | None => Ret (m, Err ("device " +:+ devpath +:+ " not on seat " +:+ seat_id))
      | Some (i, dev) =>
          match sd_fd dev with
          | Some fd => Ret (m, Ok fd)
          | None =>
              if has_nul devpath then Ret (m, Err ("invalid devpath: " +:+ devpath))
              else
                let* fd := sys (OpenFd devpath (device_flags (sd_kind dev))) in
                if fd <? 0 then
                  let* e := sys LastOsError in Ret (m, Err ("open " +:+ devpath +:+ ": " +:+ e))
                else
                  Ret ({| seats := <[seat_id := set_device i (dev <|sd_fd := Some fd|>) seat]> (seats m) |}, Ok fd)
          end
      end
  end.

Definition release_device (seat_id devpath : string) (m : SeatManager)
    : prog LogOp (SeatManager * result string unit) :=
  match seats m !! seat_id with
  | None => Ret (m, Err (seat_missing seat_id))
  | Some seat =>
      match find_device devpath seat with
      | Some (i, dev) =>
          match sd_fd dev with
          | Some fd =>
              sys (CloseFd fd);*
              Ret ({| seats := <[seat_id := set_device i (dev <|sd_fd := None|>) seat]> (seats m) |}, Ok tt)
          | None => Ret (m, Ok tt)
          end
      | None => Ret (m, Ok tt)
      end
  end.

Definition DRM_IOCTL_DROP_MASTER : Z := 100.
Definition DRM_IOCTL_SET_MASTER : Z := 30.

(** [pause_device] and [resume_device]. *)
Definition set_paused (paused : bool) (request : Z) (seat_id devpath : string) (m : SeatManager)
    : prog LogOp SeatManager :=
  match seats m !! seat_id with
  | None => Ret m
  | Some seat =>
      match find_device devpath seat with
      | None => Ret m
      | Some (i, dev) =>
          let m' := {| seats := <[seat_id := set_device i (dev <|sd_paused := paused|>) seat]> (seats m) |} in
          match sd_kind dev, sd_fd dev with
          | Drm, Some fd => trigger (Ioctl fd request 0);* Ret m'
          | _, _ => Ret m'
          end
      end
  end.

Definition pause_device := set_paused true DRM_IOCTL_DROP_MASTER.
Definition resume_device := set_paused false DRM_IOCTL_SET_MASTER.

(** ** Inhibitors ([inhibitor.rs]) *)

Section inhibitor.
Context (overflow_checks : bool).

Definition inhibitor_take (what : list InhibitWhat) (who why : string) (mode : InhibitMode) (uid pid : Z)
    (m : InhibitorManager) : prog LogOp (option (InhibitorManager * Z)) :=
  let id := next_inhibitor m in
  match arith_u64 overflow_checks (id + 1) with
  | None => Ret None
  | Some next =>
      let* now := now_unix in
      Ret (Some ({| inhibitors := <[id := {| ih_id := id; ih_what := what; ih_who := who; ih_why := why;
                                             ih_mode := mode; ih_uid := uid; ih_pid := pid;
                                             ih_created := now |}]> (inhibitors m);
                    next_inhibitor := next |}, id))
  end.

Definition inhibitor_release (id : Z) (m : InhibitorManager) : InhibitorManager * bool :=
  ({| inhibitors := delete id (inhibitors m); next_inhibitor := next_inhibitor m |},
   bool_decide (inhibitors m !! id ≠ None)).

Definition inhibitor_values (m : InhibitorManager) : list Inhibitor := (map_to_list (inhibitors m)).*2.

Definition release_by_pid (pid : Z) (m : InhibitorManager) : InhibitorManager :=
  foldl (λ m i, (inhibitor_release (ih_id i) m).1) m
    (filter (λ i, ih_pid i = pid) (inhibitor_values m)).

Definition is_blocked (m : InhibitorManager) (what : InhibitWhat) : bool :=
  existsb (λ i, bool_decide (ih_mode i = Mode_Block) && bool_decide (what ∈ ih_what i)) (inhibitor_values m).

Definition has_delay (m : InhibitorManager) (what : InhibitWhat) : bool :=
  existsb (λ i, bool_decide (ih_mode i = Mode_Delay) && bool_decide (what ∈ ih_what i)) (inhibitor_values m).

Definition is_handle_blocked := is_blocked.

Fixpoint dead_ids (l : list Inhibitor) : prog LogOp (list Z) :=
  match l with
  | [] => Ret []
  | i :: l =>
      let* alive := sys (PathExists ("/proc/" +:+ show_uint (ih_pid i))) in
      let* rest := dead_ids l in
      Ret (if alive : bool then rest else ih_id i :: rest)
  end.

Definition gc_dead_pids (m : InhibitorManager) : prog LogOp InhibitorManager :=
  let* dead := dead_ids (inhibitor_values m) in
  Ret (foldl (λ m id, (inhibitor_release id m).1) m dead).
End inhibitor.

(** ** Users ([user.rs]) *)

Section user.
Context (overflow_checks : bool).

Definition read_total_ram_bytes : prog LogOp (option Z) :=
  let* s := sys (ReadToString "/proc/meminfo") in
  let kb :=
    s ← match s with Ok s => Some s | Err _ => None end;
    l ← find (starts_with "MemTotal:") (lines s);
    v ← split_whitespace l !! 1%nat;
    parse_uint u64_max v in
  Ret match kb with
      | Some kb => arith_u64 overflow_checks (kb * 1024)
      | None => Some (4 * 1024 * 1024 * 1024)
      end.

(** The [size=] option; [None] is an overflow. *)
Definition runtime_size (config : LogindConfig) : prog LogOp (option string) :=
  match lc_runtime_directory_size config with
  | Some s =>
      match strip_suffix "%" s with
      | Some _ =>
          let pct := default 10 (parse_uint u64_max (trim_end_by (Ascii.eqb "%") s)) in
          fuel* total_ram := read_total_ram_bytes in
          Ret (p ← arith_u64 overflow_checks (total_ram * pct);
               Some (show_uint (p / 100 / 1024) +:+ "k"))
      | None => Ret (Some s)
      end
  | None => Ret (Some "500M")
  end.

(** A text that [CString::new] refuses is a panic. *)
Definition create_runtime_dir (path : string) (uid : Z) (config : LogindConfig)
    : prog LogOp (option (result string unit)) :=
  let* made := sys (CreateDirAll path) in
  match made with
  | Err e => Ret (Some (Err ("create " +:+ path +:+ ": " +:+ e)))
  | Ok _ =>
      fuel* size := runtime_size config in
      let opts := "uid=" +:+ show_uint uid +:+ ",gid=" +:+ show_uint uid +:+ ",mode=0700,size=" +:+ size in
      if has_nul opts then Ret None
      else
        let* ret := trigger (MountTmpfs path opts) in
        if ret =? 0 then Ret (Some (Ok tt))
        else
          let* chmod := trigger (SetMode path 448) in
          match chmod with
          | Err e => Ret (Some (Err e))
          | Ok _ => trigger (Chown path uid uid);* Ret (Some (Ok tt))
          end
  end.

Definition runtime_subdirs (runtime_dir : string) : list string :=
  (λ d, runtime_dir +:+ d) <$> ["/systemd"; "/systemd/private"; "/doc"; "/portal"; "/xdg-desktop-portal"].

Definition create_runtime_subdirs (runtime_dir : string) (uid : Z) : prog LogOp unit :=
  for_each (λ dir,
    let* r := sys (CreateDirAll dir) in
    match r with
    | Err _ => Ret tt
    | Ok _ => trigger (Chown dir uid uid)
    end) (runtime_subdirs runtime_dir);*
  let nl := String newline "" in
  sys (WriteFile (runtime_dir +:+ "/systemd/private/env")
    ("XDG_RUNTIME_DIR=" +:+ runtime_dir +:+ nl +:+ "DISPLAY=" +:+ nl +:+ "WAYLAND_DISPLAY=" +:+ nl));*
  Ret tt.

Definition destroy_runtime_dir (path : string) : prog LogOp unit :=
  trigger (Umount2 path);* trigger (RemoveDirAll path);* Ret tt.

Definition get_runtime_dir (uid : Z) : prog LogOp (option string) :=
  let* present := sys (PathExists (run_user uid)) in
  Ret (if present : bool then Some (run_user uid) else None).

Definition create_user_slice (uid : Z) : prog LogOp unit := sys (CreateDirAll (user_slice uid));* Ret tt.
Definition remove_user_slice (uid : Z) : prog LogOp unit := sys (RemoveDir (user_slice uid));* Ret tt.

Definition terminate_user_slice (uid : Z) : prog LogOp unit :=
  let* r := sys (WriteFile (user_slice uid +:+ "/cgroup.kill") "1") in
  match r with
  | Ok _ => Ret tt
  | Err _ => term_cgroup_procs (user_slice uid +:+ "/cgroup.procs")
  end.

Definition passwd_name (uid : Z) (line : string) : option string :=
  match split ":" line with
  | name :: _ :: id :: _ => if bool_decide (parse_uint u32_max id = Some uid) then Some name else None
  | _ => None
  end.

Definition resolve_username (uid : Z) : prog LogOp (option string) :=
  let* passwd := sys (ReadToString "/etc/passwd") in
  Ret match passwd with
      | Err _ => None
      | Ok passwd => head (omap (passwd_name uid) (lines passwd))
      end.

(** The directory of a user who comes in: the runtime directory, its parts, the slice. *)
Definition prepare_user (uid : Z) (config : LogindConfig) : prog LogOp (option (result string unit)) :=
  fuel* r := create_runtime_dir (run_user uid) uid config in
  match r with
  | Err e => Ret (Some (Err e))
  | Ok _ => create_runtime_subdirs (run_user uid) uid;* create_user_slice uid;* Ret (Some (Ok tt))
  end.

Definition user_login (uid : Z) (username : string) (sid : Z) (config : LogindConfig) (m : UserManager)
    : prog LogOp (option (UserManager * result string unit)) :=
  match users m !! uid with
  | Some u =>
      let* u :=
        if bool_decide (sid ∈ ur_session_ids u) then Ret u
        else
          let* now := now_unix in
          Ret (u <|ur_session_ids := ur_session_ids u ++ [sid]|> <|ur_last_login := now|>) in
      Ret (Some ({| users := <[uid := u <|ur_state := User_Online|>]> (users m) |}, Ok tt))
  | None =>
      fuel* r := prepare_user uid config in
      match r with
      | Err e => Ret (Some (m, Err e))
      | Ok _ =>
          let* now := now_unix in
          let rec_ := (UserRecord_new now uid username) <|ur_session_ids := [sid]|> <|ur_state := User_Online|> in
          Ret (Some ({| users := <[uid := rec_]> (users m) |}, Ok tt))
      end
  end.

(** A clean-up thread is started for the last session of a user that does not linger. *)
Definition user_logout (uid sid : Z) (config : LogindConfig) (m : UserManager) : prog LogOp UserManager :=
  match users m !! uid with
  | None => Ret m
  | Some u =>
      let ids := filter (λ s, s ≠ sid) (ur_session_ids u) in
      let u1 := u <|ur_session_ids := ids|> in
      let u2 := if is_nil ids then u1 <|ur_state := if ur_linger u then User_Lingering else User_Closing|> else u1 in
      if is_nil ids && negb (ur_linger u) then
        trigger (SpawnCleanup {| cu_uid := uid; cu_username := ur_username u; cu_config := config |});*
        Ret {| users := delete uid (users m) |}
      else Ret {| users := <[uid := u2]> (users m) |}
  end.

Definition LINGER_DIR : string := "/var/lib/quantra-logind/linger".
Definition linger_file (uid : Z) : string := LINGER_DIR +:+ "/" +:+ show_uint uid.

(** The record of a user who lingers without having logged in. *)
Definition linger_absent (uid : Z) (m : UserManager) : prog LogOp (option (UserManager * result string unit)) :=
  let* username := resolve_username uid in
  match username with
  | None => Ret (Some (m, Ok tt))
  | Some username =>
      fuel* r := prepare_user uid LogindConfig_default in
      match r with
      | Err e => Ret (Some (m, Err e))
      | Ok _ =>
          let* now := now_unix in
          let rec_ := (UserRecord_new now uid username) <|ur_linger := true|> <|ur_state := User_Lingering|> in
          Ret (Some ({| users := <[uid := rec_]> (users m) |}, Ok tt))
      end
  end.

Definition set_linger_record (uid : Z) (enable : bool) (m : UserManager)
    : prog LogOp (option (UserManager * result string unit)) :=
  match users m !! uid with
  | Some u =>
      if negb enable && is_nil (ur_session_ids u) then
        destroy_runtime_dir (ur_runtime_dir u);*
        remove_user_slice uid;*
        Ret (Some ({| users := delete uid (users m) |}, Ok tt))
      else Ret (Some ({| users := <[uid := u <|ur_linger := enable|>]> (users m) |}, Ok tt))
  | None => if enable then linger_absent uid m else Ret (Some (m, Ok tt))
  end.

Definition set_linger (uid : Z) (enable : bool) (m : UserManager)
    : prog LogOp (option (UserManager * result string unit)) :=
  let* made := sys (CreateDirAll LINGER_DIR) in
  match made with
  | Err e => Ret (Some (m, Err ("create linger dir: " +:+ e)))
  | Ok _ =>
      if enable then
        let* r := sys (WriteFile (linger_file uid) "") in
        match r with
        | Err e => Ret (Some (m, Err ("write linger file: " +:+ e)))
        | Ok _ => set_linger_record uid true m
        end
      else sys (RemoveFile (linger_file uid));* set_linger_record uid false m
  end.

Definition user_terminate (uid : Z) (m : UserManager) : prog LogOp UserManager :=
  terminate_user_slice uid;*
  match users m !! uid with
  | Some u => destroy_runtime_dir (ur_runtime_dir u);* Ret {| users := delete uid (users m) |}
  | None => Ret m
  end.

Definition update_state (uid : Z) (has_active_session : bool) (m : UserManager) : UserManager :=
  {| users := alter (λ u, u <|ur_state :=
       if is_nil (ur_session_ids u) then (if ur_linger u then User_Lingering else User_Offline)
       else if has_active_session then User_Active else User_Online|>) uid (users m) |}.

Fixpoint load_each (names : list string) (m : UserManager) : prog LogOp (option UserManager) :=
  match names with
  | [] => Ret (Some m)
  | name :: names =>
      match parse_uint u32_max name with
      | None => load_each names m
      | Some uid =>
          let* username := resolve_username uid in
          match username with
          | None => load_each names m
          | Some _ => fuel* r := set_linger uid true m in load_each names r.1
          end
      end
  end.

Definition load_linger_state (m : UserManager) : prog LogOp (option UserManager) :=
  let* entries := dir_entries LINGER_DIR in
  load_each (default "" ∘ file_name <$> entries) m.

(** ** The clean-up after a logout *)

(** The real uid in [/proc/<pid>/status]. *)
Definition status_uid (status : string) : option Z :=
  rest ← head (omap (strip_prefix ("Uid:" +:+ String (ascii_of_nat 9) "")) (lines status));
  Some (default u32_max (head (split_whitespace rest) ≫= parse_uint u32_max)).

Definition kill_all_user_processes (uid : Z) (sig : string) : prog LogOp unit :=
  let* entries := dir_entries "/proc" in
  for_each (λ p,
    match parse_i32 (default "" (file_name p)) with
    | None => Ret tt
    | Some pid =>
        if pid <=? 1 then Ret tt
        else
          let* me := trigger GetPid in
          if pid =? me then Ret tt
          else
            let* status := sys (ReadToString ("/proc/" +:+ show_int pid +:+ "/status")) in
            match status with
            | Err _ => Ret tt
            | Ok status =>
                if bool_decide (status_uid status = Some uid) then trigger (SignalPid pid sig) else Ret tt
            end
    end) entries.

Definition remove_user_ipc (uid : Z) : prog LogOp unit :=
  let* entries := dir_entries "/dev/shm" in
  for_each (λ path,
    let* meta := trigger (StatFile path) in
    match meta with
    | Some (fuid, fgid, mode) =>
        if (fuid =? uid) || ((fgid =? uid) && negb (Z.land mode 2 =? 0)) then
          sys (RemoveFile path);* Ret tt
        else Ret tt
    | None => Ret tt
    end) entries.

Definition should_kill (config : LogindConfig) (username : string) : bool :=
  if negb (is_nil (lc_kill_only_users config)) then bool_decide (username ∈ lc_kill_only_users config)
  else negb (bool_decide (username ∈ lc_kill_exclude_users config)).

(** The thread; it takes no lock. *)
Definition logout_cleanup (c : Cleanup) : prog LogOp unit :=
  let uid := cu_uid c in
  sys (Sleep (from_secs (lc_user_stop_delay_sec (cu_config c))));*
  (if lc_kill_user_processes (cu_config c) && should_kill (cu_config c) (cu_username c) then
     kill_all_user_processes uid "SIGTERM";*
     sys (Sleep (from_secs 5));*
     kill_all_user_processes uid "SIGKILL"
   else Ret tt);*
  (if lc_remove_ipc (cu_config c) then remove_user_ipc uid else Ret tt);*
  let* dir := get_runtime_dir uid in
  (match dir with Some dir => destroy_runtime_dir dir | None => Ret tt end);*
  remove_user_slice uid.
End user.
