(* ===== verification/LoginPower.v ===== *)
(** * The login daemon: power

    [quantra-logind/src/power.rs]: the power actions and the inhibitors that hold them up,
    brightness, scheduled shutdowns, ACPI events and the idle timer. *)

From Stdlib Require Import ZArith Ascii.
From stdpp Require Import base tactics numbers list strings gmap.
From S2P Require Import Prelude RustStr Types Effects Os Login.

Local Open Scope string_scope.
Local Open Scope list_scope.
Local Open Scope Z_scope.
Local Open Scope quantra_scope.
Local Open Scope prog_scope.

Definition read_or_empty (path : string) : prog LogOp string :=
  let* r := sys (ReadToString path) in Ret match r with Ok s => s | Err _ => "" end.

Definition has_word (w s : string) : bool := existsb (String.eqb w) (split_whitespace s).

Definition PowerManager_new (config : LogindConfig) : prog LogOp PowerManager :=
  let* states := read_or_empty "/sys/power/state" in
  let* disk_modes := read_or_empty "/sys/power/disk" in
  Ret {| can_suspend := has_word "mem" states;
         can_hibernate := has_word "disk" states;
         can_hybrid_sleep := has_word "disk" states && contains "suspend" disk_modes;
         can_suspend_then_hibernate := has_word "mem" states && has_word "disk" states;
         scheduled_shutdown := None; pw_config := config |}.

(** [can_power_off] and [can_reboot] are always [Yes]. *)
Definition can (b : bool) : CanDo := if b then CanDo_Yes else CanDo_No.

(** ** Inhibitor checks *)

Definition what_name (w : InhibitWhat) : string :=
  match w with
  | Inhibit_Shutdown => "Shutdown" | Inhibit_Sleep => "Sleep" | Inhibit_Idle => "Idle"
  | Inhibit_HandlePowerKey => "HandlePowerKey" | Inhibit_HandleSuspendKey => "HandleSuspendKey"
  | Inhibit_HandleHibernateKey => "HandleHibernateKey" | Inhibit_HandleLidSwitch => "HandleLidSwitch"
  | Inhibit_HandleRebootKey => "HandleRebootKey"
  end.

Definition check_block (inh : InhibitorManager) (what : InhibitWhat) (interactive : bool) : result string unit :=
  if is_blocked inh what then
    if interactive then Ok tt
    else Err (what_name what +:+ " blocked by inhibitor — use interactive=true to override")
  else Ok tt.

(** The inhibitors are those of the guard that the caller holds. *)
Definition wait_delay (fuel : nat) (pm : PowerManager) (inh : InhibitorManager) (what : InhibitWhat)
    : prog LogOp (option unit) :=
  if negb (has_delay inh what) then Ret (Some tt)
  else
    let max_wait := from_secs (lc_inhibit_delay_max_sec (pw_config pm)) in
    let* start := sys Now in
    loop fuel (λ _,
      let* now := sys Now in
      if now - start <? max_wait then
        if negb (has_delay inh what) then Ret (inr tt)
        else sys (Sleep (from_millis 200));* Ret (inl tt)
      else Ret (inr tt)) tt.

(** ** Wall messages *)

Definition two_digits (n : Z) : string := if n <? 10 then "0" +:+ show_uint n else show_uint n.

Definition chrono_now : prog LogOp string :=
  let* secs := now_unix in
  let s := secs mod 86400 in
  Ret (two_digits (s / 3600) +:+ ":" +:+ two_digits (s mod 3600 / 60) +:+ ":" +:+ two_digits (s mod 60) +:+ " UTC").

Definition crlf : string := String carriage_return (String newline "").

Definition send_wall (message : string) : prog LogOp unit :=
  let* now := chrono_now in
  let header := crlf +:+ "Broadcast message from quantra-logind (" +:+ now +:+ ")" +:+ crlf
                +:+ message +:+ crlf +:+ crlf in
  for_each (λ n, trigger (WriteTty ("/dev/tty" +:+ show_uint n) header)) [1; 2; 3; 4; 5; 6].

(** ** The actions *)

Section actions.
Context (fuel : nat) (pm : PowerManager) (inh : InhibitorManager) (interactive : bool).

Definition reboot_now (cmd : string) : prog LogOp (option (result string unit)) :=
  trigger SyncDisks;* trigger (Reboot cmd);* Ret (Some (Ok tt)).

Definition guarded (what : InhibitWhat) (k : prog LogOp (option (result string unit)))
    : prog LogOp (option (result string unit)) :=
  match check_block inh what interactive with
  | Err e => Ret (Some (Err e))
  | Ok _ => k
  end.

Definition power_off : prog LogOp (option (result string unit)) :=
  guarded Inhibit_Shutdown
    (fuel* _ := wait_delay fuel pm inh Inhibit_Shutdown in
     send_wall "System is going down for power-off NOW!";*
     reboot_now "POWER_OFF").

Definition reboot : prog LogOp (option (result string unit)) :=
  guarded Inhibit_Shutdown
    (fuel* _ := wait_delay fuel pm inh Inhibit_Shutdown in
     send_wall "System is going down for reboot NOW!";*
     reboot_now "RESTART").

Definition OS_INDICATIONS : string :=
  "/sys/firmware/efi/efivars/OsIndications-8be4df61-93ca-11d2-aa0d-00e098032b8c".

Definition set_efi_boot_to_firmware : prog LogOp (result string unit) :=
  let* r := trigger (WriteBytes OS_INDICATIONS [7; 0; 0; 0; 1; 0; 0; 0; 0; 0; 0; 0]) in
  Ret (map_err (λ e, "set EFI OsIndications: " +:+ e) r).

Definition reboot_to_firmware : prog LogOp (option (result string unit)) :=
  guarded Inhibit_Shutdown
    (let* r := set_efi_boot_to_firmware in
     match r with
     | Err e => Ret (Some (Err e))
     | Ok _ => send_wall "Rebooting to firmware setup...";* reboot_now "RESTART"
     end).

Definition halt : prog LogOp (option (result string unit)) :=
  guarded Inhibit_Shutdown
    (fuel* _ := wait_delay fuel pm inh Inhibit_Shutdown in
     send_wall "System halting NOW!";*
     reboot_now "HALT").

Definition POWER_STATE : string := "/sys/power/state".

Definition write_power_state (state : string) : prog LogOp (option (result string unit)) :=
  let* r := sys (WriteFile POWER_STATE state) in
  Ret (Some (map_err (λ e, POWER_STATE +:+ ": " +:+ e) r)).

Definition suspend : prog LogOp (option (result string unit)) :=
  if negb (can_suspend pm) then Ret (Some (Err "suspend not supported on this hardware"))
  else
    let k := fuel* _ := wait_delay fuel pm inh Inhibit_Sleep in write_power_state "mem" in
    if negb (lc_suspend_key_ignore_inhibited (pw_config pm)) then guarded Inhibit_Sleep k else k.

Definition hibernate : prog LogOp (option (result string unit)) :=
  if negb (can_hibernate pm) then Ret (Some (Err "hibernate not supported"))
  else
    let k := fuel* _ := wait_delay fuel pm inh Inhibit_Sleep in write_power_state "disk" in
    if negb (lc_hibernate_key_ignore_inhibited (pw_config pm)) then guarded Inhibit_Sleep k else k.

Definition hybrid_sleep : prog LogOp (option (result string unit)) :=
  if negb (can_hybrid_sleep pm) then Ret (Some (Err "hybrid sleep not supported"))
  else
    guarded Inhibit_Sleep
      (fuel* _ := wait_delay fuel pm inh Inhibit_Sleep in
       sys (WriteFile "/sys/power/disk" "suspend");* write_power_state "disk").

Definition suspend_then_hibernate : prog LogOp (option (result string unit)) :=
  if negb (can_suspend_then_hibernate pm) then Ret (Some (Err "suspend-then-hibernate not supported"))
  else
    guarded Inhibit_Sleep
      (fuel* _ := wait_delay fuel pm inh Inhibit_Sleep in
       sys (WriteFile "/sys/power/disk" "suspend");* write_power_state "mem").
End actions.

(** ** Scheduled shutdowns *)

Definition now_usec : prog LogOp Z := let* ns := sys WallClock in Ret (ns / 1000).

Definition schedule_shutdown (action : string) (time_usec : Z) (pm : PowerManager) : prog LogOp PowerManager :=
  let* now := now_usec in
  send_wall ("Shutdown scheduled: " +:+ action +:+ " in " +:+ show_uint (saturating_sub_u64 time_usec now / 1000000) +:+ "s");*
  Ret (pm <|scheduled_shutdown := Some (action, time_usec)|>).

Definition cancel_scheduled_shutdown (pm : PowerManager) : prog LogOp (PowerManager * bool) :=
  match scheduled_shutdown pm with
  | Some _ => send_wall "Scheduled shutdown cancelled.";* Ret (pm <|scheduled_shutdown := None|>, true)
  | None => Ret (pm, false)
  end.

(** ** Brightness *)

Definition brightness_file (file subsystem name : string) : option string :=
  match subsystem with
  | "backlight" => Some ("/sys/class/backlight/" +:+ name +:+ "/" +:+ file)
  | "leds" => Some ("/sys/class/leds/" +:+ name +:+ "/" +:+ file)
  | _ => None
  end.

Definition brightness_path (subsystem name : string) : prog LogOp (result string string) :=
  match brightness_file "brightness" subsystem name with
  | None => Ret (Err ("unknown brightness subsystem: " +:+ subsystem))
  | Some path =>
      let* present := sys (PathExists path) in
      Ret (if present : bool then Ok path else Err ("brightness device not found: " +:+ path))
  end.

Definition read_max_brightness (subsystem name : string) : prog LogOp (option Z) :=
  match brightness_file "max_brightness" subsystem name with
  | None => Ret None
  | Some path =>
      let* r := sys (ReadToString path) in
      Ret match r with Ok s => parse_uint u32_max (trim s) | Err _ => None end
  end.

Definition set_brightness (subsystem name : string) (value : Z) : prog LogOp (result string unit) :=
  try* path := brightness_path subsystem name in
  let* max := read_max_brightness subsystem name in
  let* r := sys (WriteFile path (show_uint (Z.min value (default 100 max)))) in
  Ret (map_err (λ e, "write " +:+ path +:+ ": " +:+ e) r).

Definition get_brightness (subsystem name : string) : prog LogOp (result string Z) :=
  try* path := brightness_path subsystem name in
  let* r := sys (ReadToString path) in
  Ret match r with
      | Err e => Err ("read " +:+ path +:+ ": " +:+ e)
      | Ok s => match parse_uint u32_max (trim s) with
                | Some v => Ok v
                | None => Err "parse brightness"
                end
      end.

(** ** ACPI events *)

Inductive AcpiEvent :=
| PowerButton | SleepButton | LidClose | LidOpen | BatteryLow | AcAdapterInserted | AcAdapterRemoved
| BrightnessUp | BrightnessDown | VideoSwitchMode.

Definition parse_acpi_line (line : string) : option AcpiEvent :=
  let l := to_ascii_lowercase line in
  if contains "power" l && contains "button" l then Some PowerButton
  else if contains "sleep" l && contains "button" l then Some SleepButton
  else if contains "lid" l && contains "close" l then Some LidClose
  else if contains "lid" l && contains "open" l then Some LidOpen
  else if contains "ac_adapter" l && contains "plug" l then Some AcAdapterInserted
  else if contains "ac_adapter" l && contains "unplug" l then Some AcAdapterRemoved
  else None.

Definition acpi_action (config : LogindConfig) (event : AcpiEvent) : option PowerAction :=
  match event with
  | PowerButton => Some (lc_handle_power_key config)
  | SleepButton => Some (lc_handle_suspend_key config)
  | LidClose => Some (lc_handle_lid_switch config)
  | _ => None
  end.

(** The answer of an action is dropped; [None] goes through. *)
Definition drop_answer (p : prog LogOp (option (result string unit))) : prog LogOp (option unit) :=
  fuel* _ := p in Ret (Some tt).

Definition acpi_act (fuel : nat) (pm : PowerManager) (inh : InhibitorManager) (action : PowerAction)
    : prog LogOp (option unit) :=
  match action with
  | Act_PowerOff => drop_answer (power_off fuel pm inh false)
  | Act_Reboot => drop_answer (reboot fuel pm inh false)
  | Act_Suspend => drop_answer (suspend fuel pm inh false)
  | Act_Hibernate => drop_answer (hibernate fuel pm inh false)
  | Act_HybridSleep => drop_answer (hybrid_sleep fuel pm inh false)
  | _ => Ret (Some tt)
  end.

(** The power manager is locked first, then the inhibitors. *)
Definition handle_acpi_event (fuel : nat) (config : LogindConfig) (event : AcpiEvent) : prog LogOp (option unit) :=
  match acpi_action config event with
  | None => Ret (Some tt)
  | Some action =>
      let* pm := trigger (Lock PowerL) in
      let* inh := trigger (Lock InhibitorsL) in
      fuel* _ := acpi_act fuel pm inh action in
      trigger (Unlock InhibitorsL inh);*
      trigger (Unlock PowerL pm);*
      Ret (Some tt)
  end.

(** What a stream of lines makes the reader do. *)
Fixpoint acpi_lines (fuel : nat) (config : LogindConfig) (ls : list string) : prog LogOp (option unit) :=
  match ls with
  | [] => Ret (Some tt)
  | l :: ls =>
      match parse_acpi_line l with
      | Some event => fuel* _ := handle_acpi_event fuel config event in acpi_lines fuel config ls
      | None => acpi_lines fuel config ls
      end
  end.

(** ** The idle timer *)

(** One poll: when all sessions have been idle since, and whether that is long enough. *)
Definition idle_poll (config : LogindConfig) (since : option Z) : prog LogOp (option Z * bool) :=
  sys (Sleep (from_secs 30));*
  let* blocked := reading InhibitorsL (λ inh, is_handle_blocked inh Inhibit_Idle) in
  if (blocked : bool) then Ret (None, false)
  else
    let* all_idle := reading SessionsL (λ sm,
      negb (is_nil (session_values sm)) && forallb se_idle_hint (session_values sm)) in
    if (all_idle : bool) then
      let* since := match since with
                    | Some t => Ret t
                    | None => sys Now
                    end in
      let* now := sys Now in
      let threshold := from_secs (Z.max (lc_idle_action_sec config) 1) in
      if threshold <=? now - since then Ret (None, true) else Ret (Some since, false)
    else Ret (None, false).

(** The power manager is locked first, then the inhibitors, then the sessions. *)
Definition idle_act (fuel : nat) (config : LogindConfig) : prog LogOp (option unit) :=
  let* pm := trigger (Lock PowerL) in
  let* inh := trigger (Lock InhibitorsL) in
  fuel* _ :=
    match lc_idle_action config with
    | Act_Suspend => drop_answer (suspend fuel pm inh false)
    | Act_Hibernate => drop_answer (hibernate fuel pm inh false)
    | Act_HybridSleep => drop_answer (hybrid_sleep fuel pm inh false)
    | Act_PowerOff => drop_answer (power_off fuel pm inh false)
    | Act_Lock => locked SessionsL (λ sm, let* sm := session_lock_all sm in Ret (Some (sm, tt)))
    | _ => Ret (Some tt)
    end in
  trigger (Unlock InhibitorsL inh);*
  trigger (Unlock PowerL pm);*
  Ret (Some tt).

Definition idle_action_turn (fuel : nat) (config : LogindConfig) (since : option Z)
    : prog LogOp (option (option Z + unit)) :=
  let* r := idle_poll config since in
  if (r.2 : bool) then fuel* _ := idle_act fuel config in Ret (Some (inl r.1)) else Ret (Some (inl r.1)).

Definition idle_action_loop (turns fuel : nat) (config : LogindConfig) : prog LogOp (option unit) :=
  loop_fuel turns (idle_action_turn fuel config) None.

(** [start_idle_timer]: the thread is only started for an action. *)
Definition idle_timer_wanted (config : LogindConfig) : bool :=
  match lc_idle_action config with Act_Ignore => false | _ => true end.
