(* ===== verification/Utmp.v ===== *)
(** * Login records

    [quantra-logind/src/utmp.rs]: the 384-byte records of [/var/run/utmp] and
    [/var/log/wtmp], little-endian, as the structure of glibc lays them out. *)

From Stdlib Require Import ZArith Ascii.
From stdpp Require Import base tactics numbers list strings gmap.
From S2P Require Import Prelude RustStr Types Effects Os Login.

Local Open Scope string_scope.
Local Open Scope list_scope.
Local Open Scope Z_scope.
Local Open Scope prog_scope.

Definition UTMP_PATH : string := "/var/run/utmp".
Definition WTMP_PATH : string := "/var/log/wtmp".
Definition UT_LINESIZE : nat := 32.
Definition UT_NAMESIZE : nat := 32.
Definition UT_HOSTSIZE : nat := 256.
Definition BOOT_TIME : Z := 2.
Definition USER_PROCESS : Z := 7.
Definition DEAD_PROCESS : Z := 8.

(** The fields that are written; [ut_exit], [ut_session], the address and the padding
    stay zero. *)
Record Utmp := {
  ut_type : Z;
  ut_pid : Z;
  ut_line : list Z;
  ut_id : list Z;
  ut_user : list Z;
  ut_host : list Z;
  ut_tv_sec : Z;
  ut_tv_usec : Z;
}.

Definition zeros (n : nat) : list Z := replicate n 0.

(** [copy_str] into a zeroed array of [n] bytes: the last one stays zero. *)
Definition copy_str (n : nat) (src : string) : list Z :=
  let bytes := take (n - 1) (str_bytes src) in
  bytes ++ zeros (n - length bytes).

(** A byte that does not continue a character. *)
Definition char_boundary (b : Z) : bool := (b <? 128) || (192 <=? b).

(** [&s[s.len().saturating_sub(4)..]]: [None] is the panic inside a character. *)
Definition last_four (bytes : list Z) : option (list Z) :=
  let tail := drop (length bytes - 4) bytes in
  match tail with
  | b :: _ => if char_boundary b then Some tail else None
  | [] => Some []
  end.

(** A [u32] written as an [i32]: the same four bytes. *)
Definition le_i32 (z : Z) : list Z := to_le_bytes (z mod 4294967296).

Definition build_utmp (type pid now_ns : Z) (tty user host id : string) : option Utmp :=
  let line := trim_start_matches "/dev/" tty in
  tail ← last_four (str_bytes (if is_empty id then line else id));
  let ib := take 4 tail in
  Some {| ut_type := type; ut_pid := pid; ut_line := copy_str UT_LINESIZE line;
          ut_id := ib ++ zeros (4 - length ib);
          ut_user := copy_str UT_NAMESIZE user; ut_host := copy_str UT_HOSTSIZE host;
          ut_tv_sec := now_ns / 1000000000; ut_tv_usec := now_ns / 1000 mod 1000000 |}.

Definition utmp_as_bytes (r : Utmp) : list Z :=
  [ut_type r mod 256; ut_type r / 256 mod 256; 0; 0] ++ le_i32 (ut_pid r) ++ ut_line r ++ ut_id r ++
  ut_user r ++ ut_host r ++ zeros 8 ++ le_i32 (ut_tv_sec r) ++ le_i32 (ut_tv_usec r) ++ zeros 36.

Definition REC_SIZE : nat := 384.

(** The record that is to be overwritten: the same pid or the same line. *)
Definition same_entry (r : Utmp) (existing : list Z) : bool :=
  bool_decide (take 4 (drop 4 existing) = le_i32 (ut_pid r)) ||
  bool_decide (take 32 (drop 8 existing) = ut_line r).

(** The loop over the [n] whole records of the file. *)
Fixpoint overwrite (r : Utmp) (n : nat) (data : list Z) : option (list Z) :=
  match n with
  | O => None
  | S n =>
      let existing := take REC_SIZE data in
      let rest := drop REC_SIZE data in
      if same_entry r existing then Some (utmp_as_bytes r ++ rest)
      else (λ rest, existing ++ rest) <$> overwrite r n rest
  end.

Definition ensure_file (path : string) : prog LogOp unit :=
  let* present := sys (PathExists path) in
  if (present : bool) then Ret tt
  else
    sys (CreateDirAll (join "/" (rev (tail (rev (split "/" path))))));*
    trigger (WriteBytes path []);*
    Ret tt.

Definition write_utmp_record (r : Utmp) : prog LogOp unit :=
  ensure_file UTMP_PATH;*
  let* data := sys (ReadBytes UTMP_PATH) in
  match data with
  | None => Ret tt
  | Some data =>
      match overwrite r (length data / REC_SIZE) data with
      | Some data => trigger (WriteBytes UTMP_PATH data);* Ret tt
      | None => trigger (AppendFile UTMP_PATH (utmp_as_bytes r))
      end
  end.

Definition append_wtmp_record (r : Utmp) : prog LogOp unit :=
  ensure_file WTMP_PATH;* trigger (AppendFile WTMP_PATH (utmp_as_bytes r)).

(** [None] is a panic. *)
Definition record_login (r : option Utmp) : prog LogOp (option unit) :=
  match r with
  | Some r => write_utmp_record r;* append_wtmp_record r;* Ret (Some tt)
  | None => Ret None
  end.

Definition write_login (pid : Z) (tty username remote_host : string) (session_id : Z) : prog LogOp (option unit) :=
  let* now := sys WallClock in
  record_login (build_utmp USER_PROCESS pid now tty username remote_host (show_uint session_id)).

Definition write_logout (pid : Z) (tty : string) : prog LogOp (option unit) :=
  let* now := sys WallClock in
  record_login (build_utmp DEAD_PROCESS pid now tty "" "" "").

Definition write_boot_time : prog LogOp (option unit) :=
  let* now := sys WallClock in
  match build_utmp BOOT_TIME 0 now "~" "reboot" "" "" with
  | Some r => append_wtmp_record r;* Ret (Some tt)
  | None => Ret None
  end.

(** ** The layout *)

(** What a reader takes out of a record: type, pid, line, user, host and time. *)
Definition decode_utmp (b : list Z) : Utmp := {|
  ut_type := from_le_bytes 2 b;
  ut_pid := from_le_bytes 4 (drop 4 b);
  ut_line := take 32 (drop 8 b);
  ut_id := take 4 (drop 40 b);
  ut_user := take 32 (drop 44 b);
  ut_host := take 256 (drop 76 b);
  ut_tv_sec := from_le_bytes 4 (drop 340 b);
  ut_tv_usec := from_le_bytes 4 (drop 344 b)
|}.

(** A text in a field: the bytes before the first zero. *)
Definition field_text (field : list Z) : list Z := take (default (length field) (fst <$> list_find (λ b, b = 0) field)) field.

(** A record whose numbers and fields have their widths. *)
Record utmp_ok (r : Utmp) : Prop := {
  uo_type : 0 ≤ ut_type r < 65536;
  uo_pid : 0 ≤ ut_pid r < 4294967296;
  uo_sec : 0 ≤ ut_tv_sec r < 4294967296;
  uo_usec : 0 ≤ ut_tv_usec r < 4294967296;
  uo_line : length (ut_line r) = 32%nat;
  uo_id : length (ut_id r) = 4%nat;
  uo_user : length (ut_user r) = 32%nat;
  uo_host : length (ut_host r) = 256%nat;
}.

Lemma length_copy_str n s : (0 < n)%nat → length (copy_str n s) = n.
Proof. intros Hn. unfold copy_str, zeros. rewrite length_app, length_replicate, !length_take. lia. Qed.

Lemma length_to_le_bytes z : length (to_le_bytes z) = 4%nat.
Proof. done. Qed.

Lemma le_i32_small z : 0 ≤ z < 4294967296 → le_i32 z = to_le_bytes z.
Proof. intros H. unfold le_i32. by rewrite Z.mod_small. Qed.

Lemma build_utmp_ok type pid now tty user host id r :
  build_utmp type pid now tty user host id = Some r →
  0 ≤ type < 65536 → 0 ≤ pid < 4294967296 → 0 ≤ now < 4294967296000000000 → utmp_ok r.
Proof.
  unfold build_utmp. intros Hb Ht Hp Hn. apply bind_Some in Hb as (tail & Htail & [= <-]).
  split; simpl; try done.
  - split; [apply Z.div_pos; lia|apply Z.div_lt_upper_bound; lia].
  - pose proof (Z.mod_pos_bound (now / 1000) 1000000 ltac:(lia)). lia.
  - by apply length_copy_str; unfold UT_LINESIZE; lia.
  - unfold zeros. rewrite length_app, length_replicate, !length_take. lia.
  - by apply length_copy_str; unfold UT_NAMESIZE; lia.
  - by apply length_copy_str; unfold UT_HOSTSIZE; lia.
Qed.

Lemma from_le_bytes_app z rest :
  0 ≤ z < 4294967296 → from_le_bytes 4 (to_le_bytes z ++ rest) = z.
Proof. intros Hz. exact (to_le_bytes_from z Hz). Qed.

Lemma from_le_bytes_2 z rest :
  0 ≤ z < 65536 → from_le_bytes 2 ([z mod 256; z / 256 mod 256] ++ rest) = z.
Proof.
  intros Hz. cbn [from_le_bytes app]. rewrite (Z.mod_small (z / 256)).
  - pose proof (Z.div_mod z 256). lia.
  - split; [apply Z.div_pos; lia|apply Z.div_lt_upper_bound; lia].
Qed.

Lemma length_utmp_as_bytes r : utmp_ok r → length (utmp_as_bytes r) = REC_SIZE.
Proof.
  intros []. unfold utmp_as_bytes, le_i32, zeros, REC_SIZE.
  rewrite !length_app, !length_to_le_bytes, !length_replicate. simpl. lia.
Qed.

(** Goes past a field of known length. *)
Lemma drop_field {A} n (a b : list A) : (length a ≤ n)%nat → drop n (a ++ b) = drop (n - length a) b.
Proof. intros H. by rewrite drop_app, drop_ge. Qed.

Lemma take_field {A} n (a b : list A) : length a = n → take n (a ++ b) = a.
Proof. intros <-. apply take_app_length. Qed.

Lemma decode_utmp_as_bytes r : utmp_ok r → decode_utmp (utmp_as_bytes r) = r.
Proof.
  intros [Ht Hp Hs Hu Hl Hi Hn Hh]. unfold utmp_as_bytes, decode_utmp. rewrite !le_i32_small by done.
  destruct r as [ty pid line id user host sec usec]. cbn [ut_type ut_pid ut_line ut_id ut_user ut_host ut_tv_sec ut_tv_usec] in *.
  assert (length (zeros 8) = 8%nat) as Hz by done. revert Hz. generalize (zeros 8) as z8. intros z8 Hz.
  generalize (zeros 36) as z36. intros z36.
  assert (Hlen : ∀ z, length (to_le_bytes z) = 4%nat) by done.
  pose proof (from_le_bytes_app) as Hle. revert Hlen Hle. generalize to_le_bytes as le. intros le Hlen Hle.
  f_equal; [by apply from_le_bytes_2|..];
    repeat (rewrite drop_field by (rewrite ?Hlen, ?Hl, ?Hi, ?Hn, ?Hh, ?Hz; simpl; lia));
    rewrite ?Hlen, ?Hl, ?Hi, ?Hn, ?Hh, ?Hz; first [by apply take_field | by apply Hle].
Qed.

(** ** The files *)

(** A new record replaces the first with its pid or line, or comes last. *)
Fixpoint update_entry (r : Utmp) (l : list Utmp) : list Utmp :=
  match l with
  | [] => [r]
  | e :: l =>
      if bool_decide (ut_pid e = ut_pid r ∨ ut_line e = ut_line r) then r :: l else e :: update_entry r l
  end.

Definition file_of (l : list Utmp) : list Z := concat (utmp_as_bytes <$> l).

Lemma le_i32_inj a b : 0 ≤ a < 4294967296 → 0 ≤ b < 4294967296 → le_i32 a = le_i32 b → a = b.
Proof.
  intros Ha Hb. rewrite !le_i32_small by done. intros H.
  by rewrite <- (to_le_bytes_from a), <- (to_le_bytes_from b), H.
Qed.

Lemma same_entry_spec r e :
  utmp_ok r → utmp_ok e →
  same_entry r (utmp_as_bytes e) = bool_decide (ut_pid e = ut_pid r ∨ ut_line e = ut_line r).
Proof.
  intros Hr He. assert (take 4 (drop 4 (utmp_as_bytes e)) = le_i32 (ut_pid e)) as Hpid by done.
  assert (take 32 (drop 8 (utmp_as_bytes e)) = ut_line e) as Hline.
  { pose proof (decode_utmp_as_bytes e He) as Hd. by rewrite <- Hd at 2. }
  unfold same_entry. rewrite Hpid, Hline. destruct Hr, He.
  rewrite <- bool_decide_or. apply bool_decide_ext. split; [|intros [-> | ->]; auto].
  intros [H|H]; [left|by right]. by apply le_i32_inj.
Qed.

Lemma overwrite_spec r l :
  utmp_ok r → Forall utmp_ok l →
  match overwrite r (length l) (file_of l) with
  | Some data => data = file_of (update_entry r l)
  | None => file_of (update_entry r l) = file_of l ++ utmp_as_bytes r
  end.
Proof.
  intros Hr. induction l as [|e l IH]; intros Hl.
  { simpl. unfold file_of. simpl. by rewrite app_nil_r. }
  inversion Hl as [|? ? He Hl']; subst. specialize (IH Hl').
  change (file_of (e :: l)) with (utmp_as_bytes e ++ file_of l). cbn [length overwrite update_entry].
  pose proof (length_utmp_as_bytes e He) as Hlen.
  rewrite take_field, drop_field, Hlen, Nat.sub_diag, drop_0, same_entry_spec by (done || lia).
  destruct (bool_decide _); [done|].
  change (file_of (e :: update_entry r l)) with (utmp_as_bytes e ++ file_of (update_entry r l)).
  destruct (overwrite r (length l) (file_of l)); simpl; [by subst|]. by rewrite IH, app_assoc.
Qed.

Lemma length_file_of l : Forall utmp_ok l → length (file_of l) = (length l * REC_SIZE)%nat.
Proof.
  induction 1 as [|e l He _ IH]; [done|]. change (file_of (e :: l)) with (utmp_as_bytes e ++ file_of l).
  rewrite length_app, IH, (length_utmp_as_bytes e He). simpl. lia.
Qed.

Lemma update_entry_ok r l : utmp_ok r → Forall utmp_ok l → Forall utmp_ok (update_entry r l).
Proof.
  intros Hr. induction 1 as [|e l He Hl IH]; simpl; [by constructor|].
  case_bool_decide; by constructor.
Qed.

(** A second record of the same pid and line replaces the first. *)
Lemma update_entry_twice r r' l :
  ut_pid r' = ut_pid r → ut_line r' = ut_line r →
  update_entry r' (update_entry r l) = update_entry r' l.
Proof.
  intros Hp Hl. induction l as [|e l IH]; simpl.
  - case_bool_decide as H; [done|]. destruct H. by left.
  - rewrite Hp, Hl. case_bool_decide as H; simpl.
    + by rewrite Hp, bool_decide_true by (by left).
    + rewrite Hp, Hl, bool_decide_false by done. by rewrite IH.
Qed.

Lemma update_entry_in r l : r ∈ update_entry r l.
Proof. induction l as [|e l IH]; simpl; [left|]. case_bool_decide; [left|by right]. Qed.

(** The two files; a write succeeds, a directory is there, the clock shows a time before
    2106. *)
Record UtmpFiles := { uf_utmp : list Z; uf_wtmp : list Z }.

Definition set_file (path : string) (f : list Z → list Z) (w : UtmpFiles) : UtmpFiles :=
  if String.eqb path UTMP_PATH then {| uf_utmp := f (uf_utmp w); uf_wtmp := uf_wtmp w |}
  else if String.eqb path WTMP_PATH then {| uf_utmp := uf_utmp w; uf_wtmp := f (uf_wtmp w) |}
  else w.

Definition utmp_step : ∀ X, LogOp X → UtmpFiles → X → UtmpFiles → Prop :=
  λ X e, match e in LogOp X return UtmpFiles → X → UtmpFiles → Prop with
  | Sys e => match e in Os X return UtmpFiles → X → UtmpFiles → Prop with
             | PathExists _ => λ w x w', x = true ∧ w' = w
             | ReadBytes path => λ w x w', x = Some (uf_utmp w) ∧ w' = w
             | WallClock => λ w x w', 0 ≤ x < 4294967296000000000 ∧ w' = w
             | _ => λ w _ w', w' = w
             end
  | WriteBytes path b => λ w x w', x = Ok tt ∧ w' = set_file path (λ _, b) w
  | AppendFile path b => λ w _ w', w' = set_file path (λ old, old ++ b) w
  | _ => λ w _ w', w' = w
  end.

Lemma record_login_spec r l wtmp :
  utmp_ok r → Forall utmp_ok l →
  wp utmp_step (record_login (Some r)) {| uf_utmp := file_of l; uf_wtmp := wtmp |} (λ w x,
    x = Some tt ∧ w = {| uf_utmp := file_of (update_entry r l); uf_wtmp := wtmp ++ utmp_as_bytes r |}).
Proof.
  intros Hr Hl. pose proof (overwrite_spec r l Hr Hl) as Ho.
  assert (∀ w, wp utmp_step (append_wtmp_record r;* Ret (Some tt)) w (λ w' x,
    x = Some tt ∧ w' = {| uf_utmp := uf_utmp w; uf_wtmp := uf_wtmp w ++ utmp_as_bytes r |})) as Ha.
  { intros w. unfold append_wtmp_record, ensure_file. intros x w1 [-> ->]. intros [] w2 ->. by destruct w. }
  unfold record_login, write_utmp_record, ensure_file. intros x w1 [-> ->]. intros x w2 [-> ->]. cbn beta iota delta [uf_utmp prog_bind].
  rewrite length_file_of, Nat.div_mul by done.
  destruct (overwrite r (length l) (file_of l)) as [data|].
  - subst data. intros x w3 [-> ->]. eapply wp_mono; [|apply Ha]. intros w x [-> ->]. split; [done|]. by simpl.
  - intros [] w3 ->. eapply wp_mono; [|apply Ha]. intros w x [-> ->]. split; [done|]. rewrite Ho. by simpl.
Qed.

Lemma digits_boundary s : str_forall is_ascii_digit s = true → Forall (λ b, char_boundary b = true) (str_bytes s).
Proof.
  unfold str_bytes. induction s as [|c s IH]; simpl; [constructor|]. intros [Hc Hs]%andb_true_iff.
  constructor; [|by apply IH]. unfold is_ascii_digit, char_boundary in *. simpl.
  destruct (Z.ltb_spec (Z.of_nat (nat_of_ascii c)) 128); [done|]. exfalso.
  apply andb_true_iff in Hc as [_ Hc]. revert Hc. unfold nat_of_char. intros Hc%Nat.leb_le. lia.
Qed.

Lemma last_four_ascii b : Forall (λ b, char_boundary b = true) b → last_four b ≠ None.
Proof.
  intros Hb. unfold last_four. destruct (drop _ b) as [|c l] eqn:E; [done|].
  assert (char_boundary c = true) as ->; [|done].
  assert (Forall (λ b, char_boundary b = true) (c :: l)) as Hf by (rewrite <- E; by apply Forall_drop).
  by inversion Hf.
Qed.

Lemma build_utmp_login type pid now tty user host sid :
  ∃ r, build_utmp type pid now tty user host (show_uint sid) = Some r.
Proof.
  unfold build_utmp. pose proof (show_uint_nonempty sid) as Hne.
  assert (is_empty (show_uint sid) = false) as -> by (by destruct (show_uint sid)).
  pose proof (last_four_ascii _ (digits_boundary _ (show_uint_digits sid))) as Hl.
  destruct (last_four _) as [tail|]; [|done]. by eexists.
Qed.

Lemma build_utmp_fields type pid now tty user host id r :
  build_utmp type pid now tty user host id = Some r →
  ut_type r = type ∧ ut_pid r = pid ∧ ut_line r = copy_str 32 (trim_start_matches "/dev/" tty) ∧
  ut_user r = copy_str 32 user ∧ ut_host r = copy_str 256 host.
Proof. unfold build_utmp. intros (tail & _ & [= <-])%bind_Some. done. Qed.

(** C27: login records: in a [utmp] file of whole records, a login replaces the first
    record with its pid or its line, or is added at the end, leaves every other record
    as it is, and is read back with type, pid, line, user and host (cut to the width of
    the field); [wtmp] only grows, by the same 384 bytes; and a logout of the same
    process on the same terminal turns exactly that record into a dead one. *)
Theorem login_records pid tty user host sid l wtmp :
  0 ≤ pid < 4294967296 → Forall utmp_ok l →
  wp utmp_step (write_login pid tty user host sid) {| uf_utmp := file_of l; uf_wtmp := wtmp |} (λ w x, x = Some tt ∧
    ∃ r, uf_utmp w = file_of (update_entry r l) ∧ uf_wtmp w = wtmp ++ utmp_as_bytes r ∧
      length (utmp_as_bytes r) = 384%nat ∧ decode_utmp (utmp_as_bytes r) = r ∧
      ut_type r = USER_PROCESS ∧ ut_pid r = pid ∧ ut_line r = copy_str 32 (trim_start_matches "/dev/" tty) ∧
      ut_user r = copy_str 32 user ∧ ut_host r = copy_str 256 host ∧
      wp utmp_step (write_logout pid tty) w (λ w' x', x' = None ∨ x' = Some tt ∧
        ∃ r', uf_utmp w' = file_of (update_entry r' l) ∧ uf_wtmp w' = uf_wtmp w ++ utmp_as_bytes r' ∧
          ut_type r' = DEAD_PROCESS ∧ ut_pid r' = pid ∧ ut_line r' = ut_line r)).
Proof.
  intros Hp Hl. unfold write_login. intros now w [Hnow ->]. cbn [prog_bind].
  destruct (build_utmp_login USER_PROCESS pid now tty user host sid) as [r Hr]. rewrite Hr.
  pose proof (build_utmp_ok _ _ _ _ _ _ _ _ Hr ltac:(done) Hp Hnow) as Hok.
  destruct (build_utmp_fields _ _ _ _ _ _ _ _ Hr) as (Hty & Hpid & Hline & Hu & Hh).
  eapply wp_mono; [|by apply record_login_spec]. intros w x [-> ->]. split; [done|]. exists r. cbn [uf_utmp uf_wtmp].
  do 2 (split; [done|]). split; [by apply length_utmp_as_bytes|]. split; [by apply decode_utmp_as_bytes|].
  do 5 (split; [done|]). unfold write_logout. intros now' w' [Hnow' ->]. cbn [prog_bind].
  destruct (build_utmp DEAD_PROCESS pid now' tty "" "" "") as [r'|] eqn:Hr'; [|by left].
  pose proof (build_utmp_ok _ _ _ _ _ _ _ _ Hr' ltac:(done) Hp Hnow') as Hok'.
  destruct (build_utmp_fields _ _ _ _ _ _ _ _ Hr') as (Hty' & Hpid' & Hline' & _).
  eapply wp_mono; [|apply record_login_spec; [done|by apply update_entry_ok]]. intros w' x' [-> ->]. right.
  split; [done|]. exists r'. cbn [uf_utmp uf_wtmp]. rewrite update_entry_twice by congruence.
  do 4 (split; [done|]). congruence.
Qed.

Lemma login_records_witness :
  wp utmp_step (write_login 812 "/dev/tty1" "ann" "" 3) {| uf_utmp := []; uf_wtmp := [] |} (λ w _,
    ∃ r, uf_utmp w = utmp_as_bytes r ++ [] ∧ ut_pid r = 812 ∧ decode_utmp (utmp_as_bytes r) = r).
Proof.
  eapply wp_mono; [|apply (login_records 812 "/dev/tty1" "ann" "" 3 [] []); [lia|constructor]].
  intros w x (_ & r & Hw & _ & _ & Hd & _ & Hp & _). by exists r.
Defined.
