(* ===== verification/LoginControl.v ===== *)
(** * The login daemon: the control socket

    [quantra-logind/src/control.rs]: the requests, who may make them, the events, and the
    connection of a client.  JSON texts are read and written by [serde_json], which is a
    parameter; what is answered is a [Payload]. *)

From Stdlib Require Import ZArith Ascii.
From stdpp Require Import base tactics numbers list strings gmap sorting.
From S2P Require Import Prelude RustStr Types Effects Os Login LoginPower Utmp.

Local Open Scope string_scope.
Local Open Scope list_scope.
Local Open Scope Z_scope.
Local Open Scope quantra_scope.
Local Open Scope prog_scope.

Inductive Request :=
| OpenSession (a : NewSession)
| CloseSession (session_id : Z)
| ActivateSession (session_id : Z)
| LockSession (session_id : Z)
| UnlockSession (session_id : Z)
| LockSessions
| UnlockSessions
| ListSessions
| GetSession (session_id : Z)
| GetSessionByPid (pid : Z)
| SetIdleHint (session_id : Z) (idle : bool)
| SetLockedHint (session_id : Z) (locked_ : bool)
| SetLinger (uid : Z) (enable : bool)
| GetUser (uid : Z)
| ListUsers
| TerminateUser (uid : Z)
| ListSeats
| GetSeat (seat_id : string)
| ActivateSessionOnSeat (session_id : Z) (seat_id : string)
| SwitchTo (vt_number : Z)
| TakeDevice (seat_id devpath : string)
| ReleaseDevice (seat_id devpath : string)
| TakeInhibitor (what : list InhibitWhat) (who why : string) (mode : InhibitMode) (uid pid : Z)
| ReleaseInhibitor (inhibitor_id : Z)
| ListInhibitors
| Req_PowerOff (interactive : bool)
| Req_Reboot (interactive : bool)
| Req_RebootToFirmwareSetup (interactive : bool)
| Req_Halt (interactive : bool)
| Req_Suspend (interactive : bool)
| Req_Hibernate (interactive : bool)
| Req_HybridSleep (interactive : bool)
| Req_SuspendThenHibernate (interactive : bool)
| CanPowerOff
| CanReboot
| CanSuspend
| CanHibernate
| CanHybridSleep
| CanSuspendThenHibernate
| SetBrightness (subsystem name : string) (value : Z)
| GetBrightness (subsystem name : string)
| ScheduleShutdown (action : string) (usec : Z)
| CancelScheduledShutdown
| Subscribe
| Req_Status
| Version.

(** What an answer carries. *)
Inductive Payload :=
| P_Opened (session_id : Z) (runtime_dir seat : string)
| P_Sessions (l : list Session)
| P_Session (s : Session)
| P_Users (l : list UserRecord)
| P_User (u : UserRecord)
| P_Seats (l : list Seat)
| P_Seat (s : Seat)
| P_Fd (fd : Z)
| P_Inhibitor (id : Z)
| P_Inhibitors (l : list Inhibitor)
| P_Can (c : CanDo)
| P_Value (v : Z)
| P_Status (n_sessions n_users : nat) (seat_ids : list string) (n_inhibitors : nat) (suspend_ hibernate_ : bool)
| P_Version.

Record Response := {
  rp_ok : bool;
  rp_error : option string;
  rp_data : option Payload;
}.

Definition Response_ok (d : Payload) : Response := {| rp_ok := true; rp_error := None; rp_data := Some d |}.
Definition Response_ok_empty : Response := {| rp_ok := true; rp_error := None; rp_data := None |}.
Definition Response_err (msg : string) : Response := {| rp_ok := false; rp_error := Some msg; rp_data := None |}.

(** [Ok(()) => ok_empty(), Err(e) => err(e)]. *)
Definition answer (r : result string unit) : Response :=
  match r with Ok _ => Response_ok_empty | Err e => Response_err e end.

(** ** Events *)

(** A subscriber that cannot be written to is dropped. *)
Fixpoint send_each (e : LogindEvent) (sinks : list (Z * Z)) : prog LogOp (list (Z * Z)) :=
  match sinks with
  | [] => Ret []
  | s :: sinks =>
      let* sent := trigger (SendEvent s.1 e) in
      let* rest := send_each e sinks in
      Ret (if sent : bool then s :: rest else rest)
  end.

Definition broadcast_event (e : LogindEvent) : prog LogOp unit :=
  let* sinks := trigger (Lock EventBusL) in
  let* sinks := send_each e sinks in
  trigger (Unlock EventBusL sinks).

(** [dbus_bridge::inject_session_env] without a bus address. *)
Definition inject_session_env (runtime_dir : string) : prog LogOp unit :=
  let nl := String newline "" in
  sys (WriteFile (runtime_dir +:+ "/systemd/private/env")
    ("XDG_RUNTIME_DIR=" +:+ runtime_dir +:+ nl +:+
     "DBUS_SESSION_BUS_ADDRESS=unix:path=" +:+ runtime_dir +:+ "/bus" +:+ nl +:+
     "WAYLAND_DISPLAY=wayland-0" +:+ nl +:+
     "FLATPAK_USER_DIR=/home/.local/share/flatpak" +:+ nl));*
  Ret tt.

(** ** The requests *)

Definition returned {A} (p : prog LogOp A) : prog LogOp (option A) := let* a := p in Ret (Some a).

(** A pure update under a lock. *)
Definition updating {A} (l : LockName) (f : lock_data l → lock_data l * A) : prog LogOp A :=
  let* d := trigger (Lock l) in trigger (Unlock l (f d).1);* Ret (f d).2.

(** An update that talks to the system. *)
Definition updating_by {A} (l : LockName) (f : lock_data l → prog LogOp (lock_data l * A)) : prog LogOp (option A) :=
  locked l (λ d, let* r := f d in Ret (Some r)).

Section dispatch.
Context (overflow_checks : bool) (fuel : nat) (config : LogindConfig) (peer_uid : Z).

Definition not_root : bool := negb (peer_uid =? 0).
Definition not_root_or (uid : Z) : bool := negb (peer_uid =? 0) && negb (peer_uid =? uid).

Definition refuse (msg : string) : prog LogOp (option Response) := Ret (Some (Response_err msg)).

Definition on_open_session (a : NewSession) : prog LogOp (option Response) :=
  if not_root then refuse "only root can open sessions"
  else
    let uid := no_uid a in
    fuel* opened := locked SessionsL (session_open overflow_checks a) in
    match opened with
    | Err e => refuse e
    | Ok sid =>
        fuel* login := locked UsersL (user_login overflow_checks uid (no_username a) sid config) in
        match login with
        | Err e => refuse e
        | Ok _ =>
            updating SeatsL (λ m, (seat_add_session SEAT0 sid m, tt));*
            updating SessionsL (λ m, (session_assign_seat sid SEAT0 m, tt));*
            fuel* _ := match no_tty a with
                       | Some tty => write_login (no_leader_pid a) tty (no_username a)
                                       (default "" (no_remote_host a)) sid
                       | None => Ret (Some tt)
                       end in
            inject_session_env (run_user uid);*
            broadcast_event (Ev_SessionNew sid uid (no_username a));*
            broadcast_event (Ev_UserNew uid (no_username a));*
            Ret (Some (Response_ok (P_Opened sid (run_user uid) SEAT0)))
        end
    end.

Definition on_close_session (id : Z) : prog LogOp (option Response) :=
  let* uid := reading SessionsL (session_uid_of id) in
  let* seat := reading SessionsL (session_seat_of id) in
  match uid with
  | None => refuse (session_missing id)
  | Some uid =>
      if not_root_or uid then refuse "permission denied"
      else
        let* tty := reading SessionsL (λ m, sessions m !! id ≫= se_tty) in
        fuel* _ := match tty with
                   | Some tty =>
                       let* pid := reading SessionsL (λ m, default 0 (se_leader_pid <$> sessions m !! id)) in
                       write_logout pid tty
                   | None => Ret (Some tt)
                   end in
        match seat with
        | Some s => updating SeatsL (λ m, (seat_remove_session s id m, tt))
        | None => Ret tt
        end;*
        fuel* closed := updating_by SessionsL (session_close id) in
        match closed with
        | Err e => refuse e
        | Ok _ =>
            fuel* _ := updating_by UsersL (λ m, let* m := user_logout uid id config m in Ret (m, tt)) in
            broadcast_event (Ev_SessionRemoved id uid);*
            Ret (Some Response_ok_empty)
        end
  end.

Definition on_activate_session (id : Z) : prog LogOp (option Response) :=
  let* r := updating SessionsL (session_activate id) in
  match r with
  | Err e => refuse e
  | Ok _ =>
      let* seat := reading SessionsL (session_seat_of id) in
      match seat with
      | Some s => updating SeatsL (λ m, let r := seat_activate s id m in (r.1, tt))
      | None => Ret tt
      end;*
      let* vt := reading SessionsL (session_vt_of id) in
      match vt with
      | Some n =>
          let* st := trigger (Lock SeatsL) in
          switch_to_vt n;*
          trigger (Unlock SeatsL st);*
          broadcast_event (Ev_VtSwitched n)
      | None => Ret tt
      end;*
      Ret (Some Response_ok_empty)
  end.

Definition on_lock_session (id : Z) : prog LogOp (option Response) :=
  fuel* r := updating_by SessionsL (session_lock id) in
  match r with
  | Err e => refuse e
  | Ok _ => broadcast_event (Ev_SessionLocked id);* Ret (Some Response_ok_empty)
  end.

Definition on_unlock_session (id : Z) : prog LogOp (option Response) :=
  let* r := updating SessionsL (session_unlock id) in
  match r with
  | Err e => refuse e
  | Ok _ => broadcast_event (Ev_SessionUnlocked id);* Ret (Some Response_ok_empty)
  end.

(** By id. *)
#[local] Instance session_le_dec : RelDecision (λ a b : Session, se_id a ≤ se_id b).
Proof. intros a b. exact _. Defined.
#[local] Instance user_le_dec : RelDecision (λ a b : UserRecord, ur_uid a ≤ ur_uid b).
Proof. intros a b. exact _. Defined.
#[local] Instance inhibitor_le_dec : RelDecision (λ a b : Inhibitor, ih_id a ≤ ih_id b).
Proof. intros a b. exact _. Defined.

Definition session_all (m : SessionManager) : list Session :=
  merge_sort (λ a b, se_id a ≤ se_id b) (session_values m).
Definition user_all (m : UserManager) : list UserRecord :=
  merge_sort (λ a b, ur_uid a ≤ ur_uid b) (map_to_list (users m)).*2.
Definition seat_all (m : SeatManager) : list Seat := (map_to_list (seats m)).*2.
Definition inhibitor_all (m : InhibitorManager) : list Inhibitor :=
  merge_sort (λ a b, ih_id a ≤ ih_id b) (inhibitor_values m).

(** [Some] is an answer, [None] the error message. *)
Definition found (o : option Payload) (msg : string) : Response :=
  match o with Some p => Response_ok p | None => Response_err msg end.

Definition on_set_linger (uid : Z) (enable : bool) : prog LogOp (option Response) :=
  if not_root_or uid then refuse "permission denied"
  else fuel* r := locked UsersL (set_linger overflow_checks uid enable) in Ret (Some (answer r)).

Definition on_terminate_user (uid : Z) : prog LogOp (option Response) :=
  if not_root then refuse "only root can terminate users"
  else
    fuel* _ := updating_by UsersL (λ m, let* m := user_terminate uid m in Ret (m, tt)) in
    Ret (Some Response_ok_empty).

Definition on_activate_on_seat (id : Z) (seat_id : string) : prog LogOp (option Response) :=
  let* r := updating SeatsL (seat_activate seat_id id) in
  match r with
  | Err e => refuse e
  | Ok _ =>
      updating SessionsL (λ m, let r := session_activate id m in (r.1, tt));*
      Ret (Some Response_ok_empty)
  end.

(** The seats stay locked while the event is sent. *)
Definition on_switch_to (vt : Z) : prog LogOp (option Response) :=
  if not_root then refuse "only root can switch VTs"
  else
    let* st := trigger (Lock SeatsL) in
    let* r := switch_to_vt vt in
    match r with
    | Ok _ => broadcast_event (Ev_VtSwitched vt);* trigger (Unlock SeatsL st);* Ret (Some Response_ok_empty)
    | Err e => trigger (Unlock SeatsL st);* refuse e
    end.

Definition on_take_device (seat_id devpath : string) : prog LogOp (option Response) :=
  if not_root then refuse "only root can take devices"
  else
    fuel* r := updating_by SeatsL (take_device seat_id devpath) in
    Ret (Some match r with Ok fd => Response_ok (P_Fd fd) | Err e => Response_err e end).

Definition on_release_device (seat_id devpath : string) : prog LogOp (option Response) :=
  fuel* _ := updating_by SeatsL (release_device seat_id devpath) in Ret (Some Response_ok_empty).

(** A power action: the inhibitors are locked first, then the power manager. *)
Definition with_power (act : PowerManager → InhibitorManager → prog LogOp (option (result string unit)))
    : prog LogOp (option Response) :=
  let* inh := trigger (Lock InhibitorsL) in
  let* pm := trigger (Lock PowerL) in
  fuel* r := act pm inh in
  trigger (Unlock PowerL pm);*
  trigger (Unlock InhibitorsL inh);*
  Ret (Some (answer r)).

Definition root_power (msg : string) (act : PowerManager → InhibitorManager → prog LogOp (option (result string unit)))
    : prog LogOp (option Response) :=
  if not_root then refuse msg else with_power act.

Definition query_power (q : PowerManager → bool) : prog LogOp (option Response) :=
  returned (reading PowerL (λ pm, Response_ok (P_Can (can (q pm))))).

(** The power manager stays locked while the event is sent. *)
Definition on_set_brightness (subsystem name : string) (value : Z) : prog LogOp (option Response) :=
  let* pm := trigger (Lock PowerL) in
  let* r := set_brightness subsystem name value in
  match r with
  | Ok _ => broadcast_event (Ev_BrightnessChanged name value);* trigger (Unlock PowerL pm);* Ret (Some Response_ok_empty)
  | Err e => trigger (Unlock PowerL pm);* refuse e
  end.

Definition on_get_brightness (subsystem name : string) : prog LogOp (option Response) :=
  let* pm := trigger (Lock PowerL) in
  let* r := get_brightness subsystem name in
  trigger (Unlock PowerL pm);*
  Ret (Some match r with Ok v => Response_ok (P_Value v) | Err e => Response_err e end).

Definition on_schedule_shutdown (action : string) (usec : Z) : prog LogOp (option Response) :=
  if not_root then refuse "only root"
  else
    let* pm := trigger (Lock PowerL) in
    let* pm := schedule_shutdown action usec pm in
    broadcast_event (Ev_ShutdownScheduled action usec);*
    trigger (Unlock PowerL pm);*
    Ret (Some Response_ok_empty).

(** Sessions, users, seats and inhibitors are locked in this order, then twice the power
    manager, each time for an expression. *)
Definition on_login_status : prog LogOp (option Response) :=
  let* sm := trigger (Lock SessionsL) in
  let* um := trigger (Lock UsersL) in
  let* st := trigger (Lock SeatsL) in
  let* ih := trigger (Lock InhibitorsL) in
  let* s := reading PowerL can_suspend in
  let* h := reading PowerL can_hibernate in
  trigger (Unlock InhibitorsL ih);*
  trigger (Unlock SeatsL st);*
  trigger (Unlock UsersL um);*
  trigger (Unlock SessionsL sm);*
  Ret (Some (Response_ok (P_Status (size (sessions sm)) (size (users um)) (map_to_list (seats st)).*1
                            (size (inhibitors ih)) s h))).

Definition login_dispatch (req : Request) : prog LogOp (option Response) :=
  match req with
  | OpenSession a => on_open_session a
  | CloseSession id => on_close_session id
  | ActivateSession id => on_activate_session id
  | LockSession id => on_lock_session id
  | UnlockSession id => on_unlock_session id
  | LockSessions => fuel* _ := updating_by SessionsL (λ m, let* m := session_lock_all m in Ret (m, tt)) in
                    Ret (Some Response_ok_empty)
  | UnlockSessions => updating SessionsL (λ m, (session_unlock_all m, tt));* Ret (Some Response_ok_empty)
  | ListSessions => returned (reading SessionsL (λ m, Response_ok (P_Sessions (session_all m))))
  | GetSession id => returned (reading SessionsL (λ m, found (P_Session <$> sessions m !! id) (session_missing id)))
  | GetSessionByPid pid =>
      locked SessionsL (λ m,
        fuel* s := session_by_pid fuel pid m in
        Ret (Some (m, found (P_Session <$> s) ("no session for pid " +:+ show_uint pid))))
  | SetIdleHint id idle => fuel* r := updating_by SessionsL (session_set_idle_hint id idle) in Ret (Some (answer r))
  | SetLockedHint id locked_ =>
      let* r := updating SessionsL (session_set_locked_hint id locked_) in Ret (Some (answer r))
  | GetUser uid =>
      if not_root_or uid then refuse "permission denied"
      else returned (reading UsersL (λ m, found (P_User <$> users m !! uid) ("uid=" +:+ show_uint uid +:+ " not logged in")))
  | ListUsers =>
      if not_root then refuse "only root can list users"
      else returned (reading UsersL (λ m, Response_ok (P_Users (user_all m))))
  | SetLinger uid enable => on_set_linger uid enable
  | TerminateUser uid => on_terminate_user uid
  | ListSeats => returned (reading SeatsL (λ m, Response_ok (P_Seats (seat_all m))))
  | GetSeat seat_id => returned (reading SeatsL (λ m, found (P_Seat <$> seats m !! seat_id) (seat_missing seat_id)))
  | ActivateSessionOnSeat id seat_id => on_activate_on_seat id seat_id
  | SwitchTo vt => on_switch_to vt
  | TakeDevice seat_id devpath => on_take_device seat_id devpath
  | ReleaseDevice seat_id devpath => on_release_device seat_id devpath
  | TakeInhibitor what who why mode uid pid =>
      fuel* id := locked InhibitorsL (inhibitor_take overflow_checks what who why mode uid pid) in
      Ret (Some (Response_ok (P_Inhibitor id)))
  | ReleaseInhibitor id =>
      let* gone := updating InhibitorsL (inhibitor_release id) in
      Ret (Some (if gone : bool then Response_ok_empty
                 else Response_err ("inhibitor " +:+ show_uint id +:+ " not found")))
  | ListInhibitors => returned (reading InhibitorsL (λ m, Response_ok (P_Inhibitors (inhibitor_all m))))
  | Req_PowerOff i => root_power "only root can power off" (λ pm inh, power_off fuel pm inh i)
  | Req_Reboot i => root_power "only root can reboot" (λ pm inh, reboot fuel pm inh i)
  | Req_RebootToFirmwareSetup i => root_power "only root" (λ _ inh, reboot_to_firmware inh i)
  | Req_Halt i => root_power "only root can halt" (λ pm inh, halt fuel pm inh i)
  | Req_Suspend i => with_power (λ pm inh, suspend fuel pm inh i)
  | Req_Hibernate i => with_power (λ pm inh, hibernate fuel pm inh i)
  | Req_HybridSleep i => with_power (λ pm inh, hybrid_sleep fuel pm inh i)
  | Req_SuspendThenHibernate i => with_power (λ pm inh, suspend_then_hibernate fuel pm inh i)
  | CanPowerOff | CanReboot => query_power (λ _, true)
  | CanSuspend => query_power can_suspend
  | CanHibernate => query_power can_hibernate
  | CanHybridSleep => query_power can_hybrid_sleep
  | CanSuspendThenHibernate => query_power can_suspend_then_hibernate
  | SetBrightness subsystem name value => on_set_brightness subsystem name value
  | GetBrightness subsystem name => on_get_brightness subsystem name
  | ScheduleShutdown action usec => on_schedule_shutdown action usec
  | CancelScheduledShutdown =>
      fuel* _ := updating_by PowerL cancel_scheduled_shutdown in Ret (Some Response_ok_empty)
  | Subscribe => Ret (Some Response_ok_empty)
  | Req_Status => on_login_status
  | Version => Ret (Some (Response_ok P_Version))
  end.
End dispatch.

(** ** A connection *)

Section connection.
Context (overflow_checks : bool) (config : LogindConfig).
Context (from_slice : list Z → result string Request) (to_vec : Response → result string (list Z)).

Definition MAX_REQUEST : Z := Z.shiftl 1 20.

Definition send_response (r : Response) : prog LogOp (result string unit) :=
  match to_vec r with
  | Err e => Ret (Err e)
  | Ok out =>
      try* _ := trigger (SockWrite (to_le_bytes (wrap_u32 (Z.of_nat (length out))))) in
      trigger (SockWrite out)
  end.

(** The guard of the event bus lives as long as the connection: the thread sleeps with
    the bus locked. *)
Definition subscribe (turns : nat) (peer_uid : Z) : prog LogOp (option (result string unit)) :=
  let* sinks := trigger (Lock EventBusL) in
  let* cloned := trigger TryClone in
  match cloned with
  | Err e => trigger (Unlock EventBusL sinks);* Ret (Some (Err e))
  | Ok fd =>
      let sinks := sinks ++ [(fd, peer_uid)] in
      let* sent := send_response Response_ok_empty in
      match sent with
      | Err e => trigger (Unlock EventBusL sinks);* Ret (Some (Err e))
      | Ok _ => loop turns (λ _, sys (Sleep (from_secs 60));* Ret (inl tt)) tt
      end
  end.

(** A response that is sent, and the next request. *)
Definition respond (r : Response) : prog LogOp (option (unit + result string unit)) :=
  let* sent := send_response r in
  Ret (Some match sent with Ok _ => inl tt | Err e => inr (Err e) end).

(** One request; [inr] ends the connection. *)
Definition handle_turn (fuel : nat) (peer_uid : Z) : prog LogOp (option (unit + result string unit)) :=
  let* len_buf := trigger (SockRead 4) in
  match len_buf with
  | Err e => Ret (Some (inr (Err e)))
  | Ok None => Ret (Some (inr (Ok tt)))
  | Ok (Some len_buf) =>
      let len := from_le_bytes 4 len_buf in
      if len =? 0 then Ret (Some (inl tt))
      else if MAX_REQUEST <? len then Ret (Some (inr (Err ("request too large: " +:+ show_uint len))))
      else
        let* buf := trigger (SockRead len) in
        match buf with
        | Err e => Ret (Some (inr (Err e)))
        | Ok None => Ret (Some (inr (Err "failed to fill whole buffer")))
        | Ok (Some buf) =>
            match from_slice buf with
            | Err e => respond (Response_err ("JSON parse: " +:+ e))
            | Ok Subscribe => fuel* r := subscribe fuel peer_uid in Ret (Some (inr r))
            | Ok req => fuel* resp := login_dispatch overflow_checks fuel config peer_uid req in respond resp
            end
        end
  end.

Definition login_handle (turns fuel : nat) (peer_uid : Z) : prog LogOp (option (result string unit)) :=
  loop_fuel turns (λ _, handle_turn fuel peer_uid) tt.

(** The thread that drops the inhibitors of dead processes. *)
Definition inhibitor_gc (turns : nat) : prog LogOp (option unit) :=
  loop turns (λ _,
    sys (Sleep (from_secs 30));*
    let* m := trigger (Lock InhibitorsL) in
    let* m := gc_dead_pids m in
    trigger (Unlock InhibitorsL m);*
    Ret (inl tt)) tt.
End connection.
