(* ===== verification/LoginInv.v ===== *)
(** * The login daemon: its tables stay consistent

    The tables of sessions, seats, users and inhibitors refer to each other.  Every
    request of the control socket, carried out alone, keeps the references in order. *)

From Stdlib Require Import ZArith Ascii.
From stdpp Require Import base tactics numbers list strings gmap sorting.
From S2P Require Import Prelude RustStr Types Effects Os Login LoginPower Utmp LoginControl.

Local Open Scope string_scope.
Local Open Scope list_scope.
Local Open Scope Z_scope.
Local Open Scope prog_scope.

#[local] Arguments RecordSetters.constant {E} newValue _ /.

(** ** The state behind the locks *)

Record Logind := {
  ld_sessions : SessionManager;
  ld_users : UserManager;
  ld_seats : SeatManager;
  ld_inhibitors : InhibitorManager;
  ld_power : PowerManager;
  ld_bus : list (Z * Z);
}.

Definition ld_get (l : LockName) (d : Logind) : lock_data l :=
  match l with
  | SessionsL => ld_sessions d
  | UsersL => ld_users d
  | SeatsL => ld_seats d
  | InhibitorsL => ld_inhibitors d
  | PowerL => ld_power d
  | EventBusL => ld_bus d
  end.

Definition ld_set (l : LockName) : lock_data l → Logind → Logind :=
  match l return lock_data l → Logind → Logind with
  | SessionsL => λ x d, d <|ld_sessions := x|>
  | UsersL => λ x d, d <|ld_users := x|>
  | SeatsL => λ x d, d <|ld_seats := x|>
  | InhibitorsL => λ x d, d <|ld_inhibitors := x|>
  | PowerL => λ x d, d <|ld_power := x|>
  | EventBusL => λ x d, d <|ld_bus := x|>
  end.

Lemma ld_set_get l d : ld_set l (ld_get l d) d = d.
Proof. by destruct l, d. Qed.

(** One client at a time; the system answers anything. *)
Definition login_step : ∀ X, LogOp X → Logind → X → Logind → Prop :=
  λ X e, match e in LogOp X return Logind → X → Logind → Prop with
  | Lock l => λ d x d', x = ld_get l d ∧ d' = d
  | Unlock l x => λ d _ d', d' = ld_set l x d
  | _ => λ d _ d', d' = d
  end.

(** ** The invariant *)

Definition sessions_ok (m : SessionManager) : Prop :=
  (∀ id s, sessions m !! id = Some s → se_id s = id ∧ 0 < id < next_session m) ∧
  (∀ i j a b, sessions m !! i = Some a → sessions m !! j = Some b →
     se_state a = Session_Active → se_state b = Session_Active → se_seat a = se_seat b → i = j) ∧
  0 < next_session m.

Definition seat_ok (s : Seat) : Prop :=
  NoDup (st_sessions s) ∧
  match st_active_session s with Some a => a ∈ st_sessions s | None => st_sessions s = [] end.

(** A seat lists exactly the open sessions that are assigned to it. *)
Definition seats_ok (m : SessionManager) (st : SeatManager) : Prop :=
  is_Some (seats st !! SEAT0) ∧
  (∀ k seat, seats st !! k = Some seat → seat_ok seat ∧
     ∀ sid, sid ∈ st_sessions seat ↔ ∃ s, sessions m !! sid = Some s ∧ se_seat s = Some k) ∧
  (∀ sid s k, sessions m !! sid = Some s → se_seat s = Some k → is_Some (seats st !! k)).

(** A user's sessions are open sessions of that user; without one, the user lingers. *)
Definition user_ok (m : SessionManager) (uid : Z) (u : UserRecord) : Prop :=
  NoDup (ur_session_ids u) ∧
  (∀ sid, sid ∈ ur_session_ids u → ∃ s, sessions m !! sid = Some s ∧ se_uid s = uid) ∧
  match ur_session_ids u with
  | [] => ur_linger u = true ∧ ur_state u = User_Lingering
  | _ => ur_state u = User_Online
  end.

Definition users_ok (m : SessionManager) (um : UserManager) : Prop :=
  ∀ uid u, users um !! uid = Some u → user_ok m uid u.

Definition inhibitors_ok (m : InhibitorManager) : Prop :=
  0 < next_inhibitor m ∧
  ∀ id i, inhibitors m !! id = Some i → ih_id i = id ∧ 0 < id < next_inhibitor m.

Definition login_inv (d : Logind) : Prop :=
  sessions_ok (ld_sessions d) ∧ seats_ok (ld_sessions d) (ld_seats d) ∧
  users_ok (ld_sessions d) (ld_users d) ∧ inhibitors_ok (ld_inhibitors d).

(** ** Rules for the locks *)

Lemma wp_locked {A} l (body : lock_data l → prog LogOp (option (lock_data l * A))) d Q :
  wp login_step (body (ld_get l d)) d (λ d' r, d' = d ∧
    match r with Some (x, a) => Q (ld_set l x d) (Some a) | None => Q d None end) →
  wp login_step (locked l body) d Q.
Proof.
  intros Hb. unfold locked. apply wp_op. intros x d' [-> ->]. unfold fuel_bind.
  eapply wp_bind_2; [exact Hb|]. intros d' [[x a]|] [-> HQ]; [|done]. by intros [] d' ->.
Qed.

Lemma wp_reading {A} l (f : lock_data l → A) d Q :
  Q d (f (ld_get l d)) → wp login_step (reading l f) d Q.
Proof. intros HQ x d1 [-> ->] [] d2 ->. by rewrite ld_set_get. Qed.

Lemma wp_updating {A} l (f : lock_data l → lock_data l * A) d Q :
  Q (ld_set l (f (ld_get l d)).1 d) (f (ld_get l d)).2 → wp login_step (updating l f) d Q.
Proof. by intros HQ x d1 [-> ->] [] d2 ->. Qed.

Lemma wp_updating_by {A} l (f : lock_data l → prog LogOp (lock_data l * A)) d Q :
  wp login_step (f (ld_get l d)) d (λ d' r, d' = d ∧ Q (ld_set l r.1 d) (Some r.2)) →
  wp login_step (updating_by l f) d Q.
Proof.
  intros Hf. apply wp_locked. eapply wp_bind_2; [exact Hf|]. by intros d' [x a] [-> HQ].
Qed.

(** Code that touches no lock leaves the state alone. *)
Definition lockless : ∀ X, LogOp X → Prop :=
  λ X e, match e with Lock _ | Unlock _ _ => False | _ => True end.

Definition quiet {A} (p : prog LogOp A) : Prop := performs lockless p.

Lemma quiet_op {X} (e : LogOp X) : lockless X e → quiet (trigger e).
Proof. apply performs_op. Qed.

Lemma quiet_bind {A B} (p : prog LogOp A) (k : A → prog LogOp B) :
  quiet p → (∀ a, quiet (k a)) → quiet (prog_bind p k).
Proof. apply performs_bind. Qed.

Lemma quiet_ret {A} (a : A) : quiet (Ret a).
Proof. done. Qed.

Lemma quiet_for_each {A} (f : A → prog LogOp unit) l : (∀ a, quiet (f a)) → quiet (for_each f l).
Proof. apply performs_for_each. Qed.

Lemma quiet_loop {S B} fuel (body : S → prog LogOp (S + B)) s : (∀ s, quiet (body s)) → quiet (loop fuel body s).
Proof. apply performs_loop. Qed.

Create HintDb quiet.

Ltac quiet := repeat first
  [ assumption | solve [eauto with quiet nocore] | apply quiet_ret | apply quiet_for_each; intros ?
  | apply quiet_loop; intros ? | simple apply quiet_bind; [|intros ?] | apply quiet_op; exact I | case_match ].

Lemma quiet_sys {X} (e : Os X) : quiet (sys e).
Proof. by apply quiet_op. Qed.
#[export] Hint Resolve quiet_sys : quiet.

Lemma quiet_wp {A} (p : prog LogOp A) d (Q : Logind → A → Prop) :
  quiet p → (∀ a, Q d a) → wp login_step p d Q.
Proof.
  intros Hp HQ. induction p as [a|X e k IH]; simpl in *; [apply HQ|]. destruct Hp as [He Hk].
  intros x d' Hd. assert (d' = d) as -> by (by destruct e). apply IH, Hk.
Qed.

Lemma wp_quiet_bind {A B} (p : prog LogOp A) (k : A → prog LogOp B) d Q :
  quiet p → (∀ a, wp login_step (k a) d Q) → wp login_step (prog_bind p k) d Q.
Proof. intros Hp Hk. apply wp_bind. by apply quiet_wp. Qed.

Lemma quiet_now : quiet now_unix.
Proof. unfold now_unix. quiet. Qed.

Lemma quiet_dir_entries path : quiet (dir_entries path).
Proof. unfold dir_entries. quiet. Qed.
#[export] Hint Resolve quiet_now quiet_dir_entries : quiet.

Lemma quiet_glob_dirs parent : quiet (glob_dirs parent).
Proof.
  unfold glob_dirs. quiet. match goal with |- quiet (foldr _ _ ?l) => induction l as [|p l IH] end; simpl; [quiet|].
  apply (quiet_bind (trigger (IsDir p))); [quiet|]. intros b. apply quiet_bind; [done|]. quiet.
Qed.
#[export] Hint Resolve quiet_glob_dirs : quiet.

Lemma quiet_create_scope id uid pid : quiet (create_session_scope id uid pid).
Proof. unfold create_session_scope. quiet. Qed.

Lemma quiet_remove_scope id : quiet (remove_session_scope id).
Proof. unfold remove_session_scope. quiet. Qed.

Lemma quiet_term_procs path : quiet (term_cgroup_procs path).
Proof. unfold term_cgroup_procs. quiet. Qed.
#[export] Hint Resolve quiet_create_scope quiet_remove_scope quiet_term_procs : quiet.

Lemma quiet_fuel {A B} (p : prog LogOp (option A)) (k : A → prog LogOp (option B)) :
  quiet p → (∀ a, quiet (k a)) → quiet (fuel_bind p k).
Proof. intros Hp Hk. unfold fuel_bind. apply quiet_bind; [done|]. intros [a|]; [apply Hk|apply quiet_ret]. Qed.
#[export] Hint Resolve quiet_fuel : quiet.

Ltac quiet_in := unfold fuel_bind, try_bind, drop_answer; quiet.

Lemma quiet_runtime_dir oc path uid config : quiet (create_runtime_dir oc path uid config).
Proof. unfold create_runtime_dir, runtime_size, read_total_ram_bytes. quiet_in. Qed.

Lemma quiet_runtime_subdirs dir uid : quiet (create_runtime_subdirs dir uid).
Proof. unfold create_runtime_subdirs. quiet_in. Qed.

Lemma quiet_destroy path : quiet (destroy_runtime_dir path).
Proof. unfold destroy_runtime_dir. quiet. Qed.

Lemma quiet_remove_slice uid : quiet (remove_user_slice uid).
Proof. unfold remove_user_slice. quiet. Qed.
#[export] Hint Resolve quiet_runtime_dir quiet_runtime_subdirs quiet_destroy quiet_remove_slice : quiet.

Lemma quiet_terminate_slice uid : quiet (terminate_user_slice uid).
Proof. unfold terminate_user_slice. quiet. Qed.

Lemma quiet_prepare oc uid config : quiet (prepare_user oc uid config).
Proof. unfold prepare_user, create_user_slice. quiet_in. Qed.

Lemma quiet_username uid : quiet (resolve_username uid).
Proof. unfold resolve_username. quiet. Qed.

Lemma quiet_switch_to_vt vt : quiet (switch_to_vt vt).
Proof. unfold switch_to_vt. quiet. Qed.

Lemma quiet_record_login r : quiet (record_login r).
Proof. unfold record_login, write_utmp_record, append_wtmp_record, ensure_file. quiet. Qed.
#[export] Hint Resolve quiet_terminate_slice quiet_prepare quiet_username quiet_switch_to_vt quiet_record_login : quiet.

Lemma quiet_write_login pid tty user host sid : quiet (write_login pid tty user host sid).
Proof. unfold write_login. quiet. Qed.

Lemma quiet_write_logout pid tty : quiet (write_logout pid tty).
Proof. unfold write_logout. quiet. Qed.

Lemma quiet_inject dir : quiet (inject_session_env dir).
Proof. unfold inject_session_env. quiet. Qed.

Lemma quiet_wall msg : quiet (send_wall msg).
Proof. unfold send_wall, chrono_now. quiet. Qed.

Lemma quiet_wait_delay fuel pm inh what : quiet (wait_delay fuel pm inh what).
Proof. unfold wait_delay. quiet. Qed.
#[export] Hint Resolve quiet_write_login quiet_write_logout quiet_inject quiet_wall quiet_wait_delay : quiet.

Lemma quiet_power fuel pm inh i :
  quiet (power_off fuel pm inh i) ∧ quiet (reboot fuel pm inh i) ∧ quiet (reboot_to_firmware inh i) ∧
  quiet (halt fuel pm inh i) ∧ quiet (suspend fuel pm inh i) ∧ quiet (hibernate fuel pm inh i) ∧
  quiet (hybrid_sleep fuel pm inh i) ∧ quiet (suspend_then_hibernate fuel pm inh i).
Proof.
  unfold power_off, reboot, reboot_to_firmware, halt, suspend, hibernate, hybrid_sleep, suspend_then_hibernate,
    guarded, reboot_now, write_power_state, set_efi_boot_to_firmware. split_and!; quiet_in.
Qed.

Lemma quiet_brightness subsystem name value :
  quiet (set_brightness subsystem name value) ∧ quiet (get_brightness subsystem name).
Proof. unfold set_brightness, get_brightness, brightness_path, read_max_brightness. split; quiet_in. Qed.

Lemma quiet_schedule action usec pm : quiet (schedule_shutdown action usec pm) ∧ quiet (cancel_scheduled_shutdown pm).
Proof. unfold schedule_shutdown, cancel_scheduled_shutdown, now_usec. split; quiet_in. Qed.

Lemma quiet_by_pid fuel pid sm : quiet (session_by_pid fuel pid sm).
Proof.
  revert pid. induction fuel as [|fuel IH]; intros pid; cbn [session_by_pid]; [quiet|]. unfold get_ppid. quiet.
  all: first [apply IH | quiet].
Qed.

(** An event only changes the list of subscribers. *)
Lemma quiet_send_each e sinks : quiet (send_each e sinks).
Proof.
  induction sinks as [|s sinks IH]; cbn [send_each]; [quiet|].
  apply quiet_bind; [quiet|]. intros b. apply quiet_bind; [done|]. quiet.
Qed.

Lemma wp_broadcast e d Q : (∀ b, Q (d <|ld_bus := b|>) tt) → wp login_step (broadcast_event e) d Q.
Proof.
  intros HQ. unfold broadcast_event. apply wp_op. intros sinks d1 [-> ->].
  apply wp_quiet_bind; [apply quiet_send_each|]. intros b [] d2 ->. apply HQ.
Qed.

(** ** Sessions *)

(** What no hint, lock or activation changes of a session. *)
Definition session_core (s : Session) : Session :=
  s <|se_state := Session_Opening|> <|se_idle_hint := false|> <|se_idle_since := None|> <|se_locked_hint := false|>.

Definition same_sessions (m m' : SessionManager) : Prop :=
  next_session m' = next_session m ∧
  ∀ id, option_Forall2 (λ s s', session_core s' = session_core s) (sessions m !! id) (sessions m' !! id).

Lemma core_fields s s' :
  session_core s' = session_core s → se_id s' = se_id s ∧ se_uid s' = se_uid s ∧ se_seat s' = se_seat s.
Proof. intros H. split_and!; [exact (f_equal se_id H)|exact (f_equal se_uid H)|exact (f_equal se_seat H)]. Qed.

Lemma same_sessions_core m m' id s :
  same_sessions m m' → sessions m !! id = Some s →
  ∃ s', sessions m' !! id = Some s' ∧ session_core s' = session_core s.
Proof.
  intros [_ H] Hs. specialize (H id). rewrite Hs in H. inversion H as [? s' Hr Ha Hb|]; subst. eauto.
Qed.

Lemma same_sessions_l m m' id s :
  same_sessions m m' → sessions m !! id = Some s →
  ∃ s', sessions m' !! id = Some s' ∧ se_id s' = se_id s ∧ se_uid s' = se_uid s ∧ se_seat s' = se_seat s.
Proof. intros Hm Hs. destruct (same_sessions_core m m' id s Hm Hs) as (s' & ? & ?%core_fields). eauto. Qed.

Lemma same_sessions_r m m' id s' :
  same_sessions m m' → sessions m' !! id = Some s' →
  ∃ s, sessions m !! id = Some s ∧ se_id s' = se_id s ∧ se_uid s' = se_uid s ∧ se_seat s' = se_seat s.
Proof.
  intros [_ H] Hs. specialize (H id). rewrite Hs in H. inversion H as [s ? Hr Ha Hb|]; subst.
  apply core_fields in Hr. eauto.
Qed.

Lemma same_seats_ok m m' st : same_sessions m m' → seats_ok m st → seats_ok m' st.
Proof.
  intros Hm (H0 & Hl & Ha). split; [done|]. split.
  - intros k seat Hk. destruct (Hl k seat Hk) as [Hok Hin]. split; [done|]. intros sid. rewrite Hin. split.
    + intros (s & Hs & Hk'). destruct (same_sessions_l _ _ _ _ Hm Hs) as (s' & ? & _ & _ & He).
      exists s'. by rewrite He.
    + intros (s' & Hs & Hk'). destruct (same_sessions_r _ _ _ _ Hm Hs) as (s & ? & _ & _ & He).
      exists s. by rewrite <- He.
  - intros sid s' k Hs Hk. destruct (same_sessions_r _ _ _ _ Hm Hs) as (s & ? & _ & _ & He).
    eapply Ha; [done|]. by rewrite <- He.
Qed.

(** Users only need their sessions to stay. *)
Lemma user_ok_mono m m' uid u :
  (∀ sid s, sid ∈ ur_session_ids u → sessions m !! sid = Some s → ∃ s', sessions m' !! sid = Some s' ∧ se_uid s' = se_uid s) →
  user_ok m uid u → user_ok m' uid u.
Proof.
  intros Hm (Hd & Hs & Hst). split; [done|]. split; [|done]. intros sid Hin.
  destruct (Hs sid Hin) as (s & Hl & <-). by eapply Hm.
Qed.

Lemma same_users_ok m m' um : same_sessions m m' → users_ok m um → users_ok m' um.
Proof.
  intros Hm Hu uid u Hl. eapply user_ok_mono, Hu, Hl. intros sid s _ Hs.
  destruct (same_sessions_l _ _ _ _ Hm Hs) as (s' & ? & _ & ? & _). eauto.
Qed.

(** An update of hints. *)
Definition hint_update (f : Session → Session) : Prop :=
  ∀ s, session_core (f s) = session_core s ∧ se_state (f s) = se_state s.

Lemma session_update_ok id f m :
  hint_update f → sessions_ok m →
  sessions_ok (session_update id f m).1 ∧ same_sessions m (session_update id f m).1.
Proof.
  intros Hf (Hid & Hact & Hn). unfold session_update. destruct (sessions m !! id) as [s|] eqn:Hs; cbn [fst].
  2: { split; [done|]. split; [done|]. intros i. destruct (sessions m !! i); by constructor. }
  destruct (Hf s) as (Hcore & H4). pose proof (core_fields _ _ Hcore) as (H1 & H2 & H3).
  assert (Hlook : ∀ i a, <[id := f s]> (sessions m) !! i = Some a → ∃ b, sessions m !! i = Some b ∧
    se_id a = se_id b ∧ se_seat a = se_seat b ∧ se_state a = se_state b).
  { intros i a. rewrite lookup_insert_Some. intros [[<- <-]|[_ ?]]; eauto. }
  split; [split_and!|split]; simpl; try done.
  - intros i a Ha. destruct (Hlook i a Ha) as (b & Hb & -> & _). by apply Hid.
  - intros i j a b Ha Hb Sa Sb Hsa. destruct (Hlook i a Ha) as (a' & Ha' & _ & E1 & E2).
    destruct (Hlook j b Hb) as (b' & Hb' & _ & E3 & E4). eapply Hact; [exact Ha'|exact Hb'|congruence..].
  - intros i. destruct (decide (i = id)) as [->|Hne].
    + rewrite lookup_insert_eq, Hs. by constructor.
    + rewrite lookup_insert_ne by done. destruct (sessions m !! i); by constructor.
Qed.

Lemma session_activate_ok id m :
  sessions_ok m → sessions_ok (session_activate id m).1 ∧ same_sessions m (session_activate id m).1.
Proof.
  intros (Hid & Hact & Hn). unfold session_activate. destruct (sessions m !! id) as [s|] eqn:Hs; cbn [fst].
  2: { split; [done|]. split; [done|]. intros i. destruct (sessions m !! i); by constructor. }
  set (others := deactivate (se_seat s) id <$> sessions m).
  assert (Hlook : ∀ i a, alter (λ s, s <|se_state := Session_Active|>) id others !! i = Some a →
    ∃ b, sessions m !! i = Some b ∧ session_core a = session_core b ∧ se_id a = se_id b ∧ se_uid a = se_uid b ∧ se_seat a = se_seat b ∧
      (se_state a = Session_Active → i = id ∨ se_state b = Session_Active ∧ se_seat b ≠ se_seat s)).
  { intros i a. unfold others. destruct (decide (i = id)) as [->|Hne].
    - rewrite lookup_alter_eq, lookup_fmap, Hs. intros [= <-]. exists s. split; [done|].
      unfold deactivate. destruct (_ && _); (split; [by destruct s|]); simpl; auto.
    - rewrite lookup_alter_ne, lookup_fmap by done. destruct (sessions m !! i) as [b|] eqn:Hb; [|done].
      intros [= <-]. exists b. split; [done|]. destruct (Hid i b Hb) as [Hbi _]. unfold deactivate.
      destruct (bool_decide (se_state b = Session_Active)) eqn:E1; simpl.
      2: { apply bool_decide_eq_false in E1. by split_and!. }
      assert (Hcore : session_core (b <|se_state := Session_Online|>) = session_core b) by by destruct b.
      apply bool_decide_eq_true in E1.
      destruct (bool_decide (se_seat b = se_seat s)) eqn:E2; simpl.
      + rewrite Hbi. replace (i =? id) with false by (symmetry; by apply Z.eqb_neq). simpl. done.
      + apply bool_decide_eq_false in E2. split_and!; auto. }
  split; [split_and!|split]; simpl; try done.
  - intros i a Ha. destruct (Hlook i a Ha) as (b & Hb & _ & -> & _). by apply Hid.
  - intros i j a b Ha Hb Sa Sb Hsa.
    destruct (Hlook i a Ha) as (a' & Ha' & _ & _ & _ & E1 & A1). destruct (Hlook j b Hb) as (b' & Hb' & _ & _ & _ & E3 & A2).
    destruct (A1 Sa) as [->|[A1a A1b]], (A2 Sb) as [->|[A2a A2b]]; [done|..].
    + rewrite Hs in Ha'. injection Ha' as <-. congruence.
    + rewrite Hs in Hb'. injection Hb' as <-. congruence.
    + eapply Hact; [exact Ha'|exact Hb'|congruence..].
  - intros i. destruct (alter _ id others !! i) as [a|] eqn:Ha.
    + destruct (Hlook i a Ha) as (b & -> & ? & _). by constructor.
    + apply eq_None_not_Some in Ha. destruct (sessions m !! i) eqn:Hi; [|constructor]. destruct Ha.
      destruct (decide (i = id)) as [->|Hne].
      * rewrite lookup_alter_eq. unfold others. rewrite lookup_fmap, Hi. by eexists.
      * rewrite lookup_alter_ne by done. unfold others. rewrite lookup_fmap, Hi. by eexists.
Qed.

Definition opened (a : NewSession) (now : Z) (m : SessionManager) : SessionManager :=
  {| sessions := <[next_session m := session_of a (next_session m) now]> (sessions m);
     next_session := next_session m + 1 |}.

Lemma session_open_spec oc a d m :
  0 < next_session m < u64_max →
  wp login_step (session_open oc a m) d (λ d' r, d' = d ∧ ∃ now, r = Some (opened a now m, Ok (next_session m))).
Proof.
  intros Hn. unfold session_open. rewrite arith_u64_fits by lia.
  apply wp_quiet_bind; [apply quiet_now|]. intros now. apply wp_quiet_bind; [apply quiet_create_scope|].
  intros _. split; [done|]. by exists now.
Qed.

Lemma next_session_fresh m : sessions_ok m → sessions m !! next_session m = None.
Proof.
  intros (Hid & _). destruct (sessions m !! next_session m) eqn:E; [|done]. apply Hid in E. lia.
Qed.

Lemma opened_lookup a now m id s :
  sessions_ok m → sessions (opened a now m) !! id = Some s →
  id = next_session m ∧ s = session_of a (next_session m) now ∨ id ≠ next_session m ∧ sessions m !! id = Some s.
Proof. intros Hm. simpl. rewrite lookup_insert_Some. naive_solver. Qed.

Lemma opened_ok a now m :
  sessions_ok m →
  sessions_ok (opened a now m) ∧ (∀ st, seats_ok m st → seats_ok (opened a now m) st) ∧
  (∀ um, users_ok m um → users_ok (opened a now m) um).
Proof.
  intros Hm. pose proof (next_session_fresh m Hm) as Hfr. pose proof Hm as (Hid & Hact & Hn).
  pose proof (λ i s, opened_lookup a now m i s Hm) as Hl. split; [|split].
  - split_and!; [| |simpl; lia].
    + intros id s [[-> ->]|[_ Hs]]%Hl; simpl; [lia|]. apply Hid in Hs. lia.
    + intros i j x y [[-> ->]|[_ Hx]]%Hl [[-> ->]|[_ Hy]]%Hl Sx Sy Hs; try done. by eapply Hact.
  - intros st (H0 & Hst & Ha). split; [done|]. split.
    + intros k seat Hk. destruct (Hst k seat Hk) as [Hok Hin]. split; [done|]. intros sid. rewrite Hin. split.
      * intros (s & Hs & Hk'). exists s. split; [|done]. simpl. rewrite lookup_insert_ne; [done|congruence].
      * intros (s & [[-> ->]|[_ Hs]]%Hl & Hk'); [done|eauto].
    + intros sid s k [[-> ->]|[_ Hs]]%Hl Hk; [done|eauto].
  - intros um Hu uid u Hlu. eapply user_ok_mono, Hu, Hlu. intros sid s _ Hs. exists s. split; [|done].
    simpl. rewrite lookup_insert_ne; [done|congruence].
Qed.

(** ** Seats *)

Lemma seat_add_ok sid seat : seat_ok seat → seat_ok (seat_add sid seat).
Proof.
  unfold seat_ok, seat_add. simpl. intros [Hd Ha]. case_bool_decide as Hin.
  - split; [done|]. destruct (st_active_session seat); [done|]. done.
  - split.
    + apply NoDup_app. split_and!; [done| |apply NoDup_singleton]. intros x Hx ->%list_elem_of_singleton. done.
    + destruct (st_active_session seat); apply elem_of_app; [by left|right; by apply list_elem_of_singleton].
Qed.

Lemma seat_add_elem sid seat x : x ∈ st_sessions (seat_add sid seat) ↔ x ∈ st_sessions seat ∨ x = sid.
Proof. unfold seat_add. simpl. case_bool_decide; [naive_solver|]. rewrite elem_of_app, list_elem_of_singleton. done. Qed.

Lemma seat_remove_ok sid seat : seat_ok seat → seat_ok (seat_remove sid seat).
Proof.
  unfold seat_ok, seat_remove. simpl. intros [Hd Ha]. split; [by apply NoDup_filter|].
  case_bool_decide as Hs.
  - destruct (filter _ _) as [|x l]; simpl; [done|left].
  - destruct (st_active_session seat) as [a|]; [|by rewrite Ha].
    apply list_elem_of_filter. split; [congruence|done].
Qed.

Lemma seat_remove_elem sid seat x : x ∈ st_sessions (seat_remove sid seat) ↔ x ∈ st_sessions seat ∧ x ≠ sid.
Proof. unfold seat_remove. simpl. rewrite list_elem_of_filter. naive_solver. Qed.

(** A session without a seat is put on [seat0]. *)
Lemma assigned_ok sid s m st :
  sessions_ok m → seats_ok m st → sessions m !! sid = Some s → se_seat s = None → se_state s ≠ Session_Active →
  sessions_ok (session_assign_seat sid SEAT0 m) ∧
  seats_ok (session_assign_seat sid SEAT0 m) (seat_add_session SEAT0 sid st) ∧
  (∀ um, users_ok m um → users_ok (session_assign_seat sid SEAT0 m) um).
Proof.
  intros (Hid & Hact & Hn) (H0 & Hst & Ha) Hs Hnone Hina. unfold session_assign_seat, session_update. rewrite Hs. cbn [fst].
  set (s' := s <|se_seat := Some SEAT0|>).
  assert (Hl : ∀ i a, <[sid := s']> (sessions m) !! i = Some a →
    i = sid ∧ a = s' ∨ i ≠ sid ∧ sessions m !! i = Some a).
  { intros i a. rewrite lookup_insert_Some. naive_solver. }
  split_and!.
  - split_and!; [| |done]; simpl.
    + intros i a [[-> ->]|[_ Hi]]%Hl; [simpl|]; by eapply Hid.
    + intros i j a b [[-> ->]|[_ Hi]]%Hl [[-> ->]|[_ Hj]]%Hl Sa Sb Hab; [done|by destruct Hina..|by eapply Hact].
  - split; [|split].
    + simpl. by apply lookup_alter_is_Some.
    + intros k seat. simpl. intros [(<- & seat0 & Hk & ->)|[Hne Hk]]%lookup_alter_Some;
        destruct (Hst _ _ Hk) as [Hok Hin].
      * split; [by apply seat_add_ok|]. intros x. rewrite seat_add_elem, Hin. split.
        -- intros [(a & Hx & Hsx) | ->].
           ++ exists a. split; [|done]. rewrite lookup_insert_ne; [done|congruence].
           ++ exists s'. by rewrite lookup_insert_eq.
        -- intros (a & [[-> ->]|[_ Hx]]%Hl & Hsx); eauto.
      * split; [done|]. intros x. rewrite Hin. split.
        -- intros (a & Hx & Hsx). exists a. split; [|done]. rewrite lookup_insert_ne; [done|congruence].
        -- intros (a & [[-> ->]|[_ Hx]]%Hl & Hsx); [|eauto]. simpl in Hsx. congruence.
    + simpl. intros i a k [[-> ->]|[_ Hi]]%Hl Hk; apply lookup_alter_is_Some; [|eauto].
      simpl in Hk. by injection Hk as <-.
  - intros um Hu uid u Hlu. eapply user_ok_mono, Hu, Hlu. intros i a _ Hi. simpl.
    destruct (decide (i = sid)) as [->|Hne]; [|rewrite lookup_insert_ne by done; eauto].
    rewrite lookup_insert_eq. exists s'. split; [done|]. rewrite Hs in Hi. by injection Hi as <-.
Qed.

(** A change of one seat that keeps its sessions. *)
Lemma seats_update_ok m st k seat seat' :
  seats_ok m st → seats st !! k = Some seat → st_sessions seat' = st_sessions seat → seat_ok seat' →
  seats_ok m {| seats := <[k := seat']> (seats st) |}.
Proof.
  intros (H0 & Hst & Ha) Hk Hse Hok. destruct (Hst k seat Hk) as [_ Hin]. split; [|split]; simpl.
  - destruct (decide (k = SEAT0)) as [->|Hne]; [by rewrite lookup_insert_eq; eexists|by rewrite lookup_insert_ne].
  - intros k' x [[<- <-]|[_ Hx]]%lookup_insert_Some; [|by apply Hst]. split; [done|]. by rewrite Hse.
  - intros sid s k' Hs Hk'. destruct (decide (k = k')) as [->|Hne].
    + rewrite lookup_insert_eq. by eexists.
    + rewrite lookup_insert_ne by done. by eapply Ha.
Qed.

Lemma seat_activate_ok m st k sid : seats_ok m st → seats_ok m (seat_activate k sid st).1.
Proof.
  intros Hst. unfold seat_activate. destruct (seats st !! k) as [seat|] eqn:Hk; [|done].
  case_bool_decide as Hin; [|done]. eapply seats_update_ok; [done..|].
  destruct Hst as (_ & Hst & _). destruct (Hst k seat Hk) as [[Hd _] _]. by split.
Qed.

Lemma set_device_ok m st k seat i dev :
  seats_ok m st → seats st !! k = Some seat →
  seats_ok m {| seats := <[k := set_device i dev seat]> (seats st) |}.
Proof.
  intros Hst Hk. eapply seats_update_ok; [done..|]. destruct Hst as (_ & Hst & _). by destruct (Hst k seat Hk) as [? _].
Qed.

Lemma take_device_ok m st k path d :
  seats_ok m st → wp login_step (take_device k path st) d (λ d' r, d' = d ∧ seats_ok m r.1).
Proof.
  intros Hst. unfold take_device. destruct (seats st !! k) as [seat|] eqn:Hk; [|done].
  destruct (find_device path seat) as [[i dev]|]; [|done]. destruct (sd_fd dev) as [fd|]; [done|].
  destruct (has_nul path); [done|]. apply wp_quiet_bind; [quiet|]. intros fd.
  destruct (fd <? 0); [by apply wp_quiet_bind; [quiet|]|]. split; [done|]. by apply set_device_ok.
Qed.

Lemma release_device_ok m st k path d :
  seats_ok m st → wp login_step (release_device k path st) d (λ d' r, d' = d ∧ seats_ok m r.1).
Proof.
  intros Hst. unfold release_device. destruct (seats st !! k) as [seat|] eqn:Hk; [|done].
  destruct (find_device path seat) as [[i dev]|]; [|done]. destruct (sd_fd dev) as [fd|]; [|done].
  apply wp_quiet_bind; [quiet|]. intros _. split; [done|]. by apply set_device_ok.
Qed.

(** ** Closing a session *)

Definition closed (id : Z) (m : SessionManager) : SessionManager :=
  {| sessions := delete id (sessions m); next_session := next_session m |}.

Lemma session_close_spec id m d s :
  sessions m !! id = Some s →
  wp login_step (session_close id m) d (λ d' r, d' = d ∧ r = (closed id m, Ok tt)).
Proof.
  intros Hs. unfold session_close. rewrite Hs. apply wp_quiet_bind; [apply quiet_remove_scope|]. by intros _.
Qed.

(** What is left of the record after a logout. *)
Definition after_logout (sid : Z) (u : UserRecord) : option UserRecord :=
  match filter (λ s, s ≠ sid) (ur_session_ids u) with
  | [] => if ur_linger u then Some (u <|ur_session_ids := []|> <|ur_state := User_Lingering|>) else None
  | ids => Some (u <|ur_session_ids := ids|>)
  end.

Definition logged_out (uid sid : Z) (um : UserManager) : UserManager :=
  {| users := partial_alter (λ o, o ≫= after_logout sid) uid (users um) |}.

Lemma logged_out_eq uid sid um us :
  us !! uid = users um !! uid ≫= after_logout sid → (∀ i, i ≠ uid → us !! i = users um !! i) →
  {| users := us |} = logged_out uid sid um.
Proof.
  intros He Hne. unfold logged_out. f_equal. apply map_eq. intros i. destruct (decide (i = uid)) as [->|Hi].
  - by rewrite lookup_partial_alter_eq.
  - rewrite lookup_partial_alter_ne by done. by apply Hne.
Qed.

Lemma user_logout_spec uid sid config um d :
  wp login_step (user_logout uid sid config um) d (λ d' r, d' = d ∧ r = logged_out uid sid um).
Proof.
  unfold user_logout. destruct (users um !! uid) as [u|] eqn:Hu.
  - assert (Hdel : after_logout sid u = None → {| users := delete uid (users um) |} = logged_out uid sid um).
    { intros Ha. apply logged_out_eq; [rewrite lookup_delete_eq, Hu; by simpl|intros i Hi; by rewrite lookup_delete_ne]. }
    assert (Hins : ∀ u', after_logout sid u = Some u' → {| users := <[uid := u']> (users um) |} = logged_out uid sid um).
    { intros u' Ha. apply logged_out_eq; [rewrite lookup_insert_eq, Hu; by simpl|intros i Hi; by rewrite lookup_insert_ne]. }
    unfold after_logout in Hdel, Hins. destruct (filter _ _) as [|x ids]; cbn [is_nil andb].
    + destruct (ur_linger u); cbn [negb]; [by split; [|apply Hins]|].
      apply wp_quiet_bind; [quiet|]. intros _. by split; [|apply Hdel].
    + by split; [|apply Hins].
  - split; [done|]. destruct um as [us]. by apply logged_out_eq; simpl in *; [rewrite Hu|].
Qed.

Lemma after_logout_ok m uid sid u u' :
  user_ok m uid u → after_logout sid u = Some u' → user_ok (closed sid m) uid u'.
Proof.
  intros (Hd & Hs & Hst). unfold after_logout.
  assert (Hrest : ∀ x, x ∈ filter (λ s, s ≠ sid) (ur_session_ids u) →
    ∃ s, sessions (closed sid m) !! x = Some s ∧ se_uid s = uid).
  { intros x [Hne Hx]%list_elem_of_filter. destruct (Hs x Hx) as (s & Hl & He). exists s. simpl.
    by rewrite lookup_delete_ne. }
  pose proof (NoDup_filter (λ s, s ≠ sid) _ Hd) as Hdf. revert Hrest Hdf.
  destruct (filter (λ s, s ≠ sid) (ur_session_ids u)) as [|x ids] eqn:E; intros Hrest Hdf.
  - destruct (ur_linger u) eqn:Hl; [|done]. intros [= <-]. by split_and!.
  - intros [= <-]. split_and!; simpl; try done.
    destruct (ur_session_ids u); [done|]. done.
Qed.

Lemma closed_ok id s m st um :
  sessions_ok m → seats_ok m st → users_ok m um → sessions m !! id = Some s →
  sessions_ok (closed id m) ∧
  seats_ok (closed id m) (match se_seat s with Some k => seat_remove_session k id st | None => st end) ∧
  users_ok (closed id m) (logged_out (se_uid s) id um).
Proof.
  intros (Hid & Hact & Hn) (H0 & Hst & Ha) Hu Hs.
  assert (Hl : ∀ i a, sessions (closed id m) !! i = Some a ↔ i ≠ id ∧ sessions m !! i = Some a).
  { intros i a. simpl. rewrite lookup_delete_Some. naive_solver. }
  split_and!.
  - split_and!; [| |done].
    + intros i a [_ Hi]%Hl. by apply Hid.
    + intros i j a b [_ Hi]%Hl [_ Hj]%Hl. by eapply Hact.
  - assert (Hin' : ∀ k seat, seats st !! k = Some seat → ∀ x,
      (∃ a, sessions (closed id m) !! x = Some a ∧ se_seat a = Some k) ↔ x ∈ st_sessions seat ∧ x ≠ id).
    { intros k seat Hk x. destruct (Hst k seat Hk) as [_ Hin]. rewrite Hin. setoid_rewrite Hl. naive_solver. }
    assert (Hother : ∀ k seat, seats st !! k = Some seat → se_seat s ≠ Some k → id ∉ st_sessions seat).
    { intros k seat Hk Hne Hx. destruct (Hst k seat Hk) as [_ Hin]. apply Hin in Hx as (a & Hx & Hk'). congruence. }
    assert (Hthere : ∀ sid a k, sessions (closed id m) !! sid = Some a → se_seat a = Some k → is_Some (seats st !! k)).
    { intros sid a k [_ Hx]%Hl. by eapply Ha. }
    destruct (se_seat s) as [k0|]; split_and!; simpl; try done.
    + by apply lookup_alter_is_Some.
    + intros k seat [(<- & seat0 & Hk & ->)|[Hne Hk]]%lookup_alter_Some; destruct (Hst _ _ Hk) as [Hok Hin].
      * split; [by apply seat_remove_ok|]. intros x. by rewrite seat_remove_elem, <- (Hin' _ _ Hk).
      * split; [done|]. intros x. rewrite (Hin' _ _ Hk). pose proof (Hother _ _ Hk ltac:(congruence)). split; [|naive_solver].
        intros Hx. split; [done|]. by intros ->.
    + intros sid a k Hx Hk. apply lookup_alter_is_Some. by eapply Hthere.
    + intros k seat Hk. destruct (Hst _ _ Hk) as [Hok Hin]. split; [done|]. intros x. rewrite (Hin' _ _ Hk).
      pose proof (Hother _ _ Hk ltac:(congruence)). split; [|naive_solver]. intros Hx. split; [done|]. by intros ->.
  - intros uid u. simpl. destruct (decide (uid = se_uid s)) as [->|Hne].
    + rewrite lookup_partial_alter_eq. intros (u0 & Hu0 & Hafter)%bind_Some. eapply after_logout_ok; [|done]. by apply Hu.
    + rewrite lookup_partial_alter_ne by done. intros Hlu. eapply user_ok_mono, Hu, Hlu.
      intros x a Hx Ha'. exists a. split; [|done]. apply Hl. split; [|done]. intros ->.
      destruct (Hu uid u Hlu) as (_ & Hss & _). destruct (Hss id Hx) as (b & Hb & Hbu). congruence.
Qed.

(** ** Users *)

Lemma users_insert_ok m um uid u : users_ok m um → user_ok m uid u → users_ok m {| users := <[uid := u]> (users um) |}.
Proof. intros Hu Hok uid' u'. simpl. intros [[<- <-]|[_ Hl]]%lookup_insert_Some; [done|by apply Hu]. Qed.

Lemma users_delete_ok m um uid : users_ok m um → users_ok m {| users := delete uid (users um) |}.
Proof. intros Hu uid' u'. simpl. intros [_ Hl]%lookup_delete_Some. by apply Hu. Qed.

Lemma user_login_ok oc uid name sid config um d m s :
  users_ok m um → sessions m !! sid = Some s → se_uid s = uid →
  wp login_step (user_login oc uid name sid config um) d (λ d' r, d' = d ∧
    match r with Some (um', _) => users_ok m um' | None => True end).
Proof.
  intros Hu Hs Huid. unfold user_login. destruct (users um !! uid) as [u|] eqn:Hlu.
  - destruct (Hu uid u Hlu) as (Hd & Hss & _).
    eapply wp_bind_2 with (R := λ d' u', d' = d ∧ NoDup (ur_session_ids u') ∧ ur_session_ids u' ≠ [] ∧
      ∀ x, x ∈ ur_session_ids u' → ∃ s, sessions m !! x = Some s ∧ se_uid s = uid).
    + case_bool_decide as Hin; [split_and!; try done; by intros E; rewrite E in Hin; inversion Hin|].
      apply wp_quiet_bind; [apply quiet_now|]. intros now. split; [done|]. simpl. split_and!.
      * apply NoDup_app. split_and!; [done| |apply NoDup_singleton]. by intros x Hx ->%list_elem_of_singleton.
      * by destruct (ur_session_ids u).
      * intros x [Hx | ->%list_elem_of_singleton]%elem_of_app; [by apply Hss|eauto].
    + intros d' u' (-> & Hd' & Hne & Hss'). split; [done|]. apply users_insert_ok; [done|].
      split; [exact Hd'|]. split; [exact Hss'|]. destruct u' as [? ? [|x ids]]; simpl in *; [by destruct Hne|done].
  - unfold fuel_bind. apply wp_quiet_bind; [apply quiet_prepare|]. intros [[[]|e]|]; [|done|done].
    apply wp_quiet_bind; [apply quiet_now|]. intros now. split; [done|]. apply users_insert_ok; [done|].
    split; [apply NoDup_singleton|]. split; [|done]. simpl. intros x ->%list_elem_of_singleton. eauto.
Qed.

Lemma set_linger_ok oc uid enable um d m :
  users_ok m um →
  wp login_step (set_linger oc uid enable um) d (λ d' r, d' = d ∧
    match r with Some (um', _) => users_ok m um' | None => True end).
Proof.
  intros Hu. unfold set_linger. apply wp_quiet_bind; [quiet|]. intros [[]|e]; [|done].
  assert (Hrec : ∀ b, wp login_step (set_linger_record oc uid b um) d (λ d' r, d' = d ∧
    match r with Some (um', _) => users_ok m um' | None => True end)).
  { intros b. unfold set_linger_record. destruct (users um !! uid) as [u|] eqn:Hlu.
    - destruct (Hu uid u Hlu) as (Hd & Hss & Hst).
      destruct (negb b && is_nil (ur_session_ids u)) eqn:Hc.
      + apply wp_quiet_bind; [quiet|]. intros _. apply wp_quiet_bind; [quiet|]. intros _.
        split; [done|]. by apply users_delete_ok.
      + split; [done|]. apply users_insert_ok; [done|]. split; [exact Hd|]. split; [exact Hss|].
        destruct u as [? ? [|x ids]]; simpl in *; [|done]. destruct b; [|done]. by destruct Hst.
    - destruct b; [|done]. unfold linger_absent. apply wp_quiet_bind; [quiet|]. intros [name|]; [|done].
      unfold fuel_bind. apply wp_quiet_bind; [apply quiet_prepare|]. intros [[[]|e]|]; [|done|done].
      apply wp_quiet_bind; [apply quiet_now|]. intros now. split; [done|]. apply users_insert_ok; [done|].
      split; [constructor|]. split; [|done]. simpl. intros x Hx. by inversion Hx. }
  destruct enable.
  - apply wp_quiet_bind; [quiet|]. intros [[]|e]; [|done]. apply Hrec.
  - apply wp_quiet_bind; [quiet|]. intros _. apply Hrec.
Qed.

Lemma user_terminate_ok uid um d m :
  users_ok m um → wp login_step (user_terminate uid um) d (λ d' r, d' = d ∧ users_ok m r).
Proof.
  intros Hu. unfold user_terminate. apply wp_quiet_bind; [quiet|]. intros _.
  destruct (users um !! uid) as [u|]; [|done]. apply wp_quiet_bind; [quiet|]. intros _.
  split; [done|]. by apply users_delete_ok.
Qed.

(** ** Updates of hints *)

#[export] Instance same_sessions_pre : PreOrder same_sessions.
Proof.
  split.
  - intros m. split; [done|]. intros i. destruct (sessions m !! i); by constructor.
  - intros m1 m2 m3 H12 H23. split; [by destruct H12 as [<- _], H23 as [-> _]|]. intros i.
    destruct (sessions m1 !! i) as [a|] eqn:Ha, (sessions m3 !! i) as [c|] eqn:Hc; [| | |constructor].
    + destruct (same_sessions_core _ _ _ _ H12 Ha) as (b & Hb & ?).
      destruct (same_sessions_core _ _ _ _ H23 Hb) as (c' & Hc' & ?).
      rewrite Hc in Hc'. injection Hc' as <-. constructor. congruence.
    + destruct (same_sessions_core _ _ _ _ H12 Ha) as (b & Hb & _).
      destruct (same_sessions_core _ _ _ _ H23 Hb) as (c' & Hc' & _). congruence.
    + destruct (same_sessions_r _ _ _ _ H23 Hc) as (b & Hb & _).
      destruct (same_sessions_r _ _ _ _ H12 Hb) as (a & Ha' & _). congruence.
Qed.

(** The tables are as good as before. *)
Definition touched (m m' : SessionManager) : Prop := sessions_ok m → sessions_ok m' ∧ same_sessions m m'.

Lemma touched_refl m : touched m m.
Proof. by intros Hm. Qed.

Lemma touched_trans m1 m2 m3 : touched m1 m2 → touched m2 m3 → touched m1 m3.
Proof. intros H1 H2 Hm. destruct (H1 Hm) as [Hm2 ?]. destruct (H2 Hm2). split; [done|]. by etrans. Qed.

Lemma touched_update id f m : hint_update f → touched m (session_update id f m).1.
Proof. intros Hf Hm. by apply session_update_ok. Qed.

Lemma session_lock_touched id m d : wp login_step (session_lock id m) d (λ d' r, d' = d ∧ touched m r.1).
Proof.
  unfold session_lock. destruct (sessions m !! id); [|by split; [|apply touched_refl]].
  apply wp_quiet_bind; [quiet|]. intros _. split; [done|]. by apply touched_update.
Qed.

Lemma set_idle_hint_touched id idle m d :
  wp login_step (session_set_idle_hint id idle m) d (λ d' r, d' = d ∧ touched m r.1).
Proof.
  unfold session_set_idle_hint. destruct (sessions m !! id); [|by split; [|apply touched_refl]].
  apply wp_quiet_bind; [quiet|]. intros since. split; [done|]. by apply touched_update.
Qed.

Lemma lock_all_touched m d : wp login_step (session_lock_all m) d (λ d' r, d' = d ∧ touched m r).
Proof.
  unfold session_lock_all. generalize (session_ids m). intros ids.
  assert (H : ∀ m', touched m m' → wp login_step (lock_each ids m') d (λ d' r, d' = d ∧ touched m r)).
  { induction ids as [|id ids IH]; intros m' Hm'; cbn [lock_each]; [done|].
    eapply wp_bind_2; [apply session_lock_touched|]. intros d' r [-> Hr]. apply IH. by eapply touched_trans. }
  apply H, touched_refl.
Qed.

Lemma unlock_all_touched m : touched m (session_unlock_all m).
Proof.
  unfold session_unlock_all. generalize (session_ids m). intros ids.
  assert (H : ∀ m', touched m m' → touched m (foldl (λ sm id, (session_unlock id sm).1) m' ids)).
  { induction ids as [|id ids IH]; intros m' Hm'; simpl; [done|]. apply IH. eapply touched_trans; [done|].
    by apply touched_update. }
  apply H, touched_refl.
Qed.

(** ** The whole state *)

Lemma inv_touched d m' : touched (ld_sessions d) m' → login_inv d → login_inv (d <|ld_sessions := m'|>).
Proof.
  intros Ht (Hs & Hst & Hu & Hi). destruct (Ht Hs) as [Hs' Hsame].
  split_and!; simpl; [done|by eapply same_seats_ok|by eapply same_users_ok|done].
Qed.

Lemma inv_bus d b : login_inv d → login_inv (d <|ld_bus := b|>).
Proof. done. Qed.

Lemma inv_power d p : login_inv d → login_inv (d <|ld_power := p|>).
Proof. done. Qed.

Lemma inv_seats d st : (seats_ok (ld_sessions d) (ld_seats d) → seats_ok (ld_sessions d) st) →
  login_inv d → login_inv (d <|ld_seats := st|>).
Proof. intros Hst (? & ? & ? & ?). split_and!; simpl; auto. Qed.

Lemma inv_users d um : users_ok (ld_sessions d) um → login_inv d → login_inv (d <|ld_users := um|>).
Proof. intros Hu (? & ? & ? & ?). by split_and!. Qed.

(** Computes the state, not the program. *)
Ltac look := cbn -[wp prog_bind fuel_bind reading updating updating_by locked broadcast_event trigger
  session_assign_seat seat_add_session login_inv].

Notation inv_after p d := (wp login_step p d (λ d' _, login_inv d')).

Lemma inv_broadcast e d : login_inv d → inv_after (broadcast_event e) d.
Proof. intros Hd. by apply wp_broadcast. Qed.

Lemma broadcast_bind {A} e (k : unit → prog LogOp A) d :
  login_inv d → (∀ d', login_inv d' → inv_after (k tt) d') → inv_after (prog_bind (broadcast_event e) k) d.
Proof. intros Hd Hk. eapply wp_bind_2; [by apply (inv_broadcast e d)|]. intros d' [] Hd'. by apply Hk. Qed.

(** A read-only request. *)
Lemma inv_reading {A} l (f : lock_data l → A) d : login_inv d → inv_after (returned (reading l f)) d.
Proof. intros Hd. unfold returned. apply wp_bind, wp_reading. done. Qed.

Lemma inv_with_power act d :
  login_inv d → (∀ pm inh, quiet (act pm inh)) → inv_after (with_power act) d.
Proof.
  intros Hd Ha. unfold with_power, fuel_bind. apply wp_op. intros inh d1 [-> ->]. apply wp_op.
  intros pm d2 [-> ->]. apply wp_quiet_bind; [apply Ha|]. intros [r|]; [|done]. apply wp_op. intros [] d3 ->.
  apply wp_op. intros [] d4 ->. simpl. by destruct d.
Qed.

Lemma inv_updating_sessions {A} (f : SessionManager → SessionManager * A) (k : A → prog LogOp (option Response)) d :
  login_inv d → (∀ m, touched m (f m).1) → (∀ a d', login_inv d' → inv_after (k a) d') →
  inv_after (prog_bind (updating SessionsL f) k) d.
Proof. intros Hd Hf Hk. apply wp_bind, wp_updating. apply Hk. simpl. by apply inv_touched. Qed.

Lemma inv_updating_sessions_by {A} (f : SessionManager → prog LogOp (SessionManager * A))
    (k : A → prog LogOp (option Response)) d :
  login_inv d → (∀ m d, wp login_step (f m) d (λ d' r, d' = d ∧ touched m r.1)) →
  (∀ a d', login_inv d' → inv_after (k a) d') →
  inv_after (fuel_bind (updating_by SessionsL f) k) d.
Proof.
  intros Hd Hf Hk. unfold fuel_bind. apply wp_bind, wp_updating_by. eapply wp_mono; [|apply Hf].
  intros d' r [-> Ht]. split; [done|]. apply Hk. simpl. by apply inv_touched.
Qed.

(** ** The requests *)

Section requests.
Context (oc : bool) (fuel : nat) (config : LogindConfig) (peer : Z).
Notation dispatch := (login_dispatch oc fuel config peer).

(** The identifiers do not run out. *)
Definition ids_left (d : Logind) : Prop :=
  next_session (ld_sessions d) < u64_max ∧ next_inhibitor (ld_inhibitors d) < u64_max.

Lemma inv_open a d : login_inv d → ids_left d → inv_after (on_open_session oc config peer a) d.
Proof.
  intros (Hs & Hst & Hu & Hi) [Hn _]. unfold on_open_session, fuel_bind. destruct (not_root peer); [done|].
  pose proof Hs as (_ & _ & Hpos). apply wp_bind, wp_locked.
  eapply wp_mono; [|by apply session_open_spec]. intros d1 r (-> & now & ->). split; [done|].
  destruct (opened_ok a now _ Hs) as (Hs1 & Hst1 & Hu1). specialize (Hst1 _ Hst). specialize (Hu1 _ Hu).
  set (m1 := opened a now (ld_sessions d)) in *. set (sid := next_session (ld_sessions d)) in *.
  assert (Hl1 : sessions m1 !! sid = Some (session_of a sid now)) by apply lookup_insert_eq.
  look. apply wp_bind, wp_locked. look.
  eapply wp_mono; [|by eapply (user_login_ok oc _ _ sid)]. intros d2 r2 [-> Hr2]. split; [done|].
  destruct r2 as [[um' [[]|e]]|]; [|by split_and!..].
  look. apply wp_bind, wp_updating, wp_bind, wp_updating. look.
  destruct (assigned_ok sid _ m1 (ld_seats d) Hs1 Hst1 Hl1 eq_refl ltac:(done)) as (Hs2 & Hst2 & Hu2).
  specialize (Hu2 _ Hr2).
  apply wp_quiet_bind; [destruct (no_tty a); quiet|]. intros [[]|]; [|by split_and!].
  apply wp_quiet_bind; [quiet|]. intros _.
  apply broadcast_bind; [by split_and!|]. intros d3 H3. apply broadcast_bind; [done|]. intros d4 H4. done.
Qed.

Lemma inv_close id d : login_inv d → inv_after (on_close_session config peer id) d.
Proof.
  intros Hinv. pose proof Hinv as (Hs & Hst & Hu & Hi). unfold on_close_session.
  apply wp_bind, wp_reading, wp_bind, wp_reading. look. unfold session_uid_of, session_seat_of.
  destruct (sessions (ld_sessions d) !! id) as [s|] eqn:Hl; look; [|done].
  destruct (not_root_or peer (se_uid s)); [done|]. apply wp_bind, wp_reading. look.
  assert (Hlog : ∀ tty, wp login_step (match tty with
     | Some tty => let* pid := reading SessionsL (λ m, default 0 (se_leader_pid <$> sessions m !! id)) in write_logout pid tty
     | None => Ret (Some tt) end) d (λ d' _, d' = d)).
  { intros [tty|]; [|done]. apply wp_bind, wp_reading. apply quiet_wp; [quiet|done]. }
  unfold fuel_bind. eapply wp_bind_2; [apply Hlog|]. intros d' [[]|] ->; [|done].
  destruct (closed_ok id s _ _ _ Hs Hst Hu Hl) as (Hs' & Hst' & Hu').
  set (st' := match se_seat s with Some k => _ | None => _ end) in Hst'.
  eapply wp_bind_2 with (R := λ d' _, d' = d <|ld_seats := st'|>).
  { destruct (se_seat s); [by apply wp_updating|]. unfold st'. by destruct d. }
  intros d1 _ ->. apply wp_bind, wp_updating_by. eapply wp_mono; [|by eapply session_close_spec].
  intros d2 r [-> ->]. split; [done|]. look. apply wp_bind, wp_updating_by. look.
  eapply wp_bind_2; [apply user_logout_spec|]. intros d3 um' [-> ->]. split; [done|]. look.
  apply broadcast_bind; [by split_and!|]. intros d4 H4. done.
Qed.

Lemma inv_activate id d : login_inv d → inv_after (on_activate_session id) d.
Proof.
  intros Hd. unfold on_activate_session. apply inv_updating_sessions; [done|intros m Hm; by apply session_activate_ok|].
  intros [[]|e] d1 H1; [|done]. apply wp_bind, wp_reading. cbn [ld_get].
  eapply wp_bind_2 with (R := λ d' _, login_inv d').
  { destruct (session_seat_of id (ld_sessions d1)) as [k|]; [|done].
    apply wp_updating. simpl. apply inv_seats; [|done]. apply seat_activate_ok. }
  intros d2 _ H2. apply wp_bind, wp_reading. cbn [ld_get].
  destruct (session_vt_of id _) as [vt|]; [|done]. apply wp_bind, wp_op. intros st d3 [-> ->].
  apply wp_quiet_bind; [quiet|]. intros _. apply wp_op. intros [] d4 ->. rewrite ld_set_get.
  eapply wp_mono; [|by apply (inv_broadcast _ d2)]. by intros d5 [] H5.
Qed.

Lemma inv_switch_to vt d : login_inv d → inv_after (on_switch_to peer vt) d.
Proof.
  intros Hd. unfold on_switch_to. destruct (not_root peer); [done|]. apply wp_op. intros st d1 [-> ->].
  apply wp_quiet_bind; [quiet|]. intros [[]|e].
  - unfold broadcast_event. apply wp_bind, wp_op. intros b d2 [-> ->].
    apply wp_quiet_bind; [apply quiet_send_each|]. intros b' [] d3 ->. intros [] d4 ->. simpl. by destruct d.
  - intros [] d2 ->. by rewrite ld_set_get.
Qed.

Lemma inv_set_linger uid enable d : login_inv d → inv_after (on_set_linger oc peer uid enable) d.
Proof.
  intros Hd. pose proof Hd as (_ & _ & Hu & _). unfold on_set_linger, fuel_bind. destruct (not_root_or peer uid); [done|].
  apply wp_bind, wp_locked. eapply wp_mono; [|by apply set_linger_ok]. intros d1 [[um r]|] [-> Hr]; (split; [done|]); [|done].
  by apply inv_users.
Qed.

Lemma inv_terminate uid d : login_inv d → inv_after (on_terminate_user peer uid) d.
Proof.
  intros Hd. pose proof Hd as (_ & _ & Hu & _). unfold on_terminate_user, fuel_bind. destruct (not_root peer); [done|].
  apply wp_bind, wp_updating_by. eapply wp_bind_2; [by apply user_terminate_ok|]. intros d1 um [-> Hum].
  split; [done|]. by apply inv_users.
Qed.

Lemma inv_activate_on_seat id k d : login_inv d → inv_after (on_activate_on_seat id k) d.
Proof.
  intros Hd. unfold on_activate_on_seat. apply wp_bind, wp_updating.
  assert (login_inv (ld_set SeatsL (seat_activate k id (ld_get SeatsL d)).1 d)) as H1.
  { apply inv_seats; [|done]. apply seat_activate_ok. }
  destruct (_.2) as [[]|e]; [|done]. apply inv_updating_sessions; [done| |done].
  intros m Hm. by apply session_activate_ok.
Qed.

Lemma inv_devices k path d :
  login_inv d → inv_after (on_take_device peer k path) d ∧ inv_after (on_release_device k path) d.
Proof.
  intros Hd. pose proof Hd as (_ & Hst & _). unfold on_take_device, on_release_device, fuel_bind. split.
  - destruct (not_root peer); [done|]. apply wp_bind, wp_updating_by.
    eapply wp_mono; [|by apply take_device_ok]. intros d1 r [-> Hr]. split; [done|]. by apply inv_seats.
  - apply wp_bind, wp_updating_by. eapply wp_mono; [|by apply release_device_ok].
    intros d1 r [-> Hr]. split; [done|]. by apply inv_seats.
Qed.

Lemma inv_set_brightness subsystem name value d : login_inv d → inv_after (on_set_brightness subsystem name value) d.
Proof.
  intros Hd. unfold on_set_brightness. apply wp_op. intros pm d1 [-> ->].
  apply wp_quiet_bind; [apply (quiet_brightness subsystem name value)|]. intros [[]|e].
  - apply broadcast_bind; [done|]. intros d2 H2 [] d3 ->. simpl. by apply inv_power.
  - intros [] d2 ->. by rewrite ld_set_get.
Qed.

Lemma inv_get_brightness subsystem name d : login_inv d → inv_after (on_get_brightness subsystem name) d.
Proof.
  intros Hd. unfold on_get_brightness. apply wp_op. intros pm d1 [-> ->].
  apply wp_quiet_bind; [apply (quiet_brightness subsystem name 0)|]. intros r [] d2 ->. by rewrite ld_set_get.
Qed.

Lemma inv_schedule action usec d : login_inv d → inv_after (on_schedule_shutdown peer action usec) d.
Proof.
  intros Hd. unfold on_schedule_shutdown. destruct (not_root peer); [done|]. apply wp_op. intros pm d1 [-> ->].
  apply wp_quiet_bind; [apply quiet_schedule|]. intros pm. apply broadcast_bind; [done|]. intros d2 H2 [] d3 ->.
  by apply inv_power.
Qed.

Lemma inv_status d : login_inv d → inv_after on_login_status d.
Proof.
  intros Hd. unfold on_login_status. apply wp_op. intros sm d1 [-> ->]. apply wp_op. intros um d1 [-> ->].
  apply wp_op. intros st d1 [-> ->]. apply wp_op. intros ih d1 [-> ->].
  apply wp_bind, wp_reading, wp_bind, wp_reading. apply wp_op. intros [] d1 ->. apply wp_op. intros [] d2 ->.
  apply wp_op. intros [] d3 ->. apply wp_op. intros [] d4 ->. simpl. by destruct d.
Qed.

Lemma inv_take_inhibitor what who why mode uid pid d :
  login_inv d → ids_left d → inv_after (dispatch (TakeInhibitor what who why mode uid pid)) d.
Proof.
  intros (Hs & Hst & Hu & Hpos & Hi) [_ Hn]. cbn [login_dispatch]. unfold fuel_bind, inhibitor_take.
  apply wp_bind, wp_locked. cbn [ld_get]. rewrite arith_u64_fits by lia. apply wp_quiet_bind; [apply quiet_now|].
  intros now. split; [done|]. split; [exact Hs|]. split; [exact Hst|]. split; [exact Hu|]. split; simpl; [lia|].
  intros id i [[<- <-]|[_ Hl]]%lookup_insert_Some; simpl; [lia|]. apply Hi in Hl. lia.
Qed.

Lemma inv_release_inhibitor id d : login_inv d → inv_after (dispatch (ReleaseInhibitor id)) d.
Proof.
  intros (Hs & Hst & Hu & Hpos & Hi). cbn [login_dispatch]. apply wp_bind, wp_updating.
  split; [exact Hs|]. split; [exact Hst|]. split; [exact Hu|]. split; simpl; [done|].
  intros i x [_ Hl]%lookup_delete_Some. by apply Hi.
Qed.

Lemma inv_by_pid pid d : login_inv d → inv_after (dispatch (GetSessionByPid pid)) d.
Proof.
  intros Hd. cbn [login_dispatch]. apply wp_locked. unfold fuel_bind. apply wp_quiet_bind; [apply quiet_by_pid|].
  intros [s|]; (split; [done|]); [|done]. by apply inv_touched; [apply touched_refl|].
Qed.

Lemma inv_cancel d : login_inv d → inv_after (dispatch CancelScheduledShutdown) d.
Proof.
  intros Hd. cbn [login_dispatch]. unfold fuel_bind. apply wp_bind, wp_updating_by.
  apply quiet_wp; [apply (quiet_schedule "" 0)|]. intros [pm b]. split; [done|]. by apply inv_power.
Qed.

(** The requests that only touch hints. *)
Lemma inv_hints d req :
  login_inv d →
  match req with
  | LockSession _ | UnlockSession _ | LockSessions | UnlockSessions | SetIdleHint _ _ | SetLockedHint _ _ => True
  | _ => False
  end → inv_after (dispatch req) d.
Proof.
  intros Hd. destruct req; try done; intros _; cbn [login_dispatch].
  - apply inv_updating_sessions_by; [done|apply session_lock_touched|]. intros [[]|e] d1 H1; [|done].
    apply broadcast_bind; [done|]. by intros d2 H2.
  - apply inv_updating_sessions; [done|intros m; by apply touched_update|]. intros [[]|e] d1 H1; [|done].
    apply broadcast_bind; [done|]. by intros d2 H2.
  - apply inv_updating_sessions_by; [done| |done]. intros m d1. eapply wp_bind_2; [apply lock_all_touched|].
    by intros d2 m' [-> Ht].
  - apply inv_updating_sessions; [done|apply unlock_all_touched|done].
  - apply inv_updating_sessions_by; [done|apply set_idle_hint_touched|done].
  - apply inv_updating_sessions; [done|intros m; by apply touched_update|done].
Qed.

(** C10: the login daemon's tables stay consistent: whatever a client asks, and whatever
    the system answers, sessions are kept under their identifiers, all below the next; at most
    one session of a seat is active; a seat lists, without repetition, exactly the open
    sessions assigned to it, and its active session is one of them; a user's sessions are
    open sessions of that user, and a user without sessions is there only to linger;
    inhibitors keep their identifiers.  This holds on every path, errors included. *)
Theorem login_tables_consistent req d :
  login_inv d → ids_left d → wp login_step (login_dispatch oc fuel config peer req) d (λ d' _, login_inv d').
Proof.
  intros Hd Hids. pose proof (λ pm inh i, quiet_power fuel pm inh i) as Hq.
  destruct req; try (by apply inv_hints); cbn [login_dispatch]; try (by apply inv_reading);
    unfold query_power, root_power; repeat (case_match; [done|]); try done;
    try (by apply inv_reading); try (apply inv_with_power; [done|intros pm inh; apply (Hq pm)]).
  - by apply inv_open.
  - by apply inv_close.
  - by apply inv_activate.
  - by apply inv_by_pid.
  - by apply inv_set_linger.
  - by apply inv_terminate.
  - by apply inv_activate_on_seat.
  - by apply inv_switch_to.
  - by apply inv_devices.
  - by apply inv_devices.
  - by apply inv_take_inhibitor.
  - by apply inv_release_inhibitor.
  - by apply inv_set_brightness.
  - by apply inv_get_brightness.
  - by apply inv_schedule.
  - by apply inv_cancel.
  - by apply inv_status.
Qed.
End requests.

(** The state at the start: [seat0] with its devices, nobody logged in. *)
Definition login_start (seat0 : Seat) (pm : PowerManager) : Logind := {|
  ld_sessions := SessionManager_new; ld_users := UserManager_new; ld_seats := {| seats := {[SEAT0 := seat0]} |};
  ld_inhibitors := InhibitorManager_new; ld_power := pm; ld_bus := []
|}.

Ltac nobody H := simpl in H; by rewrite lookup_empty in H.

Lemma login_start_inv seat0 pm :
  st_sessions seat0 = [] → st_active_session seat0 = None → login_inv (login_start seat0 pm).
Proof.
  intros Hs Ha. split; [|split; [|split]].
  - split; [intros id s Hl|split; [intros i j a b Hl|done]]; nobody Hl.
  - split; [exists seat0; simpl; apply lookup_singleton_eq|]. split; [|intros sid s k Hl; nobody Hl].
    intros k st Hk. simpl in Hk. apply lookup_singleton_Some in Hk as [<- <-]. unfold seat_ok. rewrite Hs, Ha. split; [split; [constructor|done]|].
    intros sid. split; [intros Hx; inversion Hx|]. intros (s & Hl & _). nobody Hl.
  - intros uid u Hl. nobody Hl.
  - split; [done|]. intros id i Hl. nobody Hl.
Qed.

Definition example_power : PowerManager := {|
  can_suspend := true; can_hibernate := false; can_hybrid_sleep := false;
  can_suspend_then_hibernate := false; scheduled_shutdown := None; pw_config := LogindConfig_default
|}.

Definition example_session : NewSession := {|
  no_uid := 1000; no_username := "ann"; no_leader_pid := 812; no_type := Type_Tty; no_class := Class_User;
  no_tty := Some "/dev/tty1"; no_display := None; no_remote_host := None; no_remote_user := None;
  no_service := None; no_vt := None
|}.

Lemma login_tables_consistent_witness :
  wp login_step (login_dispatch true 10 LogindConfig_default 0 (OpenSession example_session))
    (login_start (Seat_new SEAT0) example_power) (λ d' _, login_inv d').
Proof.
  apply (login_tables_consistent true 10 LogindConfig_default 0 (OpenSession example_session)
    (login_start (Seat_new SEAT0) example_power)); [by apply login_start_inv|by split].
Defined.
