(* ===== verification/LoginAccess.v ===== *)
(** * The login daemon: what a client that is not root can do

    The checks of the control socket ([quantra-logind/src/control.rs]), seen from the
    outside: which operations of the system a request of an ordinary user can lead to,
    and which parts of the tables it can change. *)

From Stdlib Require Import ZArith Ascii.
From stdpp Require Import base tactics numbers list strings gmap sorting.
From S2P Require Import Prelude RustStr Types Effects Os Login LoginPower Utmp LoginControl LoginInv.

Local Open Scope string_scope.
Local Open Scope list_scope.
Local Open Scope Z_scope.
Local Open Scope prog_scope.

#[local] Arguments RecordSetters.constant {E} newValue _ /.

(** ** The operations *)

(** Nothing is rebooted, no device but the console is opened, no runtime directory but
    the user's own is mounted, and only the user's own processes are cleaned up. *)
Definition permitted (uid : Z) : ∀ X, LogOp X → Prop :=
  λ X e, match e with
  | Reboot _ | SyncDisks => False
  | SpawnCleanup c => cu_uid c = uid
  | MountTmpfs path _ => path = run_user uid
  | Sys (OpenFd path _) => path = "/dev/tty0"
  | _ => True
  end.

Create HintDb permit.

Ltac permit := repeat first
  [ assumption | solve [eauto with permit nocore] | apply performs_ret | apply performs_for_each; intros ?
  | apply performs_loop; intros ? | simple apply performs_bind; [|intros ?]
  | apply performs_op; first [exact I | reflexivity] | case_match | progress intros ].

Ltac permit_in := unfold fuel_bind, try_bind, drop_answer; permit.

Section permitted.
Context (uid : Z).
Notation permits := (performs (permitted uid)).

Lemma permits_now : permits now_unix.
Proof. unfold now_unix. permit. Qed.

Lemma permits_dir_entries path : permits (dir_entries path).
Proof. unfold dir_entries. permit. Qed.
#[local] Hint Resolve permits_now permits_dir_entries : permit.

Lemma permits_locked {A} l (body : lock_data l → prog LogOp (option (lock_data l * A))) :
  (∀ d, permits (body d)) → permits (locked l body).
Proof. intros Hb. unfold locked. permit_in. Qed.

Lemma permits_reading {A} l (f : lock_data l → A) : permits (reading l f).
Proof. unfold reading. permit. Qed.

Lemma permits_updating {A} l (f : lock_data l → lock_data l * A) : permits (updating l f).
Proof. unfold updating. permit. Qed.

Lemma permits_updating_by {A} l (f : lock_data l → prog LogOp (lock_data l * A)) :
  (∀ d, permits (f d)) → permits (updating_by l f).
Proof. intros Hf. apply permits_locked. intros d. apply performs_bind; [apply Hf|intros r; permit]. Qed.
#[local] Hint Resolve permits_reading permits_updating : permit.

Lemma permits_broadcast e : permits (broadcast_event e).
Proof.
  unfold broadcast_event. permit. match goal with |- permits (send_each e ?l) => induction l as [|s l IH] end;
    cbn [send_each]; permit.
Qed.
#[local] Hint Resolve permits_broadcast : permit.

Lemma permits_session_lock id m : permits (session_lock id m).
Proof. unfold session_lock. permit. Qed.

Lemma permits_lock_each ids m : permits (lock_each ids m).
Proof. revert m. induction ids as [|id ids IH]; intros m; cbn [lock_each]; [permit|].
  apply performs_bind; [apply permits_session_lock|]. intros r. apply IH. Qed.

Lemma permits_glob_dirs parent : permits (glob_dirs parent).
Proof.
  unfold glob_dirs. apply performs_bind; [apply permits_dir_entries|]. intros l.
  induction l as [|p l IH]; simpl; [done|]. split; [done|]. intros b. apply performs_bind; [done|]. permit.
Qed.
#[local] Hint Resolve permits_glob_dirs : permit.

Lemma permits_close id m : permits (session_close id m).
Proof. unfold session_close, remove_session_scope. permit. Qed.

Lemma permits_by_pid fuel pid m : permits (session_by_pid fuel pid m).
Proof.
  revert pid. induction fuel as [|fuel IH]; intros pid; cbn [session_by_pid]; [permit|]. unfold get_ppid. permit.
  all: first [apply IH | permit].
Qed.

Lemma permits_logout sid config m : permits (user_logout uid sid config m).
Proof. unfold user_logout. permit. Qed.

Lemma permits_write_logout pid tty : permits (write_logout pid tty).
Proof. unfold write_logout, record_login, write_utmp_record, append_wtmp_record, ensure_file. permit. Qed.

Lemma permits_destroy path : permits (destroy_runtime_dir path).
Proof. unfold destroy_runtime_dir. permit. Qed.
#[local] Hint Resolve permits_session_lock permits_close permits_by_pid permits_logout permits_write_logout permits_destroy : permit.

Lemma permits_prepare oc config : permits (prepare_user oc uid config).
Proof.
  unfold prepare_user, create_user_slice, create_runtime_subdirs, create_runtime_dir, runtime_size,
    read_total_ram_bytes. permit_in.
Qed.
#[local] Hint Resolve permits_prepare : permit.

Lemma permits_set_linger oc enable m : permits (set_linger oc uid enable m).
Proof. unfold set_linger, set_linger_record, linger_absent, resolve_username, remove_user_slice. permit_in. Qed.

Lemma permits_wall msg : permits (send_wall msg).
Proof. unfold send_wall, chrono_now. permit. Qed.

Lemma permits_vt vt : permits (switch_to_vt vt).
Proof. unfold switch_to_vt. permit. Qed.

Lemma permits_wait fuel pm inh what : permits (wait_delay fuel pm inh what).
Proof. unfold wait_delay. permit. Qed.
#[local] Hint Resolve permits_set_linger permits_wall permits_vt permits_wait : permit.

Lemma permits_sleep fuel pm inh i :
  permits (suspend fuel pm inh i) ∧ permits (hibernate fuel pm inh i) ∧
  permits (hybrid_sleep fuel pm inh i) ∧ permits (suspend_then_hibernate fuel pm inh i).
Proof.
  unfold suspend, hibernate, hybrid_sleep, suspend_then_hibernate, guarded, write_power_state.
  split_and!; permit_in.
Qed.

Lemma permits_with_power act : (∀ pm inh, permits (act pm inh)) → permits (with_power act).
Proof. intros Ha. unfold with_power. permit_in. Qed.

(** Root's requests are refused; so the checks come first. *)
Lemma permits_dispatch oc fuel config req : uid ≠ 0 → permits (login_dispatch oc fuel config uid req).
Proof.
  intros Hu. assert (not_root uid = true) as Hr by (unfold not_root; by apply negb_true_iff, Z.eqb_neq).
  assert (Hor : ∀ u, not_root_or uid u = false → u = uid).
  { intros u. unfold not_root_or. apply Z.eqb_neq in Hu as ->. simpl.
    intros Hn%negb_false_iff%Z.eqb_eq. done. }
  destruct req; cbn [login_dispatch];
    unfold on_open_session, on_close_session, on_activate_session, on_lock_session, on_unlock_session,
      on_set_linger, on_terminate_user, on_activate_on_seat, on_switch_to, on_take_device, on_release_device,
      on_set_brightness, on_get_brightness, on_schedule_shutdown, on_login_status, root_power, query_power, refuse,
      LoginControl.returned, set_brightness, get_brightness, brightness_path, read_max_brightness;
    rewrite ?Hr; try exact I; try (apply permits_with_power; intros pm inh; apply permits_sleep).
  all: unfold fuel_bind, try_bind.
  all: repeat first
    [ progress permit
    | match goal with H : not_root_or uid ?u = false |- _ => pose proof (Hor u H); clear H; subst end
    | apply permits_updating_by; intros ? | apply permits_locked; intros ? ].
  - apply permits_lock_each.
  - unfold session_set_idle_hint. permit.
  - unfold release_device. permit.
  - unfold inhibitor_take. permit.
  - unfold cancel_scheduled_shutdown. permit.
Qed.
End permitted.

(** ** The tables *)

(** The requests that lock, unlock, activate sessions or set their hints: those that reach
    the sessions of other users. *)
Definition hints_sessions (req : Request) : bool :=
  match req with
  | LockSession _ | UnlockSession _ | LockSessions | UnlockSessions | SetIdleHint _ _ | SetLockedHint _ _
  | ActivateSession _ | ActivateSessionOnSeat _ _ => true
  | _ => false
  end.

(** The sessions of the other users are all there, as they were, or with [hints] up to
    their state and hints; there is no new session; and the records of the other users are
    as they were. *)
Definition others_untouched (hints : bool) (uid : Z) (d d' : Logind) : Prop :=
  (∀ id s, sessions (ld_sessions d) !! id = Some s → se_uid s ≠ uid →
     ∃ s', sessions (ld_sessions d') !! id = Some s' ∧ session_core s' = session_core s ∧ (hints = false → s' = s)) ∧
  (∀ id, sessions (ld_sessions d) !! id = None → sessions (ld_sessions d') !! id = None) ∧
  (∀ u, u ≠ uid → users (ld_users d') !! u = users (ld_users d) !! u).

Section untouched.
Context (oc : bool) (fuel : nat) (config : LogindConfig) (hints : bool) (uid : Z) (d0 : Logind).
Context (Huid : uid ≠ 0).

(** What every step keeps. *)
Definition kept (d : Logind) : Prop := sessions_ok (ld_sessions d) ∧ others_untouched hints uid d0 d.

Notation kept_after p d := (wp login_step p d (λ d' _, kept d')).

Lemma kept_frame d d' :
  ld_sessions d' = ld_sessions d → ld_users d' = ld_users d → kept d → kept d'.
Proof. unfold kept, others_untouched. by intros -> ->. Qed.

Lemma kept_sessions d m' :
  hints = true → touched (ld_sessions d) m' → kept d → kept (d <|ld_sessions := m'|>).
Proof.
  intros Hh Ht (Hs & Ho & Hn & Hu). destruct (Ht Hs) as [Hs' Hsame]. split; [exact Hs'|]. split; [|split; [|exact Hu]]; simpl.
  - intros id s Hl Hne. destruct (Ho id s Hl Hne) as (s1 & H1 & E1 & E2).
    destruct (same_sessions_core _ _ _ _ Hsame H1) as (s2 & H2 & F1).
    exists s2. split_and!; congruence.
  - intros id Hl. destruct (sessions m' !! id) as [s'|] eqn:Hs''; [|done].
    destruct (same_sessions_r _ _ _ _ Hsame Hs'') as (s & Hl' & _). by rewrite (Hn id Hl) in Hl'.
Qed.

Lemma kept_users d um :
  (∀ u, u ≠ uid → users um !! u = users (ld_users d) !! u) → kept d → kept (d <|ld_users := um|>).
Proof. intros Hum (Hs & Ho & Hn & Hu). split; [exact Hs|]. split; [exact Ho|]. split; [exact Hn|].
  intros u Hne. simpl. rewrite Hum by done. auto.
Qed.

(** A lock that guards neither sessions nor users. *)
Lemma kept_set l x d :
  match l with SessionsL | UsersL => False | _ => True end → kept d → kept (ld_set l x d).
Proof. intros Hl. destruct l; try done; by apply kept_frame. Qed.

Lemma kept_quiet {A} (p : prog LogOp A) d : quiet p → kept d → kept_after p d.
Proof. intros Hp Hd. by apply quiet_wp. Qed.

Lemma kept_broadcast {A} e (k : unit → prog LogOp A) d :
  kept d → (∀ d', kept d' → kept_after (k tt) d') → kept_after (prog_bind (broadcast_event e) k) d.
Proof.
  intros Hd Hk. eapply wp_bind_2 with (R := λ d' _, kept d'); [|intros d' []; apply Hk].
  apply wp_broadcast. intros b. by apply (kept_frame d).
Qed.

Lemma kept_hint {A} (f : SessionManager → SessionManager * A) (k : A → prog LogOp (option Response)) d :
  hints = true → kept d → (∀ m, touched m (f m).1) → (∀ a d', kept d' → kept_after (k a) d') →
  kept_after (prog_bind (updating SessionsL f) k) d.
Proof. intros Hh Hd Hf Hk. apply wp_bind, wp_updating, Hk. by apply kept_sessions. Qed.

Lemma kept_hint_by {A} (f : SessionManager → prog LogOp (SessionManager * A)) (k : A → prog LogOp (option Response)) d :
  hints = true → kept d → (∀ m d, wp login_step (f m) d (λ d' r, d' = d ∧ touched m r.1)) →
  (∀ a d', kept d' → kept_after (k a) d') →
  kept_after (fuel_bind (updating_by SessionsL f) k) d.
Proof.
  intros Hh Hd Hf Hk. unfold fuel_bind. apply wp_bind, wp_updating_by. eapply wp_mono; [|apply Hf].
  intros d' r [-> Ht]. split; [done|]. apply Hk. by apply kept_sessions.
Qed.

Lemma kept_close id d : login_inv d → kept d → kept_after (on_close_session config uid id) d.
Proof.
  intros (Hs & Hst & Hu & _) Hd. unfold on_close_session.
  apply wp_bind, wp_reading, wp_bind, wp_reading. look. unfold session_uid_of, session_seat_of.
  destruct (sessions (ld_sessions d) !! id) as [s|] eqn:Hl; look; [|done].
  unfold not_root_or. apply Z.eqb_neq in Huid as ->. cbn [negb andb].
  destruct (Z.eqb_spec uid (se_uid s)) as [Heq|Hne]; cbn [negb]; [|done]. apply wp_bind, wp_reading. look.
  unfold fuel_bind. eapply wp_bind_2 with (R := λ d' _, d' = d).
  { destruct (_ ≫= se_tty); [|done]. apply wp_bind, wp_reading. by apply quiet_wp; [quiet|]. }
  intros d' [[]|] ->; [|done].
  eapply wp_bind_2 with (R := λ d' _, ld_sessions d' = ld_sessions d ∧ ld_users d' = ld_users d).
  { destruct (se_seat s); [by apply wp_updating|done]. }
  intros [sm1 um1 st1 ih1 pw1 b1] _ [E1 E2]. simpl in E1, E2. subst sm1 um1. apply wp_bind, wp_updating_by. look.
  eapply wp_mono; [|by eapply session_close_spec]. intros d2 r [-> ->]. split; [done|]. look.
  apply wp_bind, wp_updating_by. look.
  eapply wp_bind_2; [apply user_logout_spec|]. intros d3 um' [-> ->]. split; [done|]. look.
  apply kept_broadcast; [|by intros d4 H4]. destruct Hd as (_ & Ho & Hn & Hk).
  destruct (closed_ok id s _ _ _ Hs Hst Hu Hl) as (Hs' & _).
  split; [exact Hs'|]. split_and!; simpl.
  - intros i a Hi Ha. destruct (Ho i a Hi Ha) as (a' & Hi' & E & F). exists a'. split; [|done].
    rewrite lookup_delete_ne; [done|]. apply core_fields in E as (_ & E & _). intros ->. congruence.
  - intros i Hi. apply lookup_delete_None. right. by apply Hn.
  - intros u Hu'. rewrite lookup_partial_alter_ne by congruence. by apply Hk.
Qed.

Lemma set_linger_others enable um d :
  wp login_step (set_linger oc uid enable um) d (λ d' r, d' = d ∧
    match r with Some (um', _) => ∀ u, u ≠ uid → users um' !! u = users um !! u | None => True end).
Proof.
  assert (Hins : ∀ r u, u ≠ uid → users {| users := <[uid := r]> (users um) |} !! u = users um !! u).
  { intros r u Hne. simpl. by rewrite lookup_insert_ne. }
  assert (Hrec : ∀ b, wp login_step (set_linger_record oc uid b um) d (λ d' r, d' = d ∧
    match r with Some (um', _) => ∀ u, u ≠ uid → users um' !! u = users um !! u | None => True end)).
  { intros b. unfold set_linger_record, linger_absent, fuel_bind. destruct (users um !! uid) as [u|].
    - destruct (_ && _); [|split; [done|apply Hins]].
      do 2 (apply wp_quiet_bind; [quiet|]; intros _). split; [done|]. intros v Hv. simpl. by rewrite lookup_delete_ne.
    - destruct b; [|done]. apply wp_quiet_bind; [quiet|]. intros [name|]; [|done].
      apply wp_quiet_bind; [apply quiet_prepare|]. intros [[[]|e]|]; [|done|done].
      apply wp_quiet_bind; [apply quiet_now|]. intros now. split; [done|]. apply Hins. }
  unfold set_linger. apply wp_quiet_bind; [quiet|]. intros [[]|e]; [|done]. destruct enable.
  - apply wp_quiet_bind; [quiet|]. intros [[]|e]; [|done]. apply Hrec.
  - apply wp_quiet_bind; [quiet|]. intros _. apply Hrec.
Qed.

Lemma kept_set_linger u enable d : kept d → kept_after (on_set_linger oc uid u enable) d.
Proof.
  intros Hd. unfold on_set_linger, not_root_or, fuel_bind. apply Z.eqb_neq in Huid as ->. cbn [negb andb].
  destruct (Z.eqb_spec uid u) as [<-|Hne]; cbn [negb]; [|done]. apply wp_bind, wp_locked.
  eapply wp_mono; [|apply set_linger_others]. intros d1 [[um r]|] [-> Hr]; (split; [done|]); [|done].
  by apply kept_users.
Qed.

Lemma kept_activate id d : hints = true → kept d → kept_after (on_activate_session id) d.
Proof.
  intros Hh Hd. unfold on_activate_session. apply kept_hint; [done|done|intros m Hm; by apply session_activate_ok|].
  intros [[]|e] d1 H1; [|done]. apply wp_bind, wp_reading. cbn [ld_get].
  eapply wp_bind_2 with (R := λ d' _, kept d').
  { destruct (session_seat_of id _); [|done]. apply wp_updating. by apply (kept_set SeatsL). }
  intros d2 _ H2. apply wp_bind, wp_reading. cbn [ld_get].
  destruct (session_vt_of id _) as [vt|]; [|done]. apply wp_bind, wp_op. intros st d3 [-> ->].
  apply wp_quiet_bind; [quiet|]. intros _. apply wp_op. intros [] d4 ->. rewrite ld_set_get.
  eapply wp_mono with (Q := λ d' _, kept d'); [by intros d5 [] H5|]. apply wp_broadcast. intros b. by apply (kept_frame d2).
Qed.

(** The other requests of a user. *)
Lemma kept_hints d req :
  hints = true → kept d →
  match req with
  | LockSession _ | UnlockSession _ | LockSessions | UnlockSessions | SetIdleHint _ _ | SetLockedHint _ _
  | ActivateSessionOnSeat _ _ => True
  | _ => False
  end → kept_after (login_dispatch oc fuel config uid req) d.
Proof.
  intros Hh Hd. destruct req; try done; intros _; cbn [login_dispatch].
  - apply kept_hint_by; [done|done|apply session_lock_touched|]. intros [[]|e] d1 H1; [|done].
    apply kept_broadcast; [done|]. by intros d2 H2.
  - apply kept_hint; [done|done|intros m; by apply touched_update|]. intros [[]|e] d1 H1; [|done].
    apply kept_broadcast; [done|]. by intros d2 H2.
  - apply kept_hint_by; [done|done| |done]. intros m d1. eapply wp_bind_2; [apply lock_all_touched|].
    by intros d2 m' [-> Ht].
  - apply kept_hint; [done|done|apply unlock_all_touched|done].
  - apply kept_hint_by; [done|done|apply set_idle_hint_touched|done].
  - apply kept_hint; [done|done|intros m; by apply touched_update|done].
  - unfold on_activate_on_seat. apply wp_bind, wp_updating.
    destruct (_.2) as [[]|e]; [|by apply (kept_set SeatsL)].
    apply kept_hint; [done|by apply (kept_set SeatsL)| |done]. intros m Hm. by apply session_activate_ok.
Qed.

(** A request whose locks guard neither sessions nor users. *)
Lemma kept_elsewhere {A} l (p : lock_data l → prog LogOp (option (lock_data l * A))) d :
  match l with SessionsL | UsersL => False | _ => True end →
  (∀ x, quiet (p x)) → kept d → kept_after (locked l p) d.
Proof.
  intros Hl Hp Hd. apply wp_locked. apply quiet_wp; [apply Hp|]. intros [[x a]|]; (split; [done|]); [|done].
  by apply kept_set.
Qed.

Lemma kept_by_pid pid d : kept d → kept_after (login_dispatch oc fuel config uid (GetSessionByPid pid)) d.
Proof.
  intros Hd. cbn [login_dispatch]. apply wp_locked. unfold fuel_bind. apply wp_quiet_bind; [apply quiet_by_pid|].
  intros [s|]; (split; [done|]); [|done]. by apply (kept_frame d).
Qed.

Lemma kept_dispatch req d :
  (hints_sessions req = true → hints = true) → login_inv d → kept d → kept_after (login_dispatch oc fuel config uid req) d.
Proof.
  intros Hh Hinv Hd. assert (not_root uid = true) as Hr by (unfold not_root; by apply negb_true_iff, Z.eqb_neq).
  pose proof (λ pm inh i, quiet_power fuel pm inh i) as Hq.
  assert (Hread : ∀ {A} l (f : lock_data l → A), kept_after (LoginControl.returned (reading l f)) d).
  { intros A l f. unfold LoginControl.returned. by apply wp_bind, wp_reading. }
  assert (Hpow : ∀ act, (∀ pm inh, quiet (act pm inh)) → kept_after (with_power act) d).
  { intros act Ha. unfold with_power, fuel_bind. apply wp_op. intros inh d1 [-> ->]. apply wp_op.
    intros pm d2 [-> ->]. apply wp_quiet_bind; [apply Ha|]. intros [r|]; [|done]. apply wp_op. intros [] d3 ->.
    apply wp_op. intros [] d4 ->. by apply (kept_frame d). }
  destruct req; try (by apply kept_hints; [apply Hh|..]); cbn [login_dispatch];
    unfold on_open_session, on_terminate_user, on_switch_to, on_take_device, on_schedule_shutdown, root_power,
      query_power, refuse; rewrite ?Hr; try done; try (by apply Hread); try (case_match; [done|by apply Hread]);
    try (apply Hpow; intros pm inh; apply (Hq pm)).
  - by apply kept_close.
  - by apply kept_activate; [apply Hh|].
  - by apply kept_by_pid.
  - by apply kept_set_linger.
  - unfold on_release_device, fuel_bind. apply wp_bind.
    eapply wp_mono; [|apply (kept_elsewhere SeatsL); [done| |done]]; [by intros d1 [r|] H1|].
    intros st. unfold release_device. quiet.
  - unfold fuel_bind. apply wp_bind. eapply wp_mono; [|apply (kept_elsewhere InhibitorsL); [done| |done]];
      [by intros d1 [r|] H1|]. intros m. unfold inhibitor_take. quiet.
  - apply wp_bind, wp_updating. by apply (kept_set InhibitorsL).
  - unfold on_set_brightness. apply wp_op. intros pm d1 [-> ->].
    apply wp_quiet_bind; [apply (quiet_brightness subsystem name value)|]. intros [[]|e].
    + apply kept_broadcast; [done|]. intros d2 H2 [] d3 ->. by apply (kept_set PowerL).
    + intros [] d2 ->. by rewrite ld_set_get.
  - unfold on_get_brightness. apply wp_op. intros pm d1 [-> ->].
    apply wp_quiet_bind; [apply (quiet_brightness subsystem name 0)|]. intros r [] d2 ->. by rewrite ld_set_get.
  - unfold fuel_bind. apply wp_bind, wp_updating_by. apply quiet_wp; [apply (quiet_schedule "" 0)|].
    intros [pm b]. split; [done|]. by apply (kept_set PowerL).
  - unfold on_login_status. do 4 (apply wp_op; intros ? d1 [-> ->]). apply wp_bind, wp_reading, wp_bind, wp_reading.
    apply wp_op. intros [] d1 ->. apply wp_op. intros [] d2 ->. apply wp_op. intros [] d3 ->.
    apply wp_op. intros [] d4 ->. by apply (kept_frame d).
Qed.
End untouched.

(** What is not protected: any user locks any session. *)
Lemma any_user_locks id s d oc fuel config uid :
  sessions (ld_sessions d) !! id = Some s →
  wp login_step (login_dispatch oc fuel config uid (LockSession id)) d (λ d' _,
    ∃ s', sessions (ld_sessions d') !! id = Some s' ∧ se_locked_hint s' = true).
Proof.
  intros Hs. cbn [login_dispatch]. unfold on_lock_session, fuel_bind. apply wp_bind, wp_updating_by.
  unfold session_lock. cbn [ld_get]. rewrite Hs. apply wp_quiet_bind; [quiet|]. intros _. split; [done|].
  unfold session_update. rewrite Hs. cbn [fst snd].
  eapply wp_bind_2 with (R := λ d' _, ∃ s', sessions (ld_sessions d') !! id = Some s' ∧ se_locked_hint s' = true);
    [|by intros d' [] H].
  apply wp_broadcast. intros b. eexists. split; [apply lookup_insert_eq|done].
Qed.


