(* ===== verification/LoginInhibit.v ===== *)
(** * The login daemon: power actions and inhibitors

    What a power action does to the system, and when, for the inhibitors that are held:
    the actions of [LoginPower] in a world with a clock that records every reboot and every
    file that is written. *)

From Stdlib Require Import ZArith Ascii.
From stdpp Require Import base tactics numbers list strings gmap.
From S2P Require Import Prelude RustStr Types Effects Os Login LoginPower LoginInv.

Local Open Scope string_scope.
Local Open Scope list_scope.
Local Open Scope Z_scope.
Local Open Scope prog_scope.

(** ** What a power action asks for *)

Inductive PowerCommand :=
| Cmd_power_off | Cmd_reboot | Cmd_reboot_to_firmware | Cmd_halt
| Cmd_suspend | Cmd_hibernate | Cmd_hybrid_sleep | Cmd_suspend_then_hibernate.

Definition run_command (fuel : nat) (pm : PowerManager) (inh : InhibitorManager) (interactive : bool) (c : PowerCommand)
    : prog LogOp (option (result string unit)) :=
  match c with
  | Cmd_power_off => power_off fuel pm inh interactive
  | Cmd_reboot => reboot fuel pm inh interactive
  | Cmd_reboot_to_firmware => reboot_to_firmware inh interactive
  | Cmd_halt => halt fuel pm inh interactive
  | Cmd_suspend => suspend fuel pm inh interactive
  | Cmd_hibernate => hibernate fuel pm inh interactive
  | Cmd_hybrid_sleep => hybrid_sleep fuel pm inh interactive
  | Cmd_suspend_then_hibernate => suspend_then_hibernate fuel pm inh interactive
  end.

(** The kind of inhibitor that holds a command up. *)
Definition command_what (c : PowerCommand) : InhibitWhat :=
  match c with
  | Cmd_power_off | Cmd_reboot | Cmd_reboot_to_firmware | Cmd_halt => Inhibit_Shutdown
  | _ => Inhibit_Sleep
  end.

(** What the hardware can do, as the manager found it at the start. *)
Definition supported (pm : PowerManager) (c : PowerCommand) : bool :=
  match c with
  | Cmd_suspend => can_suspend pm
  | Cmd_hibernate => can_hibernate pm
  | Cmd_hybrid_sleep => can_hybrid_sleep pm
  | Cmd_suspend_then_hibernate => can_suspend_then_hibernate pm
  | _ => true
  end.

(** Commands that the configuration frees from the blocking inhibitors. *)
Definition ignores_block (pm : PowerManager) (c : PowerCommand) : bool :=
  match c with
  | Cmd_suspend => lc_suspend_key_ignore_inhibited (pw_config pm)
  | Cmd_hibernate => lc_hibernate_key_ignore_inhibited (pw_config pm)
  | _ => false
  end.

(** The changes of the system, with the time of each. *)
Inductive Effect :=
| Did_reboot (cmd : string)
| Did_write (path text : string)
| Did_write_bytes (path : string) (bytes : list Z).

Definition command_effects (c : PowerCommand) : list Effect :=
  match c with
  | Cmd_power_off => [Did_reboot "POWER_OFF"]
  | Cmd_reboot => [Did_reboot "RESTART"]
  | Cmd_reboot_to_firmware =>
      [Did_write_bytes OS_INDICATIONS [7; 0; 0; 0; 1; 0; 0; 0; 0; 0; 0; 0]; Did_reboot "RESTART"]
  | Cmd_halt => [Did_reboot "HALT"]
  | Cmd_suspend => [Did_write POWER_STATE "mem"]
  | Cmd_hibernate => [Did_write POWER_STATE "disk"]
  | Cmd_hybrid_sleep => [Did_write "/sys/power/disk" "suspend"; Did_write POWER_STATE "disk"]
  | Cmd_suspend_then_hibernate => [Did_write "/sys/power/disk" "suspend"; Did_write POWER_STATE "mem"]
  end.

(** ** A world with a clock that keeps a log *)

Record World := { w_time : Z; w_log : list (Z * Effect) }.

Definition logged : ∀ X, LogOp X → option Effect :=
  λ X e, match e with
  | Sys (WriteFile path text) => Some (Did_write path text)
  | WriteBytes path bytes => Some (Did_write_bytes path bytes)
  | Reboot cmd => Some (Did_reboot cmd)
  | _ => None
  end.

Definition log_clock : ∀ X, LogOp X → Z → X → Z → Prop :=
  λ X e, match e in LogOp X return Z → X → Z → Prop with
  | Sys o => clock_step _ o
  | _ => λ t _ t', t ≤ t'
  end.

Definition power_step : ∀ X, LogOp X → World → X → World → Prop :=
  λ X e w x w', log_clock X e (w_time w) x (w_time w') ∧
    w_log w' = w_log w ++ match logged X e with Some f => [(w_time w', f)] | None => [] end.

(** Time passes, and nothing is done. *)
Definition idle_after (w w' : World) : Prop := w_time w ≤ w_time w' ∧ w_log w' = w_log w.

Lemma power_step_time X (e : LogOp X) w x w' : power_step X e w x w' → w_time w ≤ w_time w'.
Proof. intros [Hc _]. destruct e; simpl in Hc; try lia. by eapply clock_step_mono. Qed.

(** Code without a logged operation only takes time. *)
Definition harmless : ∀ X, LogOp X → Prop := λ X e, logged X e = None.

Lemma harmless_wp {A} (p : prog LogOp A) w (Q : World → A → Prop) :
  performs harmless p → (∀ w' a, idle_after w w' → Q w' a) → wp power_step p w Q.
Proof.
  intros Hp HQ. assert (H0 : idle_after w w) by done. revert H0. generalize w at 2 3 as w1.
  induction p as [a|X e k IH]; intros w1 H1; simpl in *; [by apply HQ|]. destruct Hp as [He Hk].
  intros x w2 Hs. apply IH; [apply Hk|]. destruct H1 as [Ht Hl]. split.
  - etrans; [exact Ht|]. by eapply power_step_time.
  - destruct Hs as [_ ->]. by rewrite He, Hl, app_nil_r.
Qed.

Lemma harmless_wall msg : performs harmless (send_wall msg).
Proof.
  unfold send_wall. apply performs_bind.
  - unfold chrono_now, now_unix, sys. repeat (simpl; split; [reflexivity|]; intros ?). done.
  - intros now. apply performs_for_each. intros n. by split.
Qed.

(** ** Delay inhibitors

    The caller has the inhibitors locked, so none is released while it waits: it waits for
    the whole of [inhibit_delay_max_sec]. *)
Definition delay_of (pm : PowerManager) (inh : InhibitorManager) (what : InhibitWhat) : Z :=
  if has_delay inh what then from_secs (lc_inhibit_delay_max_sec (pw_config pm)) else 0.

(** Two hundred milliseconds a turn. *)
Definition delay_fuel (pm : PowerManager) : nat := Z.to_nat (5 * lc_inhibit_delay_max_sec (pw_config pm)) + 1.

Lemma wp_wait_delay fuel pm inh what w :
  (delay_fuel pm ≤ fuel)%nat →
  wp power_step (wait_delay fuel pm inh what) w
    (λ w' r, r = Some tt ∧ idle_after w w' ∧ w_time w + delay_of pm inh what ≤ w_time w').
Proof.
  intros Hf. unfold wait_delay, delay_of. destruct (has_delay inh what) eqn:Hd; simpl negb; cbv iota;
    [|split_and!; [done|done|lia]].
  apply wp_op. intros start w1 [[Ht1 ->] Hl1]. simpl in Hl1. rewrite app_nil_r in Hl1.
  set (m := from_secs (lc_inhibit_delay_max_sec (pw_config pm))).
  eapply wp_mono; [|eapply (wp_loop _ _ (λ _ w2 n, w_time w1 ≤ w_time w2 ∧ w_log w2 = w_log w ∧
    w_time w1 + m - w_time w2 ≤ Z.of_nat n * from_millis 200) (λ w2 _, w_log w2 = w_log w ∧ w_time w1 ≤ w_time w2 ∧ w_time w1 + m ≤ w_time w2) fuel tt w1
    (Z.to_nat (5 * lc_inhibit_delay_max_sec (pw_config pm))))].
  - intros w2 r ([] & -> & Hl2 & Ht2 & Hm). split_and!; [done|split; [lia|done]|lia].
  - intros [] w2 n (Ht2 & Hl2 & Hn). apply wp_op. intros now w3 [[Ht3 ->] Hl3]. simpl in Hl3. rewrite app_nil_r, Hl2 in Hl3.
    destruct (Z.ltb_spec (w_time w3 - w_time w1) m) as [Hlt|Hge]; [|simpl; split_and!; [done|lia..]].
    apply wp_op. intros [] w4 [[Ht4 _] Hl4]. simpl in Hl4. rewrite app_nil_r, Hl3 in Hl4.
    assert (n ≠ 0%nat) by (intros ->; unfold from_millis in Hn; lia). exists (n - 1)%nat. unfold from_millis in *.
    split_and!; [lia|lia|done|lia].
  - split_and!; [lia|done|]. unfold m, from_secs, from_millis. lia.
  - unfold delay_fuel in Hf. lia.
Qed.

(** ** The actions *)

(** How long a command waits; the firmware setup does not. *)
Definition command_wait (pm : PowerManager) (inh : InhibitorManager) (c : PowerCommand) : Z :=
  match c with Cmd_reboot_to_firmware => 0 | _ => delay_of pm inh (command_what c) end.

(** Everything of [c]; only the first part when the firmware variable cannot be written. *)
Definition effects_done (c : PowerCommand) (r : result string unit) : list Effect :=
  match c with
  | Cmd_reboot_to_firmware => if is_ok r then command_effects c else take 1 (command_effects c)
  | _ => command_effects c
  end.

Definition refused (pm : PowerManager) (inh : InhibitorManager) (interactive : bool) (c : PowerCommand) : bool :=
  negb (supported pm c) || negb (ignores_block pm c) && is_blocked inh (command_what c) && negb interactive.

(** What [c] does from world [w] on. *)
Definition command_result (pm : PowerManager) (inh : InhibitorManager) (interactive : bool) (c : PowerCommand)
    (w w' : World) (r : option (result string unit)) : Prop :=
  if refused pm inh interactive c then (∃ e, r = Some (Err e)) ∧ w' = w
  else ∃ a log, r = Some a ∧ w_log w' = w_log w ++ log ∧ log.*2 = effects_done c a ∧
       Forall (λ e, w_time w + command_wait pm inh c ≤ e.1) log.

(** The effects that [k] does after time [t0]. *)
Definition does (k : prog LogOp (option (result string unit))) (c : PowerCommand) : Prop :=
  ∀ w t0, t0 ≤ w_time w → wp power_step k w (λ w' r, ∃ a log, r = Some a ∧ w_log w' = w_log w ++ log ∧
    log.*2 = effects_done c a ∧ Forall (λ e, t0 ≤ e.1) log).

Lemma guarded_result pm inh i c fuel k w :
  supported pm c = true → ignores_block pm c = false → (delay_fuel pm ≤ fuel)%nat → does k c →
  command_wait pm inh c = delay_of pm inh (command_what c) →
  wp power_step (guarded inh i (command_what c) (fuel* _ := wait_delay fuel pm inh (command_what c) in k)) w
    (command_result pm inh i c w).
Proof.
  intros Hs Hi Hf Hk Hw. unfold guarded, check_block, command_result, refused. rewrite Hs, Hi, Hw.
  destruct (is_blocked inh (command_what c)), i; simpl; try (by split; [eexists|]);
    (apply wp_bind; eapply wp_mono; [|by apply wp_wait_delay]; intros w1 r (-> & [_ Hl] & Ht); simpl;
     eapply wp_mono; [|by apply (Hk w1 _ Ht)]; intros w' r (a & log & -> & Hlog & ?); exists a, log;
     split_and!; [done|by rewrite Hlog, Hl|naive_solver..]).
Qed.

Lemma wait_result pm inh i c fuel k w :
  supported pm c = true → ignores_block pm c = true → (delay_fuel pm ≤ fuel)%nat → does k c →
  command_wait pm inh c = delay_of pm inh (command_what c) →
  wp power_step (fuel* _ := wait_delay fuel pm inh (command_what c) in k) w (command_result pm inh i c w).
Proof.
  intros Hs Hi Hf Hk Hw. unfold command_result, refused. rewrite Hs, Hi, Hw. simpl.
  apply wp_bind. eapply wp_mono; [|by apply wp_wait_delay]. intros w1 r (-> & [_ Hl] & Ht). simpl.
  eapply wp_mono; [|by apply (Hk w1 _ Ht)]. intros w' r (a & log & -> & Hlog & ?). exists a, log.
  split_and!; [done|by rewrite Hlog, Hl|naive_solver..].
Qed.

(** One logged operation, and one after another. *)
Lemma wp_logged {X A} (e : LogOp X) f (k : X → prog LogOp A) w Q :
  logged X e = Some f →
  (∀ x w', w_time w ≤ w_time w' → w_log w' = w_log w ++ [(w_time w', f)] → wp power_step (k x) w' Q) →
  wp power_step (prog_bind (trigger e) k) w Q.
Proof.
  intros Hf HQ. apply wp_op. intros x w' Hs. apply HQ; [by eapply power_step_time|].
  destruct Hs as [_ ->]. by rewrite Hf.
Qed.

Lemma wp_reboot msg cmd w :
  wp power_step (send_wall msg;* reboot_now cmd) w (λ w' r, r = Some (Ok tt) ∧
    ∃ t, w_log w' = w_log w ++ [(t, Did_reboot cmd)] ∧ w_time w ≤ t).
Proof.
  apply wp_bind, harmless_wp; [apply harmless_wall|]. intros w1 _ [Ht1 Hl1].
  apply wp_op. intros [] w2 [Ht2 Hl2]. simpl in Ht2, Hl2. rewrite app_nil_r in Hl2.
  apply (wp_logged (Reboot cmd) (Did_reboot cmd)); [done|]. intros _ w3 Ht3 Hl3. split; [done|].
  eexists. split; [by rewrite Hl3, Hl2, Hl1|lia].
Qed.

Lemma does_reboot msg cmd c :
  (∀ a, effects_done c a = [Did_reboot cmd]) → does (send_wall msg;* reboot_now cmd) c.
Proof.
  intros Hc w t0 Ht. eapply wp_mono; [|apply wp_reboot]. intros w' r (-> & t & Hl & Htt).
  eexists _, [_]. split_and!; [done|exact Hl|by rewrite Hc|]. apply Forall_singleton. simpl. lia.
Qed.

Lemma does_state state c :
  (∀ a, effects_done c a = [Did_write POWER_STATE state]) → does (write_power_state state) c.
Proof.
  intros Hc w t0 Ht. apply (wp_logged _ (Did_write POWER_STATE state)); [done|]. intros r w1 Ht1 Hl1. simpl.
  eexists _, [_]. split_and!; [done|done|by rewrite Hc|]. repeat constructor. simpl. lia.
Qed.

Lemma does_disk state c :
  (∀ a, effects_done c a = [Did_write "/sys/power/disk" "suspend"; Did_write POWER_STATE state]) →
  does (sys (WriteFile "/sys/power/disk" "suspend");* write_power_state state) c.
Proof.
  intros Hc w t0 Ht. apply (wp_logged _ (Did_write "/sys/power/disk" "suspend")); [done|]. intros _ w1 Ht1 Hl1.
  apply (wp_logged _ (Did_write POWER_STATE state)); [done|]. intros r w2 Ht2 Hl2. simpl.
  eexists _, [_; _]. split_and!; [done|by rewrite Hl2, Hl1, <- app_assoc|by rewrite Hc|].
  repeat constructor; simpl; lia.
Qed.

Lemma not_supported pm inh i c e w :
  supported pm c = false → wp power_step (Ret (Some (Err e))) w (command_result pm inh i c w).
Proof. intros Hs. simpl. unfold command_result, refused. rewrite Hs. by split; [eexists|]. Qed.

Lemma does_firmware :
  does (let* r := set_efi_boot_to_firmware in
        match r with
        | Err e => Ret (Some (Err e))
        | Ok _ => send_wall "Rebooting to firmware setup...";* reboot_now "RESTART"
        end) Cmd_reboot_to_firmware.
Proof.
  intros w t0 Ht. apply wp_bind. eapply (wp_logged (WriteBytes _ _)); [done|]. intros r w1 Ht1 Hl1.
  destruct r as [[]|e]; cbn [map_err wp].
  - eapply wp_mono; [|apply wp_reboot]. intros w2 r (-> & t & Hl2 & Ht2). eexists _, [_; _].
    split_and!; [done|by rewrite Hl2, Hl1, <- app_assoc|done|]. apply Forall_cons. split; [simpl; lia|].
    apply Forall_singleton. simpl. lia.
  - eexists _, [_]. split_and!; [done..|]. apply Forall_singleton. simpl. lia.
Qed.

Lemma firmware_result pm inh i w :
  wp power_step (reboot_to_firmware inh i) w (command_result pm inh i Cmd_reboot_to_firmware w).
Proof.
  unfold reboot_to_firmware, guarded, check_block, command_result, refused. cbn [supported ignores_block command_what].
  pose proof (does_firmware w (w_time w + 0)) as Hd. rewrite Z.add_0_r in Hd at 1. specialize (Hd (Z.le_refl _)).
  destruct (is_blocked inh Inhibit_Shutdown), i; first [exact Hd|by split; [eexists|]].
Qed.

(** C13: a power action that the hardware cannot do, or that a blocking inhibitor of its kind
    holds up (and the client did not ask to override it, nor does the configuration), is
    answered with an error at once and does nothing.  Every other action is carried out, each
    of its effects exactly once and in order, and, if there is a delay inhibitor of its kind,
    not before the whole of [inhibit_delay_max_sec] has passed; only the reboot to the firmware
    setup does not wait.  Enough fuel is five turns for each second of the delay. *)
Theorem power_command_respects_inhibitors fuel pm inh interactive c w :
  (delay_fuel pm ≤ fuel)%nat →
  wp power_step (run_command fuel pm inh interactive c) w (command_result pm inh interactive c w).
Proof.
  intros Hf. destruct c; simpl run_command.
  - unfold power_off. apply (guarded_result _ _ _ Cmd_power_off); by first [apply does_reboot|done].
  - unfold reboot. apply (guarded_result _ _ _ Cmd_reboot); by first [apply does_reboot|done].
  - apply firmware_result.
  - unfold halt. apply (guarded_result _ _ _ Cmd_halt); by first [apply does_reboot|done].
  - unfold suspend. destruct (can_suspend pm) eqn:Hs; [|by apply not_supported]. cbv zeta.
    destruct (lc_suspend_key_ignore_inhibited (pw_config pm)) eqn:Hi;
      [apply (wait_result _ _ _ Cmd_suspend); by first [apply does_state|done]|apply (guarded_result _ _ _ Cmd_suspend); by first [apply does_state|done]].
  - unfold hibernate. destruct (can_hibernate pm) eqn:Hs; [|by apply not_supported]. cbv zeta.
    destruct (lc_hibernate_key_ignore_inhibited (pw_config pm)) eqn:Hi;
      [apply (wait_result _ _ _ Cmd_hibernate); by first [apply does_state|done]|apply (guarded_result _ _ _ Cmd_hibernate); by first [apply does_state|done]].
  - unfold hybrid_sleep. destruct (can_hybrid_sleep pm) eqn:Hs; [|by apply not_supported].
    apply (guarded_result _ _ _ Cmd_hybrid_sleep); by first [apply does_disk|done].
  - unfold suspend_then_hibernate. destruct (can_suspend_then_hibernate pm) eqn:Hs; [|by apply not_supported].
    apply (guarded_result _ _ _ Cmd_suspend_then_hibernate); by first [apply does_disk|done].
Qed.

Lemma power_command_respects_inhibitors_witness :
  wp power_step (run_command 30 example_power InhibitorManager_new false Cmd_suspend) {| w_time := 0; w_log := [] |}
    (command_result example_power InhibitorManager_new false Cmd_suspend {| w_time := 0; w_log := [] |}).
Proof. apply (power_command_respects_inhibitors 30). vm_compute. repeat constructor. Defined.
