(* ===== verification/LoginLocks.v ===== *)
(** * The login daemon: threads and locks

    The daemon answers every connection in a thread, and has threads of its own for ACPI
    events, the idle timer and the inhibitors of dead processes
    ([quantra-logind/src/control.rs], [power.rs]).  This file runs any number of them on
    the shared state and shows where the order of the locks matters. *)

From Stdlib Require Import ZArith Ascii.
From stdpp Require Import base tactics numbers list strings gmap relations.
From S2P Require Import Prelude RustStr Types Effects Os Login LoginPower Utmp LoginControl LoginInv.

Local Open Scope string_scope.
Local Open Scope list_scope.
Local Open Scope Z_scope.
Local Open Scope prog_scope.

(** ** Threads *)

(** A thread ends with an answer or without one. *)
Notation Connection := (prog LogOp (option Response)).

Definition background {A} (p : prog LogOp A) : Connection := let* _ := p in Ret None.

Record Pool := {
  threads : list Connection;
  held : LockName → option nat;
  shared : Logind;
}.

Definition set_held (l : LockName) (o : option nat) (h : LockName → option nat) : LockName → option nat :=
  λ l', if decide (l' = l) then o else h l'.

(** One step of one thread.  A lock is taken when it is free; everything else gets any
    answer. *)
Inductive pool_step (s : Pool) : Pool → Prop :=
| Step_lock i l k :
    threads s !! i = Some (Vis (Lock l) k) → held s l = None →
    pool_step s {| threads := <[i := k (ld_get l (shared s))]> (threads s);
                   held := set_held l (Some i) (held s); shared := shared s |}
| Step_unlock i l x k :
    threads s !! i = Some (Vis (Unlock l x) k) → held s l = Some i →
    pool_step s {| threads := <[i := k tt]> (threads s);
                   held := set_held l None (held s); shared := ld_set l x (shared s) |}
| Step_op i X (e : LogOp X) k x :
    threads s !! i = Some (Vis e k) →
    match e with Lock _ | Unlock _ _ => False | _ => True end →
    pool_step s {| threads := <[i := k x]> (threads s); held := held s; shared := shared s |}.

(** ** Who waits for whom *)

(** Connection [i] has [l] and waits for [l']. *)
Definition holds_and_waits (s : Pool) (i : nat) (l l' : LockName) : Prop :=
  held s l = Some i ∧ ∃ k, threads s !! i = Some (Vis (Lock l') k).

Definition is_lock {X} (e : LogOp X) : option LockName := match e with Lock l => Some l | _ => None end.
Definition is_unlock {X} (e : LogOp X) : option LockName := match e with Unlock l _ => Some l | _ => None end.

Definition head_lock (p : Connection) : option LockName := match p with Vis e _ => is_lock e | Ret _ => None end.

(** A thread that waits for a lock that another holds has no step. *)
Lemma waits_no_step s s' i l :
  pool_step s s' → head_lock <$> threads s !! i = Some (Some l) → held s l ≠ None →
  threads s' !! i = threads s !! i.
Proof.
  intros Hs Hi Hl. destruct Hs as [j l' k Hj Hf|j l' x k Hj Hf|j X e k x Hj He]; simpl;
    (destruct (decide (j = i)) as [->|Hne]; [|by rewrite list_lookup_insert_ne]); rewrite Hj in Hi; simpl in Hi.
  - injection Hi as ->. congruence.
  - done.
  - by destruct e.
Qed.

(** A lock stays with its holder unless the holder steps. *)
Lemma held_step s s' i l :
  pool_step s s' → held s l = Some i → threads s' !! i = threads s !! i → head_lock <$> threads s !! i ≠ None →
  (∀ p, threads s !! i = Some p → match (p : Connection) with Vis e _ => is_unlock e = None | Ret _ => True end) →
  held s' l = Some i.
Proof.
  intros Hs Hh Hsame _ Hnu. destruct Hs as [j l' k Hj Hf|j l' x k Hj Hf|j X e k x Hj He]; simpl; [| |done].
  - unfold set_held. case_decide; [congruence|done].
  - unfold set_held. case_decide as Hl; [subst l'|done]. rewrite Hh in Hf. injection Hf as <-.
    specialize (Hnu _ Hj). done.
Qed.

(** Two threads that wait for each other's lock wait for ever. *)
Lemma deadlock_forever s s' i j l l' :
  holds_and_waits s i l l' → holds_and_waits s j l' l → rtc pool_step s s' →
  threads s' !! i = threads s !! i ∧ threads s' !! j = threads s !! j ∧
  holds_and_waits s' i l l' ∧ holds_and_waits s' j l' l.
Proof.
  intros Hi Hj Hr. revert Hi Hj. induction Hr as [s|s s1 s2 Hs Hr IH]; intros Hi Hj; [done|].
  assert (H1 : threads s1 !! i = threads s !! i).
  { destruct Hi as (_ & k & Hk), Hj as (Hh & _). eapply waits_no_step; [done|by rewrite Hk|by rewrite Hh]. }
  assert (H2 : threads s1 !! j = threads s !! j).
  { destruct Hj as (_ & k & Hk), Hi as (Hh & _). eapply waits_no_step; [done|by rewrite Hk|by rewrite Hh]. }
  assert (Hi1 : holds_and_waits s1 i l l').
  { destruct Hi as (Hh & k & Hk). split; [|exists k; by rewrite H1]. eapply held_step; [done..| |];
      rewrite Hk; [done|]. by intros p [= <-]. }
  assert (Hj1 : holds_and_waits s1 j l' l).
  { destruct Hj as (Hh & k & Hk). split; [|exists k; by rewrite H2]. eapply held_step; [done..| |];
      rewrite Hk; [done|]. by intros p [= <-]. }
  destruct (IH Hi1 Hj1) as (E1 & E2 & ? & ?). split_and!; [congruence..|done|done].
Qed.

(** ** An order of the locks *)

Definition rank (l : LockName) : nat :=
  match l with SessionsL => 0 | UsersL => 1 | SeatsL => 2 | InhibitorsL => 3 | PowerL => 4 | EventBusL => 5 end.

Definition drop_lock (l : LockName) (h : list LockName) : list LockName :=
  List.filter (λ l', negb (rank l' =? rank l)%nat) h.

(** A lock is taken after all that are held, and given back by its holder. *)
Definition lock_pre {X} (e : LogOp X) (h : list LockName) : Prop :=
  match e with
  | Lock l => Forall (λ l', (rank l' < rank l)%nat) h
  | Unlock l _ => l ∈ h
  | _ => True
  end.

Definition lock_post {X} (e : LogOp X) (h : list LockName) : list LockName :=
  match e with Lock l => l :: h | Unlock l _ => drop_lock l h | _ => h end.

Fixpoint ordered {A} (h : list LockName) (p : prog LogOp A) (Q : list LockName → A → Prop) : Prop :=
  match p with
  | Ret a => Q h a
  | Vis e k => lock_pre e h ∧ ∀ x, ordered (lock_post e h) (k x) Q
  end.

Lemma rank_inj l l' : rank l = rank l' → l = l'.
Proof. by destruct l, l'. Qed.

Lemma elem_of_drop l l' h : l' ∈ drop_lock l h ↔ l' ∈ h ∧ l' ≠ l.
Proof.
  unfold drop_lock. rewrite !list_elem_of_In, filter_In, Bool.negb_true_iff, Nat.eqb_neq.
  split; intros [? Hn]; (split; [done|]); intros E; apply Hn; [by subst|by apply rank_inj].
Qed.

Lemma drop_own l h : Forall (λ l', (rank l' < rank l)%nat) h → drop_lock l (l :: h) = h.
Proof.
  intros Hh. unfold drop_lock. simpl. rewrite Nat.eqb_refl. simpl.
  induction Hh as [|l' h Hl' _ IH]; simpl; [done|]. destruct (Nat.eqb_spec (rank l') (rank l)); [lia|]. simpl. by rewrite IH.
Qed.

Lemma ordered_mono {A} h (p : prog LogOp A) (Q Q' : list LockName → A → Prop) :
  (∀ h a, Q h a → Q' h a) → ordered h p Q → ordered h p Q'.
Proof. intros HQ. revert h. induction p as [|X e k IH]; intros h; simpl; [apply HQ|]. intros [? Hk]. eauto. Qed.

Lemma ordered_bind {A B} h (p : prog LogOp A) (k : A → prog LogOp B) Q :
  ordered h p (λ h a, ordered h (k a) Q) → ordered h (prog_bind p k) Q.
Proof. revert h. induction p as [|X e k' IH]; intros h; simpl; [done|]. intros [? Hk]. eauto. Qed.

Lemma ordered_fuel {A B} h (p : prog LogOp (option A)) (k : A → prog LogOp (option B)) Q :
  ordered h p (λ h r, match r with Some a => ordered h (k a) Q | None => Q h None end) →
  ordered h (fuel_bind p k) Q.
Proof. intros Hp. apply ordered_bind. eapply ordered_mono; [|exact Hp]. by intros h' [a|]. Qed.

Lemma ordered_quiet {A} h (p : prog LogOp A) (Q : list LockName → A → Prop) :
  quiet p → (∀ a, Q h a) → ordered h p Q.
Proof.
  intros Hp HQ. induction p as [a|X e k IH]; simpl in *; [apply HQ|]. destruct Hp as [He Hk].
  destruct e; try done; (split; [exact I|]); intros x; apply IH, Hk.
Qed.

Section under.
Context (h : list LockName) (l : LockName) (Hl : Forall (λ l', (rank l' < rank l)%nat) h).

Lemma ordered_locked {A} (body : lock_data l → prog LogOp (option (lock_data l * A))) Q :
  (∀ d, quiet (body d)) → (∀ a, Q h (Some a)) → Q (l :: h) None → ordered h (locked l body) Q.
Proof using Hl.
  intros Hb HQ HN. split; [exact Hl|]. intros d. apply ordered_fuel, ordered_quiet; [apply Hb|].
  intros [[x a]|]; [|done]. split; [by left|]. intros []. cbn -[drop_lock]. rewrite drop_own by done. apply HQ.
Qed.

Lemma ordered_reading {A} (f : lock_data l → A) Q : (∀ a, Q h a) → ordered h (reading l f) Q.
Proof using Hl.
  intros HQ. split; [exact Hl|]. intros d. split; [by left|]. intros []. cbn -[drop_lock]. rewrite drop_own by done. apply HQ.
Qed.

Lemma ordered_updating {A} (f : lock_data l → lock_data l * A) Q : (∀ a, Q h a) → ordered h (updating l f) Q.
Proof using Hl.
  intros HQ. split; [exact Hl|]. intros d. split; [by left|]. intros []. cbn -[drop_lock]. rewrite drop_own by done. apply HQ.
Qed.

Lemma ordered_updating_by {A} (f : lock_data l → prog LogOp (lock_data l * A)) Q :
  (∀ d, quiet (f d)) → (∀ a, Q h (Some a)) → Q (l :: h) None → ordered h (updating_by l f) Q.
Proof using Hl. intros Hf. apply ordered_locked. intros d. apply quiet_bind; [apply Hf|]. intros r. apply quiet_ret. Qed.
End under.

(** ** Every request keeps the order *)

Lemma quiet_open oc a m : quiet (session_open oc a m).
Proof. unfold session_open. quiet_in. Qed.

Lemma quiet_close id m : quiet (session_close id m).
Proof. unfold session_close. quiet. Qed.

Lemma quiet_lock id m : quiet (session_lock id m).
Proof. unfold session_lock. quiet. Qed.
#[export] Hint Resolve quiet_lock : quiet.

Lemma quiet_lock_all m : quiet (session_lock_all m).
Proof. unfold session_lock_all. generalize (session_ids m). intros ids. revert m. induction ids; intros m; simpl; quiet. Qed.

Lemma quiet_idle_hint id idle m : quiet (session_set_idle_hint id idle m).
Proof. unfold session_set_idle_hint. quiet. Qed.

Lemma quiet_login oc uid name sid config m : quiet (user_login oc uid name sid config m).
Proof. unfold user_login. quiet_in. Qed.

Lemma quiet_logout uid sid config m : quiet (user_logout uid sid config m).
Proof. unfold user_logout. quiet_in. Qed.

Lemma quiet_linger oc uid enable m : quiet (set_linger oc uid enable m).
Proof. unfold set_linger, set_linger_record, linger_absent. quiet_in. Qed.

Lemma quiet_terminate uid m : quiet (user_terminate uid m).
Proof. unfold user_terminate. quiet_in. Qed.

Lemma quiet_take_device seat path m : quiet (take_device seat path m).
Proof. unfold take_device. quiet_in. Qed.

Lemma quiet_release_device seat path m : quiet (release_device seat path m).
Proof. unfold release_device. quiet_in. Qed.

Lemma quiet_take oc what who why mode uid pid m : quiet (inhibitor_take oc what who why mode uid pid m).
Proof. unfold inhibitor_take. quiet_in. Qed.
#[export] Hint Extern 1 (quiet (set_brightness _ _ _)) => apply (proj1 (quiet_brightness _ _ _)) : quiet.
#[export] Hint Extern 1 (quiet (get_brightness _ _)) => apply (proj2 (quiet_brightness _ _ 0)) : quiet.
#[export] Hint Extern 1 (quiet (schedule_shutdown _ _ _)) => apply (proj1 (quiet_schedule _ _ _)) : quiet.
#[export] Hint Extern 1 (quiet (cancel_scheduled_shutdown _)) => apply (proj2 (quiet_schedule "" 0 _)) : quiet.
#[export] Hint Resolve quiet_open quiet_close quiet_lock_all quiet_idle_hint quiet_login quiet_logout quiet_linger
  quiet_terminate quiet_take_device quiet_release_device quiet_take quiet_by_pid : quiet.

(** An answer comes with every lock given back. *)
Definition done_ok (h : list LockName) (r : option Response) : Prop :=
  match r with Some _ => h = [] | None => True end.

Lemma ordered_broadcast h e Q :
  Forall (λ l, (rank l < 5)%nat) h → Q h tt → ordered h (broadcast_event e) Q.
Proof.
  intros Hh HQ. unfold broadcast_event. split; [exact Hh|]. intros sinks.
  apply (ordered_bind _ (send_each e sinks)), ordered_quiet; [apply quiet_send_each|]. intros r. split; [by left|]. intros [].
  cbn -[drop_lock]. by rewrite drop_own.
Qed.

Ltac below := solve [repeat first [apply Forall_nil; exact I | apply Forall_cons; split; [cbn; lia|]]].

Ltac ord1 :=
  first
  [ simple apply ordered_reading; [below|intros ?]
  | simple apply ordered_updating; [below|intros ?]
  | simple apply ordered_locked; [below|intros ?; quiet_in|intros ?|try exact I]
  | simple apply ordered_updating_by; [below|intros ?; quiet_in|intros ?|try exact I]
  | simple apply ordered_broadcast; [below|]
  | simple apply ordered_fuel | simple apply ordered_bind
  | match goal with
    | |- ordered ?h (trigger (Unlock ?l ?x)) _ => split; [solve [repeat first [left|right]]|intros []; cbn [lock_post drop_lock List.filter rank negb Nat.eqb]]
    | |- ordered ?h (trigger (Lock ?l)) _ => split; [below|intros ?; cbn [lock_post]]
    | |- ordered ?h (refuse ?m) _ => reflexivity
    | |- ordered ?h (Ret ?a) _ => cbv beta iota delta [ordered]; try reflexivity; try exact I
    | |- done_ok _ _ => reflexivity
    | |- match ?x with _ => _ end => destruct x
    | |- ordered _ (match ?x with _ => _ end) _ => destruct x
    | |- ordered _ (if ?x then _ else _) _ => destruct x
    | |- ordered _ (let x := _ in _) _ => cbv zeta
    end
  | simple apply ordered_quiet; [solve [quiet_in]|intros ?] ].
Ltac ord := repeat ord1.

Section requests.
Context (oc : bool) (fuel : nat) (config : LogindConfig) (uid : Z).

Lemma ordered_open a : ordered [] (on_open_session oc config uid a) done_ok.
Proof. unfold on_open_session. ord. Qed.

Lemma ordered_close id : ordered [] (on_close_session config uid id) done_ok.
Proof. unfold on_close_session. ord. Qed.

Lemma ordered_activate id : ordered [] (on_activate_session id) done_ok.
Proof. unfold on_activate_session. ord. Qed.

Lemma ordered_power act :
  (∀ pm inh, quiet (act pm inh)) → ordered [] (with_power act) done_ok.
Proof. intros Ha. unfold with_power. ord. Qed.

(** Every request takes the locks in the order of [rank] and gives them back. *)
Lemma ordered_request req : ordered [] (login_dispatch oc fuel config uid req) done_ok.
Proof.
  destruct req; cbn [login_dispatch];
    first [ apply ordered_open | apply ordered_close | apply ordered_activate
          | apply ordered_power; intros pm ?; apply (quiet_power fuel pm)
          | unfold root_power; destruct (not_root uid); [reflexivity|apply ordered_power; intros pm ?; apply (quiet_power fuel pm)]
          | idtac ];
    unfold query_power, returned, on_lock_session, on_unlock_session, on_set_linger, on_terminate_user, on_activate_on_seat, on_switch_to, on_take_device,
      on_release_device, on_schedule_shutdown, on_login_status, on_set_brightness, on_get_brightness; ord.
Qed.
End requests.

(** ** Any number of requests at once *)

(** What the holder table says of a thread is what its tree has taken. *)
Definition thread_ok (s : Pool) (i : nat) (p : Connection) : Prop :=
  ∃ h, (∀ l, l ∈ h ↔ held s l = Some i) ∧ ordered h p done_ok.

Definition pool_ok (s : Pool) : Prop :=
  (∀ i p, threads s !! i = Some p → thread_ok s i p) ∧
  (∀ l i, held s l = Some i → is_Some (threads s !! i)).

Lemma set_held_self l o h : set_held l o h l = o.
Proof. unfold set_held. by case_decide. Qed.

Lemma set_held_ne l l' o h : l' ≠ l → set_held l o h l' = h l'.
Proof. intros. unfold set_held. by case_decide. Qed.

(** The thread [i] steps to [p] and the table changes for it alone. *)
Lemma pool_ok_update s i p hd d :
  is_Some (threads s !! i) → pool_ok s →
  (∀ j l, j ≠ i → hd l = Some j ↔ held s l = Some j) →
  (∃ h, (∀ l, l ∈ h ↔ hd l = Some i) ∧ ordered h p done_ok) →
  pool_ok {| threads := <[i := p]> (threads s); held := hd; shared := d |}.
Proof.
  intros Hi [Ht Hh] Hother Hp. split; simpl.
  - intros j q Hj. destruct (decide (j = i)) as [->|Hne].
    + rewrite list_lookup_insert_eq in Hj by (by apply lookup_lt_is_Some). by injection Hj as <-.
    + rewrite list_lookup_insert_ne in Hj by done. destruct (Ht j q Hj) as (h & Hl & Ho). exists h. split; [|done].
      intros l. simpl. rewrite Hl. symmetry. by apply Hother.
  - intros l j Hj. rewrite lookup_lt_is_Some, length_insert, <- lookup_lt_is_Some.
    destruct (decide (j = i)) as [->|Hne]; [done|]. apply (Hh l). by apply Hother.
Qed.

Lemma pool_ok_step s s' : pool_step s s' → pool_ok s → pool_ok s'.
Proof.
  intros Hs Hok. destruct Hs as [i l k Hi Hf|i l x k Hi Hf|i X e k x Hi He];
    (apply pool_ok_update; [by rewrite Hi|done| |]); destruct (proj1 Hok i _ Hi) as (h & Hl & Hpre & Hk).
  - intros j l' Hj. destruct (decide (l' = l)) as [->|Hne]; [|by rewrite set_held_ne].
    rewrite set_held_self, Hf. split; [intros [= ->]|]; done.
  - exists (l :: h). split; [|apply Hk]. intros l'. rewrite elem_of_cons, Hl.
    destruct (decide (l' = l)) as [->|Hne]; [rewrite set_held_self|rewrite set_held_ne by done]; naive_solver.
  - intros j l' Hj. destruct (decide (l' = l)) as [->|Hne]; [|by rewrite set_held_ne].
    rewrite set_held_self, Hf. split; [|intros [= ->]]; done.
  - exists (drop_lock l h). split; [|apply Hk]. intros l'. rewrite elem_of_drop, Hl.
    destruct (decide (l' = l)) as [->|Hne]; [rewrite set_held_self|rewrite set_held_ne by done]; naive_solver.
  - done.
  - exists h. split; [exact Hl|]. specialize (Hk x). by destruct e.
Qed.

Ltac answer := try solve [ by exists 0 | by exists false | by exists tt | by exists [] | by exists "" | by exists None
  | by exists (0, 0) | by exists (inr "") | by exists (Err "")].

Lemma answer_exists X (e : LogOp X) :
  match e with Lock _ | Unlock _ _ => False | _ => True end → ∃ x : X, True.
Proof.
  assert (Hos : ∀ Y, Os Y → ∃ y : Y, True) by (intros Y o; destruct o; answer).
  intros He. destruct e; try done; answer; by apply Hos.
Qed.

(** A thread that has not ended has a step, or waits for a lock of another. *)
Lemma steps_or_waits s i X (e : LogOp X) k :
  pool_ok s → threads s !! i = Some (Vis e k) →
  (∃ s', pool_step s s') ∨
  ∃ l j, is_lock e = Some l ∧ held s l = Some j ∧ ∀ l', held s l' = Some i → (rank l' < rank l)%nat.
Proof.
  intros Hok Hi. destruct (proj1 Hok i _ Hi) as (h & Hl & Hpre & _). destruct e.
  1: destruct (held s l) as [j|] eqn:Hj; [|left; eexists; by eapply Step_lock].
  1: right; exists l, j; split_and!; [done..|]; intros l' Hl'; rewrite <- Hl in Hl'; exact (proj1 (Forall_forall _ _) Hpre _ Hl').
  1: left; eexists; by eapply Step_unlock, Hl.
  all: left; match type of Hi with _ = Some (Vis ?e _) => destruct (answer_exists _ e I) as [x _] end;
    eexists; eapply (Step_op _ i _ _ _ x); [exact Hi|exact I].
Qed.

(** *** Who waits for whom *)

Definition waiting (s : Pool) (i : nat) (l : LockName) : Prop :=
  ∃ k, threads s !! i = Some (Vis (Lock l) k).

(** Thread [i] waits for a lock that thread [j] has. *)
Definition waits_for (s : Pool) (i j : nat) : Prop := ∃ l, waiting s i l ∧ held s l = Some j.

(** The lock that a thread waits for comes after all that it has; so along the waiting
    the locks get greater. *)
Lemma waits_rank s i j l l' :
  pool_ok s → tc (waits_for s) i j → waiting s i l → waiting s j l' → (rank l < rank l')%nat.
Proof.
  intros Hok Ht. revert l l'.
  assert (H1 : ∀ i j l l', waits_for s i j → waiting s i l → waiting s j l' → (rank l < rank l')%nat).
  { intros i1 j1 l l' (l1 & (k1 & E1) & Hh) (k & E) (k' & E'). assert (l = l1) as -> by (rewrite E in E1; apply (f_equal (fmap head_lock)) in E1; by injection E1).
    destruct (proj1 Hok j1 _ E') as (h & Hl & Hpre & _). apply Hl in Hh. exact (proj1 (Forall_forall _ _) Hpre _ Hh). }
  induction Ht as [i j Hw|i k j Hw Ht IH]; intros l l' Hi Hj; [by eapply H1|].
  assert (∃ l1, waiting s k l1) as [l1 Hk] by (inversion Ht as [? ? (l1 & ? & _)|? ? ? (l1 & ? & _)]; subst; by exists l1).
  pose proof (H1 _ _ _ _ Hw Hi Hk). pose proof (IH _ _ Hk Hj). lia.
Qed.

(** A thread that has an operation other than waiting does it. *)
Definition moves (s : Pool) (j : nat) : Prop :=
  ∃ s', pool_step s s' ∧ threads s' !! j ≠ threads s !! j ∧ ∀ i, i ≠ j → threads s' !! i = threads s !! i.

Inductive sub : Connection → Connection → Prop :=
| Sub X (e : LogOp X) k x : sub (k x) (Vis e k).

Lemma sub_wf (p : Connection) : Acc sub p.
Proof.
  induction p as [a|X e k IH]; constructor; intros q Hq.
  - exact (match Hq in sub _ p return match p with Ret _ => Acc sub q | _ => True end with Sub _ _ _ _ => I end).
  - enough (∃ x, q = k x) as [x ->] by apply IH.
    exact (match Hq in sub q p return match p with Vis _ k => ∃ x, q = k x | _ => True end with
           | Sub _ _ k x => ex_intro _ x eq_refl end).
Qed.

(** An operation leads to another tree. *)
Lemma continues X (e : LogOp X) k x : (k x : Connection) ≠ Vis e k.
Proof.
  intros E. assert (H : sub (Vis e k) (Vis e k)) by (rewrite <- E at 1; apply Sub).
  revert H. generalize (Vis e k : Connection). intros p Hp. induction (sub_wf p) as [p _ IH]. by eapply IH.
Qed.

Lemma moves_or_waits s i X (e : LogOp X) k :
  pool_ok s → threads s !! i = Some (Vis e k) → moves s i ∨ ∃ j, waits_for s i j.
Proof.
  intros Hok Hi. destruct (proj1 Hok i _ Hi) as (h & Hl & Hpre & _).
  assert (Hm : ∀ x hd d, pool_step s {| threads := <[i := k x]> (threads s); held := hd; shared := d |} → moves s i).
  { intros x hd d Hs. eexists. split; [exact Hs|]. simpl. split; [|intros j Hj; by apply list_lookup_insert_ne].
    rewrite Hi, list_lookup_insert_eq by (by eapply lookup_lt_Some). intros [= E]. by apply (continues X e k x). }
  destruct e.
  1: destruct (held s l) as [j|] eqn:Hj; [|left; eapply Hm; by eapply Step_lock].
  1: right; exists j, l; (split; [by exists k|done]).
  1: left; eapply (Hm tt); by eapply Step_unlock, Hl.
  all: left; match type of Hi with _ = Some (Vis ?e _) => destruct (answer_exists _ e I) as [x _] end;
    eapply (Hm x), (Step_op _ i _ _ _ x); [exact Hi|exact I].
Qed.

(** A thread that stopped in the middle: it panicked, or sleeps for good. *)
Definition stopped (s : Pool) (j : nat) : Prop := threads s !! j = Some (Ret None).

Lemma waiting_ends s n i :
  pool_ok s → (∃ X (e : LogOp X) k, threads s !! i = Some (Vis e k)) →
  (∀ l, waiting s i l → 6 - rank l ≤ n)%nat →
  ∃ j, rtc (waits_for s) i j ∧ (moves s j ∨ stopped s j ∧ ∃ l, held s l = Some j).
Proof.
  intros Hok. revert i. induction n as [|n IH]; intros i (X & e & k & Hi) Hn;
    (destruct (moves_or_waits s i X e k Hok Hi) as [Hm|(j & l & Hw & Hj)]; [by exists i; split; [apply rtc_refl|left]|]).
  { specialize (Hn l Hw). destruct l; simpl in Hn; lia. }
  destruct (proj2 Hok l j Hj) as [[r|Y e' k'] Hq].
  - exists j. split; [by apply rtc_once; exists l|]. right.
    destruct (proj1 Hok j _ Hq) as (h & Hh & Ho). apply Hh in Hj as Hin. destruct r as [r|]; [|by split; [|exists l]].
    simpl in Ho. subst h. by apply elem_of_nil in Hin.
  - assert (Hd : ∀ l', waiting s j l' → (6 - rank l' ≤ n)%nat).
    { intros l' Hw'. specialize (Hn l Hw).
      assert (Ht : tc (waits_for s) i j) by (apply tc_once; by exists l).
      pose proof (waits_rank s i j l l' Hok Ht Hw Hw'). lia. }
    destruct (IH j ltac:(by eexists _, _, _) Hd) as (j' & Hr & Hj'). exists j'. split; [|done].
    eapply rtc_l; [|exact Hr]. by exists l.
Qed.

(** ** The connections

    The thread of a connection answers the requests that come in; that of a subscriber
    never comes back from its loop ([turns] of it are modelled).  The result of a
    connection is only logged. *)
Section connections.
Context (oc : bool) (config : LogindConfig).
Context (from_slice : list Z → result string Request) (to_vec : Response → result string (list Z)).
Context (turns fuel : nat).

Definition connection (uid : Z) : Connection :=
  let* r := login_handle oc config from_slice to_vec turns fuel uid in Ret ((λ _, Response_ok_empty) <$> r).

(** The thread of the inhibitors. *)
Definition gc_thread : Connection := let* r := inhibitor_gc turns in Ret ((λ _, Response_ok_empty) <$> r).

Definition connections (clients : list Z) (d : Logind) : Pool :=
  {| threads := gc_thread :: (connection <$> clients); held := λ _, None; shared := d |}.

(** The end of a turn. *)
Definition turn_ok {S A} (h : list LockName) (r : option (S + A)) : Prop :=
  match r with Some _ => h = [] | None => True end.

Lemma ordered_loop_fuel {S A} n (f : S → prog LogOp (option (S + A))) s :
  (∀ s, ordered [] (f s) turn_ok) →
  ordered [] (loop_fuel n f s) (λ h r, match r with Some _ => h = [] | None => True end).
Proof.
  intros Hf. revert s. induction n as [|n IH]; intros s; cbn [loop_fuel]; [exact I|].
  apply ordered_bind. eapply ordered_mono; [|apply Hf]. intros h [[s'|a]|]; simpl; [intros ->; apply IH|done|done].
Qed.

Lemma quiet_send r : quiet (send_response to_vec r).
Proof. unfold send_response. quiet_in. Qed.

Lemma ordered_subscribe uid :
  ordered [] (subscribe to_vec fuel uid) (λ h r, match r with Some _ => h = [] | None => True end).
Proof.
  pose proof (quiet_send Response_ok_empty) as Hs. unfold subscribe. split; [by apply Forall_nil|]. intros sinks.
  split; [exact I|]. intros [fd|e]; cbn -[send_response loop]; [|split; [by left|by intros []]].
  apply (ordered_bind _ (send_response to_vec _)), ordered_quiet; [exact Hs|].
  intros [u|e]; [|split; [by left|by intros []]].
  eapply ordered_mono with (Q := λ h r, r = None); [by intros h r ->|].
  clear. generalize [EventBusL]. intros h. induction fuel as [|n IH]; cbn [loop]; [done|].
  split; [exact I|]. intros []. exact IH.
Qed.

Lemma ordered_respond r : ordered [] (respond to_vec r) turn_ok.
Proof. unfold respond. apply ordered_bind, ordered_quiet; [apply quiet_send|]. by intros. Qed.

Lemma ordered_turn uid : ordered [] (handle_turn oc config from_slice to_vec fuel uid) turn_ok.
Proof.
  unfold handle_turn. split; [exact I|]. intros [[len_buf|]|e]; [|reflexivity..]. cbn [prog_bind lock_post]. cbv zeta.
  do 2 (case_match; [reflexivity|]). split; [exact I|].
  intros [[b|]|e]; [|reflexivity..]. cbn [prog_bind lock_post]. destruct (from_slice b) as [req|e]; [|apply ordered_respond].
  assert (Hd : ordered [] (fuel* resp := login_dispatch oc fuel config uid req in respond to_vec resp) turn_ok).
  { apply ordered_fuel. eapply ordered_mono; [|apply ordered_request]. intros h [r|]; simpl; [intros ->|done].
    apply ordered_respond. }
  destruct req; try exact Hd. apply ordered_fuel. eapply ordered_mono; [|apply ordered_subscribe].
  by intros h [r|].
Qed.

Lemma ordered_connection uid : ordered [] (connection uid) done_ok.
Proof.
  unfold connection, login_handle. apply ordered_bind. eapply ordered_mono; [|apply ordered_loop_fuel; intros; apply ordered_turn].
  by intros h [r|].
Qed.

Lemma ordered_loop {S A} n (f : S → prog LogOp (S + A)) s :
  (∀ s, ordered [] (f s) (λ h _, h = [])) →
  ordered [] (loop n f s) (λ h r, match r with Some _ => h = [] | None => True end).
Proof.
  intros Hf. revert s. induction n as [|n IH]; intros s; cbn [loop]; [exact I|].
  apply ordered_bind. eapply ordered_mono; [|apply Hf]. intros h [s'|a] ->; [apply IH|done].
Qed.

Lemma quiet_dead l : quiet (dead_ids l).
Proof. induction l as [|i l IH]; cbn [dead_ids]; [apply quiet_ret|]. quiet_in. Qed.

Lemma quiet_gc m : quiet (gc_dead_pids m).
Proof. apply quiet_bind; [apply quiet_dead|]. intros d. apply quiet_ret. Qed.

Lemma ordered_gc : ordered [] gc_thread done_ok.
Proof.
  unfold gc_thread, inhibitor_gc. apply ordered_bind. eapply ordered_mono; [|apply ordered_loop].
  - by intros h [r|].
  - intros _. split; [exact I|]. intros []. split; [by apply Forall_nil|]. intros m.
    apply (ordered_bind _ (gc_dead_pids m)), ordered_quiet; [apply quiet_gc|]. intros m'. split; [by left|]. by intros [].
Qed.

Lemma connections_ok clients d : pool_ok (connections clients d).
Proof.
  split; [|done]. intros i p Hi. exists []. split; [by intros l; split; [intros ?%elem_of_nil|]|].
  destruct i as [|i]; [injection Hi as <-; apply ordered_gc|].
  apply list_lookup_fmap_Some in Hi as (uid & -> & _). apply ordered_connection.
Qed.
End connections.

Lemma connections_reach oc config from_slice to_vec turns fuel clients d s :
  rtc pool_step (connections oc config from_slice to_vec turns fuel clients d) s → pool_ok s.
Proof.
  intros Hr. pose proof (connections_ok oc config from_slice to_vec turns fuel clients d) as Hok.
  induction Hr as [s|s s1 s2 Hs Hr IH]; [done|]. by eapply IH, pool_ok_step.
Qed.



(** ** The threads that take two locks the other way round *)

(** The requests that reach the power manager. *)
Definition power_request (uid : Z) (req : Request) : bool :=
  match req with
  | Req_Suspend _ | Req_Hibernate _ | Req_HybridSleep _ | Req_SuspendThenHibernate _ => true
  | Req_PowerOff _ | Req_Reboot _ | Req_RebootToFirmwareSetup _ | Req_Halt _ => uid =? 0
  | _ => false
  end.

Lemma power_request_locks oc fuel config uid req :
  power_request uid req = true →
  ∃ k, login_dispatch oc fuel config uid req = Vis (Lock InhibitorsL) k ∧ ∀ inh, ∃ k', k inh = Vis (Lock PowerL) k'.
Proof.
  intros Hp. destruct req; try discriminate Hp; cbn [login_dispatch]; unfold root_power, not_root; cbn [power_request] in Hp;
    rewrite ?Hp; cbn [negb]; (eexists; split; [reflexivity|]; intros inh; eexists; reflexivity).
Qed.

Lemma acpi_locks fuel config event :
  is_Some (acpi_action config event) →
  ∃ k, background (handle_acpi_event fuel config event) = Vis (Lock PowerL) k ∧
    ∀ pm, ∃ k', k pm = Vis (Lock InhibitorsL) k'.
Proof.
  intros [a Ha]. unfold handle_acpi_event. rewrite Ha. eexists. split; [reflexivity|]. intros pm. by eexists.
Qed.

(** C28: an ACPI event with an action (a power button, a lid) and a request for a power action
    (suspend and hibernate by any user) that run at the same time can wait for each other: the
    request has the inhibitors and wants the power manager, the event has the power manager and
    wants the inhibitors.  From then on, whatever the other threads do, neither ends and both
    locks stay taken. *)
Theorem acpi_event_can_deadlock oc fuel config uid req event s i j :
  threads s !! i = Some (background (handle_acpi_event fuel config event)) →
  threads s !! j = Some (login_dispatch oc fuel config uid req) →
  is_Some (acpi_action config event) → power_request uid req = true → i ≠ j →
  held s PowerL = None → held s InhibitorsL = None →
  ∃ s', rtc pool_step s s' ∧ ∀ s'', rtc pool_step s' s'' →
    (∀ r, threads s'' !! i ≠ Some (Ret r)) ∧ (∀ r, threads s'' !! j ≠ Some (Ret r)) ∧
    held s'' PowerL = Some i ∧ held s'' InhibitorsL = Some j.
Proof.
  intros Hi Hj Ha Hp Hij HP HI.
  destruct (acpi_locks fuel config event Ha) as (k & Ek & Hk). rewrite Ek in Hi.
  destruct (power_request_locks oc fuel config uid req Hp) as (k2 & Ek2 & Hk2). rewrite Ek2 in Hj.
  pose proof (Step_lock s i PowerL k Hi HP) as S1. set (s1 := {| threads := _; held := _; shared := _ |}) in S1.
  assert (Hj1 : threads s1 !! j = Some (Vis (Lock InhibitorsL) k2)) by (simpl; by rewrite list_lookup_insert_ne).
  pose proof (Step_lock s1 j InhibitorsL k2 Hj1 HI) as S2. set (s2 := {| threads := _; held := _; shared := _ |}) in S2.
  destruct (Hk (ld_power (shared s))) as [k' Hk']. destruct (Hk2 (ld_inhibitors (shared s))) as [k2' Hk2'].
  assert (Hi2 : holds_and_waits s2 i PowerL InhibitorsL).
  { split; [done|]. exists k'. simpl. rewrite list_lookup_insert_ne by done.
    rewrite list_lookup_insert_eq by (by eapply lookup_lt_Some). by rewrite Hk'. }
  assert (Hj2 : holds_and_waits s2 j InhibitorsL PowerL).
  { split; [done|]. exists k2'. simpl. rewrite list_lookup_insert_eq by (rewrite length_insert; by eapply lookup_lt_Some).
    by rewrite Hk2'. }
  exists s2. split; [eapply rtc_l; [exact S1|]; by apply rtc_once|]. intros s'' Hr.
  destruct (deadlock_forever s2 s'' i j PowerL InhibitorsL Hi2 Hj2 Hr) as (_ & _ & (? & ka & Hka) & (? & kb & Hkb)).
  rewrite Hka, Hkb. split_and!; done.
Qed.

Lemma acpi_event_can_deadlock_witness :
  let s := {| threads := [background (handle_acpi_event 10 LogindConfig_default PowerButton);
                          login_dispatch true 10 LogindConfig_default 1000 (Req_Suspend true)];
              held := λ _, None; shared := login_start (Seat_new SEAT0) example_power |} in
  ∃ s', rtc pool_step s s' ∧ ∀ s'', rtc pool_step s' s'' →
    (∀ r, threads s'' !! 0%nat ≠ Some (Ret r)) ∧ (∀ r, threads s'' !! 1%nat ≠ Some (Ret r)) ∧
    held s'' PowerL = Some 0%nat ∧ held s'' InhibitorsL = Some 1%nat.
Proof.
  intros s. apply (acpi_event_can_deadlock true 10 LogindConfig_default 1000 (Req_Suspend true) PowerButton);
    try reflexivity; [by eexists|done].
Defined.

(** ** The event bus *)

(** No answer of success before the event bus is locked. *)
Fixpoint before_bus {A} (p : prog LogOp A) (Q : A → Prop) : Prop :=
  match p with
  | Ret a => Q a
  | Vis e k => is_lock e = Some EventBusL ∨ ∀ x, before_bus (k x) Q
  end.

Definition not_ok (r : option Response) : Prop := ∀ x, r = Some x → rp_ok x = false.

Lemma before_bus_any {A} (p : prog LogOp A) (Q : A → Prop) : (∀ a, Q a) → before_bus p Q.
Proof. intros HQ. induction p; simpl; [done|]. by right. Qed.

Lemma before_bus_bind {A B} (p : prog LogOp A) (k : A → prog LogOp B) Q :
  before_bus p (λ a, before_bus (k a) Q) → before_bus (prog_bind p k) Q.
Proof. induction p as [a|X e k' IH]; simpl; [done|]. intros [?|Hk]; [by left|]. right. eauto. Qed.

Lemma before_bus_after {A B} (p : prog LogOp A) (k : A → prog LogOp B) Q :
  (∀ a, before_bus (k a) Q) → before_bus (prog_bind p k) Q.
Proof. intros Hk. by apply before_bus_bind, before_bus_any. Qed.

Lemma before_bus_fuel {A} (p : prog LogOp (option A)) (k : A → prog LogOp (option Response)) :
  (∀ a, before_bus (k a) not_ok) → before_bus (fuel_bind p k) not_ok.
Proof. intros Hk. apply before_bus_after. by intros [a|]. Qed.

Lemma before_bus_broadcast {B} e (k : unit → prog LogOp B) Q : before_bus (broadcast_event e;* k tt) Q.
Proof. by left. Qed.

Lemma before_bus_refuse msg : before_bus (refuse msg) not_ok.
Proof. by intros x [= <-]. Qed.

(** The requests that announce what they did. *)
Definition announces (req : Request) : bool :=
  match req with
  | OpenSession _ | CloseSession _ | LockSession _ | UnlockSession _ | SwitchTo _ | SetBrightness _ _ _
  | ScheduleShutdown _ _ => true
  | _ => false
  end.

Lemma announces_before_bus oc fuel config uid req :
  announces req = true → before_bus (login_dispatch oc fuel config uid req) not_ok.
Proof.
  intros Ha. destruct req; try discriminate Ha; cbn [login_dispatch];
    unfold on_open_session, on_close_session, on_lock_session, on_unlock_session, on_switch_to, on_set_brightness,
      on_schedule_shutdown;
    repeat first [ apply before_bus_refuse | by left | apply before_bus_fuel; intros ? | apply before_bus_after; intros ?
                 | case_match ].
Qed.

(** Never gives a lock back. *)
Definition keeps_locks : ∀ X, LogOp X → Prop := λ X e, is_unlock e = None.

(** Thread [i] has the bus for good. *)
Definition bus_taken (s : Pool) (i : nat) : Prop :=
  held s EventBusL = Some i ∧ ∃ p, threads s !! i = Some p ∧ performs keeps_locks p.

Lemma bus_taken_step s s' i : pool_step s s' → bus_taken s i → bus_taken s' i.
Proof.
  intros Hs (Hh & p & Hp & Hk).
  pose proof (lookup_lt_Some _ _ _ Hp) as Hlen.
  destruct Hs as [j l k Hj Hf|j l x k Hj Hf|j X e k x Hj He]; (split; simpl; [|destruct (decide (j = i)) as [->|Hne];
    [rewrite Hp in Hj; injection Hj as ->; eexists; (split; [apply list_lookup_insert_eq; done|apply Hk])
    |exists p; by rewrite list_lookup_insert_ne]]).
  - unfold set_held. case_decide; [congruence|done].
  - unfold set_held. case_decide as Hl; [|done]. subst l. rewrite Hh in Hf. injection Hf as <-.
    rewrite Hp in Hj. injection Hj as ->. by destruct Hk as [Hk _].
  - done.
Qed.

(** A thread that has still to lock the bus does not get further. *)
Lemma before_bus_step s s' i j p :
  pool_step s s' → bus_taken s i → threads s !! j = Some p → before_bus p not_ok →
  ∃ p', threads s' !! j = Some p' ∧ before_bus p' not_ok.
Proof.
  intros Hs [Hh _] Hj Hb. pose proof (lookup_lt_Some _ _ _ Hj) as Hlen.
  destruct Hs as [m l k Hm Hf|m l x k Hm Hf|m X e k x Hm He]; simpl;
    (destruct (decide (m = j)) as [->|Hne]; [|exists p; by rewrite list_lookup_insert_ne]);
    rewrite Hj in Hm; injection Hm as ->; (eexists; split; [by apply list_lookup_insert_eq|]).
  - destruct Hb as [[= ->]|Hb]; [congruence|apply Hb].
  - destruct Hb as [?|Hb]; [done|apply Hb].
  - destruct Hb as [Hl|Hb]; [by destruct e|apply Hb].
Qed.

Lemma bus_taken_forever s s' i j p :
  rtc pool_step s s' → bus_taken s i → threads s !! j = Some p → before_bus p not_ok →
  held s' EventBusL = Some i ∧ ∃ p', threads s' !! j = Some p' ∧ before_bus p' not_ok.
Proof.
  intros Hr. revert p. induction Hr as [s|s s1 s2 Hs Hr IH]; intros p Hi Hj Hb; [split; [apply Hi|by exists p]|].
  destruct (before_bus_step s s1 i j p Hs Hi Hj Hb) as (p' & Hj' & Hb'). by eapply IH; [eapply bus_taken_step| |].
Qed.

(** A system operation of thread [i] with a given answer. *)
Lemma pool_op s i X (e : LogOp X) k x :
  threads s !! i = Some (Vis e k) → match e with Lock _ | Unlock _ _ => False | _ => True end →
  ∃ s', pool_step s s' ∧ threads s' !! i = Some (k x) ∧ held s' = held s ∧ ∀ j, j ≠ i → threads s' !! j = threads s !! j.
Proof.
  intros Hi He. eexists. split; [by eapply (Step_op s i X e k x)|]. simpl. split; [|split; [done|]].
  - apply list_lookup_insert_eq. by eapply lookup_lt_Some.
  - intros j Hj. by apply list_lookup_insert_ne.
Qed.

(** The tree of a subscription, along the answers of success. *)
Lemma subscribe_tree to_vec out turns peer_uid :
  to_vec Response_ok_empty = Ok out →
  ∃ k, background (subscribe to_vec turns peer_uid) = Vis (Lock EventBusL) k ∧ ∀ sinks,
  ∃ k1, k sinks = Vis TryClone k1 ∧ ∃ b k2, k1 (Ok 0) = Vis (SockWrite b) k2 ∧
  ∃ k3, k2 (Ok tt) = Vis (SockWrite out) k3 ∧ performs keeps_locks (k3 (Ok tt)).
Proof.
  intros Hout. unfold subscribe, send_response. rewrite Hout. eexists. split; [reflexivity|]. intros sinks.
  eexists. split; [reflexivity|]. eexists _, _. split; [reflexivity|]. eexists. split; [reflexivity|].
  cbn beta iota. apply performs_bind; [|intros a; apply performs_ret].
  apply performs_loop. intros []. by split.
Qed.

(** C29: once a client, root or not, has subscribed to events, its thread sleeps with the event
    bus locked for as long as it lives: from then on no request that announces what it did
    (opening, closing, locking and unlocking a session, switching the terminal, the brightness,
    a scheduled shutdown) of any client is ever answered with success. *)
Theorem subscriber_blocks_events to_vec out turns peer_uid oc fuel config uid req s i j :
  threads s !! i = Some (background (subscribe to_vec turns peer_uid)) → to_vec Response_ok_empty = Ok out →
  held s EventBusL = None → i ≠ j →
  threads s !! j = Some (login_dispatch oc fuel config uid req) → announces req = true →
  ∃ s', rtc pool_step s s' ∧ ∀ s'', rtc pool_step s' s'' →
    held s'' EventBusL = Some i ∧ ∀ r, threads s'' !! j = Some (Ret (Some r)) → rp_ok r = false.
Proof.
  intros Hi Hout Hfree Hij Hj Ha. destruct (subscribe_tree to_vec out turns peer_uid Hout) as (k & Ek & Hk).
  rewrite Ek in Hi. pose proof (Step_lock s i EventBusL k Hi Hfree) as S1.
  set (s1 := {| threads := _; held := _; shared := _ |}) in S1.
  assert (H1 : threads s1 !! i = Some (k (ld_bus (shared s)))) by (apply list_lookup_insert_eq; by eapply lookup_lt_Some).
  assert (J1 : threads s1 !! j = threads s !! j) by (by apply list_lookup_insert_ne).
  destruct (Hk (ld_bus (shared s))) as (k1 & E1 & b & k2 & E2 & k3 & E3 & Hp). rewrite E1 in H1.
  destruct (pool_op s1 i _ _ _ (Ok 0) H1 I) as (s2 & S2 & H2 & D2 & J2). rewrite E2 in H2.
  destruct (pool_op s2 i _ _ _ (Ok tt) H2 I) as (s3 & S3 & H3 & D3 & J3). rewrite E3 in H3.
  destruct (pool_op s3 i _ _ _ (Ok tt) H3 I) as (s4 & S4 & H4 & D4 & J4).
  exists s4. split; [do 3 (eapply rtc_l; [eassumption|]); by apply rtc_once|]. intros s'' Hr.
  assert (Hj4 : threads s4 !! j = Some (login_dispatch oc fuel config uid req))
    by (rewrite J4, J3, J2, J1 by done; exact Hj).
  assert (Hi4 : bus_taken s4 i) by (split; [rewrite D4, D3, D2; reflexivity|by eexists]).
  destruct (bus_taken_forever s4 s'' i j _ Hr Hi4 Hj4) as (Hh & p & Hp' & Hb).
  - by apply announces_before_bus.
  - split; [exact Hh|]. intros r Hr'. rewrite Hp' in Hr'. injection Hr' as ->. by apply Hb.
Qed.

Lemma subscriber_blocks_events_witness :
  let s := {| threads := [background (subscribe (λ _, Ok [123; 125]) 5 1000);
                          login_dispatch true 10 LogindConfig_default 0 (OpenSession example_session)];
              held := λ _, None; shared := login_start (Seat_new SEAT0) example_power |} in
  ∃ s', rtc pool_step s s' ∧ ∀ s'', rtc pool_step s' s'' →
    held s'' EventBusL = Some 0%nat ∧ ∀ r, threads s'' !! 1%nat = Some (Ret (Some r)) → rp_ok r = false.
Proof.
  intros s. apply (subscriber_blocks_events (λ _, Ok [123; 125]) [123; 125] 5 1000 true 10 LogindConfig_default 0
    (OpenSession example_session)); reflexivity || done.
Defined.
