(* ===== verification/Sha256.v ===== *)
(** * SHA-256 for the measured boot

    [quantra-ramfs/src/measured_boot.rs]: the hash function of the initial ramdisk, on bytes
    and 32-bit words, and the standard (FIPS 180-4), on bits.  The two agree on every
    message. *)

From Stdlib Require Import ZArith Ascii.
From stdpp Require Import base tactics numbers list strings.
From S2P Require Import Prelude RustStr.

Local Open Scope string_scope.
Local Open Scope list_scope.
Local Open Scope Z_scope.

(** ** The code *)

Definition rotate_right (x n : Z) : Z := Z.lor (Z.shiftr x n) (wrap_u32 (Z.shiftl x (32 - n))).
Definition not_u32 (x : Z) : Z := Z.lxor x u32_max.
Definition wrapping_add (x y : Z) : Z := wrap_u32 (x + y).

(** In decimal. *)
Definition sha_K : list Z := [
  1116352408; 1899447441; 3049323471; 3921009573; 961987163; 1508970993; 2453635748; 2870763221;
  3624381080; 310598401; 607225278; 1426881987; 1925078388; 2162078206; 2614888103; 3248222580;
  3835390401; 4022224774; 264347078; 604807628; 770255983; 1249150122; 1555081692; 1996064986;
  2554220882; 2821834349; 2952996808; 3210313671; 3336571891; 3584528711; 113926993; 338241895;
  666307205; 773529912; 1294757372; 1396182291; 1695183700; 1986661051; 2177026350; 2456956037;
  2730485921; 2820302411; 3259730800; 3345764771; 3516065817; 3600352804; 4094571909; 275423344;
  430227734; 506948616; 659060556; 883997877; 958139571; 1322822218; 1537002063; 1747873779;
  1955562222; 2024104815; 2227730452; 2361852424; 2428436474; 2756734187; 3204031479; 3329325298
].

Definition sha_init : list Z :=
  [0x6a09e667; 0xbb67ae85; 0x3c6ef372; 0xa54ff53a; 0x510e527f; 0x9b05688c; 0x1f83d9ab; 0x5be0cd19].

Definition to_be_bytes (n : nat) (z : Z) : list Z :=
  (λ i, Z.shiftr z (8 * (Z.of_nat n - 1 - Z.of_nat i)) mod 256) <$> seq 0 n.

Definition from_be_bytes_u32 (b : list Z) : Z := foldl (λ acc x, acc * 256 + x) 0 b.

(** [while msg.len() % 64 != 56 { msg.push(0) }]. *)
Fixpoint pad_zeros (fuel : nat) (msg : list Z) : list Z :=
  match fuel with
  | O => msg
  | S fuel => if (length msg mod 64 =? 56)%nat then msg else pad_zeros fuel (msg ++ [0])
  end.

Definition sha_pad (data : list Z) : list Z :=
  pad_zeros 64 (data ++ [0x80]) ++ to_be_bytes 8 (Z.of_nat (length data) * 8).

(** [slice::chunks]. *)
Fixpoint chunks_fuel (fuel : nat) {A} (n : nat) (l : list A) : list (list A) :=
  match fuel with
  | O => []
  | S fuel => match l with [] => [] | _ => take n l :: chunks_fuel fuel n (drop n l) end
  end.
Definition chunks {A} (n : nat) (l : list A) : list (list A) := chunks_fuel (length l) n l.

Definition chunk_words (chunk : list Z) : list Z :=
  (λ i, from_be_bytes_u32 (take 4 (drop (i * 4) chunk))) <$> seq 0 16.

(** One turn of [for i in 16..64] on the array [w]. *)
Definition extend_turn (w : list Z) (i : nat) : list Z :=
  let w15 := w !!! (i - 15)%nat in
  let w2 := w !!! (i - 2)%nat in
  let s0 := Z.lxor (Z.lxor (rotate_right w15 7) (rotate_right w15 18)) (Z.shiftr w15 3) in
  let s1 := Z.lxor (Z.lxor (rotate_right w2 17) (rotate_right w2 19)) (Z.shiftr w2 10) in
  <[i := wrapping_add (wrapping_add (wrapping_add (w !!! (i - 16)%nat) s0) (w !!! (i - 7)%nat)) s1]> w.

Definition sha_schedule (chunk : list Z) : list Z :=
  foldl extend_turn (chunk_words chunk ++ replicate 48 0) (seq 16 48).

Record ShaState := { sa : Z; sb : Z; sc : Z; sd : Z; se : Z; sf : Z; sg : Z; sh : Z }.

(** One turn of [for i in 0..64]. *)
Definition sha_turn (w : list Z) (s : ShaState) (i : nat) : ShaState :=
  let s1 := Z.lxor (Z.lxor (rotate_right (se s) 6) (rotate_right (se s) 11)) (rotate_right (se s) 25) in
  let ch := Z.lxor (Z.land (se s) (sf s)) (Z.land (not_u32 (se s)) (sg s)) in
  let t1 := wrapping_add (wrapping_add (wrapping_add (wrapping_add (sh s) s1) ch) (sha_K !!! i)) (w !!! i) in
  let s0 := Z.lxor (Z.lxor (rotate_right (sa s) 2) (rotate_right (sa s) 13)) (rotate_right (sa s) 22) in
  let maj := Z.lxor (Z.lxor (Z.land (sa s) (sb s)) (Z.land (sa s) (sc s))) (Z.land (sb s) (sc s)) in
  let t2 := wrapping_add s0 maj in
  {| sh := sg s; sg := sf s; sf := se s; se := wrapping_add (sd s) t1;
     sd := sc s; sc := sb s; sb := sa s; sa := wrapping_add t1 t2 |}.

Definition sha_load (h : list Z) : ShaState :=
  {| sa := h !!! 0%nat; sb := h !!! 1%nat; sc := h !!! 2%nat; sd := h !!! 3%nat;
     se := h !!! 4%nat; sf := h !!! 5%nat; sg := h !!! 6%nat; sh := h !!! 7%nat |}.
Definition sha_words (s : ShaState) : list Z := [sa s; sb s; sc s; sd s; se s; sf s; sg s; sh s].

Definition sha_chunk (h : list Z) (chunk : list Z) : list Z :=
  zip_with wrapping_add h (sha_words (foldl (sha_turn (sha_schedule chunk)) (sha_load h) (seq 0 64))).

Definition sha256 (data : list Z) : list Z :=
  concat (to_be_bytes 4 <$> foldl sha_chunk sha_init (chunks 64 (sha_pad data))).

(** The test vector of the standard. *)
Example sha256_abc :
  sha256 [97; 98; 99] = [0xba; 0x78; 0x16; 0xbf; 0x8f; 0x01; 0xcf; 0xea; 0x41; 0x41; 0x40; 0xde; 0x5d; 0xae; 0x22; 0x23;
                         0xb0; 0x03; 0x61; 0xa3; 0x96; 0x17; 0x7a; 0x9c; 0xb4; 0x10; 0xff; 0x61; 0xf2; 0x00; 0x15; 0xad].
Proof. vm_compute. reflexivity. Qed.

(** ** The standard, on bits

    A word is its 32 bits, the most significant first. *)

Definition bits (n : nat) (z : Z) : list bool := (λ i, Z.testbit z (Z.of_nat (n - 1 - i))) <$> seq 0 n.
Definition val (b : list bool) : Z := foldl (λ acc (x : bool), acc * 2 + Z.b2z x) 0 b.

Definition ROTR (n : nat) (x : list bool) : list bool := drop (32 - n) x ++ take (32 - n) x.
Definition SHR (n : nat) (x : list bool) : list bool := replicate n false ++ take (32 - n) x.
Definition XOR (x y : list bool) : list bool := zip_with xorb x y.
Definition ADD (x y : list bool) : list bool := bits 32 ((val x + val y) mod 2 ^ 32).

(** Section 4.1.2: choice, majority and the four functions of rotations. *)
Definition Ch (x y z : list bool) : list bool := zip_with (λ (c : bool) p, if c then p.1 else p.2) x (zip y z).
Definition Maj (x y z : list bool) : list bool :=
  zip_with (λ a p, (a && p.1) || (a && p.2) || (p.1 && p.2)) x (zip y z).
Definition Sigma0 (x : list bool) := XOR (XOR (ROTR 2 x) (ROTR 13 x)) (ROTR 22 x).
Definition Sigma1 (x : list bool) := XOR (XOR (ROTR 6 x) (ROTR 11 x)) (ROTR 25 x).
Definition sigma0 (x : list bool) := XOR (XOR (ROTR 7 x) (ROTR 18 x)) (SHR 3 x).
Definition sigma1 (x : list bool) := XOR (XOR (ROTR 17 x) (ROTR 19 x)) (SHR 10 x).

(** Sections 4.2.2 and 5.3.3: the first 32 bits of the fractional parts of the cube roots of
    the first 64 primes, and of the square roots of the first eight. *)
Definition is_prime (n : nat) : bool := forallb (λ d, negb (n mod d =? 0)%nat) (seq 2 (n - 2)).
Definition primes : list Z := Z.of_nat <$> List.filter is_prime (seq 2 310).

Fixpoint bisect (fuel : nat) (e : Z) (target lo hi : Z) : Z :=
  match fuel with
  | O => lo
  | S fuel => let mid := (lo + hi) / 2 in
              if mid ^ e <=? target then bisect fuel e target mid hi else bisect fuel e target lo mid
  end.
(** The [e]-th root of [p], rounded down, in units of 2 to the -32. *)
Definition nth_root (e p : Z) : Z := bisect 50 e (p * 2 ^ (32 * e)) 0 (2 ^ 45).

Definition fips_K : list (list bool) := (λ p, bits 32 (nth_root 3 p mod 2 ^ 32)) <$> primes.
Definition fips_H0 : list (list bool) := (λ p, bits 32 (nth_root 2 p mod 2 ^ 32)) <$> take 8 primes.

(** Section 5.1.1: a one, the least number of zeros that gives 448 modulo 512, and the
    length as 64 bits. *)
Definition fips_pad (m : list bool) : list bool :=
  let l := length m in
  m ++ [true] ++ replicate (Z.to_nat ((447 - Z.of_nat l) mod 512)) false ++ bits 64 (Z.of_nat l).

(** Section 6.2.2: the message schedule, grown word by word, and the rounds. *)
Definition fips_schedule (block : list bool) : list (list bool) :=
  foldl (λ W t, W ++ [ADD (ADD (ADD (sigma1 (W !!! (t - 2)%nat)) (W !!! (t - 7)%nat))
                               (sigma0 (W !!! (t - 15)%nat))) (W !!! (t - 16)%nat)])
    (chunks 32 block) (seq 16 48).

Record FipsState := { fa : list bool; fb : list bool; fc : list bool; fd : list bool;
                      fe : list bool; ff : list bool; fg : list bool; fh : list bool }.

Definition fips_round (W : list (list bool)) (s : FipsState) (t : nat) : FipsState :=
  let T1 := ADD (ADD (ADD (ADD (fh s) (Sigma1 (fe s))) (Ch (fe s) (ff s) (fg s))) (fips_K !!! t)) (W !!! t) in
  let T2 := ADD (Sigma0 (fa s)) (Maj (fa s) (fb s) (fc s)) in
  {| fh := fg s; fg := ff s; ff := fe s; fe := ADD (fd s) T1;
     fd := fc s; fc := fb s; fb := fa s; fa := ADD T1 T2 |}.

Definition fips_load (H : list (list bool)) : FipsState :=
  {| fa := H !!! 0%nat; fb := H !!! 1%nat; fc := H !!! 2%nat; fd := H !!! 3%nat;
     fe := H !!! 4%nat; ff := H !!! 5%nat; fg := H !!! 6%nat; fh := H !!! 7%nat |}.
Definition fips_words (s : FipsState) : list (list bool) := [fa s; fb s; fc s; fd s; fe s; ff s; fg s; fh s].

Definition fips_block (H : list (list bool)) (block : list bool) : list (list bool) :=
  zip_with ADD (fips_words (foldl (fips_round (fips_schedule block)) (fips_load H) (seq 0 64))) H.

Definition fips_sha256 (m : list bool) : list bool :=
  concat (foldl fips_block fips_H0 (chunks 512 (fips_pad m))).

(** A byte string as a bit string. *)
Definition message_bits (data : list Z) : list bool := data ≫= bits 8.

(** The constants of the code are those of the standard. *)
Lemma sha_constants : fips_K = bits 32 <$> sha_K ∧ fips_H0 = bits 32 <$> sha_init ∧ length primes = 64%nat.
Proof. split; [|split]; vm_compute; reflexivity. Qed.

(** The roots are the roots. *)
Lemma nth_root_spec : Forall (λ p, nth_root 3 p ^ 3 ≤ p * 2 ^ 96 < (nth_root 3 p + 1) ^ 3) primes ∧
  Forall (λ p, nth_root 2 p ^ 2 ≤ p * 2 ^ 64 < (nth_root 2 p + 1) ^ 2) primes.
Proof. split; apply (bool_decide_unpack _); vm_compute; exact I. Qed.

(** ** Bits of a number *)

Lemma length_bits n z : length (bits n z) = n.
Proof. unfold bits. by rewrite length_fmap, length_seq. Qed.

Lemma bits_lookup n z i : (i < n)%nat → bits n z !! i = Some (Z.testbit z (Z.of_nat (n - 1 - i))).
Proof. intros Hi. unfold bits. by rewrite list_lookup_fmap, lookup_seq_lt. Qed.

(** Two lists of [n] bits are the same when they are so at every place. *)
Lemma bits_intro n (l : list bool) z :
  length l = n → (∀ i, (i < n)%nat → l !! i = Some (Z.testbit z (Z.of_nat (n - 1 - i)))) → l = bits n z.
Proof.
  intros Hl Hi. apply list_eq. intros i. destruct (decide (i < n)%nat) as [Hlt|Hge].
  - by rewrite Hi, bits_lookup.
  - rewrite !lookup_ge_None_2; [done|rewrite length_bits; lia|lia].
Qed.

Lemma bits_split n m z : bits (n + m) z = bits n (Z.shiftr z (Z.of_nat m)) ++ bits m z.
Proof.
  symmetry. apply bits_intro; [by rewrite length_app, !length_bits|]. intros i Hi.
  destruct (decide (i < n)%nat).
  - rewrite lookup_app_l, bits_lookup by (rewrite ?length_bits; lia). rewrite Z.shiftr_spec by lia. do 2 f_equal. lia.
  - rewrite lookup_app_r, length_bits, bits_lookup by (rewrite ?length_bits; lia). do 2 f_equal. lia.
Qed.

Lemma bits_ext n a b : (∀ j, 0 ≤ j < Z.of_nat n → Z.testbit a j = Z.testbit b j) → bits n a = bits n b.
Proof. intros H. apply bits_intro; [apply length_bits|]. intros i Hi. rewrite bits_lookup by done. rewrite H by lia. done. Qed.

Lemma bits_mod n z : bits n (z mod 2 ^ Z.of_nat n) = bits n z.
Proof. apply bits_ext. intros j Hj. apply Z.mod_pow2_bits_low. lia. Qed.

Lemma val_cons b l : val (b :: l) = Z.b2z b * 2 ^ Z.of_nat (length l) + val l.
Proof.
  assert (H : ∀ l acc, foldl (λ acc (x : bool), acc * 2 + Z.b2z x) acc l = acc * 2 ^ Z.of_nat (length l) + val l).
  { clear. induction l as [|b l IH]; intros acc; simpl; [unfold val; simpl; lia|].
    unfold val. simpl. rewrite !IH. rewrite Nat2Z.inj_succ, Z.pow_succ_r by lia. lia. }
  unfold val at 1. simpl. by rewrite H.
Qed.

Lemma bits_cons n z : bits (S n) z = Z.testbit z (Z.of_nat n) :: bits n z.
Proof.
  change (bits (S n) z) with (bits (1 + n) z). rewrite bits_split.
  change (bits 1 ?y) with [Z.testbit y 0]. by rewrite Z.shiftr_spec, Z.add_0_l by lia.
Qed.

Lemma val_bits n z : val (bits n z) = z mod 2 ^ Z.of_nat n.
Proof.
  induction n as [|n IH]; [unfold val; simpl; by rewrite Z.mod_1_r|].
  rewrite bits_cons, val_cons, length_bits, IH, Z.testbit_spec', Nat2Z.inj_succ, Z.pow_succ_r by lia.
  rewrite (Z.mul_comm 2), Z.rem_mul_r by lia. lia.
Qed.

(** ** The operations on words *)

Definition word (z : Z) : Prop := 0 ≤ z < 2 ^ 32.

Lemma ADD_bits a b : ADD (bits 32 a) (bits 32 b) = bits 32 (wrapping_add a b).
Proof.
  unfold ADD, wrapping_add, wrap_u32. rewrite !val_bits. f_equal.
  change (2 ^ Z.of_nat 32) with 4294967296. change (2 ^ 32) with 4294967296.
  by rewrite <- Zplus_mod.
Qed.

Lemma XOR_bits a b : XOR (bits 32 a) (bits 32 b) = bits 32 (Z.lxor a b).
Proof.
  apply bits_intro; [unfold XOR; by rewrite length_zip_with, !length_bits|]. intros i Hi.
  unfold XOR. rewrite lookup_zip_with, !bits_lookup by done. simpl. by rewrite Z.lxor_spec.
Qed.

Lemma testbit_word z j : word z → 32 ≤ j → Z.testbit z j = false.
Proof.
  intros Hz Hj. apply Z.bits_above_log2; [apply Hz|]. destruct (decide (z = 0)) as [->|]; [simpl; lia|].
  enough (Z.log2 z < 32) by lia. apply Z.log2_lt_pow2; unfold word in Hz; lia.
Qed.

Lemma testbit_rotate z n j :
  word z → 0 < n < 32 → 0 ≤ j < 32 →
  Z.testbit (rotate_right z n) j = Z.testbit z (if j + n <? 32 then j + n else j + n - 32).
Proof.
  intros Hz Hn Hj. unfold rotate_right, wrap_u32. change 4294967296 with (2 ^ 32).
  rewrite Z.lor_spec, Z.shiftr_spec, Z.mod_pow2_bits_low, Z.shiftl_spec by lia.
  destruct (Z.ltb_spec (j + n) 32).
  - rewrite (Z.testbit_neg_r z (j - (32 - n))) by lia. by rewrite orb_false_r.
  - rewrite (testbit_word z (j + n)) by (done || lia). simpl. f_equal. lia.
Qed.

Lemma ROTR_bits n z : (0 < n < 32)%nat → word z → ROTR n (bits 32 z) = bits 32 (rotate_right z (Z.of_nat n)).
Proof.
  intros Hn Hz. apply bits_intro.
  { unfold ROTR. rewrite length_app, length_drop, length_take, length_bits. lia. }
  intros i Hi. rewrite testbit_rotate by (done || lia). unfold ROTR.
  destruct (Z.ltb_spec (Z.of_nat (32 - 1 - i) + Z.of_nat n) 32).
  - rewrite lookup_app_r, length_drop, length_bits, lookup_take_lt, bits_lookup
      by (rewrite ?length_drop, ?length_bits; lia). do 2 f_equal. lia.
  - rewrite lookup_app_l, lookup_drop, bits_lookup by (rewrite ?length_drop, ?length_bits; lia). do 2 f_equal. lia.
Qed.

Lemma SHR_bits n z : (0 < n < 32)%nat → word z → SHR n (bits 32 z) = bits 32 (Z.shiftr z (Z.of_nat n)).
Proof.
  intros Hn Hz. apply bits_intro.
  { unfold SHR. rewrite length_app, length_take, length_replicate, length_bits. lia. }
  intros i Hi. rewrite Z.shiftr_spec by lia. unfold SHR. destruct (decide (i < n)%nat).
  - rewrite lookup_app_l, lookup_replicate_2, testbit_word by (rewrite ?length_replicate; done || lia). done.
  - rewrite lookup_app_r, length_replicate, lookup_take_lt, bits_lookup by (rewrite ?length_replicate; lia).
    do 2 f_equal. lia.
Qed.

Lemma Ch_bits e f g :
  Ch (bits 32 e) (bits 32 f) (bits 32 g) = bits 32 (Z.lxor (Z.land e f) (Z.land (not_u32 e) g)).
Proof.
  apply bits_intro; [unfold Ch; by rewrite length_zip_with, length_zip_with, !length_bits|]. intros i Hi. unfold Ch.
  rewrite lookup_zip_with, lookup_zip_with, !bits_lookup by done. simpl. f_equal.
  unfold not_u32. rewrite Z.lxor_spec, !Z.land_spec, Z.lxor_spec. change u32_max with (Z.ones 32).
  rewrite (Z.ones_spec_low 32) by lia. by destruct (Z.testbit e _), (Z.testbit f _), (Z.testbit g _).
Qed.

Lemma Maj_bits a b c :
  Maj (bits 32 a) (bits 32 b) (bits 32 c) = bits 32 (Z.lxor (Z.lxor (Z.land a b) (Z.land a c)) (Z.land b c)).
Proof.
  apply bits_intro; [unfold Maj; by rewrite length_zip_with, length_zip_with, !length_bits|]. intros i Hi. unfold Maj.
  rewrite lookup_zip_with, lookup_zip_with, !bits_lookup by done. simpl. f_equal.
  rewrite !Z.lxor_spec, !Z.land_spec. by destruct (Z.testbit a _), (Z.testbit b _), (Z.testbit c _).
Qed.

Lemma word_wrapping a b : word (wrapping_add a b).
Proof. unfold word, wrapping_add, wrap_u32. change (2 ^ 32) with 4294967296. apply Z.mod_pos_bound. lia. Qed.

(** ** Blocks *)

(** Any two sufficient amounts of fuel agree. *)
Lemma chunks_fuel_agree {A} n (l : list A) f g :
  (0 < n)%nat → (length l ≤ f)%nat → (length l ≤ g)%nat → chunks_fuel f n l = chunks_fuel g n l.
Proof.
  intros Hn. revert g l. induction f as [|f IH]; intros g l Hf Hg; [destruct l; [by destruct g|simpl in Hf; lia]|].
  destruct g as [|g]; [destruct l; [done|simpl in Hg; lia]|]. destruct l as [|x l]; [done|].
  cbn [chunks_fuel]. f_equal. apply IH; rewrite length_drop; simpl in *; lia.
Qed.

Lemma chunks_nil {A} n : chunks n ([] : list A) = [].
Proof. done. Qed.

Lemma chunks_app {A} n (a l : list A) : (0 < n)%nat → length a = n → chunks n (a ++ l) = a :: chunks n l.
Proof.
  intros Hn Ha. unfold chunks. rewrite (chunks_fuel_agree n (a ++ l) _ (S (length (a ++ l)))) by lia.
  destruct (a ++ l) as [|x r] eqn:E; [destruct a; [simpl in Ha; lia|done]|]. rewrite <- E. cbn [chunks_fuel]. rewrite E at 1.
  rewrite take_app_length', drop_app_length' by done. f_equal. apply chunks_fuel_agree; rewrite ?length_app; lia.
Qed.

(** A list of a multiple of [n] elements is cut into pieces of [n]. *)
Lemma chunks_concat {A} n (ls : list (list A)) :
  (0 < n)%nat → Forall (λ c, length c = n) ls → chunks n (concat ls) = ls.
Proof. intros Hn. induction 1 as [|c ls Hc _ IH]; [done|]. simpl. by rewrite chunks_app, IH. Qed.

Lemma cut {A} n k (l : list A) :
  (0 < n)%nat → length l = (k * n)%nat →
  l = concat (chunks n l) ∧ Forall (λ c, length c = n) (chunks n l) ∧ length (chunks n l) = k.
Proof.
  intros Hn. revert l. induction k as [|k IH]; intros l Hl; [by destruct l|].
  assert (Ht : length (take n l) = n) by (rewrite length_take; lia).
  rewrite <- (take_drop n l). rewrite chunks_app by done.
  destruct (IH (drop n l)) as (E & HF & Hk); [rewrite length_drop; lia|]. simpl.
  split; [by rewrite <- E|]. split; [by constructor|]. by rewrite Hk.
Qed.

Lemma length_message_bits d : length (message_bits d) = (8 * length d)%nat.
Proof. induction d as [|b d IH]; [done|]. unfold message_bits in *. rewrite bind_cons, length_app, IH, length_bits. simpl. lia. Qed.

Lemma message_bits_app a b : message_bits (a ++ b) = message_bits a ++ message_bits b.
Proof. apply bind_app. Qed.

Lemma message_bits_concat ls : message_bits (concat ls) = concat (message_bits <$> ls).
Proof. induction ls as [|c ls IH]; [done|]. simpl. by rewrite message_bits_app, IH. Qed.

Lemma chunks_bits n d k :
  (0 < n)%nat → length d = (k * n)%nat → chunks (8 * n) (message_bits d) = message_bits <$> chunks n d.
Proof.
  intros Hn Hd. destruct (cut n k d Hn Hd) as (E & HF & _). rewrite E at 1. rewrite message_bits_concat.
  apply chunks_concat; [lia|]. apply Forall_fmap. eapply Forall_impl; [exact HF|]. intros c Hc. simpl.
  by rewrite length_message_bits, Hc.
Qed.

(** ** Words and bytes *)

Definition byte (b : Z) : Prop := 0 ≤ b < 256.

Lemma bits_join n m a b : 0 ≤ b < 2 ^ Z.of_nat m → bits (n + m) (a * 2 ^ Z.of_nat m + b) = bits n a ++ bits m b.
Proof.
  intros Hb. rewrite bits_split. f_equal.
  - f_equal. rewrite Z.shiftr_div_pow2 by lia. rewrite Z.div_add_l by lia. rewrite Z.div_small by done. lia.
  - rewrite <- (bits_mod m (a * _ + b)). rewrite Z.add_comm, Z.mod_add by lia. by rewrite Z.mod_small.
Qed.

Lemma word_bits a b c d :
  byte b → byte c → byte d → message_bits [a; b; c; d] = bits 32 (from_be_bytes_u32 [a; b; c; d]).
Proof.
  intros Hb Hc Hd. change (bits 8 a ++ bits 8 b ++ bits 8 c ++ bits 8 d ++ [] =
    bits (24 + 8) ((((0 * 256 + a) * 256 + b) * 256 + c) * 2 ^ Z.of_nat 8 + d)).
  rewrite (bits_join 24 8) by done. change (bits 24 ?z) with (bits (16 + 8) z).
  change (?z * 256 + c) with (z * 2 ^ Z.of_nat 8 + c). rewrite (bits_join 16 8) by done.
  change (bits 16 ?z) with (bits (8 + 8) z). change (?z * 256 + b) with (z * 2 ^ Z.of_nat 8 + b).
  rewrite (bits_join 8 8) by done. by rewrite <- !app_assoc, app_nil_r.
Qed.

Lemma to_be_bytes_bits n z : message_bits (to_be_bytes n z) = bits (n * 8) z.
Proof.
  induction n as [|n IH]; [done|]. change (S n * 8)%nat with (8 + n * 8)%nat. rewrite bits_split, <- IH.
  unfold to_be_bytes. rewrite <- cons_seq. simpl fmap. unfold message_bits. rewrite bind_cons. f_equal.
  - replace (8 * _) with (Z.of_nat (n * 8)) by lia. apply (bits_mod 8).
  - f_equal. rewrite <- fmap_S_seq, <- list_fmap_compose. apply list_fmap_ext. intros i x _. simpl. do 2 f_equal. lia.
Qed.

Lemma word_from_be c : Forall byte c → length c = 4%nat → word (from_be_bytes_u32 c).
Proof.
  intros HF Hc. do 5 (destruct c as [|? c]; try done). unfold from_be_bytes_u32, word. simpl.
  decompose_Forall_hyps. unfold byte in *. lia.
Qed.

(** ** Padding *)

Lemma pad_zeros_spec fuel msg :
  (Z.to_nat ((56 - Z.of_nat (length msg)) mod 64) ≤ fuel)%nat →
  pad_zeros fuel msg = msg ++ replicate (Z.to_nat ((56 - Z.of_nat (length msg)) mod 64)) 0.
Proof.
  revert msg. induction fuel as [|fuel IH]; intros msg Hf; cbn [pad_zeros].
  - replace (Z.to_nat _) with O by lia. by rewrite app_nil_r.
  - destruct (Nat.eqb_spec (length msg mod 64) 56) as [E|E].
    + assert (Hk : Z.to_nat ((56 - Z.of_nat (length msg)) mod 64) = O).
      { apply (f_equal Z.of_nat) in E. rewrite Nat2Z.inj_mod in E. Z.to_euclidean_division_equations. lia. }
      rewrite Hk. cbn [replicate]. by rewrite app_nil_r.
    + assert (E' : Z.of_nat (length msg) mod 64 ≠ 56) by (intros H; apply E, Nat2Z.inj; by rewrite Nat2Z.inj_mod).
      rewrite IH; rewrite length_app; simpl length.
      * rewrite <- app_assoc. f_equal. change ([0] ++ ?l) with (0 :: l). rewrite <- replicate_S. f_equal.
        Z.to_euclidean_division_equations. lia.
      * Z.to_euclidean_division_equations. lia.
Qed.

Lemma message_bits_zeros k : message_bits (replicate k 0) = replicate (8 * k) false.
Proof.
  induction k as [|k IH]; [done|]. replace (8 * S k)%nat with (8 + 8 * k)%nat by lia.
  rewrite replicate_S, (replicate_add 8), <- IH. done.
Qed.

Lemma pad_bits d : message_bits (sha_pad d) = fips_pad (message_bits d).
Proof.
  unfold sha_pad, fips_pad. rewrite pad_zeros_spec by (Z.to_euclidean_division_equations; lia).
  rewrite !message_bits_app, to_be_bytes_bits, message_bits_zeros, length_message_bits, <- !app_assoc. f_equal.
  change (message_bits [128]) with ([true] ++ replicate 7 false). rewrite <- app_assoc. f_equal.
  rewrite app_assoc, <- replicate_add. f_equal.
  - f_equal. rewrite length_app. simpl length. Z.to_euclidean_division_equations. lia.
  - f_equal. lia.
Qed.

Lemma length_pad d : ∃ k, length (sha_pad d) = (k * 64)%nat.
Proof.
  unfold sha_pad. rewrite pad_zeros_spec by (Z.to_euclidean_division_equations; lia).
  exists (Z.to_nat ((Z.of_nat (length d) + 72) / 64)).
  rewrite !length_app, length_replicate. unfold to_be_bytes. rewrite length_fmap, length_seq. simpl length.
  Z.to_euclidean_division_equations. lia.
Qed.

Lemma pad_bytes d : Forall byte d → Forall byte (sha_pad d).
Proof.
  intros Hd. unfold sha_pad. rewrite pad_zeros_spec by (Z.to_euclidean_division_equations; lia).
  repeat apply Forall_app_2; [done|by repeat constructor|by apply Forall_replicate|].
  apply Forall_fmap, Forall_true. intros i. simpl. unfold byte. apply Z.mod_pos_bound. lia.
Qed.

(** ** The message schedule *)

Lemma lookup_fmap_bits w i : (i < length w)%nat → (bits 32 <$> w) !!! i = bits 32 (w !!! i).
Proof. intros Hi. destruct (lookup_lt_is_Some_2 _ _ Hi) as [z Hz]. by rewrite !list_lookup_total_alt, list_lookup_fmap, Hz. Qed.

Lemma lookup_take_bits w m i :
  (i < m)%nat → (m ≤ length w)%nat → (bits 32 <$> take m w) !!! i = bits 32 (w !!! i).
Proof.
  intros Hi Hm. rewrite lookup_fmap_bits by (rewrite length_take; lia). f_equal.
  by rewrite !list_lookup_total_alt, lookup_take_lt.
Qed.

Lemma word_lookup w i : Forall word w → word (w !!! i).
Proof.
  intros Hw. rewrite list_lookup_total_alt. destruct (w !! i) as [z|] eqn:E; simpl; [|done].
  by apply (Forall_lookup_1 _ _ _ _ Hw E).
Qed.

Lemma pieces_seq {A} n k (l : list A) :
  (0 < n)%nat → length l = (k * n)%nat → (λ i, take n (drop (i * n) l)) <$> seq 0 k = chunks n l.
Proof.
  intros Hn. revert l. induction k as [|k IH]; intros l Hl; [by destruct l|].
  rewrite <- cons_seq, fmap_cons.
  replace (chunks n l) with (chunks n (take n l ++ drop n l)) by (by rewrite take_drop).
  rewrite chunks_app by (done || rewrite length_take; lia). f_equal.
  rewrite <- fmap_S_seq, <- list_fmap_compose, <- IH by (rewrite length_drop; lia).
  apply list_fmap_ext. intros i x _. simpl. by rewrite drop_drop.
Qed.

Lemma chunk_words_spec c :
  length c = 64%nat → Forall byte c →
  chunks 32 (message_bits c) = bits 32 <$> chunk_words c ∧ Forall word (chunk_words c) ∧ length (chunk_words c) = 16%nat.
Proof.
  intros Hc Hb. assert (E : chunk_words c = from_be_bytes_u32 <$> chunks 4 c).
  { unfold chunk_words. rewrite <- (pieces_seq 4 16 c), <- list_fmap_compose by (done || lia). done. }
  destruct (cut 4 16 c) as (Ec & HF & Hl); [lia|done|].
  assert (HB : Forall (Forall byte) (chunks 4 c)) by (apply Forall_concat; by rewrite <- Ec).
  rewrite E, length_fmap, Hl. split; [|split; [|done]].
  - pose proof (chunks_bits 4 c 16 ltac:(lia) Hc) as H32. change (8 * 4)%nat with 32%nat in H32.
    rewrite H32, <- list_fmap_compose. apply list_fmap_ext. intros i q Hq.
    apply (Forall_lookup_1 _ _ _ _ HF) in Hq as H4. apply (Forall_lookup_1 _ _ _ _ HB) in Hq as Hqb.
    do 5 (destruct q as [|? q]; try done). decompose_Forall_hyps. by apply word_bits.
  - apply Forall_fmap. rewrite Forall_forall. intros q Hq. simpl. rewrite Forall_forall in HF, HB.
    apply word_from_be; auto.
Qed.

Lemma sigma_bits z : word z →
  sigma0 (bits 32 z) = bits 32 (Z.lxor (Z.lxor (rotate_right z 7) (rotate_right z 18)) (Z.shiftr z 3)) ∧
  sigma1 (bits 32 z) = bits 32 (Z.lxor (Z.lxor (rotate_right z 17) (rotate_right z 19)) (Z.shiftr z 10)).
Proof. intros Hz. unfold sigma0, sigma1. by rewrite !ROTR_bits, !SHR_bits, !XOR_bits by (done || lia). Qed.

Lemma Sigma_bits z : word z →
  Sigma0 (bits 32 z) = bits 32 (Z.lxor (Z.lxor (rotate_right z 2) (rotate_right z 13)) (rotate_right z 22)) ∧
  Sigma1 (bits 32 z) = bits 32 (Z.lxor (Z.lxor (rotate_right z 6) (rotate_right z 11)) (rotate_right z 25)).
Proof. intros Hz. unfold Sigma0, Sigma1. by rewrite !ROTR_bits, !XOR_bits by (done || lia). Qed.

Lemma wrapping_add_comm a b : wrapping_add a b = wrapping_add b a.
Proof. unfold wrapping_add. by rewrite Z.add_comm. Qed.

Lemma wrapping_add_assoc a b c : wrapping_add (wrapping_add a b) c = wrapping_add a (wrapping_add b c).
Proof.
  unfold wrapping_add, wrap_u32. rewrite Zplus_mod_idemp_l, Zplus_mod_idemp_r. f_equal. lia.
Qed.

(** The code adds in the opposite order. *)
Lemma wrapping_reverse a b c d :
  wrapping_add (wrapping_add (wrapping_add a b) c) d = wrapping_add (wrapping_add (wrapping_add d c) b) a.
Proof.
  rewrite (wrapping_add_comm (wrapping_add (wrapping_add d c) b) a), (wrapping_add_comm (wrapping_add d c) b), (wrapping_add_comm d c).
  by rewrite !wrapping_add_assoc.
Qed.

Lemma schedule_turns c n :
  length c = 64%nat → Forall byte c → (n ≤ 48)%nat →
  let w := foldl extend_turn (chunk_words c ++ replicate 48 0) (seq 16 n) in
  length w = 64%nat ∧ Forall word w ∧
  foldl (λ W t, W ++ [ADD (ADD (ADD (sigma1 (W !!! (t - 2)%nat)) (W !!! (t - 7)%nat))
                            (sigma0 (W !!! (t - 15)%nat))) (W !!! (t - 16)%nat)])
    (chunks 32 (message_bits c)) (seq 16 n) = bits 32 <$> take (16 + n) w.
Proof.
  intros Hc Hb. destruct (chunk_words_spec c Hc Hb) as (Hbits & Hwords & Hlen). cbv zeta.
  induction n as [|n IH]; intros Hn.
  - cbn [seq foldl]. rewrite length_app, length_replicate, Hlen. split; [done|]. split.
    + apply Forall_app_2; [done|]. by apply Forall_replicate.
    + rewrite Hbits, take_app_length' by done. done.
  - destruct IH as (Hl & Hw & HW); [lia|]. rewrite seq_S, !foldl_app. cbn [foldl]. rewrite HW. clear HW.
    set (w := foldl extend_turn _ _) in *. unfold extend_turn at 1 3. cbv zeta. fold (extend_turn).
    split; [by rewrite length_insert|]. split; [apply Forall_insert; [done|apply word_wrapping]|].
    rewrite !lookup_take_bits by lia.
    destruct (sigma_bits (w !!! (16 + n - 2)%nat)) as [_ ->]; [by apply word_lookup|].
    destruct (sigma_bits (w !!! (16 + n - 15)%nat)) as [-> _]; [by apply word_lookup|].
    rewrite !ADD_bits. replace (16 + S n)%nat with (S (16 + n)) by lia.
    rewrite (take_S_r _ _ _ (list_lookup_insert_eq w (16 + n) _ ltac:(lia))), take_insert_ge by lia.
    rewrite fmap_app. cbn [fmap list_fmap]. do 3 f_equal. apply wrapping_reverse.
Qed.

Lemma schedule_spec c :
  length c = 64%nat → Forall byte c →
  fips_schedule (message_bits c) = bits 32 <$> sha_schedule c ∧
  length (sha_schedule c) = 64%nat ∧ Forall word (sha_schedule c).
Proof.
  intros Hc Hb. unfold fips_schedule, sha_schedule. pose proof (schedule_turns c 48 Hc Hb (le_n 48)) as H. cbv zeta in H.
  revert H. generalize (foldl extend_turn (chunk_words c ++ replicate 48 0) (seq 16 48)) as w. intros w (Hl & Hw & HW).
  split; [|by split]. etrans; [exact HW|]. apply f_equal, take_ge. by rewrite Hl.
Qed.

(** ** The rounds *)

Definition state_bits (s : ShaState) : FipsState :=
  {| fa := bits 32 (sa s); fb := bits 32 (sb s); fc := bits 32 (sc s); fd := bits 32 (sd s);
     fe := bits 32 (se s); ff := bits 32 (sf s); fg := bits 32 (sg s); fh := bits 32 (sh s) |}.

Definition state_words (s : ShaState) : Prop := Forall word (sha_words s).

Lemma round_bits w s t :
  length w = 64%nat → (t < 64)%nat → state_words s →
  fips_round (bits 32 <$> w) (state_bits s) t = state_bits (sha_turn w s t) ∧ state_words (sha_turn w s t).
Proof.
  intros Hw Ht Hs. unfold state_words, sha_words in Hs. decompose_Forall_hyps. split.
  - unfold fips_round, sha_turn, state_bits. cbn [fa fb fc fd fe ff fg fh sa sb sc sd se sf sg sh].
    destruct (Sigma_bits (sa s)) as [-> _]; [done|]. destruct (Sigma_bits (se s)) as [_ ->]; [done|].
    rewrite (proj1 sha_constants), !lookup_fmap_bits by (rewrite ?Hw; done).
    by rewrite Ch_bits, Maj_bits, !ADD_bits.
  - unfold state_words, sha_words, sha_turn. cbn [sa sb sc sd se sf sg sh].
    repeat apply Forall_cons_2; try done; apply word_wrapping.
Qed.

Lemma rounds_bits w ts s :
  length w = 64%nat → Forall (λ t, t < 64)%nat ts → state_words s →
  foldl (fips_round (bits 32 <$> w)) (state_bits s) ts = state_bits (foldl (sha_turn w) s ts) ∧
  state_words (foldl (sha_turn w) s ts).
Proof.
  intros Hw Hts. revert s. induction Hts as [|t ts Ht _ IH]; intros s Hs; [done|]. cbn [foldl].
  destruct (round_bits w s t Hw Ht Hs) as [-> Hs']. by apply IH.
Qed.

Lemma load_words h : length h = 8%nat → sha_words (sha_load h) = h.
Proof. intros Hh. by do 9 (destruct h as [|? h]; try done). Qed.

Lemma load_bits h : length h = 8%nat → fips_load (bits 32 <$> h) = state_bits (sha_load h).
Proof. intros Hh. by do 9 (destruct h as [|? h]; try done). Qed.

Lemma add_words a h : zip_with ADD (bits 32 <$> a) (bits 32 <$> h) = bits 32 <$> zip_with wrapping_add h a.
Proof.
  revert h. induction a as [|x a IH]; intros [|y h]; [done..|]. rewrite !fmap_cons. cbn [zip_with].
  by rewrite fmap_cons, IH, ADD_bits, wrapping_add_comm.
Qed.

Lemma block_bits h c :
  length h = 8%nat → Forall word h → length c = 64%nat → Forall byte c →
  fips_block (bits 32 <$> h) (message_bits c) = bits 32 <$> sha_chunk h c ∧
  length (sha_chunk h c) = 8%nat ∧ Forall word (sha_chunk h c).
Proof.
  intros Hh Hw Hc Hb. destruct (schedule_spec c Hc Hb) as (Hs & Hl & _).
  assert (H0 : state_words (sha_load h)) by (unfold state_words; by rewrite load_words).
  assert (Hts : Forall (λ t, t < 64)%nat (seq 0 64)) by (apply Forall_seq; lia).
  unfold fips_block, sha_chunk. rewrite Hs, load_bits by done.
  destruct (rounds_bits _ _ _ Hl Hts H0) as [-> Hend]. split; [|split].
  - change (fips_words (state_bits ?s)) with (bits 32 <$> sha_words s). apply add_words.
  - rewrite length_zip_with, Hh. done.
  - apply Forall_zip_with_fst with (P := λ _, True); [by apply Forall_true|].
    apply Forall_true. intros y x _. apply word_wrapping.
Qed.

Lemma blocks_bits h cs :
  length h = 8%nat → Forall word h → Forall (λ c, length c = 64%nat) cs → Forall (Forall byte) cs →
  foldl fips_block (bits 32 <$> h) (message_bits <$> cs) = bits 32 <$> foldl sha_chunk h cs.
Proof.
  intros Hh Hw Hcs. revert h Hh Hw. induction Hcs as [|c cs Hc _ IH]; intros h Hh Hw Hb; [done|].
  apply Forall_cons in Hb as [Hcb Hb]. destruct (block_bits h c Hh Hw Hc Hcb) as (E & Hh' & Hw').
  rewrite fmap_cons. cbn [foldl]. rewrite E. by apply IH.
Qed.

Lemma init_words : Forall word sha_init.
Proof. apply (bool_decide_unpack _). vm_compute. exact I. Qed.

(** C16: the hash function of the measured boot is SHA-256: on every byte string it gives the
    bits that the standard (FIPS 180-4), which is written on bits here, gives for the bits of
    the string.  The constants of the standard are computed from the roots of the primes. *)
Theorem sha256_is_fips d :
  Forall byte d → message_bits (sha256 d) = fips_sha256 (message_bits d).
Proof.
  intros Hd. unfold sha256, fips_sha256. rewrite <- pad_bits. destruct (length_pad d) as [k Hk].
  destruct (cut 64 k (sha_pad d)) as (E & HF & _); [lia|done|].
  assert (HB : Forall (Forall byte) (chunks 64 (sha_pad d))).
  { apply Forall_concat. rewrite <- E. by apply pad_bytes. }
  pose proof (chunks_bits 64 (sha_pad d) k ltac:(lia) Hk) as H512. change (8 * 64)%nat with 512%nat in H512.
  rewrite H512, (proj1 (proj2 sha_constants)), blocks_bits; [|reflexivity|exact init_words|exact HF|exact HB].
  generalize (foldl sha_chunk sha_init (chunks 64 (sha_pad d))) as h. intros h.
  rewrite message_bits_concat, <- list_fmap_compose. f_equal. apply list_fmap_ext. intros i z _.
  apply (to_be_bytes_bits 4).
Qed.

Lemma sha256_is_fips_witness :
  Forall byte [97; 98; 99] ∧ message_bits (sha256 [97; 98; 99]) = fips_sha256 (message_bits [97; 98; 99]).
Proof.
  assert (H : Forall byte [97; 98; 99]) by (repeat constructor; done). split; [exact H|]. exact (sha256_is_fips _ H).
Defined.
