(* ===== verification/RamCmdline.v ===== *)
(** * The kernel command line of the initial ramdisk

    [quantra-ramfs/src/cmdline.rs], and the part of [verity.rs] that reads the command line:
    the parameters, the chain of tests that each word goes through, and the root hash in
    hexadecimal.  The chain is compared with what the table of parameters says: each
    parameter is what its last occurrence gives it. *)

From Stdlib Require Import ZArith Ascii.
From stdpp Require Import base tactics numbers list strings.
From S2P Require Import Prelude RustStr.

Local Open Scope string_scope.
Local Open Scope list_scope.
Local Open Scope Z_scope.
Local Open Scope quantra_scope.

#[local] Arguments RecordSetters.constant {E} newValue _ /.

(** ** [cmdline.rs] *)

Inductive RdBreak := PreMount | PreOverlay | PrePivot.

#[export] Instance RdBreak_eq_dec : EqDecision RdBreak.
Proof. solve_decision. Defined.

Record Cmdline := {
  root : option string;
  root_fstype : option string;
  root_flags : option string;
  rootwait : option Z;
  init : option string;
  loop_image : option string;
  loop_fstype : option string;
  luks_name : option string;
  luks_keyfile : option string;
  verity_enabled : bool;
  raw : string;
  rd_break : option RdBreak;
  rd_shell : bool;
  rd_rescue : bool;
  fsck_enabled : bool;
  tpm2_enabled : bool;
  udev_enabled : bool;
  quiet : bool;
  rd_md : bool;
  rd_md_uuid : option string;
  rd_lvm : bool;
  rd_lvm_vg : option string;
  rd_multipath : bool;
  ip_dhcp : bool;
  ip_iface : option string;
  ip_static : option string;
  luks_pkcs11_uri : option string;
  secure_boot_check : bool;
  iscsi_initiator : option string;
  iscsi_target_name : option string;
  iscsi_target_ip : option string;
  iscsi_target_port : Z;
  nbd : option string;
  rd_http_url : option string;
  ipv6_slaac : bool;
  zfs_pool : option string;
  splash : bool;
  plymouth_theme : option string;
  rd_vconsole_keymap : option string;
  stratis_pool_uuid : option string;
}.

(** The local variables of the loop over the words. *)
Record Vars := {
  v_root : option string;
  v_root_fstype : option string;
  v_root_flags : option string;
  v_rootwait : option Z;
  v_init : option string;
  v_loop_image : option string;
  v_loop_fstype : option string;
  v_luks_name : option string;
  v_luks_keyfile : option string;
  v_verity_enabled : bool;
  v_rd_break : option RdBreak;
  v_rd_shell : bool;
  v_rd_rescue : bool;
  v_fsck_enabled : bool;
  v_tpm2_enabled : bool;
  v_udev_enabled : bool;
  v_quiet : bool;
}.

Definition vars0 : Vars := {|
  v_root := None; v_root_fstype := None; v_root_flags := None; v_rootwait := None; v_init := None;
  v_loop_image := None; v_loop_fstype := None; v_luks_name := None; v_luks_keyfile := None;
  v_verity_enabled := false; v_rd_break := None; v_rd_shell := false; v_rd_rescue := false;
  v_fsck_enabled := true; v_tpm2_enabled := true; v_udev_enabled := true; v_quiet := false
|}.

(** [if let Some(v) = tok.strip_prefix(p) { .. } else { .. }]. *)
Definition if_prefix {A} (p tok : string) (yes : string → A) (no : A) : A :=
  match strip_prefix p tok with Some v => yes v | None => no end.

Definition break_phase (v : string) : option RdBreak :=
  match v with
  | "pre-mount" => Some PreMount
  | "pre-overlay" => Some PreOverlay
  | "pre-pivot" => Some PrePivot
  | _ => None
  end.

(** One turn of the loop. *)
Definition parse_token (x : Vars) (tok : string) : Vars :=
  (if_prefix "root=" tok (λ v, x <|v_root := Some v|>) (
  if_prefix "rootfstype=" tok (λ v, x <|v_root_fstype := Some v|>) (
  if_prefix "rootflags=" tok (λ v, x <|v_root_flags := Some v|>) (
  if tok =? "rootwait" then x <|v_rootwait := Some 0|> else
  if_prefix "rootwait=" tok (λ v, x <|v_rootwait := parse_uint u32_max v|>) (
  if_prefix "init=" tok (λ v, x <|v_init := Some v|>) (
  if_prefix "loop=" tok (λ v, x <|v_loop_image := Some v|>) (
  if_prefix "loopfstype=" tok (λ v, x <|v_loop_fstype := Some v|>) (
  if_prefix "luks=" tok (λ v, x <|v_luks_name := Some v|>) (
  if_prefix "luks_keyfile=" tok (λ v, x <|v_luks_keyfile := Some v|>) (
  if tok =? "rd.verity=1" then x <|v_verity_enabled := true|> else
  if_prefix "rd.break=" tok
    (λ v, match break_phase v with Some b => x <|v_rd_break := Some b|> | None => x end) (
  if tok =? "rd.shell" then x <|v_rd_shell := true|> else
  if (tok =? "rd.rescue") || (tok =? "single") || (tok =? "s") then x <|v_rd_rescue := true|> else
  if tok =? "rd.fsck=0" then x <|v_fsck_enabled := false|> else
  if tok =? "rd.tpm2=0" then x <|v_tpm2_enabled := false|> else
  if tok =? "rd.udev=0" then x <|v_udev_enabled := false|> else
  if tok =? "quiet" then x <|v_quiet := true|> else x)))))))))))%string.

(** [iter().find_map(f)] and [iter().any(|t| t == w)]. *)
Fixpoint find_map {A B} (f : A → option B) (l : list A) : option B :=
  match l with
  | [] => None
  | a :: l => match f a with Some b => Some b | None => find_map f l end
  end.

Definition has_token (w : string) (toks : list string) : bool := existsb (String.eqb w) toks.

Definition iface_token (t : string) : option string :=
  if contains ":dhcp" t && negb (t =? "ip=dhcp")%string
  then option_map (trim_end_matches ":dhcp") (strip_prefix "ip=" t)
  else None.

Definition static_token (t : string) : option string :=
  match strip_prefix "ip=" t with
  | Some v => if negb (contains "dhcp" v) && contains ":" v then Some v else None
  | None => None
  end.

Definition port_token (t : string) : option Z :=
  match strip_prefix "rd.iscsi.target.port=" t with Some v => parse_uint u16_max v | None => None end.

(** [parse], on what [/proc/cmdline] holds. *)
Definition parse_text (text : string) : Cmdline :=
  let toks := split_whitespace text in
  let x := foldl parse_token vars0 toks in
  {| root := v_root x; root_fstype := v_root_fstype x; root_flags := v_root_flags x;
     rootwait := v_rootwait x; init := v_init x; loop_image := v_loop_image x;
     loop_fstype := v_loop_fstype x; luks_name := v_luks_name x; luks_keyfile := v_luks_keyfile x;
     verity_enabled := v_verity_enabled x; raw := trim text;
     rd_break := v_rd_break x; rd_shell := v_rd_shell x; rd_rescue := v_rd_rescue x;
     fsck_enabled := v_fsck_enabled x; tpm2_enabled := v_tpm2_enabled x;
     udev_enabled := v_udev_enabled x; quiet := v_quiet x;
     rd_md := has_token "rd.md=1" toks;
     rd_md_uuid := find_map (strip_prefix "rd.md.uuid=") toks;
     rd_lvm := has_token "rd.lvm=1" toks;
     rd_lvm_vg := find_map (strip_prefix "rd.lvm.vg=") toks;
     rd_multipath := has_token "rd.multipath=1" toks;
     ip_dhcp := existsb (λ t, (t =? "ip=dhcp")%string || ends_with ":dhcp" t) toks;
     ip_iface := find_map iface_token toks;
     ip_static := find_map static_token toks;
     luks_pkcs11_uri := find_map (strip_prefix "rd.luks.pkcs11-uri=") toks;
     secure_boot_check := has_token "rd.secure-boot=1" toks;
     iscsi_initiator := find_map (strip_prefix "rd.iscsi.initiator=") toks;
     iscsi_target_name := find_map (strip_prefix "rd.iscsi.target.name=") toks;
     iscsi_target_ip := find_map (strip_prefix "rd.iscsi.target.ip=") toks;
     iscsi_target_port := default 3260 (find_map port_token toks);
     nbd := find_map (strip_prefix "nbd=") toks;
     rd_http_url := find_map (strip_prefix "rd.http.url=") toks;
     ipv6_slaac := existsb (λ t, (t =? "ipv6=dhcpv6")%string || (t =? "ipv6=slaac")%string) toks;
     zfs_pool := find_map (strip_prefix "zfs.pool=") toks;
     splash := has_token "splash" toks;
     plymouth_theme := find_map (strip_prefix "plymouth.theme=") toks;
     rd_vconsole_keymap := find_map (strip_prefix "rd.vconsole.keymap=") toks;
     stratis_pool_uuid := find_map (strip_prefix "rd.stratis.uuid=") toks |}.

(** ** What the table of parameters says *)

(** The last word that a parameter takes decides. *)
Definition last_of {A} (f : string → option A) (toks : list string) : option A := last (omap f toks).

Definition rootwait_token (t : string) : option (option Z) :=
  if (t =? "rootwait")%string then Some (Some 0)
  else match strip_prefix "rootwait=" t with Some v => Some (parse_uint u32_max v) | None => None end.

Definition break_token (t : string) : option RdBreak :=
  match strip_prefix "rd.break=" t with Some v => break_phase v | None => None end.

(** The variables, each by a search of its own. *)
Definition vars_spec (toks : list string) : Vars := {|
  v_root := last_of (strip_prefix "root=") toks;
  v_root_fstype := last_of (strip_prefix "rootfstype=") toks;
  v_root_flags := last_of (strip_prefix "rootflags=") toks;
  v_rootwait := default None (last_of rootwait_token toks);
  v_init := last_of (strip_prefix "init=") toks;
  v_loop_image := last_of (strip_prefix "loop=") toks;
  v_loop_fstype := last_of (strip_prefix "loopfstype=") toks;
  v_luks_name := last_of (strip_prefix "luks=") toks;
  v_luks_keyfile := last_of (strip_prefix "luks_keyfile=") toks;
  v_verity_enabled := has_token "rd.verity=1" toks;
  v_rd_break := last_of break_token toks;
  v_rd_shell := has_token "rd.shell" toks;
  v_rd_rescue := has_token "rd.rescue" toks || has_token "single" toks || has_token "s" toks;
  v_fsck_enabled := negb (has_token "rd.fsck=0" toks);
  v_tpm2_enabled := negb (has_token "rd.tpm2=0" toks);
  v_udev_enabled := negb (has_token "rd.udev=0" toks);
  v_quiet := has_token "quiet" toks
|}.

Lemma last_of_snoc {A} (f : string → option A) l t :
  last_of f (l ++ [t]) = match f t with Some a => Some a | None => last_of f l end.
Proof.
  unfold last_of. rewrite omap_app. simpl. destruct (f t); simpl; [apply last_snoc|by rewrite app_nil_r].
Qed.

Lemma has_token_snoc w l t : has_token w (l ++ [t]) = has_token w l || String.eqb w t.
Proof. unfold has_token. rewrite existsb_app. simpl. by rewrite orb_false_r. Qed.

Lemma has_token_elem w l : has_token w l = true ↔ w ∈ l.
Proof.
  unfold has_token. rewrite existsb_exists. split.
  - intros (x & Hx & ->%String.eqb_eq). by apply list_elem_of_In.
  - intros H. exists w. split; [by apply list_elem_of_In|apply String.eqb_refl].
Qed.

Lemma prefix_cases p tok : (∃ v, tok = p +:+ v) ∨ strip_prefix p tok = None.
Proof.
  destruct (strip_prefix p tok) as [v|] eqn:E; [left|by right]. exists v. by apply strip_prefix_Some.
Qed.

Lemma parse_tokens_spec toks : foldl parse_token vars0 toks = vars_spec toks.
Proof.
  induction toks as [|t l IH] using rev_ind; [done|].
  rewrite foldl_app, IH. cbn [foldl]. unfold vars_spec. rewrite !last_of_snoc, !has_token_snoc.
  generalize (last_of (strip_prefix "root=") l). 
  generalize (last_of (strip_prefix "rootfstype=") l). 
  generalize (last_of (strip_prefix "rootflags=") l). 
  generalize (last_of (strip_prefix "init=") l). 
  generalize (last_of (strip_prefix "loop=") l). 
  generalize (last_of (strip_prefix "loopfstype=") l). 
  generalize (last_of (strip_prefix "luks=") l). 
  generalize (last_of (strip_prefix "luks_keyfile=") l). 
  generalize (last_of rootwait_token l), (last_of break_token l).
  generalize (has_token "rd.verity=1" l), (has_token "rd.shell" l), (has_token "rd.rescue" l), (has_token "single" l), (has_token "s" l),
    (has_token "rd.fsck=0" l), (has_token "rd.tpm2=0" l), (has_token "rd.udev=0" l), (has_token "quiet" l). clear IH l.
  intros.
  unfold parse_token, if_prefix, rootwait_token, break_token.
  repeat match goal with |- context [strip_prefix ?p t] =>
    destruct (prefix_cases p t) as [[v ->]|E]; [simpl; rewrite ?orb_false_r; reflexivity|rewrite ?E; clear E] end.
  destruct (prefix_cases "rd.break=" t) as [[v ->]|E].
  { simpl. destruct (break_phase v); rewrite ?orb_false_r; reflexivity. }
  rewrite E. clear E.
  repeat match goal with |- context [String.eqb t ?w] =>
    destruct (String.eqb_spec t w) as [->|Hn];
    [simpl; rewrite ?orb_true_r, ?orb_false_r; reflexivity
    |rewrite ?(proj2 (String.eqb_neq w t)) by congruence; clear Hn] end.
  rewrite ?orb_false_r. reflexivity.
Qed.

(** ** [verity.rs]: the parameters and the root hash *)

Definition hex_nibble (b : ascii) : result string Z :=
  let n := Z.of_nat (nat_of_ascii b) in
  if (48 <=? n) && (n <=? 57) then Ok (n - 48)
  else if (97 <=? n) && (n <=? 102) then Ok (n - 97 + 10)
  else if (65 <=? n) && (n <=? 70) then Ok (n - 65 + 10)
  else Err ("invalid hex char: " +:+ String b "").

(** The loop over [chunks(2)]; the length is even. *)
Fixpoint decode_pairs (hex : string) : result string (list Z) :=
  match hex with
  | String a (String b hex) =>
      let? hi := hex_nibble a in
      let? lo := hex_nibble b in
      let? rest := decode_pairs hex in
      Ok (Z.lor (wrap_u8 (Z.shiftl hi 4)) lo :: rest)
  | _ => Ok []
  end.

Definition decode_roothash (hex : string) : result string (list Z) :=
  let hex := trim hex in
  if negb (String.length hex =? 64)%nat
  then Err ("roothash must be 64 hex chars (32 bytes), got " +:+ show_nat (String.length hex) +:+ " chars")
  else decode_pairs hex.

Definition HEX : list ascii := String.list_ascii_of_string "0123456789abcdef".

Fixpoint encode_hex (bytes : list Z) : string :=
  match bytes with
  | [] => ""
  | b :: bytes =>
      String (nth (Z.to_nat (Z.shiftr b 4)) HEX "0"%char)
        (String (nth (Z.to_nat (Z.land b 0xf)) HEX "0"%char) (encode_hex bytes))
  end.

Record VerityConfig := {
  data_device : string;
  hash_device : string;
  roothash : list Z;
  hash_offset : Z;
  dm_name : string;
}.

(** The local variables of the loop. *)
Record VerityVars := {
  vv_data : option string;
  vv_hash : option string;
  vv_roothash : option string;
  vv_offset : Z;
}.

Definition verity_token (x : VerityVars) (tok : string) : VerityVars :=
  if_prefix "rd.verity.data=" tok (λ v, x <|vv_data := Some v|>) (
  if_prefix "rd.verity.hash=" tok (λ v, x <|vv_hash := Some v|>) (
  if_prefix "rd.verity.roothash=" tok (λ v, x <|vv_roothash := Some v|>) (
  if_prefix "rd.verity.hashoffset=" tok (λ v, x <|vv_offset := default 0 (parse_uint u64_max v)|>) x))).

Definition parse_verity_cmdline (cmdline : string) : option (result string VerityConfig) :=
  let toks := split_whitespace cmdline in
  if negb (has_token "rd.verity=1" toks) then None
  else
    let x := foldl verity_token {| vv_data := None; vv_hash := None; vv_roothash := None; vv_offset := 0 |} toks in
    match vv_data x with
    | None => Some (Err "rd.verity.data= missing")
    | Some data =>
        let hash := default data (vv_hash x) in
        match vv_roothash x with
        | None => Some (Err "rd.verity.roothash= missing")
        | Some hex =>
            match decode_roothash hex with
            | Err e => Some (Err e)
            | Ok h => Some (Ok {| data_device := data; hash_device := hash; roothash := h;
                                  hash_offset := vv_offset x; dm_name := "zainium-verity" |})
            end
        end
    end.

(** A hash as the command line gives it. *)
Definition is_byte (b : Z) : Prop := 0 ≤ b < 256.

Definition lower_hex : list ascii → list ascii := map to_lower.

Lemma byte_cases (P : Z → Prop) : Forall P (Z.of_nat <$> seq 0 256) → ∀ b, is_byte b → P b.
Proof.
  intros H b Hb. rewrite Forall_forall in H. apply H. apply list_elem_of_fmap. exists (Z.to_nat b).
  unfold is_byte in Hb. rewrite elem_of_seq. lia.
Qed.

Lemma encode_byte b : is_byte b →
  hex_nibble (nth (Z.to_nat (Z.shiftr b 4)) HEX "0"%char) = Ok (Z.shiftr b 4) ∧
  hex_nibble (nth (Z.to_nat (Z.land b 0xf)) HEX "0"%char) = Ok (Z.land b 0xf) ∧
  Z.lor (wrap_u8 (Z.shiftl (Z.shiftr b 4) 4)) (Z.land b 0xf) = b.
Proof. revert b. apply byte_cases. apply (bool_decide_unpack _). vm_compute. exact I. Qed.

Lemma decode_encode bytes : Forall is_byte bytes → decode_pairs (encode_hex bytes) = Ok bytes.
Proof.
  induction 1 as [|b l Hb Hl IH]; [done|]. cbn [encode_hex decode_pairs].
  destruct (encode_byte b Hb) as (-> & -> & Hv). cbn [result_bind]. rewrite IH. cbn [result_bind]. by rewrite Hv.
Qed.

Lemma length_encode_hex bytes : String.length (encode_hex bytes) = (2 * length bytes)%nat.
Proof. induction bytes; simpl; lia. Qed.

(** A nibble that is read is written back as the same letter, in lower case. *)
Lemma nibble_back a hi : hex_nibble a = Ok hi → 0 ≤ hi < 16 ∧ nth (Z.to_nat hi) HEX "0"%char = to_lower a.
Proof.
  assert (H : ∀ n, (n < 256)%nat → ∀ hi, hex_nibble (ascii_of_nat n) = Ok hi →
            0 ≤ hi < 16 ∧ nth (Z.to_nat hi) HEX "0"%char = to_lower (ascii_of_nat n)).
  { intros n Hn.
    assert (H : forallb (λ n, match hex_nibble (ascii_of_nat n) with Ok hi =>
      bool_decide (0 ≤ hi < 16 ∧ nth (Z.to_nat hi) HEX "0"%char = to_lower (ascii_of_nat n)) | Err _ => true end)
      (seq 0 256) = true) by (vm_compute; reflexivity).
    rewrite forallb_forall in H. specialize (H n ltac:(apply in_seq; lia)). intros h Hh. rewrite Hh in H.
    by apply bool_decide_eq_true in H. }
  intros Ha. rewrite <- (ascii_nat_embedding a) in Ha |- *. apply H; [apply nat_ascii_bounded|done].
Qed.

Lemma byte_of_nibbles hi lo : 0 ≤ hi < 16 → 0 ≤ lo < 16 →
  let b := Z.lor (wrap_u8 (Z.shiftl hi 4)) lo in is_byte b ∧ Z.shiftr b 4 = hi ∧ Z.land b 0xf = lo.
Proof.
  intros Hhi Hlo.
  assert (H : Forall (λ hi, Forall (λ lo, (0 ≤ Z.lor (wrap_u8 (Z.shiftl hi 4)) lo < 256) ∧
      Z.shiftr (Z.lor (wrap_u8 (Z.shiftl hi 4)) lo) 4 = hi ∧ Z.land (Z.lor (wrap_u8 (Z.shiftl hi 4)) lo) 0xf = lo)
      (Z.of_nat <$> seq 0 16)) (Z.of_nat <$> seq 0 16)) by (apply (bool_decide_unpack _); vm_compute; exact I).
  assert (Hin : ∀ z, 0 ≤ z < 16 → z ∈ Z.of_nat <$> seq 0 16).
  { intros z Hz. apply list_elem_of_fmap. exists (Z.to_nat z). rewrite elem_of_seq. lia. }
  rewrite Forall_forall in H. specialize (H hi (Hin hi Hhi)). rewrite Forall_forall in H. exact (H lo (Hin lo Hlo)).
Qed.

Lemma decode_pairs_back n hex bytes :
  (String.length hex = 2 * n)%nat → decode_pairs hex = Ok bytes →
  length bytes = n ∧ Forall is_byte bytes ∧ encode_hex bytes = to_ascii_lowercase hex.
Proof.
  revert hex bytes. induction n as [|n IH]; intros hex bytes Hn.
  { destruct hex; [|simpl in Hn; lia]. simpl. intros [= <-]. by repeat split. }
  destruct hex as [|a [|b hex]]; simpl in Hn; [lia|lia|]. cbn [decode_pairs].
  destruct (hex_nibble a) as [hi|] eqn:Ha; [|done]. destruct (hex_nibble b) as [lo|] eqn:Hb; [|done].
  destruct (decode_pairs hex) as [rest|] eqn:Hr; [|done]. cbn [result_bind]. intros [= <-].
  apply nibble_back in Ha as [Hhi Ha]. apply nibble_back in Hb as [Hlo Hb].
  destruct (byte_of_nibbles hi lo Hhi Hlo) as (Hby & H1 & H2).
  destruct (IH hex rest) as (Hlen & Hf & He); [lia|done|].
  split; [simpl; lia|]. split; [by constructor|]. cbn [encode_hex]. rewrite H1, H2, Ha, Hb, He. done.
Qed.

Definition roothash_ok (h : list Z) : Prop := length h = 32%nat ∧ Forall is_byte h.

Definition hex_char (c : ascii) : bool := is_ok (hex_nibble c).

Lemma hex_char_not_space c : hex_char c = true → is_whitespace c = false.
Proof.
  unfold hex_char, hex_nibble, is_whitespace. set (n := nat_of_ascii c). intros H.
  destruct ((9 <=? n)%nat && (n <=? 13)%nat || (n =? 32)%nat) eqn:E; [exfalso|done].
  assert (Hn : (n ≤ 32)%nat).
  { apply orb_true_iff in E as [E|E]; [apply andb_true_iff in E as [_ E]; apply Nat.leb_le in E; lia|apply Nat.eqb_eq in E; lia]. }
  revert H. repeat match goal with |- context [(?a <=? Z.of_nat n)] => rewrite (proj2 (Z.leb_gt a (Z.of_nat n))) by lia end. done.
Qed.

Lemma encode_hex_chars bytes : Forall is_byte bytes → str_forall hex_char (encode_hex bytes) = true.
Proof.
  induction 1 as [|b l Hb Hl IH]; [done|]. cbn [encode_hex str_forall]. destruct (encode_byte b Hb) as (H1 & H2 & _).
  unfold hex_char in *. by rewrite H1, H2, IH.
Qed.

Lemma trim_hex s : str_forall hex_char s = true → trim s = s.
Proof.
  intros H. apply trim_by_none. eapply str_forall_impl; [|exact H].
  intros c Hc. simpl. by rewrite (hex_char_not_space c Hc).
Qed.

Lemma verity_tokens_spec toks x :
  vv_data x = None → vv_hash x = None → vv_roothash x = None → vv_offset x = 0 →
  let y := foldl verity_token x toks in
  vv_data y = last_of (strip_prefix "rd.verity.data=") toks ∧
  vv_hash y = last_of (strip_prefix "rd.verity.hash=") toks ∧
  vv_roothash y = last_of (strip_prefix "rd.verity.roothash=") toks ∧
  vv_offset y = default 0 (last_of (strip_prefix "rd.verity.hashoffset=") toks ≫= parse_uint u64_max).
Proof.
  intros H1 H2 H3 H4. cbv zeta. induction toks as [|t l IH] using rev_ind; [by cbn; rewrite H1, H2, H3, H4|].
  rewrite foldl_app, !last_of_snoc. cbn [foldl]. destruct IH as (<- & <- & <- & IH).
  revert IH. generalize (foldl verity_token x l). intros y IH. unfold verity_token, if_prefix.
  repeat match goal with |- context [strip_prefix ?p t] =>
    destruct (prefix_cases p t) as [[v ->]|E]; [simpl; rewrite ?IH; by repeat split|rewrite ?E; clear E] end.
  by repeat split.
Qed.

(** ** What is shown *)

(** C30: The parameters that [parse] reads through its chain of tests are those that the table
    of parameters says: each is given by its own last occurrence, whatever the other words
    are, and a flag is set exactly when its word occurs. *)
Theorem cmdline_parameters (text : string) :
  let toks := split_whitespace text in
  let c := parse_text text in
  root c = last_of (strip_prefix "root=") toks ∧
  root_fstype c = last_of (strip_prefix "rootfstype=") toks ∧
  root_flags c = last_of (strip_prefix "rootflags=") toks ∧
  rootwait c = default None (last_of rootwait_token toks) ∧
  init c = last_of (strip_prefix "init=") toks ∧
  loop_image c = last_of (strip_prefix "loop=") toks ∧
  loop_fstype c = last_of (strip_prefix "loopfstype=") toks ∧
  luks_name c = last_of (strip_prefix "luks=") toks ∧
  luks_keyfile c = last_of (strip_prefix "luks_keyfile=") toks ∧
  rd_break c = last_of break_token toks ∧
  (verity_enabled c = true ↔ "rd.verity=1" ∈ toks) ∧
  (rd_shell c = true ↔ "rd.shell" ∈ toks) ∧
  (rd_rescue c = true ↔ "rd.rescue" ∈ toks ∨ "single" ∈ toks ∨ "s" ∈ toks) ∧
  (fsck_enabled c = false ↔ "rd.fsck=0" ∈ toks) ∧
  (tpm2_enabled c = false ↔ "rd.tpm2=0" ∈ toks) ∧
  (udev_enabled c = false ↔ "rd.udev=0" ∈ toks) ∧
  (quiet c = true ↔ "quiet" ∈ toks).
Proof.
  cbv zeta. unfold parse_text. rewrite parse_tokens_spec. simpl.
  rewrite !orb_true_iff, !negb_false_iff, !has_token_elem. repeat split; tauto.
Qed.

(** A root hash of 32 bytes is read back from its hexadecimal form, and whatever text is
    accepted is the hexadecimal form, in any case, of the 32 bytes that it gives. *)
Theorem roothash_roundtrip :
  (∀ h, roothash_ok h → decode_roothash (encode_hex h) = Ok h) ∧
  (∀ s h, decode_roothash s = Ok h → roothash_ok h ∧ encode_hex h = to_ascii_lowercase (trim s)).
Proof.
  split.
  - intros h [Hl Hb]. unfold decode_roothash. rewrite trim_hex by (by apply encode_hex_chars).
    rewrite length_encode_hex, Hl. simpl. by apply decode_encode.
  - intros s h. unfold decode_roothash. destruct (Nat.eqb_spec (String.length (trim s)) 64) as [Hl|]; simpl; [|done].
    intros Hd. destruct (decode_pairs_back 32 (trim s) h Hl Hd) as (H1 & H2 & H3). by repeat split.
Qed.

Lemma roothash_roundtrip_witness :
  decode_roothash (encode_hex (replicate 32 171)) = Ok (replicate 32 171) ∧
  encode_hex (replicate 32 171) = to_ascii_lowercase (trim (encode_hex (replicate 32 171))).
Proof.
  assert (H : decode_roothash (encode_hex (replicate 32 171)) = Ok (replicate 32 171)).
  { apply roothash_roundtrip. split; [reflexivity|]. apply Forall_replicate. unfold is_byte. lia. }
  split; [exact H|]. by apply roothash_roundtrip in H.
Defined.
