(* ===== verification/Ramdisk.v ===== *)
(** * What the initial ramdisk asks of the system

    The operations of [quantra-ramfs]: those of [Os], mounts and namespaces, ioctls, the TPM's
    descriptor, the console and the programs it runs.  The boot helpers whose code is not
    modelled ([udev.rs], [plymouth.rs], [raid.rs], [network_boot.rs]) are operations too. *)

From Stdlib Require Import ZArith.
From stdpp Require Import base tactics numbers list strings.
From S2P Require Import Prelude RustStr Types Effects Os.

Local Open Scope string_scope.
Local Open Scope list_scope.
Local Open Scope Z_scope.
Local Open Scope prog_scope.

Inductive MsFlag := MS_RDONLY | MS_NOSUID | MS_NODEV | MS_NOEXEC | MS_BIND | MS_MOVE.

#[export] Instance MsFlag_eq_dec : EqDecision MsFlag.
Proof. solve_decision. Defined.

(** An [Errno] of [nix]: its number and its text. *)
Record Errno := { errno : Z; strerror : string }.

(** The third argument of [ioctl]. *)
Inductive IoctlArg := NoArg | FdArg (fd : Z) | BytesArg (b : list Z).

Inductive FileKind := SymlinkKind | DirKind | OtherKind.

Record IscsiTarget := {
  initiator_iqn : string;
  target_iqn : string;
  target_ip : string;
  target_port : Z;
}.

(** The calls of the other modules; an answer is what [main] looks at. *)
Inductive Helper : Type → Type :=
| Plymouth_is_enabled : Helper bool
| Plymouth_setup_kms_framebuffer : Helper unit
| Plymouth_start : Helper unit
| Plymouth_setup_initrd_vconsole : Helper unit
| Plymouth_check_secure_boot : Helper unit
| Plymouth_root_mounted : Helper unit
| Plymouth_update_status (s : string) : Helper unit
| Plymouth_handoff_to_init : Helper unit
| Udev_settle (ms : Z) : Helper Z
| Udev_create_disk_symlinks : Helper Z
| Dhcp_acquire (iface : string) (secs : Z) : Helper bool
| Dhcp_any_interface (secs : Z) : Helper bool
| List_interfaces : Helper (list string)
| Enable_ipv6_slaac (iface : string) : Helper unit
| Assemble_raid (uuid : option string) : Helper (result string Z)
| Wait_for_raid_sync (secs : Z) : Helper unit
| Activate_lvm (vg : option string) : Helper (result string Z)
| Activate_multipath : Helper (result string unit)
| Unlock_stratis_pool (uuid : option string) : Helper unit
| Connect_iscsi (t : IscsiTarget) : Helper (result string string)
| Connect_nbd (host : string) (port : Z) (name : option string) : Helper (result string string).

Inductive RamOp : Type → Type :=
| ROs {X} (e : Os X) : RamOp X
| RHelper {X} (h : Helper X) : RamOp X
(* mounts *)
| Mount (src : option string) (target : string) (fstype : option string) (flags : list MsFlag)
    (data : option string) : RamOp (result Errno unit)
| Umount_detach (target : string) : RamOp (result Errno unit)
| PivotRoot (new_root put_old : string) : RamOp (result Errno unit)
| Chroot (path : string) : RamOp (result Errno unit)
| Chdir (path : string) : RamOp (result Errno unit)
(* [execv] returns only when it fails *)
| Execv (path : string) (argv : list string) : RamOp Errno
(* files and descriptors *)
| SymlinkMetadata (path : string) : RamOp (result string FileKind)
| OpenRead (path : string) : RamOp (result string Z)
| ReadExact (fd : Z) (n : nat) : RamOp (result string (list Z))
| ReadToEnd (fd : Z) : RamOp (result string (list Z))
| ReadFile (path : string) : RamOp (result string (list Z))
| WriteFd (fd : Z) (bytes : list Z) : RamOp Z
| ReadFd (fd : Z) (n : nat) : RamOp (option (list Z))
| Ioctl (fd request : Z) (arg : IoctlArg) : RamOp Z
| BlkGetSize64 (fd : Z) : RamOp (option Z)
| Mknod (path : string) (mode major minor : Z) : RamOp Z
(* [/dev/console] *)
| OpenConsole : RamOp (result string Z)
| ConsoleWrite (fd : Z) (text : string) : RamOp (result string unit)
| ConsoleEcho (fd : Z) (on : bool) : RamOp unit
| ConsoleReadByte (fd : Z) : RamOp (option Z)
(* programs *)
| SpawnPiped (cmd : string) (args : list string) : RamOp (result string Z)
| WriteStdin (child : Z) (bytes : list Z) : RamOp unit
| WaitChild (child : Z) : RamOp (result string (option Z))
(* the end *)
| SyncDisks : RamOp unit
| RebootSystem : RamOp unit.

Definition ros {X} (e : Os X) : prog RamOp X := trigger (ROs e).
Definition helper {X} (h : Helper X) : prog RamOp X := trigger (RHelper h).

(** [r.map_err(f)?] in the middle of a function. *)
Definition or_err {E E' A} (f : E → E') (p : prog RamOp (result E A)) : prog RamOp (result E' A) :=
  let* r := p in Ret (map_err f r).

(** A descriptor behind an [FdGuard], which closes it. *)
Definition with_fd {A} (fd : Z) (p : prog RamOp A) : prog RamOp A :=
  let* r := p in
  ros (CloseFd fd);*
  Ret r.

(** What the [Display] of the last error adds. *)
Definition os_err {A} (prefix : string) : prog RamOp (result string A) :=
  let* e := ros LastOsError in Ret (Err (prefix +:+ e)).

Definition OPEN_RDONLY : Z := 524288.
Definition OPEN_RDWR : Z := 2 + 524288.

Definition path_exists (p : string) : prog RamOp bool := ros (PathExists p).

(** [iter().find(|p| Path::new(p).exists())]. *)
Fixpoint find_existing (l : list string) : prog RamOp (option string) :=
  match l with
  | [] => Ret None
  | p :: l => let* b := path_exists p in if b : bool then Ret (Some p) else find_existing l
  end.

(** How [main] ends when nothing was executed: in the emergency shell, or waiting for the
    reboot it asked for. *)
Inductive BootEnd := EmergencyShell (reason : string) | Rebooting.
