(* ===== verification/RamVerity.v ===== *)
(** * dm-verity in the initial ramdisk

    [quantra-ramfs/src/verity.rs]: the device-mapper requests, byte by byte, and
    [setup_verity_device] of [main.rs]. *)

From Stdlib Require Import ZArith Ascii.
From stdpp Require Import base tactics numbers list strings.
From S2P Require Import Prelude RustStr Types Effects Os RamCmdline Ramdisk.

Local Open Scope string_scope.
Local Open Scope list_scope.
Local Open Scope Z_scope.
Local Open Scope prog_scope.

Definition DM_IOCTL : Z := 0xfd.
Definition DM_VERSION_CMD : Z := 0.
Definition DM_DEV_CREATE_CMD : Z := 3.
Definition DM_DEV_SUSPEND_CMD : Z := 5.
Definition DM_DEV_REMOVE_CMD : Z := 6.
Definition DM_TABLE_LOAD_CMD : Z := 9.
Definition DM_IOCTL_SIZE : Z := 312.

Definition DM_IOWR (nr : Z) : Z :=
  let dir := Z.shiftl 3 30 in
  let ty := Z.shiftl DM_IOCTL 8 in
  let size := Z.shiftl DM_IOCTL_SIZE 16 in
  Z.lor (Z.lor (Z.lor dir ty) nr) size.

(** The fields that the code sets; the others are zero. *)
Record DmIoctl := {
  version : list Z;
  data_size : Z;
  data_start : Z;
  target_count : Z;
  ioc_flags : Z;
  ioc_name : list Z;
}.

Definition zero_bytes (n : nat) : list Z := replicate n 0.
Definition u64_le (z : Z) : list Z := to_le_bytes (z mod 2 ^ 32) ++ to_le_bytes (z / 2 ^ 32).

(** The bytes of the [repr(C)] structure. *)
Definition dm_ioctl_bytes (ioc : DmIoctl) : list Z :=
  (version ioc ≫= to_le_bytes) ++ to_le_bytes (data_size ioc) ++ to_le_bytes (data_start ioc) ++
  to_le_bytes (target_count ioc) ++ zero_bytes 4 ++ to_le_bytes (ioc_flags ioc) ++ zero_bytes 4 ++ zero_bytes 4 ++
  zero_bytes 8 ++ ioc_name ioc ++ zero_bytes 129 ++ zero_bytes 7.

Definition new_dm_ioctl (nm : string) : DmIoctl :=
  let nb := str_bytes nm in
  let copy := (length nb `min` 127)%nat in
  {| version := [4; 0; 0]; data_size := DM_IOCTL_SIZE; data_start := DM_IOCTL_SIZE; target_count := 0;
     ioc_flags := 0; ioc_name := take copy nb ++ zero_bytes (128 - copy) |}.

Definition dm_request (fd cmd : Z) (buf : list Z) : prog RamOp Z := trigger (Ioctl fd (DM_IOWR cmd) (BytesArg buf)).

Definition dm_version_check (fd : Z) : prog RamOp (result string unit) :=
  let ioc := {| version := [4; 0; 0]; data_size := DM_IOCTL_SIZE; data_start := 0; target_count := 0;
                ioc_flags := 0; ioc_name := zero_bytes 128 |} in
  let* ret := dm_request fd DM_VERSION_CMD (dm_ioctl_bytes ioc) in
  if ret <? 0 then os_err "DM_VERSION ioctl: " else Ret (Ok tt).

Definition dm_dev_create (fd : Z) (nm : string) : prog RamOp (result string unit) :=
  let* ret := dm_request fd DM_DEV_CREATE_CMD (dm_ioctl_bytes (new_dm_ioctl nm)) in
  if ret <? 0 then os_err ("DM_DEV_CREATE '" +:+ nm +:+ "': ") else Ret (Ok tt).

Definition verity_params (cfg : VerityConfig) (data_sectors : Z) : string :=
  "1 " +:+ data_device cfg +:+ " " +:+ hash_device cfg +:+ " 4096 4096 " +:+ show_uint (data_sectors / 8) +:+ " "
  +:+ show_uint (hash_offset cfg / 8) +:+ " sha256 " +:+ encode_hex (roothash cfg) +:+ " -".

(** [DmTargetSpec], 40 bytes. *)
Definition target_spec_bytes (sectors next : Z) : list Z :=
  u64_le 0 ++ u64_le sectors ++ zero_bytes 4 ++ to_le_bytes next ++ str_bytes "verity" ++ zero_bytes 10.

Definition verity_table (cfg : VerityConfig) (data_sectors : Z) : list Z :=
  let params := verity_params cfg data_sectors in
  let spec_size := 40 in
  let params_len := Z.of_nat (String.length params) + 1 in
  let total := DM_IOCTL_SIZE + spec_size + params_len in
  let ioc := new_dm_ioctl (dm_name cfg) in
  let ioc := {| version := version ioc; data_size := wrap_u32 total; data_start := wrap_u32 DM_IOCTL_SIZE;
                target_count := 1; ioc_flags := ioc_flags ioc; ioc_name := ioc_name ioc |} in
  dm_ioctl_bytes ioc ++ target_spec_bytes data_sectors (wrap_u32 (spec_size + params_len)) ++ str_bytes params ++ [0].

Definition dm_table_load_verity (fd : Z) (cfg : VerityConfig) (data_sectors : Z) : prog RamOp (result string unit) :=
  let* ret := dm_request fd DM_TABLE_LOAD_CMD (verity_table cfg data_sectors) in
  if ret <? 0 then os_err "DM_TABLE_LOAD verity: " else Ret (Ok tt).

Definition dm_dev_resume (fd : Z) (nm : string) : prog RamOp (result string unit) :=
  let* ret := dm_request fd DM_DEV_SUSPEND_CMD (dm_ioctl_bytes (new_dm_ioctl nm)) in
  if ret <? 0 then os_err ("DM_DEV_RESUME '" +:+ nm +:+ "': ") else Ret (Ok tt).

Definition dm_dev_remove (fd : Z) (nm : string) : prog RamOp (result string unit) :=
  let* ret := dm_request fd DM_DEV_REMOVE_CMD (dm_ioctl_bytes (new_dm_ioctl nm)) in
  if ret <? 0 then os_err ("DM_DEV_REMOVE '" +:+ nm +:+ "': ") else Ret (Ok tt).

(** A command-line word holds no NUL, so [CString::new] takes it. *)
Definition get_block_device_sectors (device : string) : prog RamOp (result string Z) :=
  let* fd := ros (OpenFd device OPEN_RDONLY) in
  if fd <? 0 then os_err ("open " +:+ device +:+ ": ")
  else
    with_fd fd
      (let* size := trigger (BlkGetSize64 fd) in
       match size with
       | None => os_err ("BLKGETSIZE64 " +:+ device +:+ ": ")
       | Some size_bytes => Ret (Ok (size_bytes / 512))
       end).

Definition setup_verity (cfg : VerityConfig) : prog RamOp (result string string) :=
  try* _ := or_err (λ e, "create /dev/mapper: " +:+ e) (ros (CreateDirAll "/dev/mapper")) in
  let* ctrl_fd := ros (OpenFd "/dev/mapper/control" OPEN_RDWR) in
  if ctrl_fd <? 0 then
    let* e := ros LastOsError in
    Ret (Err ("open /dev/mapper/control: " +:+ e +:+ " — is device-mapper loaded?"))
  else
    with_fd ctrl_fd
      (try* _ := dm_version_check ctrl_fd in
       try* _ := dm_dev_create ctrl_fd (dm_name cfg) in
       try* data_sectors := get_block_device_sectors (data_device cfg) in
       try* _ := dm_table_load_verity ctrl_fd cfg data_sectors in
       try* _ := dm_dev_resume ctrl_fd (dm_name cfg) in
       Ret (Ok ("/dev/mapper/" +:+ dm_name cfg))).

Definition remove_verity (nm : string) : prog RamOp (result string unit) :=
  let* ctrl_fd := ros (OpenFd "/dev/mapper/control" OPEN_RDWR) in
  if ctrl_fd <? 0 then os_err "open /dev/mapper/control: "
  else with_fd ctrl_fd (dm_dev_remove ctrl_fd nm).

(** [main.rs]. *)
Definition setup_verity_device (cmdline : Cmdline) (root_device : string) : prog RamOp (result string string) :=
  match parse_verity_cmdline (raw cmdline) with
  | None => Ret (Err "rd.verity=1 set but no verity params found in cmdline")
  | Some (Err e) => Ret (Err ("verity cmdline parse: " +:+ e))
  | Some (Ok cfg) =>
      let cfg := if is_empty (data_device cfg)
                 then {| data_device := root_device; hash_device := hash_device cfg; roothash := roothash cfg;
                         hash_offset := hash_offset cfg; dm_name := dm_name cfg |}
                 else cfg in
      setup_verity cfg
  end.

Example dm_iowr_size : length (dm_ioctl_bytes (new_dm_ioctl "zainium-verity")) = Z.to_nat DM_IOCTL_SIZE.
Proof. reflexivity. Qed.
