(* ===== verification/RamTpm.v ===== *)
(** * The TPM in the initial ramdisk

    [quantra-ramfs/src/measured_boot.rs], [phases.rs] and [tpm2.rs]: the measurements, the
    commands that extend PCR 8, and the unsealing of the disk key. *)

From Stdlib Require Import ZArith Ascii.
From stdpp Require Import base tactics numbers list strings.
From S2P Require Import Prelude RustStr Types Effects Os Sha256 RamCmdline Ramdisk.

Local Open Scope string_scope.
Local Open Scope list_scope.
Local Open Scope Z_scope.
Local Open Scope quantra_scope.
Local Open Scope prog_scope.

Definition TPM2_ST_NO_SESSIONS : Z := 0x8001.
Definition TPM2_ST_SESSIONS : Z := 0x8002.
Definition TPM2_CC_PCR_EXTEND : Z := 0x0182.
Definition TPM2_CC_PCR_READ : Z := 0x017E.
Definition TPM2_CC_START_AUTH_SESSION : Z := 0x0176.
Definition TPM2_CC_POLICY_PCR : Z := 0x017F.
Definition TPM2_CC_UNSEAL : Z := 0x015E.
Definition TPM2_CC_FLUSH_CONTEXT : Z := 0x0165.
Definition TPM2_CC_LOAD : Z := 0x0157.
Definition TPM2_SE_POLICY : Z := 0x01.
Definition TPM2_ALG_NULL : Z := 0x0010.
Definition TPM2_ALG_SHA256 : Z := 0x000B.
Definition TPM2_RH_NULL : Z := 0x40000007.
Definition TPM2_RS_PW : Z := 0x40000009.
Definition TPM2_RC_SUCCESS : Z := 0.
Definition PCR_INDEX : Z := 8.

Definition push_u16 (z : Z) : list Z := to_be_bytes 2 z.
Definition push_u32 (z : Z) : list Z := to_be_bytes 4 z.

(** [resp[6..10]]. *)
Definition response_code (resp : list Z) : Z := from_be_bytes_u32 (take 4 (drop 6 resp)).

(** ** The device *)

Fixpoint open_first (paths : list string) : prog RamOp (option Z) :=
  match paths with
  | [] => Ret None
  | p :: paths =>
      let* fd := ros (OpenFd p OPEN_RDWR) in
      if 0 <=? fd then Ret (Some fd) else open_first paths
  end.

Definition TPM_DEVICES : list string := ["/dev/tpmrm0"; "/dev/tpm0"].

Definition open_tpm : prog RamOp (result string Z) :=
  let* r := open_first TPM_DEVICES in
  Ret (ok_or "TPM2 device not found" r).

(** [while written < cmd.len()]: every turn writes at least a byte. *)
Fixpoint write_all (fuel : nat) (fd : Z) (cmd : list Z) : prog RamOp (option (result string unit)) :=
  match fuel with
  | O => Ret None
  | S fuel =>
      match cmd with
      | [] => Ret (Some (Ok tt))
      | _ =>
          let* n := trigger (WriteFd fd cmd) in
          if n <=? 0 then let* r := os_err "TPM2 write: " in Ret (Some r)
          else write_all fuel fd (drop (Z.to_nat n) cmd)
      end
  end.

(** Enough fuel: a turn for every byte, and the last test. *)
Definition write_cmd (fd : Z) (cmd : list Z) : prog RamOp (result string unit) :=
  let* r := write_all (S (length cmd)) fd cmd in
  Ret (default (Err "unreachable") r).

Module measured_boot.
(** [tpm2_send] of [measured_boot.rs]. *)
Definition tpm2_send (fd : Z) (cmd : list Z) : prog RamOp (result string (list Z)) :=
  try* _ := write_cmd fd cmd in
  let* r := trigger (ReadFd fd 256) in
  match r with
  | Some resp => if Z.of_nat (length resp) <? 10 then os_err "TPM2 read: " else Ret (Ok resp)
  | None => os_err "TPM2 read: "
  end.
End measured_boot.

(** ** Measurements *)

Definition pw_auth : list Z := push_u32 TPM2_RS_PW ++ push_u16 0 ++ [0] ++ push_u16 0.

Definition extend_command (pcr_index : Z) (digest : list Z) : list Z :=
  let auth := pw_auth in
  let digests := push_u32 1 ++ push_u16 TPM2_ALG_SHA256 ++ digest in
  let body := 4 + 4 + Z.of_nat (length auth) + Z.of_nat (length digests) in
  let total := 10 + body in
  push_u16 TPM2_ST_SESSIONS ++ push_u32 (wrap_u32 total) ++ push_u32 TPM2_CC_PCR_EXTEND ++ push_u32 pcr_index ++
  push_u32 (Z.of_nat (length auth)) ++ auth ++ digests.

(** [{:08X}] of a [u32]. *)
Definition HEX_UPPER : list ascii := String.list_ascii_of_string "0123456789ABCDEF".
Definition show_hex8 (z : Z) : string :=
  String.string_of_list_ascii ((λ sh, nth (Z.to_nat (Z.land (Z.shiftr z sh) 0xf)) HEX_UPPER "0"%char) <$>
    [28; 24; 20; 16; 12; 8; 4; 0]).

Definition extend_pcr (pcr_index : Z) (data : list Z) : prog RamOp (result string unit) :=
  let digest := sha256 data in
  try* fd := open_tpm in
  with_fd fd
    (try* resp := measured_boot.tpm2_send fd (extend_command pcr_index digest) in
     if response_code resp =? TPM2_RC_SUCCESS then Ret (Ok tt)
     else Ret (Err ("TPM2_PCR_Extend RC=0x" +:+ show_hex8 (response_code resp)))).

Definition phase_name (phase : Z) : string :=
  match phase with
  | 0 => "Init" | 1 => "Mounts" | 2 => "Cmdline" | 3 => "RootfsDetect" | 4 => "RootfsMount"
  | 5 => "Overlay" | 6 => "Pivot" | 7 => "Complete" | _ => "Unknown"
  end.

Definition phase_measurement (phase : Z) : string :=
  "zainium-phase:" +:+ show_uint phase +:+ ":" +:+ phase_name phase.

(** A failure is only logged. *)
Definition measure (text : string) : prog RamOp unit :=
  extend_pcr PCR_INDEX (str_bytes text);* Ret tt.

Definition measure_phase (phase : Z) : prog RamOp unit := measure (phase_measurement phase).

(** [set_phase]; the store to [BOOT_PHASE] is read by nobody here. *)
Definition set_phase (phase : Z) : prog RamOp unit := measure_phase phase.

Definition cmdline_measurement (cmdline : string) : string :=
  "zainium-cmdline:" +:+ encode_hex (sha256 (str_bytes cmdline)).

Definition measure_cmdline : prog RamOp unit :=
  let* r := ros (ReadToString "/proc/cmdline") in
  match r with
  | Ok cmdline => measure (cmdline_measurement cmdline)
  | Err _ => Ret tt
  end.

Definition init_measurement (data : list Z) : string := "zainium-init:" +:+ encode_hex (sha256 data).

Definition measure_init_binary (new_root init_path : string) : prog RamOp unit :=
  let* r := trigger (ReadFile (new_root +:+ init_path)) in
  match r with
  | Ok data => measure (init_measurement data)
  | Err _ => Ret tt
  end.

Definition overlay_measurement (enabled : bool) : string :=
  if enabled then "zainium-overlay:enabled" else "zainium-overlay:disabled".

Definition measure_overlay_mode (enabled : bool) : prog RamOp unit := measure (overlay_measurement enabled).

Definition pcr_selection (mask : Z) : list Z :=
  push_u32 1 ++ push_u16 TPM2_ALG_SHA256 ++
  [3; Z.land mask 0xFF; Z.land (Z.shiftr mask 8) 0xFF; Z.land (Z.shiftr mask 16) 0xFF].

Definition read_pcr (pcr_index : Z) : prog RamOp (result string (list Z)) :=
  try* fd := open_tpm in
  with_fd fd
    (let sel := pcr_selection (Z.shiftl 1 pcr_index) in
     let total := 10 + Z.of_nat (length sel) in
     let cmd := push_u16 TPM2_ST_NO_SESSIONS ++ push_u32 (wrap_u32 total) ++ push_u32 TPM2_CC_PCR_READ ++ sel in
     try* resp := measured_boot.tpm2_send fd cmd in
     if Z.of_nat (length resp) <? 30 + 32 then Ret (Err "TPM2_PCR_Read response too short")
     else Ret (Ok (take 32 (drop 30 resp)))).

Definition read_pcr8 : prog RamOp (option (list Z)) :=
  let* r := read_pcr PCR_INDEX in Ret match r with Ok v => Some v | Err _ => None end.

(** ** Unsealing the disk key *)

Module tpm2.
Definition BLOB_PATH : string := "/overlayer/syshub/etc/zainium/tpm2-luks-blob".
Definition PARENT_HANDLE_PATH : string := "/overlayer/syshub/etc/zainium/tpm2-parent-handle".
Definition PCR_MASK_PATH : string := "/overlayer/syshub/etc/zainium/tpm2-pcr-mask".
Definition DEFAULT_PCR_MASK : Z := Z.lor (Z.lor (Z.lor (Z.shiftl 1 0) (Z.shiftl 1 1)) (Z.shiftl 1 7)) (Z.shiftl 1 8).

Definition tpm2_available : prog RamOp bool :=
  let* a := path_exists "/dev/tpmrm0" in
  if a : bool then Ret true else path_exists "/dev/tpm0".

Definition tpm2_blob_exists : prog RamOp bool := path_exists BLOB_PATH.

Definition open_tpm_device : prog RamOp (result string Z) :=
  let* r := open_first TPM_DEVICES in
  match r with
  | Some fd => Ret (Ok fd)
  | None => os_err "TPM2 device not found (/dev/tpmrm0, /dev/tpm0): "
  end.

Definition tpm2_send (fd : Z) (cmd : list Z) : prog RamOp (result string (list Z)) :=
  try* _ := write_cmd fd cmd in
  let* r := trigger (ReadFd fd 4096) in
  let short (n : Z) := os_err ("TPM2 read short response (" +:+ show_int n +:+ " bytes): ") in
  match r with
  | Some resp =>
      if Z.of_nat (length resp) <? 10 then short (Z.of_nat (length resp))
      else if response_code resp =? TPM2_RC_SUCCESS then Ret (Ok resp)
      else Ret (Err ("TPM2 command failed: RC=0x" +:+ show_hex8 (response_code resp)))
  | None => short (-1)
  end.

Definition build_policy_auth_area (session : Z) : list Z := push_u32 session ++ push_u16 0 ++ [0] ++ push_u16 0.
Definition build_pw_auth_area : list Z := build_policy_auth_area TPM2_RS_PW.

(** Four bytes of the response, big-endian. *)
Definition u32_at (i : nat) (resp : list Z) : Z := from_be_bytes_u32 (take 4 (drop i resp)).
Definition u16_at (i : nat) (b : list Z) : nat := Z.to_nat (from_be_bytes_u32 (take 2 (drop i b))).

Definition tpm2_load (fd parent : Z) (public private : list Z) : prog RamOp (result string Z) :=
  let auth_area := build_pw_auth_area in
  let body_size := 4 + 4 + Z.of_nat (length auth_area) + 2 + Z.of_nat (length private) + 2 + Z.of_nat (length public) in
  let cmd := push_u16 TPM2_ST_SESSIONS ++ push_u32 (wrap_u32 (10 + body_size)) ++ push_u32 TPM2_CC_LOAD ++
             push_u32 parent ++ push_u32 (Z.of_nat (length auth_area)) ++ auth_area ++
             push_u16 (wrap_u16 (Z.of_nat (length private))) ++ private ++
             push_u16 (wrap_u16 (Z.of_nat (length public))) ++ public in
  try* resp := tpm2_send fd cmd in
  Ret (if (length resp <? 18)%nat then Err "TPM2_CC_LOAD response too short" else Ok (u32_at 10 resp)).

Definition start_auth_command : list Z :=
  push_u16 TPM2_ST_NO_SESSIONS ++ push_u32 (10 + (4 + 4 + 2 + 2 + 1 + 2 + 2)) ++ push_u32 TPM2_CC_START_AUTH_SESSION ++
  push_u32 TPM2_RH_NULL ++ push_u32 TPM2_RH_NULL ++ push_u16 0 ++ push_u16 0 ++ [TPM2_SE_POLICY] ++
  push_u16 TPM2_ALG_NULL ++ push_u16 TPM2_ALG_SHA256.

Definition tpm2_start_auth_session (fd : Z) : prog RamOp (result string Z) :=
  try* resp := tpm2_send fd start_auth_command in
  Ret (if (length resp <? 14)%nat then Err "TPM2_StartAuthSession response too short" else Ok (u32_at 10 resp)).

Definition tpm2_policy_pcr (fd session pcr_mask : Z) : prog RamOp (result string unit) :=
  let pcr_sel := pcr_selection pcr_mask in
  let body_size := 4 + 2 + Z.of_nat (length pcr_sel) in
  let cmd := push_u16 TPM2_ST_NO_SESSIONS ++ push_u32 (10 + body_size) ++ push_u32 TPM2_CC_POLICY_PCR ++
             push_u32 session ++ push_u16 0 ++ pcr_sel in
  try* _ := tpm2_send fd cmd in
  Ret (Ok tt).

Definition unsealed (resp : list Z) : result string (list Z) :=
  if (length resp <? 16)%nat then Err "TPM2_Unseal response too short"
  else
    let data_size := u16_at 14 resp in
    if (length resp <? 16 + data_size)%nat
    then Err ("TPM2_Unseal truncated: need " +:+ show_nat (16 + data_size) +:+ " bytes")
    else Ok (take data_size (drop 16 resp)).

Definition tpm2_unseal (fd object session : Z) : prog RamOp (result string (list Z)) :=
  let auth_area := build_policy_auth_area session in
  let body_size := 4 + 4 + Z.of_nat (length auth_area) in
  let cmd := push_u16 TPM2_ST_SESSIONS ++ push_u32 (10 + body_size) ++ push_u32 TPM2_CC_UNSEAL ++
             push_u32 object ++ push_u32 (Z.of_nat (length auth_area)) ++ auth_area in
  try* resp := tpm2_send fd cmd in
  Ret (unsealed resp).

Definition tpm2_flush_context (fd handle : Z) : prog RamOp (result string unit) :=
  let cmd := push_u16 TPM2_ST_NO_SESSIONS ++ push_u32 14 ++ push_u32 TPM2_CC_FLUSH_CONTEXT ++ push_u32 handle in
  try* _ := tpm2_send fd cmd in
  Ret (Ok tt).

Definition parse_blob (blob : list Z) : result string (list Z * list Z) :=
  if (length blob <? 4)%nat then Err "TPM2 blob too short"
  else
    let pub_size := u16_at 0 blob in
    if (length blob <? 2 + pub_size + 2)%nat
    then Err ("TPM2 blob truncated: pub_size=" +:+ show_nat pub_size +:+ " but blob len=" +:+ show_nat (length blob))
    else
      let public := take pub_size (drop 2 blob) in
      let priv_offset := (2 + pub_size)%nat in
      let priv_size := u16_at priv_offset blob in
      if (length blob <? priv_offset + 2 + priv_size)%nat then Err "TPM2 blob private area truncated"
      else Ok (public, take priv_size (drop (priv_offset + 2) blob)).

Definition read_parent_handle : prog RamOp (result string Z) :=
  try* data := or_err (λ e, "read parent handle '" +:+ PARENT_HANDLE_PATH +:+ "': " +:+ e)
                 (trigger (ReadFile PARENT_HANDLE_PATH)) in
  Ret (if (length data <? 4)%nat then Err "parent handle file too short" else Ok (u32_at 0 data)).

(** [u32::from_str_radix(_, 16)]. *)
Fixpoint parse_hex_digits (acc : Z) (s : string) : option Z :=
  match s with
  | EmptyString => Some acc
  | String c s =>
      match hex_nibble c with
      | Ok d => let acc := acc * 16 + d in if acc <=? u32_max then parse_hex_digits acc s else None
      | Err _ => None
      end
  end.
Definition parse_hex (s : string) : option Z :=
  match s with
  | EmptyString => None
  | String "+" EmptyString => None
  | String "+" s => parse_hex_digits 0 s
  | _ => parse_hex_digits 0 s
  end.

Definition read_pcr_mask : prog RamOp Z :=
  let* r := ros (ReadToString PCR_MASK_PATH) in
  Ret match r with
      | Ok s => default DEFAULT_PCR_MASK (parse_hex (trim_start_matches "0x" (trim s)))
      | Err _ => DEFAULT_PCR_MASK
      end.

Definition unseal_luks_key : prog RamOp (result string (list Z)) :=
  try* blob := or_err (λ e, "read TPM2 blob '" +:+ BLOB_PATH +:+ "': " +:+ e) (trigger (ReadFile BLOB_PATH)) in
  if (length blob <? 8)%nat then Ret (Err "TPM2 blob too small — corrupted?")
  else
    try* parent_handle := read_parent_handle in
    try* tpm_fd := open_tpm_device in
    with_fd tpm_fd
      (try* parts := Ret (parse_blob blob) in
       try* object_handle := tpm2_load tpm_fd parent_handle parts.1 parts.2 in
       try* session_handle := tpm2_start_auth_session tpm_fd in
       let* pcr_mask := read_pcr_mask in
       try* _ := tpm2_policy_pcr tpm_fd session_handle pcr_mask in
       try* key := tpm2_unseal tpm_fd object_handle session_handle in
       tpm2_flush_context tpm_fd session_handle;*
       tpm2_flush_context tpm_fd object_handle;*
       Ret (Ok key)).
End tpm2.
