(* ===== verification/RamRoot.v ===== *)
(** * Finding and mounting the root file system

    [quantra-ramfs/src/mounts.rs], [rootfs.rs] and [fsck.rs]: the early mounts, the live
    medium, the search for the root device, loop devices, LUKS, the check of the file system
    and the mount of the root. *)

From Stdlib Require Import ZArith Ascii.
From stdpp Require Import base tactics numbers list strings sorting.
From S2P Require Import Prelude RustStr Types Effects Os Sha256 RamCmdline Ramdisk RamVerity RamTpm.

Local Open Scope string_scope.
Local Open Scope list_scope.
Local Open Scope Z_scope.
Local Open Scope prog_scope.

(** ** [mounts.rs] *)

Definition mount (src : option string) (target : string) (fstype : option string) (flags : list MsFlag)
    (data : option string) : prog RamOp (result Errno unit) := trigger (Mount src target fstype flags data).

Definition EARLY_DIRS : list string := ["/proc"; "/sys"; "/dev"; "/run"; "/dev/pts"; "/dev/shm"].
Definition RUN_FLAGS : list MsFlag := [MS_NOSUID; MS_NODEV].
Definition SHM_FLAGS : list MsFlag := [MS_NOSUID; MS_NODEV; MS_NOEXEC].

Definition S_IFCHR : Z := 8192.
Definition S_IFBLK : Z := 24576.

Definition loop_node (n : Z) : string := "/dev/loop" +:+ show_uint n.

Definition create_essential_devices : prog RamOp unit :=
  trigger (Mknod "/dev/loop-control" (Z.lor S_IFCHR 384) 10 237);*
  for_each (λ n, trigger (Mknod (loop_node n) (Z.lor S_IFBLK 432) 7 n);* Ret tt) [0; 1; 2; 3; 4; 5; 6; 7].

Definition critical (what : string) (e : Errno) : string :=
  "CRITICAL: " +:+ what +:+ " mount failed: " +:+ strerror e +:+ " (errno: " +:+ show_int (errno e) +:+ ")".

Definition mount_early : prog RamOp (result string unit) :=
  for_each (λ dir, ros (CreateDirAll dir);* Ret tt) EARLY_DIRS;*
  try* _ := or_err (critical "/proc") (mount (Some "proc") "/proc" (Some "proc") [] None) in
  try* _ := or_err (critical "/sys") (mount (Some "sysfs") "/sys" (Some "sysfs") [] None) in
  try* _ := or_err (critical "/dev") (mount (Some "devtmpfs") "/dev" (Some "devtmpfs") [] (Some "mode=0755")) in
  create_essential_devices;*
  try* _ := or_err (critical "/run") (mount (Some "tmpfs") "/run" (Some "tmpfs") RUN_FLAGS (Some "mode=0755")) in
  mount (Some "devpts") "/dev/pts" (Some "devpts") [] (Some "mode=0620,ptmxmode=0666");*
  mount (Some "tmpfs") "/dev/shm" (Some "tmpfs") SHM_FLAGS (Some "mode=1777");*
  Ret (Ok tt).

(** ** The live medium *)

Definition LABEL_PREFIX : string := "/dev/disk/by-label/".
Definition UUID_PREFIX : string := "/dev/disk/by-uuid/".
Definition LIVE_SEARCH_MOUNT : string := "/run/live/search".
Definition LIVE_MEDIUM_MOUNT : string := "/run/live/medium".
Definition CALAMARES_BRIDGE : string := "/cdrom".
Definition ZAINIUM_ROOT_IMAGE_CANDIDATES : list string := ["zaisys/zairoot.img"; "zaisys/zairoot.squashfs"].
Definition SEARCH_FILESYSTEMS : list string :=
  ["iso9660"; "udf"; "erofs"; "squashfs"; "ext4"; "xfs"; "btrfs"; "f2fs"; "vfat"].

(** Byte order of texts. *)
Definition string_le (a b : string) : Prop := String.leb a b = true.
#[export] Instance string_le_dec : RelDecision string_le.
Proof. intros a b. unfold string_le. apply _. Defined.

Definition ok_entries {E A} (l : list (result E A)) : list A :=
  l ≫= λ r, match r with Ok a => [a] | Err _ => [] end.

(** The entries of [/sys/class/block] that have a node. *)
Fixpoint block_nodes (names : list string) : prog RamOp (list string) :=
  match names with
  | [] => Ret []
  | n :: names =>
      if starts_with "loop" n || starts_with "ram" n || starts_with "zram" n then block_nodes names
      else
        let dev := path_join "/dev" n in
        let* b := path_exists dev in
        let* l := block_nodes names in
        Ret (if b : bool then dev :: l else l)
  end.

Definition list_all_block_devices : prog RamOp (list string) :=
  let* r := ros (ReadDir "/sys/class/block") in
  let* devices := match r with Ok entries => block_nodes (ok_entries entries) | Err _ => Ret [] end in
  Ret (merge_sort string_le devices).

(** Mounting [device] with the first of [fstypes] that works. *)
Fixpoint mount_first (device target : string) (flags : list MsFlag) (fstypes : list string) : prog RamOp bool :=
  match fstypes with
  | [] => Ret false
  | f :: fstypes =>
      let* r := mount (Some device) target (Some f) flags None in
      match r with Ok _ => Ret true | Err _ => mount_first device target flags fstypes end
  end.

Definition try_mount_candidate (device mount_point : string) : prog RamOp (result string bool) :=
  try* _ := or_err (λ e, "create mount point '" +:+ mount_point +:+ "' failed: " +:+ e)
              (ros (CreateDirAll mount_point)) in
  let* ok := mount_first device mount_point [MS_RDONLY] SEARCH_FILESYSTEMS in
  if ok : bool then Ret (Ok true)
  else let* r := mount (Some device) mount_point None [MS_RDONLY] None in Ret (Ok (is_ok r)).

Definition cleanup_mount (path : string) : prog RamOp unit := trigger (Umount_detach path);* Ret tt.

Definition bridge_calamares_source : prog RamOp (result string unit) :=
  let* there := path_exists CALAMARES_BRIDGE in
  (if there : bool then
     let* m := trigger (SymlinkMetadata CALAMARES_BRIDGE) in
     match m with
     | Ok SymlinkKind => ros (RemoveFile CALAMARES_BRIDGE);* Ret tt
     | Ok DirKind => ros (RemoveDir CALAMARES_BRIDGE);* Ret tt
     | Ok OtherKind => ros (RemoveFile CALAMARES_BRIDGE);* Ret tt
     | Err _ => Ret tt
     end
   else Ret tt);*
  or_err (λ e, "create /cdrom symlink failed: " +:+ e) (ros (Symlink LIVE_MEDIUM_MOUNT CALAMARES_BRIDGE)).

Fixpoint find_image (dir : string) (rels : list string) : prog RamOp (option string) :=
  match rels with
  | [] => Ret None
  | rel :: rels => let* b := path_exists (path_join dir rel) in if b : bool then Ret (Some rel) else find_image dir rels
  end.

Fixpoint probe_medium (devices : list string) : prog RamOp (result string (option string)) :=
  match devices with
  | [] => Ret (Ok None)
  | device :: devices =>
      try* mounted := try_mount_candidate device LIVE_SEARCH_MOUNT in
      if negb mounted then probe_medium devices
      else
        let* found := find_image LIVE_SEARCH_MOUNT ZAINIUM_ROOT_IMAGE_CANDIDATES in
        match found with
        | Some rel =>
            cleanup_mount LIVE_MEDIUM_MOUNT;*
            try* _ := or_err (λ e, "move '" +:+ LIVE_SEARCH_MOUNT +:+ "' → '" +:+ LIVE_MEDIUM_MOUNT +:+ "' failed: " +:+ strerror e)
                        (mount (Some LIVE_SEARCH_MOUNT) LIVE_MEDIUM_MOUNT None [MS_MOVE] None) in
            try* _ := bridge_calamares_source in
            Ret (Ok (Some (path_join LIVE_MEDIUM_MOUNT rel)))
        | None => cleanup_mount LIVE_SEARCH_MOUNT;* probe_medium devices
        end
  end.

Definition prepare_live_medium_bridge : prog RamOp (result string (option string)) :=
  let* devices := list_all_block_devices in
  match devices with
  | [] => Ret (Ok None)
  | _ =>
      try* _ := or_err (λ e, "create '" +:+ LIVE_SEARCH_MOUNT +:+ "' failed: " +:+ e) (ros (CreateDirAll LIVE_SEARCH_MOUNT)) in
      try* _ := or_err (λ e, "create '" +:+ LIVE_MEDIUM_MOUNT +:+ "' failed: " +:+ e) (ros (CreateDirAll LIVE_MEDIUM_MOUNT)) in
      probe_medium devices
  end.

(** ** The root device *)

Definition RETRY_MS : Z := 50.

Definition max_retries (c : Cmdline) : Z :=
  match rootwait c with
  | Some n => if n =? 0 then u32_max else n
  | None => 20
  end.

(** [for attempt in 0..max_retries]: [n] turns are left. *)
Fixpoint probe_device (n : nat) (attempt retries : Z) (path : string) : prog RamOp bool :=
  match n with
  | O => Ret false
  | S n =>
      let* b := path_exists path in
      if b : bool then Ret true
      else
        (if attempt <? retries - 1 then ros (Sleep (from_millis RETRY_MS)) else Ret tt);*
        probe_device n (attempt + 1) retries path
  end.

Definition is_nfs_spec (spec : string) : bool :=
  contains ":" spec && negb (starts_with "UUID=" spec) && negb (starts_with "LABEL=" spec).

Definition device_path (spec : string) : string :=
  match strip_prefix "LABEL=" spec with
  | Some label => LABEL_PREFIX +:+ label
  | None => match strip_prefix "UUID=" spec with Some uuid => UUID_PREFIX +:+ uuid | None => spec end
  end.

Definition FALLBACK_DEVICES : list string :=
  ["/dev/sda1"; "/dev/sr0"; "/dev/ram0"; "/dev/sda2"; "/dev/sda3"; "/dev/vda1"].

(** What [list_available_devices] prints is left out. *)
Definition list_available_devices : prog RamOp unit := ros (ReadDir "/dev");* Ret tt.

Definition find_root (c : Cmdline) : prog RamOp (result string string) :=
  match root c with
  | None => Ret (Err "No root= parameter")
  | Some spec =>
      if is_nfs_spec spec then Ret (Ok spec)
      else
        let path := device_path spec in
        let* found := probe_device (Z.to_nat (max_retries c)) 0 (max_retries c) path in
        if found : bool then Ret (Ok path)
        else
          list_available_devices;*
          let* fallback := find_existing FALLBACK_DEVICES in
          Ret (ok_or ("No root device found (tried '" +:+ path +:+ "' + fallbacks)") fallback)
  end.

(** ** Loop devices *)

Definition LOOP_CTL_GET_FREE : Z := 0x4C82.
Definition LOOP_SET_FD : Z := 0x4C00.
Definition LOOP_SET_STATUS64 : Z := 0x4C04.

(** [LoopInfo64], 232 bytes. *)
Definition loop_info_bytes (loop_num : Z) (image_path : string) : list Z :=
  let name_bytes := str_bytes image_path in
  let copy_len := (length name_bytes `min` 63)%nat in
  zero_bytes 40 ++ to_le_bytes loop_num ++ zero_bytes 4 ++ zero_bytes 4 ++ to_le_bytes 1 ++
  (take copy_len name_bytes ++ zero_bytes (64 - copy_len)) ++ zero_bytes 64 ++ zero_bytes 32 ++ zero_bytes 16.

Definition attach_loop_fd (loop_fd : Z) (image_path loop_dev_path : string) (loop_num : Z)
    : prog RamOp (result string string) :=
  with_fd loop_fd
    (let* img_fd := ros (OpenFd image_path OPEN_RDONLY) in
     if img_fd <? 0 then os_err ("open image '" +:+ image_path +:+ "' failed: ")
     else
       try* _ := with_fd img_fd
         (let* ret := trigger (Ioctl loop_fd LOOP_SET_FD (FdArg img_fd)) in
          if ret <? 0 then os_err "LOOP_SET_FD failed: " else Ret (Ok tt)) in
       trigger (Ioctl loop_fd LOOP_SET_STATUS64 (BytesArg (loop_info_bytes loop_num image_path)));*
       Ret (Ok loop_dev_path)).

Definition setup_loop_ioctl (image_path : string) : prog RamOp (result string string) :=
  let* ctrl_fd := ros (OpenFd "/dev/loop-control" OPEN_RDWR) in
  if ctrl_fd <? 0 then
    let* e := ros LastOsError in
    Ret (Err ("open /dev/loop-control failed: " +:+ e +:+ " — ensure loop nodes were created in mounts::mount_early()"))
  else
    try* loop_num := with_fd ctrl_fd
      (let* n := trigger (Ioctl ctrl_fd LOOP_CTL_GET_FREE NoArg) in
       if n <? 0 then os_err "LOOP_CTL_GET_FREE failed: " else Ret (Ok n)) in
    let path := "/dev/loop" +:+ show_int loop_num in
    let* loop_fd := ros (OpenFd path OPEN_RDWR) in
    if loop_fd <? 0 then
      trigger (Mknod path (Z.lor S_IFBLK 432) 7 loop_num);*
      let* fd2 := ros (OpenFd path OPEN_RDWR) in
      if fd2 <? 0 then os_err ("open " +:+ path +:+ " failed: ")
      else attach_loop_fd fd2 image_path path loop_num
    else attach_loop_fd loop_fd image_path path loop_num.

Definition setup_loop_device (root_device iso_mount_path loop_image_path : string) : prog RamOp (result string string) :=
  try* _ := or_err (λ _, "create ISO mount dir failed") (ros (CreateDirAll iso_mount_path)) in
  try* _ := or_err (λ e, "mount ISO failed: " +:+ strerror e)
              (mount (Some root_device) iso_mount_path (Some "iso9660") [MS_RDONLY] None) in
  let full_image_path := iso_mount_path +:+ loop_image_path in
  let* there := path_exists full_image_path in
  if negb there then
    cleanup_mount iso_mount_path;*
    Ret (Err ("loop image not found: " +:+ full_image_path))
  else
    let* r := setup_loop_ioctl full_image_path in
    match r with
    | Ok dev => Ret (Ok dev)
    | Err e => cleanup_mount iso_mount_path;* Ret (Err ("loop device setup failed: " +:+ e))
    end.

(** ** LUKS *)

Definition LUKS_MAGIC : list Z := [76; 85; 75; 83; 0xba; 0xbe].

Definition is_luks_device (device : string) : prog RamOp (result string bool) :=
  try* fd := or_err (λ e, "Cannot open device " +:+ device +:+ ": " +:+ e) (trigger (OpenRead device)) in
  try* magic := with_fd fd (or_err (λ e, "Cannot read device " +:+ device +:+ ": " +:+ e) (trigger (ReadExact fd 6))) in
  Ret (Ok (bool_decide (magic = LUKS_MAGIC))).

(** [File::open(path).and_then(|f| f.read_to_end(..))]. *)
Definition read_file_to_end (path : string) : prog RamOp (result string (list Z)) :=
  try* fd := trigger (OpenRead path) in
  with_fd fd (trigger (ReadToEnd fd)).

Definition KEY_MOUNT : string := "/run/luks-key-mount".

Definition read_keyfile (spec : string) : prog RamOp (result string (list Z)) :=
  match split_once ":" spec with
  | Some (dev, path_inside) =>
      try* _ := or_err (λ e, "create mount point: " +:+ e) (ros (CreateDirAll KEY_MOUNT)) in
      try* _ := or_err (λ e, "mount keyfile device '" +:+ dev +:+ "': " +:+ strerror e)
                  (mount (Some dev) KEY_MOUNT None [MS_RDONLY] None) in
      let full_path := KEY_MOUNT +:+ "/" +:+ trim_start_matches "/" path_inside in
      try* data := or_err (λ e, "read keyfile '" +:+ full_path +:+ "': " +:+ e) (read_file_to_end full_path) in
      cleanup_mount KEY_MOUNT;*
      Ret (Ok data)
  | None => or_err (λ e, "read keyfile '" +:+ spec +:+ "': " +:+ e) (read_file_to_end spec)
  end.

(** The bytes up to the end of the line; [fuel] is their number. *)
Fixpoint read_passphrase (fuel : nat) (fd : Z) (acc : list Z) : prog RamOp (option (list Z)) :=
  match fuel with
  | O => Ret None
  | S fuel =>
      let* r := trigger (ConsoleReadByte fd) in
      match r with
      | Some b => if (b =? 10) || (b =? 13) then Ret (Some acc) else read_passphrase fuel fd (acc ++ [b])
      | None => Ret (Some acc)
      end
  end.

(** [prompt_luks_passphrase]; [None] when the line did not end. *)
Definition prompt_luks_passphrase (fuel : nat) (nm : string) : prog RamOp (option (result string (list Z))) :=
  let* console := trigger OpenConsole in
  match console with
  | Err e => Ret (Some (Err ("open /dev/console: " +:+ e)))
  | Ok fd =>
      let* w := trigger (ConsoleWrite fd (String newline ("  Enter LUKS passphrase for '" +:+ nm +:+ "': "))) in
      match w with
      | Err e => ros (CloseFd fd);* Ret (Some (Err ("write prompt: " +:+ e)))
      | Ok _ =>
          trigger (ConsoleEcho fd false);*
          fuel* passphrase := read_passphrase fuel fd [] in
          trigger (ConsoleEcho fd true);*
          trigger (ConsoleWrite fd (String newline ""));*
          ros (CloseFd fd);*
          Ret (Some (if is_nil passphrase then Err "Empty passphrase — aborting LUKS open" else Ok passphrase))
      end
  end.

Definition find_cryptsetup : prog RamOp (result string string) :=
  let* p := find_existing ["/sbin/cryptsetup"; "/usr/sbin/cryptsetup"] in
  Ret (ok_or ("cryptsetup not found at /sbin/cryptsetup or /usr/sbin/cryptsetup. "
              +:+ "Install cryptsetup in initramfs or compile with dm-crypt ioctl support.") p).

Definition open_luks_with_passphrase (device nm : string) (passphrase : list Z) : prog RamOp (result string string) :=
  try* cryptsetup := find_cryptsetup in
  try* child := or_err (λ e, "cryptsetup spawn failed: " +:+ e)
                  (trigger (SpawnPiped cryptsetup ["luksOpen"; "--key-file=-"; "--batch-mode"; device; nm])) in
  trigger (WriteStdin child passphrase);*
  try* status := or_err (λ e, "cryptsetup wait: " +:+ e) (trigger (WaitChild child)) in
  Ret (if bool_decide (status = Some 0) then Ok ("/dev/mapper/" +:+ nm)
       else Err ("cryptsetup luksOpen failed (exit " +:+ show_int (default (-1) status) +:+ "). Wrong passphrase?")).

(** A fallible step whose program may wait for ever. *)
Definition some_ret {E A} (p : prog E A) : prog E (option A) := let* a := p in Ret (Some a).

Definition open_luks_device (fuel : nat) (device nm : string) (keyfile : option string)
    : prog RamOp (option (result string string)) :=
  let* tpm := tpm2.tpm2_available in
  let* blob := if tpm : bool then tpm2.tpm2_blob_exists else Ret false in
  let* key0 := if blob : bool then tpm2.unseal_luks_key else Ret (Err "no TPM2") in
  match key0 with
  | Ok key => some_ret (open_luks_with_passphrase device nm key)
  | Err _ =>
      let* key1 := match keyfile with Some spec => read_keyfile spec | None => Ret (Err "no keyfile") end in
      match key1 with
      | Ok key => some_ret (open_luks_with_passphrase device nm key)
      | Err _ =>
          fuel* r := prompt_luks_passphrase fuel nm in
          match r with
          | Ok key => some_ret (open_luks_with_passphrase device nm key)
          | Err e => Ret (Some (Err e))
          end
      end
  end.

(** ** [fsck.rs] *)

Definition FSCK_PATHS : list string :=
  ["/sbin/fsck"; "/usr/sbin/fsck"; "/overlayer/syshub/sbin/fsck"; "/overlayer/syshub/usr/sbin/fsck"].
Definition FSCK_DIRS : list string :=
  ["/sbin"; "/usr/sbin"; "/overlayer/syshub/sbin"; "/overlayer/syshub/usr/sbin"].
Definition SKIP_FSTYPES : list string :=
  ["squashfs"; "iso9660"; "tmpfs"; "ramfs"; "devtmpfs"; "sysfs"; "proc"; "devpts"; "nfs"; "nfs4"; "overlay"].

Definition find_fsck_binary (fstype : option string) : prog RamOp (option string) :=
  let* specific := match fstype with
                   | Some ft => find_existing ((λ dir, dir +:+ "/fsck." +:+ ft) <$> FSCK_DIRS)
                   | None => Ret None
                   end in
  match specific with
  | Some p => Ret (Some p)
  | None => find_existing FSCK_PATHS
  end.

Definition fsck_skipped (device : string) (fstype : option string) : bool :=
  match fstype with Some ft => existsb (String.eqb ft) SKIP_FSTYPES | None => false end
  || (starts_with "/dev/loop" device || starts_with "/dev/ram" device) || contains ":" device.

Definition fsck_args (device : string) (fstype : option string) : list string :=
  ["-a"; "-T"] ++ match fstype with Some ft => ["-t"; ft] | None => [] end ++ [device].

Definition fsck_outcome (device : string) (code elapsed_ms : Z) : result string unit :=
  match code with
  | 0 | 1 => Ok tt
  | 2 => Err ("fsck: " +:+ device +:+ " repaired but REBOOT REQUIRED (exit " +:+ show_int code +:+ ")")
  | 4 => Err ("fsck: " +:+ device +:+ " has UNCORRECTED ERRORS (exit " +:+ show_int code +:+ ") — manual intervention required")
  | _ => Err ("fsck: " +:+ device +:+ " returned unexpected exit code " +:+ show_int code +:+ " (" +:+ show_int elapsed_ms +:+ "ms)")
  end.

Definition check_root (device : string) (fstype : option string) : prog RamOp (result string unit) :=
  if fsck_skipped device fstype then Ret (Ok tt)
  else
    let* bin := find_fsck_binary fstype in
    match bin with
    | None => Ret (Ok tt)
    | Some fsck_bin =>
        let* t := ros Now in
        try* status := or_err (λ e, "fsck exec '" +:+ fsck_bin +:+ "': " +:+ e)
                         (ros (Status fsck_bin (fsck_args device fstype))) in
        let* t' := ros Now in
        Ret (fsck_outcome device (default 8 status) ((t' - t) / 1000000))
    end.

Definition mount_btrfs_subvol (device target : string) (rootflags : option string) : prog RamOp (result string unit) :=
  let opts := default "subvol=@" rootflags in
  or_err (λ e, "btrfs mount '" +:+ device +:+ "' → '" +:+ target +:+ "' (opts=" +:+ opts +:+ "): " +:+ strerror e)
    (mount (Some device) target (Some "btrfs") [] (Some opts)).

(** ** Mounting the root *)

Inductive DeviceType := NFS | ISO_CDROM | RAMDISK | PARTITION | UNKNOWN.

Definition device_type (d : string) : DeviceType :=
  if contains ":" d then NFS
  else if starts_with "/dev/sr" d || starts_with "/dev/cdrom" d || starts_with "/dev/dvd" d then ISO_CDROM
  else if starts_with "/dev/ram" d then RAMDISK
  else if starts_with "/dev/sd" d || starts_with "/dev/nvme" d || starts_with "/dev/vd" d || starts_with "/dev/mmcblk" d
          || starts_with "/dev/hd" d || starts_with "/dev/xvd" d || starts_with "/dev/disk/" d || starts_with "/dev/mapper/" d
  then PARTITION
  else UNKNOWN.

Definition mount_candidates (explicit : option string) (fallback_fs : list string) : list string :=
  foldl (λ c f, if existsb (String.eqb f) c then c else c ++ [f])
    (match explicit with Some f => [f] | None => [] end) fallback_fs.

Definition try_mount_root_candidates (device : string) (explicit : option string) (mount_target : string)
    (fallback_fs : list string) : prog RamOp bool :=
  let* ok := mount_first device mount_target [] (mount_candidates explicit fallback_fs) in
  if ok : bool then Ret true
  else let* r := mount (Some device) mount_target None [] None in Ret (is_ok r).

Definition RAMDISK_FS : list string := ["ext4"; "erofs"; "squashfs"; "tmpfs"].
Definition PARTITION_FS : list string :=
  ["ext4"; "erofs"; "xfs"; "btrfs"; "f2fs"; "vfat"; "ntfs"; "exfat"; "zfs"].

Definition ISO_ROOT : string := "/mnt/iso-root".

(** The [match device_type]. *)
Definition mount_by_type (device actual_device : string) (c : Cmdline) (mount_target : string)
    : prog RamOp (result string unit) :=
  match device_type actual_device with
  | NFS =>
      or_err (λ e, "NFS mount failed: " +:+ strerror e) (mount (Some actual_device) mount_target (Some "nfs") [] None)
  | ISO_CDROM =>
      match loop_image c with
      | Some image =>
          try* loop_device := setup_loop_device device ISO_ROOT image in
          let guess := if ends_with ".squashfs" image then "squashfs" else "erofs" in
          or_err (λ e, "mount loop device failed: " +:+ strerror e +:+ " (device: " +:+ loop_device +:+ ")")
            (mount (Some loop_device) mount_target (Some (default guess (loop_fstype c))) [MS_RDONLY] None)
      | None =>
          or_err (λ e, "direct ISO mount failed: " +:+ strerror e)
            (mount (Some device) mount_target (Some "iso9660") [MS_RDONLY] None)
      end
  | RAMDISK =>
      let* ok := try_mount_root_candidates device (root_fstype c) mount_target RAMDISK_FS in
      Ret (if ok : bool then Ok tt else Err ("ramdisk mount failed after filesystem attempts: " +:+ device))
  | PARTITION | UNKNOWN =>
      if bool_decide (root_fstype c = Some "btrfs") then mount_btrfs_subvol actual_device mount_target (root_flags c)
      else
        let* ok := try_mount_root_candidates device (root_fstype c) mount_target PARTITION_FS in
        Ret (if ok : bool then Ok tt else Err ("partition mount failed after filesystem attempts: " +:+ device))
  end.

Definition unlock_device (fuel : nat) (device : string) (c : Cmdline) : prog RamOp (option (result string string)) :=
  let* luks := is_luks_device device in
  match luks with
  | Err e => Ret (Some (Err e))
  | Ok true =>
      match luks_name c with
      | Some nm => open_luks_device fuel device nm (luks_keyfile c)
      | None => Ret (Some (Err "LUKS device detected but no luks_name= parameter provided"))
      end
  | Ok false => Ret (Some (Ok device))
  end.

Definition mount_root_impl (fuel : nat) (device : string) (c : Cmdline) (mount_target : string)
    : prog RamOp (option (result string unit)) :=
  let* dir := ros (CreateDirAll mount_target) in
  match dir with
  | Err e => Ret (Some (Err ("create '" +:+ mount_target +:+ "' failed: " +:+ e)))
  | Ok _ =>
      fuel* actual := unlock_device fuel device c in
      match actual with
      | Err e => Ret (Some (Err e))
      | Ok actual_device => some_ret (mount_by_type device actual_device c mount_target)
      end
  end.
