(* ===== verification/RamBoot.v ===== *)
(** * The boot of the initial ramdisk

    [quantra-ramfs/src/overlay.rs], [switch.rs] and [main.rs]: the overlay, the search for
    init, the switch to the new root, and the sequence of the phases. *)

From Stdlib Require Import ZArith Ascii.
From stdpp Require Import base tactics numbers list strings.
From S2P Require Import Prelude RustStr Types Effects Os Sha256 RamCmdline Ramdisk RamVerity RamTpm RamRoot.

Local Open Scope string_scope.
Local Open Scope list_scope.
Local Open Scope Z_scope.
Local Open Scope prog_scope.

(** ** [overlay.rs] *)

Definition NEW_ROOT : string := "/new_root".

(** [for dir in dirs { create_dir_all(dir).map_err(f)?; }]. *)
Fixpoint create_dirs (f : string → string → string) (dirs : list string) : prog RamOp (result string unit) :=
  match dirs with
  | [] => Ret (Ok tt)
  | d :: dirs =>
      try* _ := or_err (f d) (ros (CreateDirAll d)) in
      create_dirs f dirs
  end.

Definition bind_persistent_dir (zairoot nm : string) : prog RamOp (result string unit) :=
  let src := zairoot +:+ "/" +:+ nm in
  let dest := "/new_root/" +:+ nm in
  let* there := path_exists src in
  if negb there then Ret (Ok tt)
  else
    ros (CreateDirAll dest);*
    or_err (λ e, "bind mount /" +:+ nm +:+ ": '" +:+ src +:+ "' → '" +:+ dest +:+ "': " +:+ strerror e)
      (mount (Some src) dest None [MS_BIND] None).

Definition overlay_opts (zairoot : string) : string :=
  "lowerdir=" +:+ zairoot +:+ "/overlayer/syshub:" +:+ zairoot +:+ "/overlayer/zaisys,upperdir="
  +:+ zairoot +:+ "/overlayer/zexlib/union,workdir=" +:+ zairoot +:+ "/overlayer/zexlib/work".

Definition BASE_DIRS : list string := ["home"; "root"; "dev"; "proc"; "sys"; "tmp"].

Definition mount_overlay (zairoot : string) : prog RamOp (result string string) :=
  let upper := zairoot +:+ "/overlayer/zexlib/union" in
  let work := zairoot +:+ "/overlayer/zexlib/work" in
  let merged := NEW_ROOT +:+ "/overlayer/syshub" in
  let* there := path_exists (zairoot +:+ "/overlayer/syshub") in
  if negb there then
    Ret (Err ("syshub not found in '" +:+ zairoot +:+ "' — not a Zainium disk (overlayer/syshub missing)"))
  else
    try* _ := create_dirs (λ d e, "create overlay dir '" +:+ d +:+ "': " +:+ e) [upper; work] in
    try* _ := create_dirs (λ d e, "create " +:+ d +:+ ": " +:+ e) (merged :: ((λ n, NEW_ROOT +:+ "/" +:+ n) <$> BASE_DIRS)) in
    try* _ := or_err (λ e, "OverlayFS mount failed: " +:+ strerror e +:+ " — is the 'overlay' kernel module loaded?")
                (mount (Some "overlay") merged (Some "overlay") [] (Some (overlay_opts zairoot))) in
    try* _ := bind_persistent_dir zairoot "home" in
    try* _ := bind_persistent_dir zairoot "root" in
    Ret (Ok NEW_ROOT).

Definition overlay_disabled_by_cmdline : prog RamOp bool :=
  let* r := ros (ReadToString "/proc/cmdline") in
  Ret match r with Ok s => has_token "zainium.overlay=off" (split_whitespace s) | Err _ => false end.

(** ** [switch.rs] *)

Definition MOUNT_TARGETS : list string := ["/zairoot"; "/mnt/root"; "/sysroot"; "/newroot"].

Definition INIT_FALLBACKS : list string := [
  "/overlayer/syshub/engine/quantra"; "/overlayer/syshub/engine/s6-quantra";
  "/sbin/init"; "/usr/lib/systemd/systemd"; "/lib/systemd/systemd"; "/usr/sbin/init";
  "/overlayer/syshub/bin/fish"; "/overlayer/syshub/bin/bash"; "/overlayer/syshub/bin/zsh"; "/overlayer/syshub/bin/sh"
].

Definition MOUNT_MOVE_ORDER : list string := ["/dev"; "/proc"; "/sys"; "/run"].

Record BootTarget := { mount_point : string; init_path : string }.

Fixpoint first_created (targets : list string) : prog RamOp (option string) :=
  match targets with
  | [] => Ret None
  | t :: targets =>
      let* r := ros (CreateDirAll t) in
      if is_ok r then Ret (Some t) else first_created targets
  end.

Definition find_mount_target : prog RamOp (option string) :=
  let* t := first_created MOUNT_TARGETS in
  match t with Some t => Ret (Some t) | None => find_existing MOUNT_TARGETS end.

(** The first candidate that exists below [new_root]. *)
Fixpoint find_below (new_root : string) (candidates : list string) : prog RamOp (option string) :=
  match candidates with
  | [] => Ret None
  | c :: candidates =>
      let* b := path_exists (new_root +:+ c) in
      if b : bool then Ret (Some c) else find_below new_root candidates
  end.

Definition find_init_binary (new_root : string) : prog RamOp (option string) := find_below new_root INIT_FALLBACKS.

Definition first_mount_point : prog RamOp string :=
  let* t := find_existing MOUNT_TARGETS in Ret (default "/zairoot" t).

Definition discover_boot_target (c : Cmdline) (new_root : string) : prog RamOp BootTarget :=
  let* explicit := match init c with
                   | Some i => path_exists (new_root +:+ i)
                   | None => Ret false
                   end in
  if explicit : bool then
    let* mp := first_mount_point in
    let i := default "" (init c) in
    Ret {| mount_point := mp;
           init_path := if existsb (String.eqb i) INIT_FALLBACKS then i else "/overlayer/syshub/engine/quantra" |}
  else
    let* found := find_init_binary new_root in
    let* mp := first_mount_point in
    Ret {| mount_point := mp; init_path := default "/bin/sh" found |}.

Definition RESCUE_SHELLS : list string :=
  ["/overlayer/syshub/bin/bash"; "/overlayer/syshub/bin/sh"; "/overlayer/syshub/bin/fish"; "/overlayer/syshub/bin/zsh"].

Definition rescue_boot_target : prog RamOp BootTarget :=
  let* mp := first_mount_point in
  let* found := find_below NEW_ROOT (List.filter (λ p, existsb (String.eqb p) RESCUE_SHELLS) INIT_FALLBACKS) in
  Ret {| mount_point := mp; init_path := default "/overlayer/syshub/bin/sh" found |}.

(** [MS_MOVE] of the pseudo file systems. *)
Fixpoint move_mounts (new_root : string) (mps : list string) : prog RamOp (result string unit) :=
  match mps with
  | [] => Ret (Ok tt)
  | mp :: mps =>
      let dest := new_root +:+ mp in
      ros (CreateDirAll dest);*
      try* _ := or_err (λ e, "MS_MOVE " +:+ mp +:+ " → " +:+ dest +:+ ": " +:+ strerror e)
                  (mount (Some mp) dest None [MS_MOVE] None) in
      move_mounts new_root mps
  end.

Definition enter_root (new_root : string) : prog RamOp (result string unit) :=
  let old_root := new_root +:+ "/.old_root" in
  ros (CreateDirAll old_root);*
  let* r := trigger (PivotRoot new_root old_root) in
  match r with
  | Ok _ =>
      try* _ := or_err (λ e, "chdir / post-pivot: " +:+ strerror e) (trigger (Chdir "/")) in
      trigger (Umount_detach "/.old_root");*
      ros (RemoveDir "/.old_root");*
      Ret (Ok tt)
  | Err _ =>
      try* _ := or_err (λ e, "chroot " +:+ new_root +:+ ": " +:+ strerror e) (trigger (Chroot new_root)) in
      or_err (λ e, "chdir / post-chroot: " +:+ strerror e) (trigger (Chdir "/"))
  end.

(** [pivot_to_root] up to [execv], which returns only an error. *)
Definition pivot_to_root (target : BootTarget) : prog RamOp (result string unit) :=
  let* there := path_exists NEW_ROOT in
  let new_root := if there : bool then NEW_ROOT else mount_point target in
  try* _ := move_mounts new_root MOUNT_MOVE_ORDER in
  try* _ := or_err (λ e, "chdir " +:+ new_root +:+ ": " +:+ strerror e) (trigger (Chdir new_root)) in
  try* _ := enter_root new_root in
  let* e := trigger (Execv (init_path target) [init_path target]) in
  Ret (Err ("execv '" +:+ init_path target +:+ "': " +:+ strerror e)).

(** ** [main.rs] *)

(** A step that can end the boot: [inr] goes through. *)
Definition boot (A : Type) : Type := prog RamOp (option (A + BootEnd)).
Definition boot_bind {A B} (p : boot A) (k : A → boot B) : boot B :=
  let* r := p in
  match r with
  | Some (inl a) => k a
  | Some (inr e) => Ret (Some (inr e))
  | None => Ret None
  end.
Notation "'boot*' x ':=' c 'in' k" := (boot_bind c (λ x, k))
  (at level 200, x pattern, c at level 100, k at level 200, right associativity).

Definition run {A} (p : prog RamOp A) : boot A := let* a := p in Ret (Some (inl a)).
Definition shell {A} (reason : string) : boot A := Ret (Some (inr (EmergencyShell reason))).
Definition shell_if (b : bool) (reason : string) : boot unit := if b then shell reason else Ret (Some (inl tt)).

(** Phase 1, and what runs before the command line is parsed. *)
Definition early_phase : boot unit :=
  boot* _ := run (set_phase 0;* set_phase 1) in
  boot* mounted := run mount_early in
  boot* _ := shell_if (negb (is_ok mounted)) "early mount failed" in
  run
    (let* splash := helper Plymouth_is_enabled in
     (if splash : bool then helper Plymouth_setup_kms_framebuffer;* helper Plymouth_start else Ret tt);*
     helper Plymouth_setup_initrd_vconsole;*
     helper Plymouth_check_secure_boot;*
     measure_cmdline;*
     helper (Udev_settle 500);*
     prepare_live_medium_bridge;*
     Ret tt).

(** [cmdline::parse]. *)
Definition parse : prog RamOp (result string Cmdline) :=
  let* r := ros (ReadToString "/proc/cmdline") in
  Ret match r with
      | Ok text => Ok (parse_text text)
      | Err _ => Err "cannot read /proc/cmdline — is /proc mounted?"
      end.

(** Phase 2. *)
Definition cmdline_phase : boot Cmdline :=
  boot* parsed := run (set_phase 2;* parse) in
  match parsed with
  | Err _ => shell "cmdline parse"
  | Ok c =>
      boot* _ := shell_if (rd_shell c) "rd.shell" in
      Ret (Some (inl c))
  end.

Definition settle_ms (c : Cmdline) : Z :=
  Z.min (match rootwait c with Some n => if n =? 0 then 10000 else n * 50 | None => 1000 end) 3000.

(** The helpers that the command line asks for. *)
Definition udev_step (c : Cmdline) : prog RamOp unit :=
  if udev_enabled c then helper (Udev_settle (settle_ms c));* helper Udev_create_disk_symlinks;* Ret tt else Ret tt.

Definition network_step (c : Cmdline) : prog RamOp unit :=
  (if ip_dhcp c then
     match ip_iface c with
     | Some iface => helper (Dhcp_acquire iface 10)
     | None => helper (Dhcp_any_interface 10)
     end;* Ret tt
   else Ret tt);*
  if ipv6_slaac c then
    let* ifaces := helper List_interfaces in
    for_each (λ i, helper (Enable_ipv6_slaac i)) ifaces
  else Ret tt.

Definition storage_step (c : Cmdline) : prog RamOp unit :=
  (if rd_md c then helper (Assemble_raid (rd_md_uuid c));* helper (Wait_for_raid_sync 30) else Ret tt);*
  (if rd_lvm c then helper (Activate_lvm (rd_lvm_vg c));* Ret tt else Ret tt);*
  (if rd_multipath c then helper Activate_multipath;* Ret tt else Ret tt);*
  match stratis_pool_uuid c with
  | Some uuid => helper (Unlock_stratis_pool (Some uuid))
  | None => Ret tt
  end.

Definition iscsi_target (c : Cmdline) : option IscsiTarget :=
  match iscsi_target_name c, iscsi_target_ip c with
  | Some nm, Some ip =>
      Some {| initiator_iqn := default "iqn.2026-01.os.zainium:initrd" (iscsi_initiator c);
              target_iqn := nm; target_ip := ip; target_port := iscsi_target_port c |}
  | _, _ => None
  end.

Definition nbd_target (spec : string) : option (string * Z) :=
  match splitn 2 ":" spec with
  | [host; port] => match parse_uint u16_max port with Some p => Some (host, p) | None => None end
  | _ => None
  end.

Definition remote_step (c : Cmdline) : prog RamOp unit :=
  match iscsi_target c with
  | Some t => helper (Connect_iscsi t);* Ret tt
  | None => Ret tt
  end;*
  match nbd c with
  | Some spec =>
      match nbd_target spec with
      | Some (host, port) => helper (Connect_nbd host port None);* Ret tt
      | None => Ret tt
      end
  | None => Ret tt
  end.

(** Phase 3. *)
Definition detect_phase (c : Cmdline) : boot string :=
  boot* _ := run (set_phase 3) in
  boot* _ := shell_if (bool_decide (rd_break c = Some PreMount)) "rd.break=pre-mount" in
  boot* found := run (udev_step c;* network_step c;* storage_step c;* remote_step c;* find_root c) in
  match found with
  | Ok dev => Ret (Some (inl dev))
  | Err _ => shell "root detect"
  end.

(** The check of the file system. *)
Definition fsck_step (c : Cmdline) (root_device : string) : boot unit :=
  if fsck_enabled c then
    boot* r := run (check_root root_device (root_fstype c)) in
    match r with
    | Ok _ => Ret (Some (inl tt))
    | Err e =>
        if contains "REBOOT REQUIRED" e then
          ros (Sleep (from_secs 3));*
          trigger SyncDisks;*
          trigger RebootSystem;*
          Ret (Some (inr Rebooting))
        else Ret (Some (inl tt))
    end
  else Ret (Some (inl tt)).

Definition verity_step (c : Cmdline) (root_device : string) : boot string :=
  if verity_enabled c then
    boot* r := run (setup_verity_device c root_device) in
    match r with
    | Ok dev => Ret (Some (inl dev))
    | Err _ => shell "dm-verity failed"
    end
  else Ret (Some (inl root_device)).

Definition mount_root_at (fuel : nat) (device : string) (c : Cmdline) (target : string) : boot unit :=
  let* r := mount_root_impl fuel device c target in
  match r with
  | Some (Ok _) => Ret (Some (inl tt))
  | Some (Err _) => shell "root mount"
  | None => Ret None
  end.

(** Phase 4: the mount point that holds the root. *)
Definition mount_phase (fuel : nat) (c : Cmdline) (root_device : string) : boot string :=
  boot* target := run (set_phase 4;* find_mount_target) in
  match target with
  | None => shell "no mount target"
  | Some zairoot =>
      boot* _ := fsck_step c root_device in
      boot* actual := verity_step c root_device in
      boot* _ := mount_root_at fuel actual c zairoot in
      boot* _ := shell_if (bool_decide (rd_break c = Some PreOverlay)) "rd.break=pre-overlay" in
      Ret (Some (inl zairoot))
  end.

(** Phase 4.5. *)
Definition overlay_phase (zairoot : string) : prog RamOp string :=
  set_phase 5;*
  let* disabled := overlay_disabled_by_cmdline in
  measure_overlay_mode (negb disabled);*
  if disabled : bool then Ret zairoot
  else
    let* r := mount_overlay zairoot in
    Ret match r with Ok root => root | Err _ => zairoot end.

(** Phases 5 and 6. *)
Definition boot_target (c : Cmdline) (new_root : string) : prog RamOp BootTarget :=
  if rd_rescue c then rescue_boot_target else discover_boot_target c new_root.

Definition switch_phase (c : Cmdline) (new_root : string) : boot unit :=
  boot* target := run (boot_target c new_root) in
  boot* _ := shell_if (bool_decide (rd_break c = Some PrePivot)) "rd.break=pre-pivot" in
  boot* switched := run
    (measure_init_binary new_root (init_path target);*
     helper Plymouth_root_mounted;*
     helper (Plymouth_update_status "initrd-done");*
     set_phase 6;*
     pivot_to_root target) in
  boot* _ := shell_if (negb (is_ok switched)) "switch_root" in
  boot* _ := run (helper Plymouth_handoff_to_init;* set_phase 7) in
  shell "execv returned unexpectedly".

Definition main (fuel : nat) : boot unit :=
  boot* _ := early_phase in
  boot* c := cmdline_phase in
  boot* root_device := detect_phase c in
  boot* zairoot := mount_phase fuel c root_device in
  boot* new_root := run (overlay_phase zairoot) in
  switch_phase c new_root.
