(* ===== verification/RamOnly.v ===== *)
(** * Which programs do what

    Programs of the initial ramdisk that do not touch the TPM, a mount point or init: the
    rules that find this out by going through a program, and the lemmas for its loops. *)

From Stdlib Require Import ZArith Ascii.
From stdpp Require Import base tactics numbers list strings sets.
From S2P Require Import Prelude RustStr Types Effects Os Sha256 RamCmdline Ramdisk RamVerity RamTpm RamRoot RamBoot.

Local Open Scope string_scope.
Local Open Scope list_scope.
Local Open Scope Z_scope.
Local Open Scope prog_scope.

(** [performs] through the combinators of the ramdisk. *)
Lemma performs_or_err {E E' A} (P : ∀ X, RamOp X → Prop) (f : E → E') (p : prog RamOp (result E A)) :
  performs P p → performs P (or_err f p).
Proof. intros Hp. unfold or_err. by apply performs_bind. Qed.

Lemma performs_with_fd {A} (P : ∀ X, RamOp X → Prop) fd (p : prog RamOp A) :
  P _ (ROs (CloseFd fd)) → performs P p → performs P (with_fd fd p).
Proof. intros Hc Hp. unfold with_fd. apply performs_bind; [done|]. intros a. split; [done|]. done. Qed.

Lemma performs_boot {A B} (P : ∀ X, RamOp X → Prop) (p : boot A) (k : A → boot B) :
  performs P p → (∀ a, performs P (k a)) → performs P (boot_bind p k).
Proof. intros Hp Hk. unfold boot_bind. apply performs_bind; [done|]. intros [[a|e]|]; [apply Hk|done|done]. Qed.

(** The operations that the theorems are about. *)
Inductive Class := Plain | TpmWrite | MountAt (target : string) | Exec.

Definition class {X} (e : RamOp X) : Class :=
  match e with
  | WriteFd _ _ => TpmWrite
  | Mount _ target _ _ _ => MountAt target
  | Execv _ _ => Exec
  | _ => Plain
  end.

(** Programs that do only what [ok] allows besides the plain operations. *)
Definition only (ok : Class → Prop) : ∀ X, RamOp X → Prop := λ X e, class e = Plain ∨ ok (class e).

Create HintDb ramdb discriminated.
#[export] Hint Constants Opaque : ramdb.

Ltac only_op := solve [left; reflexivity | right; cbn [class]; eauto 3 with ramdb].

(** Goes through the structure of a program; the recursive parts have lemmas in [ramdb]. *)
Ltac only_step :=
  first
    [ simple apply performs_ret
    | match goal with |- only _ _ _ ∧ _ => split; [only_op|intros ?] | |- performs _ (Vis _ _) => split; [only_op|intros ?] end
    | progress unfold ros, helper, path_exists, cleanup_mount, os_err, some_ret, run, shell, shell_if
    | simple apply performs_or_err
    | simple apply performs_try; [|intros ?]
    | simple apply performs_fuel; [|intros ?]
    | simple apply performs_boot; [|intros ?]
    | simple apply performs_with_fd; [only_op|]
    | simple apply performs_for_each; intros ?
    | simple apply performs_bind; [|intros ?]
    | simple apply performs_op; only_op
    | solve [eauto 4 with ramdb]
    | case_match ].
Section only.
Context (ok : Class → Prop).

Lemma only_find_existing l : performs (only ok) (find_existing l).
Proof. induction l; simpl; repeat only_step. Qed.
Lemma only_find_below r l : performs (only ok) (find_below r l).
Proof. induction l; simpl; repeat only_step. Qed.
Lemma only_find_image r l : performs (only ok) (find_image r l).
Proof. induction l; simpl; repeat only_step. Qed.
Lemma only_open_first l : performs (only ok) (open_first l).
Proof. induction l; simpl; repeat only_step. Qed.
Lemma only_probe_device n a m p : performs (only ok) (probe_device n a m p).
Proof. revert a. induction n; intros a; simpl; repeat only_step. Qed.
Lemma only_block_nodes l : performs (only ok) (block_nodes l).
Proof. induction l; simpl; repeat only_step. Qed.
Lemma only_first_created l : performs (only ok) (first_created l).
Proof. induction l; simpl; repeat only_step. Qed.
Lemma only_create_dirs f l : performs (only ok) (create_dirs f l).
Proof. induction l; simpl; repeat only_step. Qed.
Lemma only_read_passphrase n fd acc : performs (only ok) (read_passphrase n fd acc).
Proof. revert acc. induction n; intros acc; simpl; repeat only_step. Qed.

Lemma only_write_all n fd cmd : ok TpmWrite → performs (only ok) (write_all n fd cmd).
Proof. intros Hok. revert cmd. induction n; intros cmd; simpl; repeat only_step. Qed.

Lemma only_mount src target fstype flags data :
  ok (MountAt target) → performs (only ok) (mount src target fstype flags data).
Proof. intros Hok. unfold mount. by repeat only_step. Qed.

Lemma only_mount_first dev target flags l : ok (MountAt target) → performs (only ok) (mount_first dev target flags l).
Proof. intros Hok. induction l; simpl; repeat only_step. Qed.
End only.

#[export] Hint Resolve only_find_existing only_find_below only_find_image only_open_first only_probe_device
  only_block_nodes only_first_created only_create_dirs only_read_passphrase only_write_all only_mount only_mount_first : ramdb.

