(* ===== verification/RamGuard.v ===== *)
(** * dm-verity guards the root

    The boot as a whole, with every answer that the system can give: what is mounted as the
    root when dm-verity is asked for. *)

From Stdlib Require Import ZArith Ascii.
From stdpp Require Import base tactics numbers list strings sets.
From S2P Require Import Prelude RustStr Types Effects Os Sha256 RamCmdline Ramdisk RamVerity RamTpm RamRoot RamBoot RamOnly.

Local Open Scope string_scope.
Local Open Scope list_scope.
Local Open Scope Z_scope.
Local Open Scope prog_scope.

(** ** Traces *)

(** An operation and what it answered. *)
Inductive Event :=
| Ev {X : Type} (e : RamOp X) (x : X).

(** The command line of the kernel stays what it is. *)
Definition os_answer (text : string) {X} (e : Os X) : X → Prop :=
  match e in Os X return X → Prop with
  | ReadToString path => λ x, path = "/proc/cmdline" → x = Ok text
  | _ => λ _, True
  end.

Definition cmdline_answer (text : string) {X} (e : RamOp X) : X → Prop :=
  match e in RamOp X return X → Prop with
  | ROs e => os_answer text e
  | _ => λ _, True
  end.

(** A world that records what happens, the newest first; the answers are arbitrary. *)
Definition trace_step (text : string) : ∀ X, RamOp X → list Event → X → list Event → Prop :=
  λ X e tr x tr', tr' = Ev e x :: tr ∧ cmdline_answer text e x.

Definition event_op (P : ∀ X, RamOp X → Prop) (v : Event) : Prop :=
  match v with Ev e _ => P _ e end.

Lemma trace_performs text (P : ∀ X, RamOp X → Prop) {A} (p : prog RamOp A) tr :
  performs P p → wp (trace_step text) p tr (λ tr' _, ∃ l, tr' = l ++ tr ∧ Forall (event_op P) l).
Proof.
  revert tr. induction p as [a|X e k IH]; intros tr; simpl.
  - intros _. by exists [].
  - intros [He Hk] x tr' [-> _]. eapply wp_mono; [|apply IH, Hk]. simpl.
    intros tr' _ (l & -> & Hl). exists (l ++ [Ev e x]). rewrite <- app_assoc. split; [done|].
    apply Forall_app; split; [done|]. by apply Forall_singleton.
Qed.

(** ** Programs that mount nothing on the root *)

Definition no_root (c : Class) : Prop :=
  match c with MountAt target => target ∉ MOUNT_TARGETS | _ => True end.

Lemma no_root_tpm : no_root TpmWrite. Proof. done. Qed.
Lemma no_root_exec : no_root Exec. Proof. done. Qed.

(** A path that goes on below another is none of the mount targets. *)
Lemma not_target (a b : string) : b ∈ MOUNT_MOVE_ORDER ∨ (∃ n, a = "/new_root/" ∧ b = n) → a +:+ b ∉ MOUNT_TARGETS.
Proof.
  intros Hab Hin. unfold MOUNT_TARGETS, MOUNT_MOVE_ORDER in *. rewrite !elem_of_cons, elem_of_nil in *.
  destruct Hab as [Hb|(n & -> & ->)]; [|naive_solver].
  destruct_or!; try done; subst b; repeat (destruct a as [|? a]; simplify_eq/=).
Qed.

Lemma not_target_concrete t : bool_decide (t ∈ MOUNT_TARGETS) = false → t ∉ MOUNT_TARGETS.
Proof. intros H. by apply bool_decide_eq_false in H. Qed.
#[export] Hint Resolve no_root_tpm no_root_exec : ramdb.
#[export] Hint Extern 1 (no_root (MountAt _)) => (apply not_target_concrete; reflexivity) : ramdb.

Notation quiet := (performs (only no_root)).

Lemma quiet_extend_pcr i d : quiet (extend_pcr i d).
Proof. unfold extend_pcr, open_tpm, measured_boot.tpm2_send, write_cmd. repeat only_step. Qed.
#[export] Hint Resolve quiet_extend_pcr : ramdb.

Lemma quiet_measure s : quiet (measure s).
Proof. unfold measure. repeat only_step. Qed.
#[export] Hint Resolve quiet_measure : ramdb.

Lemma quiet_set_phase n : quiet (set_phase n).
Proof. apply quiet_measure. Qed.
#[export] Hint Resolve quiet_set_phase : ramdb.

Lemma quiet_probe_medium l : quiet (probe_medium l).
Proof. induction l; cbn [probe_medium]; unfold try_mount_candidate, bridge_calamares_source; repeat only_step. Qed.
#[export] Hint Resolve quiet_probe_medium : ramdb.

Lemma quiet_early : quiet early_phase.
Proof.
  unfold early_phase, measure_cmdline, mount_early, create_essential_devices.
  unfold prepare_live_medium_bridge, list_all_block_devices. repeat only_step.
Qed.

Lemma quiet_find_root c : quiet (find_root c).
Proof.
  unfold find_root, list_available_devices. cbv zeta. generalize (Z.to_nat (max_retries c)). intros n. repeat only_step.
Qed.
#[export] Hint Resolve quiet_find_root : ramdb.

Lemma quiet_detect c : quiet (detect_phase c).
Proof.
  unfold detect_phase, udev_step, network_step, storage_step, remote_step. repeat only_step.
Qed.

Lemma quiet_find_mount_target : quiet find_mount_target.
Proof. unfold find_mount_target. repeat only_step. Qed.

Lemma quiet_fsck_step c d : quiet (fsck_step c d).
Proof. unfold fsck_step, check_root, find_fsck_binary. repeat only_step. Qed.

Lemma quiet_tpm2_send fd cmd : quiet (tpm2.tpm2_send fd cmd).
Proof. unfold tpm2.tpm2_send, write_cmd. repeat only_step. Qed.
#[export] Hint Resolve quiet_tpm2_send : ramdb.

Lemma quiet_unseal : quiet tpm2.unseal_luks_key.
Proof.
  unfold tpm2.unseal_luks_key, tpm2.read_parent_handle, tpm2.open_tpm_device, tpm2.tpm2_load, tpm2.tpm2_start_auth_session,
    tpm2.read_pcr_mask, tpm2.tpm2_policy_pcr, tpm2.tpm2_unseal, tpm2.tpm2_flush_context. cbv zeta.
  repeat only_step.
Qed.
#[export] Hint Resolve quiet_unseal : ramdb.

Lemma quiet_overlay z : quiet (overlay_phase z).
Proof.
  unfold overlay_phase, overlay_disabled_by_cmdline, measure_overlay_mode, mount_overlay, bind_persistent_dir. cbv zeta.
  repeat only_step.
Qed.

Lemma quiet_move r l : l ⊆ MOUNT_MOVE_ORDER → quiet (move_mounts r l).
Proof.
  induction l as [|mp l IH]; intros Hl; cbn [move_mounts]; [done|].
  repeat only_step; [|apply IH; set_solver].
  apply only_mount. apply not_target. left. set_solver.
Qed.
#[export] Hint Extern 1 (performs _ (move_mounts _ _)) => (apply quiet_move; done) : ramdb.

Lemma quiet_switch c r : quiet (switch_phase c r).
Proof.
  unfold switch_phase, boot_target, rescue_boot_target, discover_boot_target, first_mount_point, find_init_binary,
    measure_init_binary, pivot_to_root, enter_root. cbv zeta.
  repeat only_step.
Qed.

Lemma quiet_cmdline : quiet cmdline_phase.
Proof. unfold cmdline_phase, parse. repeat only_step. Qed.

(** ** dm-verity *)

(** The evidence, in the events so far, that [src] is what dm-verity checks against the root
    hash of the command line: a table with that hash was loaded, the device was activated, and
    [src] is that device or a LUKS mapping that was opened on it. *)
Definition VERITY_DEVICE : string := "/dev/mapper/zainium-verity".

Definition table_loaded (text : string) (tr : list Event) : Prop :=
  ∃ cfg0 cfg sectors fd ret,
    parse_verity_cmdline (trim text) = Some (Ok cfg0) ∧ roothash cfg = roothash cfg0 ∧ 0 ≤ ret ∧
    Ev (Ioctl fd (DM_IOWR DM_TABLE_LOAD_CMD) (BytesArg (verity_table cfg sectors))) ret ∈ tr.

Definition luks_opened (device nm : string) (tr : list Event) : Prop :=
  ∃ cryptsetup child,
    Ev (SpawnPiped cryptsetup ["luksOpen"; "--key-file=-"; "--batch-mode"; device; nm]) (Ok child) ∈ tr ∧
    Ev (WaitChild child) (Ok (Some 0)) ∈ tr.

Definition verified (text : string) (tr : list Event) (src : option string) : Prop :=
  table_loaded text tr ∧
  (src = Some VERITY_DEVICE ∨
   ∃ nm, src = Some ("/dev/mapper/" +:+ nm) ∧ luks_opened VERITY_DEVICE nm tr).

(** At every mount on one of the mount targets, the evidence is in the earlier events. *)
Definition root_mount_ok (text : string) (v : Event) (earlier : list Event) : Prop :=
  match v with
  | Ev (Mount src target _ _ _) _ => target ∈ MOUNT_TARGETS → verified text earlier src
  | _ => True
  end.

Fixpoint root_mounts_verified (text : string) (tr : list Event) : Prop :=
  match tr with
  | [] => True
  | v :: earlier => root_mount_ok text v earlier ∧ root_mounts_verified text earlier
  end.

Lemma quiet_event text v tr : event_op (only no_root) v → root_mount_ok text v tr.
Proof.
  destruct v as [X e x]. simpl. intros [Hp|Hn]; destruct e; simpl in *; try done.
Qed.

Lemma quiet_events text l tr :
  Forall (event_op (only no_root)) l → root_mounts_verified text tr → root_mounts_verified text (l ++ tr).
Proof. induction 1 as [|v l Hv Hl IH]; simpl; [done|]. intros H. split; [by apply quiet_event|auto]. Qed.

Notation keeps_verified text := (keeps (trace_step text) (root_mounts_verified text)).

Lemma quiet_keeps text {A} (p : prog RamOp A) : quiet p → keeps_verified text p.
Proof.
  intros Hp tr Htr. eapply wp_mono; [|by apply trace_performs]. simpl. intros tr' a (l & -> & Hl). by apply quiet_events.
Qed.

Lemma keeps_boot {A B} text (p : boot A) (k : A → boot B) :
  keeps_verified text p → (∀ a, keeps_verified text (k a)) → keeps_verified text (boot_bind p k).
Proof. intros Hp Hk. apply keeps_bind; [done|]. intros [[a|e]|]; [apply Hk|apply keeps_ret..]. Qed.

(** The events so far stay. *)
Definition lasting (I : list Event → Prop) : Prop := ∀ v tr, I tr → I (v :: tr).

Lemma lasting_keeps text I {A} (p : prog RamOp A) : lasting I → keeps (trace_step text) I p.
Proof. intros HI. induction p as [a|X e k IH]; intros tr Htr; simpl; [done|]. intros x tr' [-> _]. apply IH. by apply HI. Qed.

Lemma lasting_table text : lasting (table_loaded text).
Proof.
  intros v tr (cfg0 & cfg & sectors & fd & ret & H1 & H2 & H3 & H4). exists cfg0, cfg, sectors, fd, ret.
  repeat split; try done. by right.
Qed.

Lemma lasting_luks d nm : lasting (luks_opened d nm).
Proof. intros v tr (cs & child & H1 & H2). exists cs, child. split; right; done. Qed.

(** What a fallible step gives when it succeeds. *)
Definition gives {A} text (p : prog RamOp (result string A)) (tr : list Event) (Q : list Event → A → Prop) : Prop :=
  wp (trace_step text) p tr (λ tr' r, ∀ a, r = Ok a → Q tr' a).

Lemma gives_try {A B} text (p : prog RamOp (result string A)) (k : A → prog RamOp (result string B)) tr R Q :
  gives text p tr R → (∀ tr a, R tr a → gives text (k a) tr Q) → gives text (try_bind p k) tr Q.
Proof.
  intros Hp Hk. apply wp_try. eapply wp_mono; [|exact Hp]. intros tr' [a|e] HR; [|done]. by apply Hk, HR.
Qed.

Lemma gives_skip {A B} text (p : prog RamOp (result string A)) (k : A → prog RamOp (result string B)) tr Q :
  (∀ tr a, gives text (k a) tr Q) → gives text (try_bind p k) tr Q.
Proof. intros Hk. apply (gives_try _ _ _ _ (λ _ _, True)); [by apply wp_true|]. intros tr' a _. apply Hk. Qed.

Lemma gives_with_fd {A} text fd (p : prog RamOp (result string A)) tr Q :
  (∀ a, lasting (λ tr, Q tr a)) → gives text p tr Q → gives text (with_fd fd p) tr Q.
Proof.
  intros HQ Hp. unfold gives, with_fd. eapply wp_bind_2; [exact Hp|]. intros tr' r Hr [] tr'' [-> _] a ->.
  apply HQ. by apply Hr.
Qed.

Lemma gives_op {X A} text (e : RamOp X) (k : X → prog RamOp (result string A)) tr Q :
  (∀ x, gives text (k x) (Ev e x :: tr) Q) → gives text (prog_bind (trigger e) k) tr Q.
Proof. intros Hk x tr' [-> _]. apply Hk. Qed.

Lemma gives_os_error {A} text f tr (Q : list Event → A → Prop) :
  gives text (let* e := ros LastOsError in Ret (Err (f e))) tr Q.
Proof. by intros x tr' _. Qed.

Lemma gives_os_err {A} text s tr (Q : list Event → A → Prop) : gives text (os_err s) tr Q.
Proof. apply gives_os_error. Qed.

Lemma gives_setup_verity text cfg0 cfg tr :
  parse_verity_cmdline (trim text) = Some (Ok cfg0) → roothash cfg = roothash cfg0 → dm_name cfg = "zainium-verity" →
  gives text (setup_verity cfg) tr (λ tr dev, dev = VERITY_DEVICE ∧ table_loaded text tr).
Proof.
  intros Hp Hr Hn. unfold setup_verity. apply gives_skip. intros tr1 _.
  apply gives_op. intros fd. destruct (fd <? 0) eqn:Hfd; [apply (gives_os_error text (λ e, _))|].
  apply gives_with_fd.
  { intros dev v tr0 [H1 H2]. split; [done|by apply lasting_table]. }
  apply gives_skip. intros tr2 _. apply gives_skip. intros tr3 _. apply gives_skip. intros tr4 sectors.
  apply (gives_try _ _ _ _ (λ tr _, table_loaded text tr)).
  { unfold dm_table_load_verity, dm_request. apply gives_op. intros ret.
    destruct (Z.ltb_spec ret 0); [apply gives_os_err|]. intros [] _. exists cfg0, cfg, sectors, fd, ret.
    repeat split; [done..|]. left. }
  intros tr5 _ Ht. apply (gives_try _ _ _ _ (λ tr _, table_loaded text tr)).
  { eapply wp_mono; [|apply (lasting_keeps text _ _ (lasting_table text) _ Ht)]. done. }
  intros tr6 _ Ht6 dev [= <-]. split; [|done]. by rewrite Hn.
Qed.

Lemma parse_verity_name s cfg : parse_verity_cmdline s = Some (Ok cfg) → dm_name cfg = "zainium-verity".
Proof.
  unfold parse_verity_cmdline. cbv zeta. destruct (negb _); [done|]. generalize (foldl verity_token). intros f.
  repeat case_match; intros [= <-]; done.
Qed.

Lemma gives_verity_device text c rd tr :
  raw c = trim text → gives text (setup_verity_device c rd) tr (λ tr dev, dev = VERITY_DEVICE ∧ table_loaded text tr).
Proof.
  intros Hc. unfold setup_verity_device. rewrite Hc. destruct (parse_verity_cmdline (trim text)) as [[cfg|e]|] eqn:E; [|done..].
  pose proof (parse_verity_name _ _ E) as Hn.
  destruct (is_empty (data_device cfg)); by eapply gives_setup_verity.
Qed.

Lemma gives_luks text d nm key tr :
  gives text (open_luks_with_passphrase d nm key) tr (λ tr m, m = "/dev/mapper/" +:+ nm ∧ luks_opened d nm tr).
Proof.
  unfold open_luks_with_passphrase. apply gives_skip. intros tr1 cs.
  apply (gives_try _ _ _ _ (λ tr child,
    Ev (SpawnPiped cs ["luksOpen"; "--key-file=-"; "--batch-mode"; d; nm]) (Ok child) ∈ tr)).
  { unfold or_err. apply gives_op. intros [child|e]; [|done]. intros a [= <-]. left. }
  intros tr2 child Hs. apply gives_op. intros [].
  apply (gives_try _ _ _ _ (λ tr st, Ev (WaitChild child) (Ok st) ∈ tr ∧
    Ev (SpawnPiped cs ["luksOpen"; "--key-file=-"; "--batch-mode"; d; nm]) (Ok child) ∈ tr)).
  { unfold or_err. apply gives_op. intros [st|e]; [|done]. intros a [= <-]. split; [left|]. right. by right. }
  intros tr3 st [Hw Hs'] a. case_bool_decide as E; [|done]. intros [= <-]. split; [done|]. exists cs, child. by subst st.
Qed.

Definition unlocks text (d : string) (p : prog RamOp (option (result string string))) (tr : list Event) : Prop :=
  wp (trace_step text) p tr (λ tr' r, ∀ m, r = Some (Ok m) → m = d ∨ ∃ nm, m = "/dev/mapper/" +:+ nm ∧ luks_opened d nm tr').

Lemma unlocks_luks text d nm key tr : unlocks text d (some_ret (open_luks_with_passphrase d nm key)) tr.
Proof.
  unfold unlocks, some_ret. eapply wp_bind_2; [apply gives_luks|]. intros tr' r Hr m [= ->]. right. exists nm. by apply Hr.
Qed.

Lemma unlocks_after {A} text d (p : prog RamOp A) k tr :
  (∀ tr a, unlocks text d (k a) tr) → unlocks text d (prog_bind p k) tr.
Proof. intros Hk. unfold unlocks. eapply wp_bind_2; [by apply (wp_true _ _ _ (λ _ _, True))|]. intros. apply Hk. Qed.

Lemma unlocks_device text fuel d c tr : unlocks text d (unlock_device fuel d c) tr.
Proof.
  unfold unlock_device. apply unlocks_after. intros tr1 [[|]|e]; [|by intros m [= <-]; left|done].
  destruct (luks_name c) as [nm|]; [|done]. unfold open_luks_device.
  do 2 (apply unlocks_after; intros ? ?). apply unlocks_after. intros ? [key|]; [apply unlocks_luks|].
  apply unlocks_after. intros ? [key|]; [apply unlocks_luks|]. apply unlocks_after.
  intros ? [[key|e']|]; [apply unlocks_luks|done|done].
Qed.

(** Mounts on the root come from one of [srcs]. *)
Definition sourced (srcs : list string) : ∀ X, RamOp X → Prop := λ X e,
  match e with
  | Mount src target _ _ _ => target ∈ MOUNT_TARGETS → ∃ s, src = Some s ∧ s ∈ srcs
  | _ => True
  end.

Lemma quiet_sourced srcs {A} (p : prog RamOp A) : quiet p → performs (sourced srcs) p.
Proof. apply performs_mono. intros X e [Hp|Hn]; destruct e; simpl in *; done. Qed.

Lemma sourced_keeps text srcs {A} (p : prog RamOp A) :
  performs (sourced srcs) p →
  keeps (trace_step text) (λ tr, root_mounts_verified text tr ∧ ∀ s, s ∈ srcs → verified text tr (Some s)) p.
Proof.
  induction p as [a|X e k IH]; [by intros _ tr Htr|]. intros [He Hk] tr [Hg Hs] x tr' [-> _]. apply IH; [done|].
  split; [split; [|done]|].
  - destruct e; simpl in *; try done. intros Ht. destruct (He Ht) as (s & -> & Hin). by apply Hs.
  - intros s Hin. destruct (Hs s Hin) as [Ht Hd]. split; [by apply lasting_table|].
    destruct Hd as [->|(nm & -> & Hl)]; [by left|right]. exists nm. split; [done|]. by apply lasting_luks.
Qed.

Lemma sourced_mount srcs s target fstype flags data : s ∈ srcs → performs (sourced srcs) (mount (Some s) target fstype flags data).
Proof. intros Hs. split; [|done]. intros _. by exists s. Qed.

Lemma sourced_candidates srcs s explicit target l :
  s ∈ srcs → performs (sourced srcs) (try_mount_root_candidates s explicit target l).
Proof.
  intros Hs. unfold try_mount_root_candidates. apply performs_bind.
  - generalize (mount_candidates explicit l). intros fs. induction fs as [|f fs IH]; cbn [mount_first]; [done|].
    apply performs_bind; [by apply sourced_mount|]. by intros [|].
  - intros [|]; [done|]. apply performs_bind; [by apply sourced_mount|done].
Qed.

Lemma mapper_type nm : device_type ("/dev/mapper/" +:+ nm) = NFS ∨ device_type ("/dev/mapper/" +:+ nm) = PARTITION.
Proof. unfold device_type. destruct (contains ":" _); [by left|right]. reflexivity. Qed.

Lemma sourced_by_type d nm c target :
  performs (sourced [d; "/dev/mapper/" +:+ nm]) (mount_by_type d ("/dev/mapper/" +:+ nm) c target).
Proof.
  unfold mount_by_type. destruct (mapper_type nm) as [-> | ->].
  - apply performs_or_err. apply sourced_mount. right. by left.
  - case_bool_decide; [apply performs_or_err, sourced_mount; right; by left|].
    apply performs_bind; [apply sourced_candidates; by left|done].
Qed.

Lemma quiet_unlock fuel d c : quiet (unlock_device fuel d c).
Proof.
  unfold unlock_device, is_luks_device, open_luks_device, tpm2.tpm2_available, tpm2.tpm2_blob_exists, read_keyfile,
    read_file_to_end, prompt_luks_passphrase, open_luks_with_passphrase, find_cryptsetup. cbv zeta. repeat only_step.
Qed.

Lemma quiet_verity_device c rd : quiet (setup_verity_device c rd).
Proof.
  unfold setup_verity_device, setup_verity, get_block_device_sectors, dm_version_check, dm_dev_create,
    dm_table_load_verity, dm_dev_resume, dm_request. repeat only_step.
Qed.

Lemma verified_mount text fuel c target tr :
  root_mounts_verified text tr → table_loaded text tr →
  wp (trace_step text) (mount_root_at fuel VERITY_DEVICE c target) tr (λ tr _, root_mounts_verified text tr).
Proof.
  intros Hg Ht. unfold mount_root_at. eapply wp_bind_2 with (R := λ tr _, root_mounts_verified text tr);
    [|by intros tr' [[|]|]].
  unfold mount_root_impl. apply wp_op. intros x tr1 [-> _].
  assert (Hg1 : root_mounts_verified text (Ev (ROs (CreateDirAll target)) x :: tr)) by (by split).
  pose proof (lasting_table text (Ev (ROs (CreateDirAll target)) x) tr Ht) as Ht1. revert Hg1 Ht1. clear Hg Ht.
  generalize (Ev (ROs (CreateDirAll target)) x :: tr). clear tr. intros tr Hg Ht. destruct x as [[]|e]; [|done].
  unfold fuel_bind. eapply wp_bind_2.
  { apply wp_and; [|apply wp_and; [|apply (unlocks_device text fuel VERITY_DEVICE c tr)]].
    - apply (quiet_keeps text _ (quiet_unlock fuel VERITY_DEVICE c) tr Hg).
    - apply (lasting_keeps text _ (unlock_device fuel VERITY_DEVICE c) (lasting_table text) tr Ht). }
  intros tr1 [[d|e]|] (Hg1 & Ht1 & Hd); [|done|done]. unfold some_ret.
  eapply wp_bind_2 with (R := λ tr _, root_mounts_verified text tr); [|done].
  assert (Hn : ∃ nm, d = "/dev/mapper/" +:+ nm ∧ (nm = "zainium-verity" ∨ luks_opened VERITY_DEVICE nm tr1)).
  { destruct (Hd d eq_refl) as [->|(nm & -> & Hl)]; [exists "zainium-verity"|exists nm]; auto. }
  destruct Hn as (nm & -> & Hn). eapply wp_mono; [|apply (sourced_keeps text _ _ (sourced_by_type VERITY_DEVICE nm c target))].
  { by intros tr2 r [H _]. }
  split; [done|]. intros s Hs. split; [done|]. rewrite !elem_of_cons, elem_of_nil in Hs.
  destruct Hs as [->|[->|[]]]; [by left|]. destruct Hn as [->|Hl]; [by left|right]. by exists nm.
Qed.

Lemma keeps_verity_mount text fuel c rd target :
  verity_enabled c = true → raw c = trim text →
  keeps_verified text (boot* actual := verity_step c rd in mount_root_at fuel actual c target).
Proof.
  intros Hv Hr tr Htr. unfold verity_step. rewrite Hv. unfold boot_bind at 1.
  eapply wp_bind_2 with (R := λ tr r, root_mounts_verified text tr ∧ ∀ dev, r = Some (inl dev) → dev = VERITY_DEVICE ∧ table_loaded text tr).
  { unfold boot_bind, run. apply wp_bind, wp_bind.
    eapply wp_mono; [|apply wp_and; [apply (quiet_keeps text _ (quiet_verity_device c rd) tr Htr)|apply (gives_verity_device text c rd tr Hr)]].
    intros tr' [dev|e] [Hg Hd]; simpl; split; try done. intros d [= <-]. by apply Hd. }
  intros tr1 [[dev|e]|] [Hg Hd]; [|done|done]. destruct (Hd dev eq_refl) as [-> Ht]. by apply verified_mount.
Qed.

Lemma boot_assoc {A B C} (p : boot A) (k : A → boot B) (l : B → boot C) tr text Q :
  wp (trace_step text) (boot_bind (boot_bind p k) l) tr Q → wp (trace_step text) (boot_bind p (λ a, boot_bind (k a) l)) tr Q.
Proof.
  unfold boot_bind. rewrite !wp_bind. apply wp_mono. intros tr' [[a|e]|]; simpl; rewrite ?wp_bind; done.
Qed.

Lemma keeps_mount_phase text fuel c rd :
  verity_enabled c = true → raw c = trim text → keeps_verified text (mount_phase fuel c rd).
Proof.
  intros Hv Hr. unfold mount_phase. apply keeps_boot.
  { apply quiet_keeps. unfold run. repeat only_step. apply quiet_find_mount_target. }
  intros [zairoot|]; [|apply keeps_ret]. apply keeps_boot; [apply quiet_keeps, quiet_fsck_step|]. intros _ tr Htr.
  apply boot_assoc. eapply (keeps_boot text); [by apply keeps_verity_mount| |done].
  intros _. apply keeps_boot; [|intros; apply keeps_ret]. apply quiet_keeps. repeat only_step.
Qed.

Lemma cmdline_phase_gives text tr :
  wp (trace_step text) cmdline_phase tr (λ _ r, ∀ c, r = Some (inl c) → c = parse_text text).
Proof.
  unfold cmdline_phase, boot_bind, run. apply wp_bind, wp_bind. unfold parse. apply wp_bind.
  eapply wp_mono; [|apply (wp_true _ _ _ (λ _ _, True)); done]. intros tr1 _ _. apply wp_op.
  intros r tr2 [-> Ha]. simpl in Ha. rewrite (Ha eq_refl). cbn [prog_bind wp].
  unfold shell_if. destruct (rd_shell (parse_text text)); [by intros c|]. by intros c [= <-].
Qed.

(** ** What is shown *)

(** C14: With [rd.verity=1] on the command line, whatever the system answers, nothing is ever
    mounted as the root but the dm-verity device, after its table was loaded with the root hash
    of the command line, or a LUKS mapping that was opened on that device. *)
Theorem verity_guards_root (text : string) (fuel : nat) :
  "rd.verity=1" ∈ split_whitespace text →
  wp (trace_step text) (main fuel) [] (λ tr _, root_mounts_verified text tr).
Proof.
  intros Hin.
  assert (Hv : verity_enabled (parse_text text) = true).
  { unfold parse_text. rewrite parse_tokens_spec. simpl. by apply has_token_elem. }
  assert (H0 : root_mounts_verified text []) by done. revert H0. generalize (@nil Event).
  unfold main. apply keeps_boot; [apply quiet_keeps, quiet_early|]. intros _ tr Htr.
  unfold boot_bind at 1. eapply wp_bind_2.
  { apply wp_and; [apply (quiet_keeps text _ quiet_cmdline tr Htr)|apply cmdline_phase_gives]. }
  clear tr Htr. intros tr [[c|e]|] [Htr Hc]; [|done|done]. rewrite (Hc c eq_refl). clear Hc c. revert tr Htr.
  apply keeps_boot; [apply quiet_keeps, quiet_detect|]. intros rd.
  apply keeps_boot; [by apply keeps_mount_phase|]. intros zairoot.
  apply keeps_boot; [apply quiet_keeps; unfold run; repeat only_step; apply quiet_overlay|].
  intros r. apply quiet_keeps, quiet_switch.
Qed.

Lemma verity_guards_root_witness :
  let text := "root=/dev/sda2 rd.verity=1 rd.verity.data=/dev/sda2 rd.verity.hash=/dev/sda3" in
  wp (trace_step text) (main 100) [] (λ tr _, root_mounts_verified text tr).
Proof. apply (verity_guards_root "root=/dev/sda2 rd.verity=1 rd.verity.data=/dev/sda2 rd.verity.hash=/dev/sda3" 100). vm_compute. set_solver. Defined.
