(* ===== verification/RamMeasure.v ===== *)
(** * The measured boot

    The TPM as its specification describes [TPM2_PCR_Extend], and the value of PCR 8 at the
    moment init is executed. *)

From Stdlib Require Import ZArith Ascii.
From stdpp Require Import base tactics numbers list strings sets.
From S2P Require Import Prelude RustStr Types Effects Os Sha256 RamCmdline Ramdisk RamVerity RamTpm RamRoot RamBoot RamOnly.

Local Open Scope string_scope.
Local Open Scope list_scope.
Local Open Scope Z_scope.
Local Open Scope prog_scope.

(** ** The TPM *)

(** Big-endian numbers. *)
Definition be (b : list Z) : Z := foldl (λ acc x, acc * 256 + x) 0 b.
Definition field (i n : nat) (b : list Z) : Z := be (take n (drop i b)).

(** A well-formed command to extend PCR 8 with one SHA-256 digest: a header with tag, size
    and command code, the handle, the authorization area with its size, and a list of one
    digest. *)
Definition extend_digest (cmd : list Z) : option (list Z) :=
  let body := drop (18 + Z.to_nat (field 14 4 cmd)) cmd in
  if (field 0 2 cmd =? 0x8002) && (field 2 4 cmd =? Z.of_nat (length cmd)) && (field 6 4 cmd =? 0x182)
     && (field 10 4 cmd =? 8) && (field 0 4 body =? 1) && (field 4 2 body =? 0xB) && (length body =? 38)%nat
  then Some (drop 6 body) else None.

(** The hash chain of a register. *)
Definition pcr_extend (pcr digest : list Z) : list Z := sha256 (pcr ++ digest).

Record TpmWorld := {
  pcr8 : list Z;
  read_log : list (string * result string (list Z));
  execs : list (string * list Z);
}.

Definition tpm_write (w : TpmWorld) (cmd : list Z) : TpmWorld :=
  match extend_digest cmd with
  | Some digest => {| pcr8 := pcr_extend (pcr8 w) digest; read_log := read_log w; execs := execs w |}
  | None => w
  end.

Definition os_tpm_step (text : string) {X} (e : Os X) : X → Prop :=
  match e in Os X return X → Prop with
  | ReadToString path => λ x, path = "/proc/cmdline" → x = Ok text
  | OpenFd path _ => λ x, path = "/dev/tpmrm0" → 0 ≤ x
  | _ => λ _, True
  end.

(** A machine with a TPM, which takes every command whole; the files that are read and the
    programs that are executed are recorded, the latter with the register at that time. *)
Definition tpm_step (text : string) : ∀ X, RamOp X → TpmWorld → X → TpmWorld → Prop :=
  λ X e, match e in RamOp X return TpmWorld → X → TpmWorld → Prop with
  | ROs e => λ w x w', os_tpm_step text e x ∧ w' = w
  | WriteFd _ cmd => λ w x w', x = Z.of_nat (length cmd) ∧ w' = tpm_write w cmd
  | ReadFile path => λ w x w', w' = {| pcr8 := pcr8 w; read_log := (path, x) :: read_log w; execs := execs w |}
  | Execv path _ => λ w _ w', w' = {| pcr8 := pcr8 w; read_log := read_log w; execs := (path, pcr8 w) :: execs w |}
  | _ => λ w _ w', w' = w
  end.

(** ** The commands *)

Lemma length_sha_chunk h c : length h = 8%nat → length (sha_chunk h c) = 8%nat.
Proof. intros Hh. unfold sha_chunk. rewrite length_zip_with, Hh. reflexivity. Qed.

Lemma length_sha256 d : length (sha256 d) = 32%nat.
Proof.
  unfold sha256. generalize (chunks 64 (sha_pad d)). intros cs.
  assert (H : ∀ h, length h = 8%nat → length (foldl sha_chunk h cs) = 8%nat).
  { induction cs as [|c cs IH]; intros h Hh; simpl; [done|]. by apply IH, length_sha_chunk. }
  specialize (H sha_init eq_refl). revert H. generalize (foldl sha_chunk sha_init cs). intros h Hh.
  do 9 (destruct h as [|? h]; [try done|]); done.
Qed.

Definition extend_header : list Z :=
  [0x80; 2; 0; 0; 0; 65; 0; 0; 1; 0x82; 0; 0; 0; 8; 0; 0; 0; 9; 0x40; 0; 0; 9; 0; 0; 0; 0; 0; 0; 0; 0; 1; 0; 0xB].

Lemma extend_command_bytes d : length d = 32%nat → extend_command PCR_INDEX d = extend_header ++ d.
Proof.
  intros Hd. unfold extend_command.
  assert (Z.of_nat (length (push_u32 1 ++ push_u16 TPM2_ALG_SHA256 ++ d)) = 38) as -> by (simpl; rewrite Hd; reflexivity).
  reflexivity.
Qed.

Lemma extend_command_digest d : length d = 32%nat → extend_digest (extend_command PCR_INDEX d) = Some d.
Proof.
  intros Hd. rewrite extend_command_bytes by done. unfold extend_digest.
  assert (Z.of_nat (length (extend_header ++ d)) = 65) as -> by (simpl; rewrite Hd; reflexivity).
  change (18 + Z.to_nat (field 14 4 (extend_header ++ d)))%nat with 27%nat. cbv zeta.
  change (drop 27 (extend_header ++ d)) with ([0; 0; 0; 1; 0; 0xB] ++ d).
  assert (length ([0; 0; 0; 1; 0; 0xB] ++ d) = 38%nat) as -> by (simpl; by rewrite Hd).
  reflexivity.
Qed.

(** Every other command has another code. *)
Lemma other_command t s cc rest :
  field 0 4 (push_u32 cc) ≠ 0x182 → extend_digest (push_u16 t ++ push_u32 s ++ push_u32 cc ++ rest) = None.
Proof.
  intros Hc. unfold extend_digest. cbv zeta.
  change (field 6 4 (push_u16 t ++ push_u32 s ++ push_u32 cc ++ rest)) with (field 0 4 (push_u32 cc)).
  apply Z.eqb_neq in Hc. rewrite Hc, andb_false_r. reflexivity.
Qed.

(** ** Steps that leave the register alone *)

Definition same (w w' : TpmWorld) : Prop := pcr8 w' = pcr8 w ∧ execs w' = execs w ∧ read_log w ⊆ read_log w'.

Lemma same_refl w : same w w.
Proof. done. Qed.
Lemma same_trans w1 w2 w3 : same w1 w2 → same w2 w3 → same w1 w3.
Proof. intros (H1 & H2 & H3) (H4 & H5 & H6). split; [congruence|]. split; [congruence|]. by transitivity (read_log w2). Qed.

Definition no_tpm (c : Class) : Prop := match c with TpmWrite | Exec => False | _ => True end.

#[export] Hint Extern 1 (no_tpm (MountAt _)) => exact I : ramdb.

Definition harmless text {A} (p : prog RamOp A) : Prop := ∀ w, keeps (tpm_step text) (same w) p.

Lemma no_tpm_step text X (e : RamOp X) w x w' : only no_tpm X e → tpm_step text X e w x w' → same w w'.
Proof.
  intros He Hs. destruct e; simpl in Hs; try (destruct Hs as [_ ->]; done); try (subst w'; done);
    try (destruct He as [He|He]; done).
  subst w'. repeat split; try done. simpl. set_solver.
Qed.

Lemma harmless_only text {A} (p : prog RamOp A) : performs (only no_tpm) p → harmless text p.
Proof.
  intros Hp w0. induction p as [a|X e k IH]; [by intros w Hw|]. destruct Hp as [He Hk]. intros w Hw x w' Hs.
  apply IH; [done|]. eapply same_trans; [exact Hw|]. by eapply no_tpm_step.
Qed.

Lemma harmless_bind text {A B} (p : prog RamOp A) (k : A → prog RamOp B) :
  harmless text p → (∀ a, harmless text (k a)) → harmless text (prog_bind p k).
Proof. intros Hp Hk w. apply keeps_bind; [apply Hp|]. intros a. apply Hk. Qed.

Lemma harmless_try {E A B} text (p : prog RamOp (result E A)) (k : A → prog RamOp (result E B)) :
  harmless text p → (∀ a, harmless text (k a)) → harmless text (try_bind p k).
Proof. intros Hp Hk. apply harmless_bind; [done|]. intros [a|e]; [apply Hk|]. intros w. apply keeps_ret. Qed.

(** The writes go through whole. *)
Lemma wp_write_cmd text fd cmd w Q :
  cmd ≠ [] → (∀ r, Q (tpm_write w cmd) r) → wp (tpm_step text) (write_cmd fd cmd) w Q.
Proof.
  intros Hc HQ. unfold write_cmd. apply wp_bind. destruct cmd as [|b cmd]; [done|]. cbn [write_all length].
  apply wp_op. intros n w' [-> ->]. destruct (Z.leb_spec (Z.of_nat (length (b :: cmd))) 0) as [H|_]; [simpl in H; lia|].
  rewrite Nat2Z.id, drop_all. simpl. apply HQ.
Qed.

Lemma harmless_tpm2_send text fd cmd : cmd ≠ [] → extend_digest cmd = None → harmless text (tpm2.tpm2_send fd cmd).
Proof.
  intros Hc He. unfold tpm2.tpm2_send. apply harmless_try.
  - intros w0 w Hw. apply wp_write_cmd; [done|]. intros _. unfold tpm_write. by rewrite He.
  - intros _. apply harmless_only. repeat only_step.
Qed.

Lemma harmless_unseal text : harmless text tpm2.unseal_luks_key.
Proof.
  assert (Hs : ∀ t fd s cc rest, field 0 4 (push_u32 cc) ≠ 0x182 →
    harmless text (tpm2.tpm2_send fd (push_u16 t ++ push_u32 s ++ push_u32 cc ++ rest))).
  { intros. apply harmless_tpm2_send; [done|by apply other_command]. }
  unfold tpm2.unseal_luks_key. apply harmless_try; [apply harmless_only; repeat only_step|]. intros blob.
  destruct (_ <? _)%nat; [apply harmless_only; done|].
  apply harmless_try; [apply harmless_only; unfold tpm2.read_parent_handle; repeat only_step|]. intros parent.
  apply harmless_try; [apply harmless_only; unfold tpm2.open_tpm_device; repeat only_step|]. intros fd.
  unfold with_fd. apply harmless_bind; [|intros; apply harmless_only; repeat only_step].
  apply harmless_try; [by apply harmless_only|]. intros parts.
  apply harmless_try; [apply harmless_try; [apply Hs; vm_compute; done|intros; by apply harmless_only]|]. intros object.
  apply harmless_try; [apply harmless_try; [apply Hs; vm_compute; done|intros; by apply harmless_only]|]. intros session.
  apply harmless_bind; [apply harmless_only; unfold tpm2.read_pcr_mask; repeat only_step|]. intros mask.
  apply harmless_try; [apply harmless_try; [apply Hs; vm_compute; done|intros; by apply harmless_only]|]. intros _.
  apply harmless_try; [apply harmless_try; [apply Hs; vm_compute; done|intros; by apply harmless_only]|]. intros key.
  do 2 (apply harmless_bind; [apply harmless_try; [apply Hs; vm_compute; done|intros; by apply harmless_only]|intros _]).
  by apply harmless_only.
Qed.

(** ** The chain *)

Definition measured (ms : list string) : list Z :=
  foldl (λ v m, pcr_extend v (sha256 (str_bytes m))) (replicate 32 0) ms.

(** Before init is executed, on the way to it. *)
Definition so_far (ms : list string) (w : TpmWorld) : Prop := pcr8 w = measured ms ∧ execs w = [].

Lemma so_far_same ms w w' : same w w' → so_far ms w → so_far ms w'.
Proof. intros (H1 & H2 & _) [H3 H4]. split; congruence. Qed.

Lemma wp_harmless text {A} (p : prog RamOp A) w Q :
  harmless text p → (∀ w' a, same w w' → Q w' a) → wp (tpm_step text) p w Q.
Proof. intros Hp HQ. eapply wp_mono; [|apply (Hp w w), same_refl]. intros w' a Hs. by apply HQ. Qed.

Definition extended (w : TpmWorld) (m : string) : TpmWorld :=
  {| pcr8 := pcr_extend (pcr8 w) (sha256 (str_bytes m)); read_log := read_log w; execs := execs w |}.

Lemma wp_measure text m w Q : Q (extended w m) tt → wp (tpm_step text) (measure m) w Q.
Proof.
  intros HQ. unfold measure. apply wp_bind. apply (wp_mono _ _ _ (λ w' _, w' = extended w m)); [by intros w' a ->|].
  unfold extend_pcr. apply wp_try. unfold open_tpm. apply wp_bind.
  eapply (wp_mono _ _ _ (λ w' r, w' = w ∧ r ≠ None)).
  { intros w' [fd|] [-> Hr]; [|done]. cbn [ok_or wp]. unfold with_fd. apply wp_bind. apply wp_try. unfold measured_boot.tpm2_send.
    apply wp_try. apply wp_write_cmd; [done|]. intros r. unfold tpm_write.
    rewrite extend_command_digest by apply length_sha256. fold (extended w m). 
    destruct r as [[]|e]; [|by intros [] w' [_ ->]].
    apply wp_bind, wp_op. intros x w' ->. cbn [wp]. destruct x as [resp|]; [|by intros e w' [_ ->] [] w'' [_ ->]].
    destruct (Z.of_nat (length resp) <? 10); [by intros e w' [_ ->] [] w'' [_ ->]|]. cbn [wp].
    destruct (response_code resp =? TPM2_RC_SUCCESS); by intros [] w' [_ ->]. }
  unfold TPM_DEVICES. cbn [open_first]. apply wp_op. intros fd w' [Hfd ->]. rewrite (proj2 (Z.leb_le 0 fd)) by by apply Hfd.
  done.
Qed.

(** A stage of the boot adds the measurements [l]. *)
Definition stage text {A} (p : boot A) (l : list string) : Prop :=
  ∀ ms w, so_far ms w →
    wp (tpm_step text) p w (λ w' r, match r with Some (inl _) => so_far (ms ++ l) w' | _ => execs w' = [] end).

Lemma measured_snoc ms m : measured (ms ++ [m]) = pcr_extend (measured ms) (sha256 (str_bytes m)).
Proof. unfold measured. by rewrite foldl_app. Qed.

Lemma stage_harmless text {A} (p : boot A) : harmless text p → stage text p [].
Proof.
  intros Hp ms w Hw. apply wp_harmless; [done|]. intros w' r Hs. rewrite app_nil_r.
  pose proof (so_far_same _ _ _ Hs Hw). destruct r as [[a|e]|]; [done|apply H..].
Qed.

Lemma stage_bind text {A B} (p : boot A) (k : A → boot B) l l' :
  stage text p l → (∀ a, stage text (k a) l') → stage text (boot_bind p k) (l ++ l').
Proof.
  intros Hp Hk ms w Hw. unfold boot_bind. apply wp_bind. eapply wp_mono; [|by apply Hp].
  intros w' [[a|e]|]; simpl; [|done|done]. rewrite app_assoc. apply Hk.
Qed.

Lemma stage_run_harmless text {A} (p : prog RamOp A) : harmless text p → stage text (run p) [].
Proof. intros Hp. apply stage_harmless. apply harmless_bind; [done|]. intros a w. apply keeps_ret. Qed.

Lemma stage_run_measure text {A} m (p : prog RamOp A) l :
  stage text (run p) l → stage text (run (measure m;* p)) (m :: l).
Proof.
  intros Hp ms w Hw. unfold run. apply wp_bind, wp_bind, wp_measure. apply wp_bind.
  replace (ms ++ m :: l) with ((ms ++ [m]) ++ l) by (by rewrite <- app_assoc).
  apply (Hp (ms ++ [m]) (extended w m)). destruct Hw as [Hp' He]. split; [|done]. rewrite measured_snoc, <- Hp'. done.
Qed.
Lemma stage_run_last text m : stage text (run (measure m)) [m].
Proof.
  intros ms w [Hp He]. unfold run. apply wp_bind, wp_measure. split; [|done]. by rewrite measured_snoc, <- Hp.
Qed.

Lemma stage_run_skip text {A B} (p : prog RamOp A) (k : A → prog RamOp B) l :
  harmless text p → (∀ a, stage text (run (k a)) l) → stage text (run (prog_bind p k)) l.
Proof.
  intros Hp Hk ms w Hw. unfold run. apply wp_bind, wp_bind. apply wp_harmless; [done|]. intros w' a Hs.
  apply wp_bind. apply (Hk a ms w'). by eapply so_far_same.
Qed.

Lemma stage_run_cmdline text {A} (p : prog RamOp A) l :
  stage text (run p) l → stage text (run (measure_cmdline;* p)) (cmdline_measurement text :: l).
Proof.
  intros Hp ms w Hw. unfold run, measure_cmdline. apply wp_bind, wp_bind, wp_bind, wp_op. intros r w' [Hr ->]. simpl in Hr.
  rewrite (Hr eq_refl). cbn [wp].
  pose proof (stage_run_measure text (cmdline_measurement text) p l Hp ms w Hw) as H. unfold run in H. rewrite !wp_bind in H. exact H.
Qed.

(** A test that can end the boot. *)
Lemma stage_shell_if text b reason : stage text (shell_if b reason) [].
Proof. apply stage_harmless, harmless_only. repeat only_step. Qed.

Lemma stage_shell text {A} reason l : stage text (shell reason : boot A) l.
Proof. by intros ms w [_ He]. Qed.

Lemma stage_value text {A} (a : A) : stage text (Ret (Some (inl a))) [].
Proof. intros ms w Hw. simpl. by rewrite app_nil_r. Qed.

Ltac harmless_here := apply harmless_only; repeat only_step.

Lemma harmless_medium text : harmless text prepare_live_medium_bridge.
Proof.
  assert (H : ∀ l, performs (only no_tpm) (probe_medium l)).
  { induction l; cbn [probe_medium]; unfold try_mount_candidate, bridge_calamares_source; repeat only_step. }
  apply harmless_only. unfold prepare_live_medium_bridge, list_all_block_devices. repeat only_step; apply H.
Qed.

Lemma stage_early text : stage text early_phase [phase_measurement 0; phase_measurement 1; cmdline_measurement text].
Proof.
  unfold early_phase. apply (stage_bind text _ _ [_; _] [_]).
  { apply (stage_run_measure text (phase_measurement 0) (set_phase 1) [_]), stage_run_last. }
  intros _. apply (stage_bind text _ _ [] [_]).
  { apply stage_run_harmless, harmless_only. unfold mount_early, create_essential_devices. repeat only_step. }
  intros r. apply (stage_bind text _ _ [] [_]); [apply stage_shell_if|]. intros _.
  do 4 (apply stage_run_skip; [harmless_here|intros ?]).
  apply stage_run_cmdline. apply stage_run_skip; [harmless_here|intros ?].
  apply stage_run_harmless, harmless_bind; [apply harmless_medium|]. intros; harmless_here.
Qed.

Lemma stage_cmdline text : stage text cmdline_phase [phase_measurement 2].
Proof.
  unfold cmdline_phase. apply (stage_bind text _ _ [_] []).
  { apply stage_run_measure, stage_run_harmless, harmless_only. unfold parse. repeat only_step. }
  intros [c|e]; [|apply stage_shell]. apply (stage_bind text _ _ [] []); [apply stage_shell_if|]. intros _. apply stage_value.
Qed.

Lemma stage_detect text c : stage text (detect_phase c) [phase_measurement 3].
Proof.
  unfold detect_phase. apply (stage_bind text _ _ [_] []); [apply stage_run_last|]. intros _.
  apply (stage_bind text _ _ [] []); [apply stage_shell_if|]. intros _. apply (stage_bind text _ _ [] []).
  - apply stage_run_harmless, harmless_only. unfold udev_step, network_step, storage_step, remote_step, find_root, list_available_devices.
    cbv zeta. generalize (Z.to_nat (max_retries c)). intros n. repeat only_step.
  - intros [d|e]; [apply stage_value|apply stage_shell].
Qed.
Lemma harmless_unlock text fuel d c : harmless text (unlock_device fuel d c).
Proof.
  unfold unlock_device, is_luks_device, open_luks_device, tpm2.tpm2_available, tpm2.tpm2_blob_exists, read_keyfile,
    read_file_to_end, prompt_luks_passphrase, open_luks_with_passphrase, find_cryptsetup. cbv zeta.
  apply harmless_bind; [harmless_here|]. intros [[|]|e]; [|harmless_here..]. destruct (luks_name c); [|harmless_here].
  do 2 (apply harmless_bind; [harmless_here|intros ?]).
  apply harmless_bind; [|intros; harmless_here]. destruct a0; [apply harmless_unseal|harmless_here].
Qed.

Lemma stage_mount text fuel c rd : stage text (mount_phase fuel c rd) [phase_measurement 4].
Proof.
  unfold mount_phase. apply (stage_bind text _ _ [_] []).
  { apply stage_run_measure, stage_run_harmless, harmless_only. unfold find_mount_target. repeat only_step. }
  intros [zairoot|]; [|apply stage_shell]. apply (stage_bind text _ _ [] []).
  { apply stage_harmless, harmless_only. unfold fsck_step, check_root, find_fsck_binary. repeat only_step. }
  intros _. apply (stage_bind text _ _ [] []).
  { apply stage_harmless, harmless_only. unfold verity_step, setup_verity_device, setup_verity, get_block_device_sectors, dm_version_check,
      dm_dev_create, dm_table_load_verity, dm_dev_resume, dm_request. repeat only_step. }
  intros actual. apply (stage_bind text _ _ [] []).
  { apply stage_harmless. unfold mount_root_at, mount_root_impl, fuel_bind.
    apply harmless_bind; [|intros; harmless_here]. apply harmless_bind; [harmless_here|]. intros [[]|e]; [|harmless_here].
    apply harmless_bind; [apply harmless_unlock|]. intros. apply harmless_only.
    unfold mount_by_type, setup_loop_device, setup_loop_ioctl, attach_loop_fd, mount_btrfs_subvol, try_mount_root_candidates. cbv zeta.
    repeat only_step. }
  intros _. apply (stage_bind text _ _ [] []); [apply stage_shell_if|]. intros _. apply stage_value.
Qed.

Definition overlay_on (text : string) : bool := negb (has_token "zainium.overlay=off" (split_whitespace text)).

Lemma stage_overlay text z : stage text (run (overlay_phase z)) [phase_measurement 5; overlay_measurement (overlay_on text)].
Proof.
  unfold overlay_phase. apply stage_run_measure. intros ms w Hw. unfold run. apply wp_bind, wp_bind.
  unfold overlay_disabled_by_cmdline. apply wp_bind, wp_op. intros r w' [Hr ->]. simpl in Hr. rewrite (Hr eq_refl). cbn [wp].
  apply wp_bind. unfold measure_overlay_mode. apply wp_measure. fold (overlay_on text).
  assert (Hw' : so_far (ms ++ [overlay_measurement (overlay_on text)]) (extended w (overlay_measurement (overlay_on text)))).
  { destruct Hw as [Hp He]. split; [|done]. by rewrite measured_snoc, <- Hp. }
  apply wp_harmless; [|intros w' a Hs; by eapply so_far_same].
  apply harmless_only. unfold mount_overlay, bind_persistent_dir. cbv zeta. repeat only_step.
Qed.

(** ** Init *)

(** What is measured up to the execution of init; [content] is what was read of its file. *)
Definition boot_measurements (text : string) (content : result string (list Z)) : list string :=
  [phase_measurement 0; phase_measurement 1; cmdline_measurement text; phase_measurement 2; phase_measurement 3;
   phase_measurement 4; phase_measurement 5; overlay_measurement (overlay_on text)]
  ++ match content with Ok data => [init_measurement data] | Err _ => [] end
  ++ [phase_measurement 6].

Definition init_measured (text : string) (w : TpmWorld) : Prop :=
  ∀ path pcr, (path, pcr) ∈ execs w →
    ∃ root content, (root +:+ path, content) ∈ read_log w ∧ pcr = measured (boot_measurements text content).

Lemma init_measured_none text w : execs w = [] → init_measured text w.
Proof. intros He path pcr. rewrite He. by intros ?%elem_of_nil. Qed.

Lemma init_measured_same text w w' : same w w' → init_measured text w → init_measured text w'.
Proof.
  intros (_ & He & Hl) Hw path pcr Hin. rewrite He in Hin. destruct (Hw path pcr Hin) as (root & content & H1 & H2).
  exists root, content. split; [by apply Hl|done].
Qed.

Definition early_measurements (text : string) : list string := take 8 (boot_measurements text (Err "")).

Lemma wp_pivot text target w root content :
  execs w = [] → pcr8 w = measured (boot_measurements text content) → (root +:+ init_path target, content) ∈ read_log w →
  wp (tpm_step text) (pivot_to_root target) w (λ w' _, init_measured text w').
Proof.
  intros He Hp Hin.
  assert (Hs : ∀ w', same w w' → init_measured text w').
  { intros w' (_ & He' & _). apply init_measured_none. congruence. }
  assert (Hq : ∀ {A B} (p : prog RamOp (result string A)) (k : A → prog RamOp (result string B)) w1 Q,
    same w w1 → harmless text p → (∀ w' e, same w w' → Q w' (Err e)) →
    (∀ w' a, same w w' → wp (tpm_step text) (k a) w' Q) → wp (tpm_step text) (try_bind p k) w1 Q).
  { intros A B p k w1 Q H1 H2 H3 H4. apply wp_try. apply wp_harmless; [done|]. intros w' [a|e] H5.
    - apply H4. by eapply same_trans.
    - apply H3. by eapply same_trans. }
  unfold pivot_to_root. apply wp_bind. apply wp_harmless; [harmless_here|]. intros w1 there H1.
  generalize (if there : bool then NEW_ROOT else mount_point target). intros r. cbv zeta.
  apply Hq; [done| |by intros; apply Hs|].
  { apply harmless_only. generalize MOUNT_MOVE_ORDER. intros l. induction l; cbn [move_mounts]; repeat only_step. }
  intros w2 _ H2. apply Hq; [done|harmless_here|by intros; apply Hs|].
  intros w3 _ H3. apply Hq; [done| |by intros; apply Hs|].
  { apply harmless_only. unfold enter_root. cbv zeta. repeat only_step. }
  intros w4 _ (H4 & H5 & H6). apply wp_op. intros e w5 ->. cbn [wp]. intros path pcr. cbn [execs read_log pcr8].
  rewrite elem_of_cons, H5, He. intros [[= -> ->]|[]%elem_of_nil]. exists root, content. split; [by apply H6|congruence].
Qed.

Lemma wp_measured_pivot text target root w :
  so_far (early_measurements text) w →
  wp (tpm_step text)
    (measure_init_binary root (init_path target);* helper Plymouth_root_mounted;*
     helper (Plymouth_update_status "initrd-done");* set_phase 6;* pivot_to_root target) w
    (λ w' _, init_measured text w').
Proof.
  intros [Hp He]. unfold measure_init_binary. apply wp_bind, wp_bind, wp_op. intros content w1 ->. cbn [prog_bind].
  set (w1 := {| pcr8 := pcr8 w; read_log := (root +:+ init_path target, content) :: read_log w; execs := execs w |}).
  assert (Hk : ∀ w2, execs w2 = [] → pcr8 w2 = measured (early_measurements text ++ match content with Ok data => [init_measurement data] | Err _ => [] end) →
    (root +:+ init_path target, content) ∈ read_log w2 →
    wp (tpm_step text) (helper Plymouth_root_mounted;* helper (Plymouth_update_status "initrd-done");* set_phase 6;* pivot_to_root target) w2
      (λ w' _, init_measured text w')).
  { intros w2 He2 Hp2 Hin. apply wp_op. intros [] w3 ->. apply wp_op. intros [] w3 ->. apply wp_bind. unfold set_phase, measure_phase.
    apply wp_measure. apply (wp_pivot text target _ root content); [done| |done]. cbn [pcr8 extended]. rewrite Hp2, <- measured_snoc.
    unfold boot_measurements. rewrite <- app_assoc. reflexivity. }
  destruct content as [data|e].
  - apply wp_measure. apply Hk; [done| |by left]. cbn [pcr8 extended w1]. rewrite Hp, <- measured_snoc. reflexivity.
  - cbn [wp]. apply Hk; [done| |by left]. cbn [pcr8 w1]. rewrite app_nil_r. done.
Qed.

Lemma keeps_after text (switched : result string unit) :
  keeps (tpm_step text) (init_measured text)
    (boot* _ := shell_if (negb (is_ok switched)) "switch_root" in
     boot* _ := run (helper Plymouth_handoff_to_init;* set_phase 7) in
     (shell "execv returned unexpectedly" : boot unit)).
Proof.
  assert (Hh : ∀ {A} (p : prog RamOp A), harmless text p → keeps (tpm_step text) (init_measured text) p).
  { intros A p Hp w Hw. apply wp_harmless; [done|]. intros w' _ Hs. by eapply init_measured_same. }
  unfold boot_bind. apply keeps_bind; [apply Hh; harmless_here|]. intros [[[]|e]|]; [|apply keeps_ret..].
  apply keeps_bind; [|intros [[[]|e]|]; apply keeps_ret].
  unfold run. apply keeps_bind; [|intros; apply keeps_ret]. apply keeps_bind; [apply Hh; harmless_here|]. intros [] w Hw.
  by apply wp_measure.
Qed.

Lemma wp_switch text c root w :
  so_far (early_measurements text) w →
  wp (tpm_step text) (switch_phase c root) w (λ w' _, init_measured text w').
Proof.
  intros Hw. unfold switch_phase, boot_bind at 1. apply wp_bind. unfold run at 1. apply wp_bind.
  apply wp_harmless.
  { apply harmless_only. unfold boot_target, rescue_boot_target, discover_boot_target, first_mount_point, find_init_binary. repeat only_step. }
  intros w1 target H1. cbn [wp]. pose proof (so_far_same _ _ _ H1 Hw) as Hw1. clear H1 Hw w.
  unfold boot_bind at 1. apply wp_bind. apply wp_harmless; [harmless_here|]. intros w2 r H2.
  pose proof (so_far_same _ _ _ H2 Hw1) as Hw2. clear H2 Hw1 w1. destruct r as [[[]|e]|]; [|by apply init_measured_none, Hw2..].
  unfold boot_bind at 1. apply wp_bind. unfold run at 1. apply wp_bind.
  apply (wp_mono _ _ _ (λ w' _, init_measured text w')).
  { intros w3 a Hm. cbn [wp]. revert w3 Hm. apply keeps_after. }
  by apply wp_measured_pivot.
Qed.

Lemma stage_then text {A B} (p : boot A) (k : A → boot B) l ms w :
  stage text p l → so_far ms w →
  (∀ a w', so_far (ms ++ l) w' → wp (tpm_step text) (k a) w' (λ w' _, init_measured text w')) →
  wp (tpm_step text) (boot_bind p k) w (λ w' _, init_measured text w').
Proof.
  intros Hp Hw Hk. unfold boot_bind. apply wp_bind. eapply wp_mono; [|by apply Hp].
  intros w' [[a|e]|] H; simpl; [by apply Hk|by apply init_measured_none..].
Qed.

(** C15: With a TPM, whatever else the system answers, PCR 8 starts at zero and holds, at the
    moment a program is executed as init, the hash chain of exactly the phases up to the switch,
    the kernel's command line, the overlay mode, and the contents of a file that ends in the
    path that is executed, read just before; only a file that could not be read is left out. *)
Theorem init_is_measured (text : string) (fuel : nat) :
  wp (tpm_step text) (main fuel) {| pcr8 := replicate 32 0; read_log := []; execs := [] |}
    (λ w _, init_measured text w).
Proof.
  unfold main.
  apply (stage_then text _ _ _ [] _ (stage_early text)); [done|]. intros _ w1 H1.
  eapply (stage_then text _ _ _ _ _ (stage_cmdline text)); [exact H1|]. intros c w2 H2.
  eapply (stage_then text _ _ _ _ _ (stage_detect text c)); [exact H2|]. intros rd w3 H3.
  eapply (stage_then text _ _ _ _ _ (stage_mount text fuel c rd)); [exact H3|]. intros zairoot w4 H4.
  eapply (stage_then text _ _ _ _ _ (stage_overlay text zairoot)); [exact H4|]. intros root w5 H5.
  by apply wp_switch.
Qed.

(** ** A boot that gets there *)

Definition os_default {X} (e : Os X) : X.
Proof. destruct e; first [exact tt | exact true | exact 3 | exact (Ok tt) | exact (Ok 3) | exact None | exact "" | exact (Ok "")
  | exact (Ok []) | exact (Ok None) | exact (inr "") | exact (Ok (Some 0)) | exact (Ok (3, 3))]. Defined.

Definition ram_default {X} (e : RamOp X) : X.
Proof.
  destruct e as [X e|X h| | | | | | | | | | | | | | | | | | | | | | | | |]; [exact (os_default e)|destruct h|..];
    first [exact tt | exact true | exact 3 | exact (Ok tt) | exact (Ok 3) | exact None | exact "" | exact (Ok "")
    | exact [] | exact (Ok []) | exact (Ok OtherKind) | exact (Ok None) | exact {| errno := 2; strerror := "" |} | exact (Ok (Some 0))].
Defined.

Definition boot_answer (text : string) {X} (e : RamOp X) : X :=
  match e in RamOp X return X → X with
  | ROs e => match e in Os X return X → X with
             | ReadToString path => λ d, if String.eqb path "/proc/cmdline" then Ok text else d
             | _ => λ d, d
             end
  | WriteFd _ cmd => λ _, Z.of_nat (length cmd)
  | ReadFile _ => λ _, Ok [1; 2; 3]
  | _ => λ d, d
  end (ram_default e).

Definition boot_world (text : string) : ∀ X, RamOp X → TpmWorld → X * TpmWorld := λ X e w,
  let x := boot_answer text e in
  (x, match e in RamOp X return X → TpmWorld with
      | WriteFd _ cmd => λ _, tpm_write w cmd
      | ReadFile path => λ x, {| pcr8 := pcr8 w; read_log := (path, x) :: read_log w; execs := execs w |}
      | Execv path _ => λ _, {| pcr8 := pcr8 w; read_log := read_log w; execs := (path, pcr8 w) :: execs w |}
      | _ => λ _, w
      end x).

Lemma boot_world_step text X (e : RamOp X) w : tpm_step text X e w (boot_world text X e w).1 (boot_world text X e w).2.
Proof. destruct e; simpl; try done. destruct e; simpl; try done. split; [|done]. by intros ->. Qed.

Example boot_reaches_init :
  let text := "root=/dev/sda2 quiet" in
  let r := exec (boot_world text) (main 10) {| pcr8 := replicate 32 0; read_log := []; execs := [] |} in
  r.1 = Some (inr (EmergencyShell "switch_root")) ∧
  read_log r.2 = [("/new_root/overlayer/syshub/engine/quantra", Ok [1; 2; 3])] ∧
  execs r.2 = [("/overlayer/syshub/engine/quantra", measured (boot_measurements text (Ok [1; 2; 3])))].
Proof. vm_compute. repeat split; reflexivity. Qed.
