(* ===== verification/RamWait.v ===== *)
(** * Waiting for the root, and roots that cannot be mounted

    The wait of [find_root] against devices that appear while it runs, and what becomes of
    encrypted and network roots in [mount_root_impl]. *)

From Stdlib Require Import ZArith Ascii.
From stdpp Require Import base tactics numbers list strings sets.
From S2P Require Import Prelude RustStr Types Effects Os Sha256 RamCmdline Ramdisk RamVerity RamTpm RamRoot RamBoot RamOnly.

Local Open Scope string_scope.
Local Open Scope list_scope.
Local Open Scope Z_scope.
Local Open Scope prog_scope.

(** ** The wait *)

(** [present d t] says whether the node [d] is there at time [t]; looking takes no time, a
    sleep lasts at least as long as asked. *)
Definition os_devices_step (present : string → Z → bool) {X} (e : Os X) : Z → X → Z → Prop :=
  match e in Os X return Z → X → Z → Prop with
  | PathExists p => λ t x t', x = present p t ∧ t' = t
  | Sleep d => λ t _ t', t + d ≤ t'
  | _ => λ t _ t', t ≤ t'
  end.

Definition devices_step (present : string → Z → bool) : ∀ X, RamOp X → Z → X → Z → Prop := λ X e,
  match e in RamOp X return Z → X → Z → Prop with
  | ROs e => os_devices_step present e
  | _ => λ t _ t', t ≤ t'
  end.

(** The same on an idle machine, where a sleep lasts exactly as long as asked. *)
Definition prompt_step (present : string → Z → bool) : ∀ X, RamOp X → Z → X → Z → Prop := λ X e,
  match e in RamOp X return Z → X → Z → Prop with
  | ROs (Sleep d) => λ t _ t', t' = t + d
  | ROs e => os_devices_step present e
  | _ => λ t _ t', t ≤ t'
  end.

(** ** What is asked for *)

(** What a word of the command line asks for; [rootwait=0] means the same as [rootwait], and
    an argument that is no number the same as none. *)
Inductive Asked := Wait_default | Wait_for (n : Z) | Wait_indefinitely.

Definition asked_by (w : string) : option Asked :=
  if decide (w = "rootwait") then Some Wait_indefinitely
  else
    v ← strip_prefix "rootwait=" w;
    Some match parse_uint u32_max v with
         | Some n => if decide (n = 0) then Wait_indefinitely else Wait_for n
         | None => Wait_default
         end.

(** The last word that says something counts. *)
Definition asked_wait (text : string) : Asked :=
  default Wait_default (last (omap asked_by (split_whitespace text))).

(** The documented wait in nanoseconds: N × 50 ms, one second by default, for ever. *)
Definition documented_wait (a : Asked) : option Z :=
  match a with
  | Wait_default => Some 1000000000
  | Wait_for n => Some (n * 50000000)
  | Wait_indefinitely => None
  end.

(** How long the root is waited for: there is no sleep after the last look, and for ever is
    4294967295 looks. *)
Definition kept_wait (a : Asked) : Z :=
  match documented_wait a with
  | Some d => d - 50000000
  | None => 214748364700000000
  end.

Section wait.
Context (present : string → Z → bool).

Lemma probe_appears path t1 n attempt retries t :
  (∀ t, t1 ≤ t → present path t = true) → (0 < n)%nat → attempt + Z.of_nat n = retries →
  t1 ≤ t + (Z.of_nat n - 1) * 50000000 →
  wp (devices_step present) (probe_device n attempt retries path) t (λ _ r, r = true).
Proof.
  intros Hp. revert attempt t. induction n as [|n IH]; intros attempt t Hn Hr Ht; [lia|]. cbn [probe_device].
  apply wp_op. intros b t' [-> ->]. destruct (present path t) eqn:E; [done|].
  destruct (decide (t1 ≤ t)) as [H|H]; [by rewrite (Hp t H) in E|].
  assert (n ≠ 0%nat) by (intros ->; lia).
  rewrite (proj2 (Z.ltb_lt attempt (retries - 1))) by lia. apply wp_op. intros [] t' Hs. cbn in Hs.
  apply IH; [lia|lia|]. unfold from_millis, RETRY_MS in Hs. lia.
Qed.

(** The device is given up only after a look, at the end of the wait or later, that missed it. *)
Lemma probe_gives_up path n attempt retries t :
  (0 < n)%nat → attempt + Z.of_nat n = retries →
  wp (devices_step present) (probe_device n attempt retries path) t (λ t' r,
    present path t' = r ∧ t ≤ t' ∧ (r = false → t + (Z.of_nat n - 1) * 50000000 ≤ t')).
Proof.
  revert attempt t. induction n as [|n IH]; intros attempt t Hn Hr; cbn [probe_device]; [lia|].
  apply wp_op. intros b t' [-> ->]. destruct (present path t) eqn:E; [by split_and!|].
  destruct (decide (n = 0%nat)) as [->|Hne].
  { rewrite (proj2 (Z.ltb_ge attempt (retries - 1))) by lia. split_and!; [done..|]. simpl. lia. }
  rewrite (proj2 (Z.ltb_lt attempt (retries - 1))) by lia. apply wp_op. intros [] t' Hs. cbn in Hs.
  unfold from_millis, RETRY_MS in Hs. eapply wp_mono; [|apply IH; lia].
  intros t'' r (H1 & H2 & H3). split_and!; [done|lia|]. intros Hf. specialize (H3 Hf). lia.
Qed.

(** On an idle machine the last look comes exactly then. *)
Lemma probe_prompt path n attempt retries t :
  (0 < n)%nat → attempt + Z.of_nat n = retries →
  wp (prompt_step present) (probe_device n attempt retries path) t (λ t' r,
    present path t' = r ∧ t ≤ t' ≤ t + (Z.of_nat n - 1) * 50000000 ∧
    (r = false → t' = t + (Z.of_nat n - 1) * 50000000)).
Proof.
  revert attempt t. induction n as [|n IH]; intros attempt t Hn Hr; cbn [probe_device]; [lia|].
  apply wp_op. intros b t' [-> ->]. destruct (present path t) eqn:E; [split_and!; [done|lia|lia|done]|].
  destruct (decide (n = 0%nat)) as [->|Hne].
  { rewrite (proj2 (Z.ltb_ge attempt (retries - 1))) by lia. split_and!; [done|lia|simpl; lia|simpl; lia]. }
  rewrite (proj2 (Z.ltb_lt attempt (retries - 1))) by lia. apply wp_op. intros [] t' Hs. cbn in Hs.
  unfold from_millis, RETRY_MS in Hs. subst t'. eapply wp_mono; [|apply IH; lia].
  intros t'' r (H1 & H2 & H3). split_and!; [done|lia|lia|]. intros Hf. specialize (H3 Hf). lia.
Qed.

(** The first of [l] that is found, at a time after [t]; the ones before it were looked for in vain. *)
Definition found_late (t : Z) (l : list string) (r : option string) : Prop :=
  match r with
  | Some d => d ∈ l ∧ ∃ t', t ≤ t' ∧ present d t' = true
  | None => ∀ d, d ∈ l → ∃ t', t ≤ t' ∧ present d t' = false
  end.

Lemma find_existing_found t l :
  wp (devices_step present) (find_existing l) t (λ t' r, t' = t ∧ found_late t l r).
Proof.
  induction l as [|d l IH]; cbn [find_existing]; [split; [done|]; by intros d ?%elem_of_nil|].
  apply wp_op. intros b t' [-> ->]. destruct (present d t) eqn:E.
  { split; [done|]. split; [by left|]. by exists t. }
  eapply wp_mono; [|exact IH]. intros t' [x|] [-> H]; (split; [done|]); simpl in *.
  - destruct H as [H1 H2]. split; [by right|done].
  - intros d' [->|Hd]%elem_of_cons; [by exists t|by apply H].
Qed.

Lemma find_existing_prompt t l :
  wp (prompt_step present) (find_existing l) t (λ _ r, ∀ d, r = Some d → d ∈ l).
Proof.
  induction l as [|d l IH]; cbn [find_existing]; [done|]. apply wp_op. intros b t' [-> ->].
  destruct (present d t); [intros ? [= <-]; by left|]. eapply wp_mono; [|exact IH].
  intros t' r H x Hx. right. by apply H.
Qed.
End wait.

Lemma max_retries_pos text : 0 < max_retries (parse_text text) ≤ u32_max.
Proof.
  unfold max_retries. destruct (rootwait (parse_text text)) as [n|] eqn:E; [|unfold u32_max; lia].
  destruct (Z.eqb_spec n 0); [unfold u32_max; lia|]. 
  assert (H : 0 ≤ n ≤ u32_max); [|lia]. revert E. unfold parse_text. cbn [rootwait]. rewrite parse_tokens_spec.
  cbn [vars_spec v_rootwait]. generalize (split_whitespace text). intros l. unfold last_of. intros E.
  destruct (last (omap rootwait_token l)) as [o|] eqn:El; [|done]. simpl in E. subst o.
  apply last_Some_elem_of in El. apply list_elem_of_omap in El as (t & _ & Ht). unfold rootwait_token in Ht.
  destruct (t =? "rootwait")%string; [by simplify_eq|]. destruct (strip_prefix "rootwait=" t) as [v|]; [|done].
  injection Ht as Ht. by apply parse_uint_range in Ht.
Qed.

(** What a value of [rootwait] stands for. *)
Definition asked_value (o : option Z) : Asked :=
  match o with
  | Some n => if decide (n = 0) then Wait_indefinitely else Wait_for n
  | None => Wait_default
  end.

Lemma asked_by_words (l : list string) : omap asked_by l = asked_value <$> omap rootwait_token l.
Proof.
  assert (Hw : ∀ w, asked_by w = asked_value <$> rootwait_token w).
  { intros w. unfold asked_by, rootwait_token.
    destruct (String.eqb_spec w "rootwait") as [->|Hw]; [done|]. rewrite decide_False by done.
    by destruct (strip_prefix "rootwait=" w). }
  induction l as [|w l IH]; [done|]. cbn. rewrite IH, Hw. by destruct (rootwait_token w).
Qed.

(** The number of looks is what the words ask for. *)
Lemma looks_asked text :
  (max_retries (parse_text text) - 1) * 50000000 = kept_wait (asked_wait text).
Proof.
  unfold max_retries, asked_wait. replace (rootwait (parse_text text)) with
    (default None (last_of rootwait_token (split_whitespace text)) : option Z).
  2: { unfold parse_text. cbn [rootwait]. by rewrite parse_tokens_spec. }
  generalize (split_whitespace text). intros l. unfold last_of.
  rewrite asked_by_words, fmap_last. destruct (last (omap rootwait_token l)) as [[n|]|]; cbn.
  - destruct (Z.eqb_spec n 0) as [->|Hn]; [by vm_compute|].
    rewrite decide_False by done. cbn. lia.
  - done.
  - done.
Qed.

(** ** Roots that are not plain devices *)

(** A disk that holds a LUKS container: its first bytes are the magic, and it is no file system. *)
Definition luks_disk_step (device : string) : ∀ X, RamOp X → unit → X → unit → Prop := λ X e,
  match e in RamOp X return unit → X → unit → Prop with
  | ReadExact _ _ => λ _ x _, x = Ok LUKS_MAGIC ∨ ∃ e, x = Err e
  | Mount src _ _ _ _ => λ _ x _, src = Some device → is_ok x = false
  | _ => λ _ _ _, True
  end.

(** No local file has the name of a network root. *)
Definition no_file_step (device : string) : ∀ X, RamOp X → unit → X → unit → Prop := λ X e,
  match e in RamOp X return unit → X → unit → Prop with
  | OpenRead path => λ _ x _, path = device → is_ok x = false
  | _ => λ _ _ _, True
  end.

Lemma fails_mount_first device target flags l :
  wp (luks_disk_step device) (mount_first device target flags l) tt (λ _ r, r = false).
Proof.
  induction l as [|f l IH]; cbn [mount_first]; [done|]. apply wp_op. intros r [] Hr. simpl in Hr.
  specialize (Hr eq_refl). destruct r; [done|]. apply IH.
Qed.

Lemma fails_candidates device explicit target l :
  wp (luks_disk_step device) (try_mount_root_candidates device explicit target l) tt (λ _ r, r = false).
Proof.
  unfold try_mount_root_candidates. apply wp_bind. eapply wp_mono; [|apply fails_mount_first]. intros [] r ->.
  apply wp_op. intros r [] Hr. simpl in *. by apply Hr.
Qed.

(** The name of an opened mapping. *)
Lemma open_luks_name device d nm key :
  wp (luks_disk_step device) (open_luks_with_passphrase d nm key) tt (λ _ r, ∀ m, r = Ok m → m = "/dev/mapper/" +:+ nm).
Proof.
  unfold open_luks_with_passphrase. apply wp_try, wp_true. intros [] [cs|e]; [|done].
  apply wp_try, wp_true. intros [] [child|e]; [|done]. apply wp_op. intros [] [] _.
  apply wp_try, wp_true. intros [] [st|e]; [|done]. cbn [wp]. intros m. case_bool_decide; congruence.
Qed.

Lemma unlock_name device fuel c :
  wp (luks_disk_step device) (unlock_device fuel device c) tt
    (λ _ r, ∀ m, r = Some (Ok m) → ∃ nm, luks_name c = Some nm ∧ m = "/dev/mapper/" +:+ nm).
Proof.
  unfold unlock_device. apply wp_bind.
  apply (wp_mono _ _ _ (λ _ r, r = Ok true ∨ ∃ e, r = Err e)).
  { intros [] r [->|[e ->]]; [|done]. destruct (luks_name c) as [nm|]; [|done]. unfold open_luks_device.
    assert (H : ∀ key, wp (luks_disk_step device) (some_ret (open_luks_with_passphrase device nm key)) tt
      (λ _ r, ∀ m, r = Some (Ok m) → ∃ nm', Some nm = Some nm' ∧ m = "/dev/mapper/" +:+ nm')).
    { intros key. unfold some_ret. apply wp_bind. eapply wp_mono; [|apply open_luks_name]. intros [] r Hr m [= ->].
      exists nm. split; [done|]. by apply Hr. }
    do 2 (apply wp_bind, wp_true; intros [] ?). apply wp_bind, wp_true. intros [] [key|]; [apply H|].
    apply wp_bind, wp_true. intros [] [key|]; [apply H|]. apply wp_bind, wp_true. intros [] [[key|]|]; [apply H|done|done]. }
  unfold is_luks_device. apply wp_try, wp_true. intros [] [fd|e]; [|right; by exists e].
  apply wp_try. unfold with_fd. apply wp_bind. unfold or_err. apply wp_bind, wp_op. intros r [] Hr. simpl in Hr.
  destruct Hr as [->|[e ->]]; intros [] [] _; cbn.
  - by left.
  - right. by eexists.
Qed.

Lemma mapper_partition nm : contains ":" nm = false → device_type ("/dev/mapper/" +:+ nm) = PARTITION.
Proof. intros H. unfold device_type. assert (contains ":" ("/dev/mapper/" +:+ nm) = false) as -> by exact H. reflexivity. Qed.

(** ** What is shown *)


(** A disk that is found after 150 ms, and one after 175 ms, within the documented 200 ms. *)
Definition late_disk (ms : Z) (d : string) (t : Z) : bool :=
  String.eqb d "/dev/disk/by-label/zai" && (from_millis ms <=? t).


(** C32: A root on LUKS is never mounted unless [rootfstype=btrfs] is given: the mapping is
    opened, but it is the encrypted device itself that every mount names.  A network root is
    never mounted either: its name is opened as a local file first.  Both boots end in the
    emergency shell (or wait for the passphrase for ever). *)
Theorem luks_and_nfs_roots_fail (fuel : nat) (c : Cmdline) (device target : string) :
  (root_fstype c ≠ Some "btrfs" → (∀ nm, luks_name c = Some nm → contains ":" nm = false) →
   wp (luks_disk_step device) (mount_root_at fuel device c target) tt
     (λ _ r, r = None ∨ r = Some (inr (EmergencyShell "root mount")))) ∧
  wp (no_file_step device) (mount_root_at fuel device c target) tt
    (λ _ r, r = Some (inr (EmergencyShell "root mount"))).
Proof.
  split.
  - intros Hf Hnm. unfold mount_root_at. apply wp_bind. apply (wp_mono _ _ _ (λ _ r, ∀ u, r ≠ Some (Ok u))).
    { intros [] [[u|e]|] H; [by destruct (H u)|by right|by left]. }
    unfold mount_root_impl. apply wp_op. intros [[]|e] [] _; [|done]. cbn [fuel_bind]. unfold fuel_bind. apply wp_bind.
    eapply wp_mono; [|apply unlock_name]. intros [] [[m|e]|] Hm; [|done|done].
    destruct (Hm m eq_refl) as (nm & Hn & ->). unfold some_ret. apply wp_bind. unfold mount_by_type.
    rewrite mapper_partition by (by apply Hnm). rewrite bool_decide_eq_false_2 by done. apply wp_bind.
    eapply wp_mono; [|apply fails_candidates]. by intros [] r ->.
  - unfold mount_root_at. apply wp_bind. apply (wp_mono _ _ _ (λ _ r, ∃ e, r = Some (Err e))); [by intros [] r [e ->]|].
    unfold mount_root_impl. apply wp_op. intros [[]|e] [] _; [|by eexists]. unfold fuel_bind. apply wp_bind.
    unfold unlock_device. apply wp_bind. unfold is_luks_device. apply wp_try. unfold or_err. apply wp_bind, wp_op.
    intros r [] Hr. simpl in Hr. specialize (Hr eq_refl). destruct r; [done|]. cbn. by eexists.
Qed.

Lemma luks_and_nfs_roots_fail_witness :
  let c := parse_text "root=/dev/sda2 luks=cryptroot" in
  wp (luks_disk_step "/dev/sda2") (mount_root_at 100 "/dev/sda2" c "/zairoot") tt
     (λ _ r, r = None ∨ r = Some (inr (EmergencyShell "root mount"))) ∧
  wp (no_file_step "10.0.0.1:/export") (mount_root_at 100 "10.0.0.1:/export" c "/zairoot") tt
     (λ _ r, r = Some (inr (EmergencyShell "root mount"))).
Proof.
  split; apply luks_and_nfs_roots_fail; [discriminate|]. by intros nm [= <-].
Defined.
